(* ===== verification/_CoqProject ===== *)
-Q . S2P
Prelude.v
GoLib.v
GoPath.v
Cert.v
JsonScan.v
JsonGrammar.v
JsonSound.v
Config.v
GoTime.v
Protocol.v
Serialize.v
Logic.v
Ring.v
Limiter.v
Bucket.v
GoJson.v
Users.v
Store.v
Models.v
World.v
Hub.v
Sync.v
HubSpec.v
SyncSpec.v
ScanSpec.v
RecoverySpec.v
JobQueue.v
ClipSteps.v
HubConc.v
Crypto.v
AtomicFile.v
Token.v
Argon2.v
Login.v
Lock.v
LockRace.v
Cli.v
CliSpec.v
Logging.v
Hosting.v
Watcher.v
WatchEvents.v
Startup.v
