(* ===== verification/Prelude.v ===== *)
(** * TextCascade server: verification library

    TextCascade is a clipboard server: clients log in over HTTPS, open a web socket with the token they
    got, and every text one of them submits is given the next version of the user and sent to the user's
    other connections. This library models the Go program under [src/internal] and [src/cmd] and proves what makes
    its parts correct. This root file holds the shared vocabulary (bytes, machine integers, results).

    ** The program's parts and the files that model them

    - [GoLib], [GoPath], [GoTime], [GoJson], [Crypto]: the parts of Go's standard library the source calls (strconv,
      strings, unicode/utf8, utf16, path/filepath, time, encoding/json's string encoder, base64, SHA-256, HMAC),
      executable and with the lemmas the rest needs. [Bucket] uses Rocq's binary64 numbers for Go's [float64].
    - [JsonScan] (protocol/jsonscan.go): the strict JSON scanner, [Decode]. [JsonGrammar] is a declarative
      grammar of JSON texts that it accepts, and [JsonSound] shows that it accepts nothing else.
    - [Protocol] (protocol/protocol.go): client messages, validation, time stamps. [Serialize]
      (protocol/serialize.go): every message the server writes.
    - [Config] (config/config.go): defaults, TOML and environment overlays, validation.
    - [Logic], [Ring], [Limiter], [Bucket] (core/*.go): snapshot election, the ring of remembered clip ids,
      the login limiter, the clip token bucket.
    - [Users] (users/users.go) and [Store] (state/store.go): the two files the server keeps. [Store] also has
      the interleavings of savers and flushers as a step relation, and the class [StateDecoder] of what it needs
      of its JSON decoder.
    - [Cli] (cli/cli.go): the administration commands on a shell of files, input and output, behind the lock of
      [Lock] (cli/lock.go); [CliSpec]: the commands refine edits of an abstract map of accounts.
    - [Cert] (hosting/cert.go): the certificate loader over the PEM, X.509 and PKCS#12 libraries.
    - [Startup] (cmd/server/main.go, hosting/run.go): from the command line to a serving process, its state file,
      its end ([Run_end]: what still runs while the server drains, between the shut-down and the stop of the store, and
      after it is an argument) and the next start.
    - [Models] (models/context.go): connections and their state bags. [World]: the shared store of hubs and
      connections, by location, and the state-and-panic monad of the server's operations.
    - [Hub] (hub/hub.go, registry.go, coordinator.go): the hub's operations, written against the class
      [Coordinator] as the Go code is against its interface. [Sync] (sync/server.go) is the instance, and
      the server's own operations.
    - [HubSpec] states the invariant [world_ok] and the class [SafeCoordinator] of what a hub needs of its
      coordinator; [SyncSpec] discharges it and closes the invariant over all runs ([reach]); [ScanSpec] is the exact
      effect of a heart-beat scan, [RecoverySpec] that of closing the recovery window with clips waiting, against a
      pure reference ([replay]) that says what becomes of each clip.
    - Below the granularity of whole operations: [ClipSteps] cuts [Hub.ApplyClip] into its critical sections and shows
      that they compose to it; [HubConc] interleaves them with the readers, the replay of the recovery window and
      anything else the server does to a hub; [JobQueue] is the job queue, its condition variable and the goroutine
      of the user loop; [AtomicFile] the system calls by which [Store] and [Users] replace their files, with failures
      and crashes; [LockRace] the processes that compete for the lock file, over any advisory lock (class [Flock]).
    - [Token], [Argon2], [Login] (auth/*.go), [Logging] (logging/security.go), [Hosting]
      (hosting/connection.go, endpoint.go, scanner.go and the reload of watcher.go: read and send loops, with the choice
      a [select] has and the failures of writes as arguments); [Watcher]: the debouncing
      of that reload as a transition system; [WatchEvents]: its start and the loops that feed it.

    A client frame goes [Hosting.read_iteration] -> [Protocol.ParseClientMessage] -> [Hub.ClassifyClip] and the
    job queue -> [Hub.processJob] -> [Hub.ApplyClip], which asks [Ring] and [Bucket], takes a version from
    [Logic.NextVersion], saves it in the version store and enqueues [Serialize] texts on the connections.

    ** How state and effects are modelled

    Pointers to hubs and connections are locations of one [World], so aliasing is as in Go. An operation is a
    function from a world to a result and a world; [Err] is a panic, which the user loop recovers from as the
    code does. Each operation under a mutex is atomic; in [Sync] and [Hosting] whole events are atomic, and
    what is interleaved is events; [HubConc], [JobQueue], [Store], [Watcher] and [LockRace] interleave single critical
    sections, as step relations with an executable step function where the steps have labels. Integers are Z with Go's wrap-around or range checks written out where the
    code can leave the range. Maps whose iteration order Go leaves open are sorted where the code sorts them;
    where it does not, the order of [map_to_list] stands for it and no theorem depends on it.

    Time: the clock (clock/clock.go) is the field [clk] of the world. [nowUTC] reads it where the code asks the clock
    within an operation ([AddConnection], [RemoveConnection], [RemoveIfEmpty]); operations that get [now] from their caller
    have it as an argument. The events [EvClock] and [HClock] move it, to any instant, so runs have joins before and after
    the recovery window, idle hubs and a clock that is set back. Within one event it stands still.

    Recursion depth: [JsonScan.Decode] gets the length of the frame plus one as the depth of its recursion and
    [decode_total] shows it is never used up; the user loop runs once per job queued.

    ** What the theorems show

    Invariants of every run ([SyncSpec.server_invariant], [versions_monotone], [Hosting.host_invariant]); the
    exact effect of clips, retransmissions, recovery and the three ways a connection ends ([HubSpec], [RecoverySpec],
    [SyncSpec]); what survives the
    interleaving of a hub's goroutines: no clip lost or applied twice, versions without gap or repetition once the
    replay is over, the store ahead of every version, and how the replay makes versions repeat and go back ([HubConc]; this
    is why [versions_monotone] is about whole events); every job taken by the one user loop ([JobQueue]); durability of versions ([Store]), whole files
    after any failure or crash ([AtomicFile]), and survival of stops and restarts ([Startup]); authentication: what tokens and
    logins grant, for how long, and what refusals reveal ([Token], [Login], [Argon2], [Hosting.sync_gate],
    [Logging]); totality of the scanner and that it decides exactly the grammar, the messages accepted and rejected
    ([JsonScan], [JsonSound], [Protocol]); round trips of every file and message written ([Serialize], [Users], [Store]);
    the administration commands ([CliSpec]); what certificate files load ([Cert]); exact bounds of the
    limiter, bucket and ring; delivery of file changes, as inevitable under every schedule
    ([Watcher], [WatchEvents]); what the lock excludes ([LockRace]).

    ** Hypotheses that stand for code outside the repository

    Argon2's key derivation, the random salt, the TOML and encoding/json decoders, the PEM, X.509 and PKCS#12
    decoders, the advisory locks, the file system's answers and the web-socket library's results are
    arguments; a theorem that needs something of them names it. That the file-system watcher loses no event is
    a hypothesis of the one statement that uses it.

    ** Not modelled

    TLS and HTTP serving and the routing of requests (net/http), and the clock that tests set. The flush ticker and the
    file-system notifications are the arbitrary interleaving of the models' steps. Sleeps take no step. In [HubConc] a panic ends the run, and
    a send with the closing of the connection that follows a full queue is one section. The runs of [reach] and of
    [Startup] keep whole events atomic. *)
From Stdlib Require Export ZArith Lia Strings.Byte.
From stdpp Require Export base tactics functions list gmap strings option.

#[global] Open Scope Z_scope.

(** ** Bytes and Go strings

    A Go [string] and a Go [[]byte] are both a finite sequence of bytes; both are
    [str] here, so that [len] counts bytes as Go's [len] does. *)

Abbreviation byte := Byte.byte.

#[global] Instance byte_eq_dec : EqDecision byte := Byte.byte_eq_dec.

#[global] Program Instance byte_countable : Countable byte :=
  inj_countable Byte.to_N Byte.of_N _.
Next Obligation. intros b; apply Byte.of_to_N. Qed.

Definition str : Type := list byte.

#[global] Instance str_eq_dec : EqDecision str := _.
#[global] Instance str_countable : Countable str := _.
#[global] Instance str_inhabited : Inhabited str := populate [].

(** String literals: [lit] is the identity, it lets the printer show a literal. *)
Definition lit (s : list byte) : str := s.

Inductive StrLit := MkLit (s : list byte).
Definition parse_lit (s : list byte) : StrLit := MkLit s.
Definition print_lit (s : StrLit) : list byte := match s with MkLit l => l end.

Declare Scope go_scope.
Delimit Scope go_scope with go.
String Notation str parse_lit print_lit (via StrLit mapping [lit => MkLit]) : go_scope.
#[global] Open Scope go_scope.

(** In JSON templates a back quote stands for the double quote of the source's
    raw string literals. *)
Definition jq (s : str) : str :=
  map (fun c => if bool_decide (c = "`"%byte) then x22 else c) s.

(** Comparison of a string with the empty one, and with another. *)
Definition is_empty (s : str) : bool := match s with [] => true | _ => false end.
Definition streq (a b : str) : bool := bool_decide (a = b).

(** [len s]: Go's [len] of a string or a slice, an [int]. *)
Definition len {A} (l : list A) : Z := Z.of_nat (length l).

(** The value of a byte as an unsigned 8-bit integer, and [byte(v)]. *)
Definition bval (b : byte) : Z := Z.of_N (Byte.to_N b).
Definition byte_of (v : Z) : byte := default x00 (Byte.of_N (Z.to_N (v mod 256))).

(** ** Machine integers: values are [Z], the wrap-around is written out. *)
Definition MaxUint64 : Z := 18446744073709551615.
Definition MaxInt64 : Z := 9223372036854775807.
Definition MinInt64 : Z := -9223372036854775808.
Definition wrap64 (v : Z) : Z := (v + 2 ^ 63) mod 2 ^ 64 - 2 ^ 63.
Definition in_int64 (v : Z) : Prop := MinInt64 <= v <= MaxInt64.
Definition in_uint64 (v : Z) : Prop := 0 <= v <= MaxUint64.

(** ** Fallible computations: a value or an error, Go's [(T, error)] pair. *)
Inductive result (E A : Type) : Type :=
| Ok (a : A)
| Err (e : E).
Arguments Ok {E A} a.
Arguments Err {E A} e.

Definition rbind {E A B} (m : result E A) (k : A -> result E B) : result E B :=
  match m with Ok a => k a | Err e => Err e end.

Notation "'let?' x ':=' c 'in' k" := (rbind c (fun x => k))
  (at level 10, x pattern, c at level 200, k at level 200) : go_scope.

Definition is_ok {E A} (m : result E A) : bool :=
  match m with Ok _ => true | Err _ => false end.

Lemma rbind_Ok {E A B} (m : result E A) (k : A -> result E B) b :
  rbind m k = Ok b <-> exists a, m = Ok a /\ k a = Ok b.
Proof. destruct m; naive_solver. Qed.

Lemma rbind_Err {E A B} (m : result E A) (k : A -> result E B) e :
  rbind m k = Err e <-> m = Err e \/ exists a, m = Ok a /\ k a = Err e.
Proof. destruct m; naive_solver. Qed.

(** ** Automation *)

(** [lia] also reasons about [/] and [mod] by constants. *)
Ltac Zify.zify_post_hook ::= Z.to_euclidean_division_equations.

(** Split every [if]/[match] on a boolean or option of hypothesis [H], closing the
    branches that contradict it. *)
Ltac case_in H :=
  repeat (case_match; simplify_eq/=; try done).

(** Turn boolean tests in the context into propositions. *)
Ltac bool_to_prop :=
  repeat match goal with
  | H : _ && _ = true |- _ => apply andb_true_iff in H as [? ?]
  | H : _ || _ = false |- _ => apply orb_false_iff in H as [? ?]
  | H : negb _ = true |- _ => apply negb_true_iff in H
  | H : negb _ = false |- _ => apply negb_false_iff in H
  | H : (_ =? _) = true |- _ => apply Z.eqb_eq in H
  | H : (_ =? _) = false |- _ => apply Z.eqb_neq in H
  | H : (_ <? _) = true |- _ => apply Z.ltb_lt in H
  | H : (_ <? _) = false |- _ => apply Z.ltb_ge in H
  | H : (_ <=? _) = true |- _ => apply Z.leb_le in H
  | H : (_ <=? _) = false |- _ => apply Z.leb_gt in H
  | H : bool_decide _ = true |- _ => apply bool_decide_eq_true in H
  | H : bool_decide _ = false |- _ => apply bool_decide_eq_false in H
  end.

(** Case analysis on a byte whose 256 cases all compute. *)
Ltac all_bytes b := destruct b; try reflexivity; try discriminate; try lia.

Create HintDb go discriminated.
#[export] Hint Constants Transparent : go.

(** ** Generic lemmas *)

Lemma bval_range b : 0 <= bval b < 256.
Proof. unfold bval. pose proof (Byte.to_N_bounded b). lia. Qed.

Lemma byte_of_bval b : byte_of (bval b) = b.
Proof.
  unfold byte_of. rewrite Z.mod_small by apply bval_range.
  unfold bval. rewrite N2Z.id, Byte.of_to_N. done.
Qed.

Lemma bval_byte_of v : 0 <= v < 256 -> bval (byte_of v) = v.
Proof.
  intros Hv. unfold byte_of. rewrite Z.mod_small by done.
  destruct (Byte.of_N (Z.to_N v)) as [b|] eqn:E; simpl.
  - apply Byte.to_of_N in E. unfold bval. rewrite E. lia.
  - apply Byte.of_N_None_iff in E. lia.
Qed.

Lemma bval_inj a b : bval a = bval b -> a = b.
Proof. intros H. by rewrite <- (byte_of_bval a), <- (byte_of_bval b), H. Qed.

#[export] Hint Resolve bval_range : go.

Lemma is_empty_spec s : reflect (s = []) (is_empty s).
Proof. destruct s; by constructor. Qed.

Lemma streq_spec a b : reflect (a = b) (streq a b).
Proof. unfold streq. case_bool_decide; by constructor. Qed.

Lemma streq_refl a : streq a a = true.
Proof. by apply bool_decide_eq_true. Qed.

Lemma len_nonneg {A} (l : list A) : 0 <= len l.
Proof. unfold len; lia. Qed.

Lemma len_app {A} (l k : list A) : len (l ++ k) = len l + len k.
Proof. unfold len. rewrite length_app. lia. Qed.

Lemma len_cons {A} (a : A) (l : list A) : len (a :: l) = 1 + len l.
Proof. unfold len; simpl. lia. Qed.

Lemma len_nil {A} : len (@nil A) = 0.
Proof. reflexivity. Qed.

Create Rewrite HintDb go_len.
#[export] Hint Resolve len_nonneg : go.
#[export] Hint Rewrite @len_app @len_cons @len_nil : go_len.

(** Push [len] through literals, [++] and [::]. *)
Ltac len_norm := unfold lit in *; repeat first [rewrite len_app | rewrite len_cons | rewrite len_nil].

Lemma wrap64_id v : in_int64 v -> wrap64 v = v.
Proof. unfold in_int64, wrap64, MinInt64, MaxInt64. intros. rewrite Z.mod_small; lia. Qed.

Lemma wrap64_range v : in_int64 (wrap64 v).
Proof.
  unfold in_int64, wrap64, MinInt64, MaxInt64.
  pose proof (Z.mod_pos_bound (v + 2 ^ 63) (2 ^ 64)). lia.
Qed.

Lemma len_zero {A} (l : list A) : len l = 0 -> l = [].
Proof. destruct l; [done|]. rewrite len_cons. pose proof (len_nonneg l). lia. Qed.

(** Decide every integer comparison of the goal, discarding impossible cases. *)
Ltac zcase :=
  repeat match goal with
  | |- context [?a <=? ?b] => destruct (Z.leb_spec a b); try lia
  | |- context [?a <? ?b] => destruct (Z.ltb_spec a b); try lia
  | |- context [?a =? ?b] => destruct (Z.eqb_spec a b); try lia
  end; simpl.

(** ** Counting *)

Fixpoint count {A} (p : A -> bool) (l : list A) : Z :=
  match l with [] => 0 | x :: l' => (if p x then 1 else 0) + count p l' end.

Lemma count_nonneg {A} (p : A -> bool) l : 0 <= count p l.
Proof. induction l as [|x l IH]; simpl; [lia|]. destruct (p x); lia. Qed.

Lemma count_app {A} (p : A -> bool) l k : count p (l ++ k) = count p l + count p k.
Proof. induction l as [|x l IH]; simpl; lia. Qed.

Lemma count_le_len {A} (p : A -> bool) l : count p l <= len l.
Proof. induction l as [|x l IH]; rewrite ?len_cons; simpl; [done|]. destruct (p x); lia. Qed.

Lemma count_zero {A} (p : A -> bool) l : Forall (fun x => p x = false) l -> count p l = 0.
Proof. induction 1 as [|x l Hx Hl IH]; simpl; [done|]. rewrite Hx. lia. Qed.

#[export] Hint Resolve count_nonneg count_le_len : go.

(** ** Maps built by a loop of assignments *)

Lemma foldl_insert_lookup {A V} (key : A -> str) (val : A -> V) (l : list A) : forall (m : gmap str V) k v,
  NoDup (key <$> l) ->
  foldl (fun m x => <[key x := val x]> m) m l !! k = Some v <->
  (exists x, x ∈ l /\ key x = k /\ val x = v) \/ ((forall x, x ∈ l -> key x <> k) /\ m !! k = Some v).
Proof.
  induction l as [|y l IH]; intros m k v Hnd; cbn [foldl]; [set_solver|].
  rewrite fmap_cons in Hnd. apply list.NoDup_cons in Hnd as [Hy Hnd]. rewrite IH by done.
  assert (Hfresh : forall x, x ∈ l -> key x <> key y).
  { intros x Hx Heq. apply Hy. rewrite <- Heq. by apply list_elem_of_fmap_2. }
  destruct (decide (key y = k)) as [<-|Hne].
  - rewrite lookup_insert_eq. split.
    + intros [(x & Hx & Hk & Hv)|[Hno [= <-]]]; [exfalso; by eapply Hfresh|]. left. exists y. set_solver.
    + intros [(x & Hx & Hk & Hv)|[Hno Hm]]; [|exfalso; apply (Hno y); [constructor|done]].
      apply elem_of_cons in Hx as [->|Hx]; [|exfalso; by eapply Hfresh]. right. by rewrite Hv.
  - rewrite lookup_insert_ne by done. split.
    + intros [(x & Hx & Hk & Hv)|[Hno Hm]]; [left; exists x; set_solver|]. right. split; [|done].
      intros x [->|Hx]%elem_of_cons; auto.
    + intros [(x & Hx & Hk & Hv)|[Hno Hm]]; [|right; split; [set_solver|done]].
      apply elem_of_cons in Hx as [->|Hx]; [done|]. left. eauto.
Qed.

(** A filter only looks at the elements of its list. *)
Lemma filter_agree {A} (P Q : A -> Prop) `{!forall x, Decision (P x), !forall x, Decision (Q x)} (l : list A) :
  (forall x, x ∈ l -> P x <-> Q x) -> filter P l = filter Q l.
Proof.
  induction l as [|x l IH]; intros Hl; [done|]. rewrite !filter_cons.
  assert (Hx : P x <-> Q x) by (apply Hl; constructor). rewrite IH by (intros y Hy; apply Hl; by constructor).
  destruct (decide (P x)), (decide (Q x)); tauto || done.
Qed.

Lemma filter_keeps_all {A} (P : A -> Prop) `{!forall x, Decision (P x)} (l : list A) :
  (forall x, x ∈ l -> P x) -> filter P l = l.
Proof.
  induction l as [|x l IH]; intros Hl; [done|]. rewrite filter_cons_True by (apply Hl; constructor).
  f_equal. apply IH. intros y Hy. apply Hl. by constructor.
Qed.
