(* ===== verification/GoLib.v ===== *)
(** * Go standard-library functions the server uses on strings

    [strconv], [strings], [unicode/utf8] and [unicode/utf16], on byte strings.
    Runes are [Z] (Go's [int32]). *)
From S2P Require Import Prelude.

(** ** strconv *)

Definition digit_byte (d : Z) : byte := byte_of (48 + d).

Fixpoint digits_aux (fuel : nat) (n : Z) (acc : str) : str :=
  match fuel with
  | O => acc
  | S f => let acc' := digit_byte (n mod 10) :: acc in
           if n <? 10 then acc' else digits_aux f (n / 10) acc'
  end.

(** [strconv.FormatUint(n, 10)] for [0 <= n]; the fuel bounds the decimal digits
    by the binary ones. *)
Definition FormatUint (n : Z) : str := digits_aux (S (Z.to_nat (Z.log2 n))) n [].

(** [strconv.FormatInt(n, 10)], also [strconv.Itoa]. *)
Definition FormatInt (n : Z) : str :=
  if n <? 0 then "-"%byte :: FormatUint (- n) else FormatUint n.

Definition is_digit (c : byte) : bool := (48 <=? bval c) && (bval c <=? 57).

Fixpoint digits_value (s : str) (acc : Z) : option Z :=
  match s with
  | [] => Some acc
  | c :: s' => if is_digit c then digits_value s' (acc * 10 + (bval c - 48)) else None
  end.

(** [strconv.ParseUint(s, 10, 64)]: [None] is the error (syntax or range). *)
Definition ParseUint (s : str) : option Z :=
  match s with
  | [] => None
  | _ => match digits_value s 0 with
         | Some v => if v <=? MaxUint64 then Some v else None
         | None => None
         end
  end.

(** [strconv.ParseInt(s, 10, 64)], also [strconv.Atoi] on a 64-bit platform. *)
Definition ParseInt (s : str) : option Z :=
  match s with
  | [] => None
  | "-"%byte :: s' => match ParseUint s' with
                      | Some v => if v <=? 2 ^ 63 then Some (- v) else None
                      | None => None
                      end
  | "+"%byte :: s' => match ParseUint s' with
                      | Some v => if v <? 2 ^ 63 then Some v else None
                      | None => None
                      end
  | _ => match ParseUint s with
         | Some v => if v <? 2 ^ 63 then Some v else None
         | None => None
         end
  end.

Definition FormatBool (b : bool) : str := if b then "true" else "false".

(** ** strings *)

Fixpoint HasPrefix (s prefix : str) : bool :=
  match prefix, s with
  | [], _ => true
  | p :: prefix', c :: s' => bool_decide (p = c) && HasPrefix s' prefix'
  | _ :: _, [] => false
  end.

Definition HasSuffix (s suffix : str) : bool := HasPrefix (rev s) (rev suffix).

(** [strings.TrimSuffix] and [strings.TrimPrefix]. *)
Definition TrimSuffix (s suffix : str) : str :=
  if HasSuffix s suffix then take (length s - length suffix) s else s.
Definition TrimPrefix (s prefix : str) : str :=
  if HasPrefix s prefix then drop (length prefix) s else s.

(** [strings.IndexByte]: [None] is Go's [-1]. *)
Fixpoint IndexByte (s : str) (c : byte) : option nat :=
  match s with
  | [] => None
  | d :: s' => if bool_decide (d = c) then Some O else S <$> IndexByte s' c
  end.

(** [strings.Contains] of one byte and [strings.ContainsAny] of ASCII bytes. *)
Definition ContainsAny (s chars : str) : bool :=
  existsb (fun c => existsb (fun d => bool_decide (c = d)) chars) s.

(** [strings.Split(s, sep)] for a one-byte separator. *)
Fixpoint Split (s : str) (sep : byte) : list str :=
  match s with
  | [] => [[]]
  | c :: s' => match Split s' sep with
               | [] => [[c]]
               | w :: ws => if bool_decide (c = sep) then [] :: w :: ws else (c :: w) :: ws
               end
  end.

(** Lexicographic order on bytes: Go's [<] on strings. *)
Fixpoint str_ltb (a b : str) : bool :=
  match a, b with
  | _, [] => false
  | [], _ :: _ => true
  | c :: a', d :: b' =>
      if bval c <? bval d then true
      else if bval d <? bval c then false else str_ltb a' b'
  end.

(** ** unicode/utf8 *)

Definition RuneError : Z := 65533.

Definition is_cont (c : byte) : bool := (128 <=? bval c) && (bval c <=? 191).

Definition in_range (c : byte) (lo hi : Z) : bool := (lo <=? bval c) && (bval c <=? hi).

(** The accepted range of the second byte, by first byte (Go's [acceptRanges]). *)
Definition second_ok3 (c0 c1 : byte) : bool :=
  if bval c0 =? 224 then in_range c1 160 191
  else if bval c0 =? 237 then in_range c1 128 159
  else is_cont c1.
Definition second_ok4 (c0 c1 : byte) : bool :=
  if bval c0 =? 240 then in_range c1 144 191
  else if bval c0 =? 244 then in_range c1 128 143
  else is_cont c1.

(** [utf8.DecodeRune]: the rune and its width; a bad encoding is [(RuneError, 1)],
    the empty input [(RuneError, 0)]. *)
Definition DecodeRune (s : str) : Z * nat :=
  match s with
  | [] => (RuneError, O)
  | c0 :: r =>
    if bval c0 <? 128 then (bval c0, 1%nat)
    else if in_range c0 194 223 then
      match r with
      | c1 :: _ => if is_cont c1
                   then ((bval c0 - 192) * 64 + (bval c1 - 128), 2%nat)
                   else (RuneError, 1%nat)
      | _ => (RuneError, 1%nat)
      end
    else if in_range c0 224 239 then
      match r with
      | c1 :: c2 :: _ =>
          if second_ok3 c0 c1 && is_cont c2
          then ((bval c0 - 224) * 4096 + (bval c1 - 128) * 64 + (bval c2 - 128), 3%nat)
          else (RuneError, 1%nat)
      | _ => (RuneError, 1%nat)
      end
    else if in_range c0 240 244 then
      match r with
      | c1 :: c2 :: c3 :: _ =>
          if second_ok4 c0 c1 && is_cont c2 && is_cont c3
          then ((bval c0 - 240) * 262144 + (bval c1 - 128) * 4096
                + (bval c2 - 128) * 64 + (bval c3 - 128), 4%nat)
          else (RuneError, 1%nat)
      | _ => (RuneError, 1%nat)
      end
    else (RuneError, 1%nat)
  end.

(** A Unicode scalar value. *)
Definition is_scalar (r : Z) : bool :=
  (0 <=? r) && (r <=? 1114111) && negb ((55296 <=? r) && (r <=? 57343)).

Definition encode_rune (r : Z) : str :=
  if r <? 128 then [byte_of r]
  else if r <? 2048 then [byte_of (192 + r / 64); byte_of (128 + r mod 64)]
  else if r <? 65536 then
    [byte_of (224 + r / 4096); byte_of (128 + r / 64 mod 64); byte_of (128 + r mod 64)]
  else [byte_of (240 + r / 262144); byte_of (128 + r / 4096 mod 64);
        byte_of (128 + r / 64 mod 64); byte_of (128 + r mod 64)].

(** [utf8.AppendRune] writes [RuneError] for a rune that is no scalar value. *)
Definition AppendRune (out : str) (r : Z) : str :=
  out ++ (if is_scalar r then encode_rune r else encode_rune RuneError).

(** [for _, r := range s]: the runes of a string; each bad byte gives [RuneError]. *)
Fixpoint runes_aux (fuel : nat) (s : str) : list Z :=
  match fuel, s with
  | S f, _ :: _ => let '(r, n) := DecodeRune s in r :: runes_aux f (drop n s)
  | _, _ => []
  end.
Definition runes (s : str) : list Z := runes_aux (length s) s.

Definition runes_str (rs : list Z) : str := mjoin (encode_rune <$> rs).

(** [utf8.Valid]. *)
Fixpoint Valid_aux (fuel : nat) (s : str) : bool :=
  match fuel, s with
  | S f, _ :: _ =>
      let '(r, n) := DecodeRune s in
      negb ((r =? RuneError) && (n =? 1)%nat) && Valid_aux f (drop n s)
  | _, _ => true
  end.
Definition Valid (s : str) : bool := Valid_aux (length s) s.

(** ** unicode/utf16 *)

Definition IsSurrogate (r : Z) : bool := (55296 <=? r) && (r <? 57344).

(** [utf16.EncodeRune]: [(U+FFFD, U+FFFD)] when [r] needs no surrogate pair. *)
Definition EncodeRune16 (r : Z) : Z * Z :=
  if (r <? 65536) || (1114111 <? r) then (RuneError, RuneError)
  else (55296 + (r - 65536) / 1024 mod 1024, 56320 + (r - 65536) mod 1024).

(** [utf16.DecodeRune]: [U+FFFD] when [(r1, r2)] is no surrogate pair. *)
Definition DecodeRune16 (r1 r2 : Z) : Z :=
  if (55296 <=? r1) && (r1 <? 56320) && (56320 <=? r2) && (r2 <? 57344)
  then (r1 - 55296) * 1024 + (r2 - 56320) + 65536
  else RuneError.

(** [strings.TrimSpace(s)] is empty: every rune is a Unicode space. *)
Definition IsSpace (r : Z) : bool :=
  existsb (Z.eqb r) [9; 10; 11; 12; 13; 32; 133; 160; 5760; 8232; 8233; 8239; 8287; 12288]
  || ((8192 <=? r) && (r <=? 8202)).
Definition blank (s : str) : bool := forallb IsSpace (runes s).

Example FormatUint_ex : FormatUint MaxUint64 = "18446744073709551615" /\ FormatInt (-7) = "-7"
  /\ FormatUint 0 = "0".
Proof. vm_compute. done. Qed.
Example ParseUint_ex : ParseUint "18446744073709551616" = None
  /\ ParseInt "-9223372036854775808" = Some MinInt64 /\ ParseInt "9223372036854775808" = None.
Proof. vm_compute. done. Qed.
Example Split_ex : Split "a.b" "."%byte = ["a"; "b"] /\ Split [] "."%byte = [[]].
Proof. vm_compute. done. Qed.

(** ** Lemmas: decimal numerals *)

Lemma bval_digit_byte d : 0 <= d < 10 -> bval (digit_byte d) = 48 + d.
Proof. intros. unfold digit_byte. rewrite bval_byte_of; lia. Qed.

Lemma is_digit_digit_byte d : 0 <= d < 10 -> is_digit (digit_byte d) = true.
Proof. intros. unfold is_digit. rewrite bval_digit_byte by done. lia. Qed.

(** The numerals the JSON scanner accepts without their sign: [0|[1-9][0-9]*]. *)
Definition canonical_nat (s : str) : bool :=
  match s with
  | [] => false
  | c :: s' => is_digit c && forallb is_digit s' &&
               (negb (bool_decide (c = "0"%byte)) || bool_decide (s' = []))
  end.

Definition numeral (s : str) (v : Z) : Prop :=
  forall acc, digits_value s acc = Some (acc * 10 ^ len s + v).

Lemma digits_aux_spec fuel n acc va :
  0 <= n -> n < 2 ^ Z.of_nat fuel ->
  numeral acc va -> forallb is_digit acc = true ->
  let s := digits_aux fuel n acc in
  numeral s (n * 10 ^ len acc + va) /\ forallb is_digit s = true /\
  (n = 0 -> fuel <> O -> s = digit_byte 0 :: acc) /\
  (0 < n -> exists c s', s = c :: s' /\ c <> "0"%byte).
Proof.
  revert n acc va. induction fuel as [|f IH]; intros n acc va Hn Hlt Hacc Hd; simpl.
  { assert (n = 0) as -> by (simpl in Hlt; lia). repeat split; try done; try lia. }
  assert (Hm : 0 <= n mod 10 < 10) by (apply Z.mod_pos_bound; lia).
  pose proof (Z.div_mod n 10 ltac:(lia)) as Hdm.
  assert (Hacc' : numeral (digit_byte (n mod 10) :: acc) (n mod 10 * 10 ^ len acc + va)).
  { intros a. unfold numeral in Hacc. simpl.
    rewrite is_digit_digit_byte, Hacc, bval_digit_byte by done.
    rewrite len_cons, Z.pow_add_r by auto with go lia. f_equal. ring. }
  assert (Hd' : forallb is_digit (digit_byte (n mod 10) :: acc) = true).
  { simpl. by rewrite is_digit_digit_byte, Hd. }
  destruct (Z.ltb_spec n 10) as [Hs|Hs].
  - assert (n mod 10 = n) as E by (apply Z.mod_small; lia). rewrite E in *.
    repeat split; try done.
    + intros ->. done.
    + intros. eexists _, _. split; [done|]. intros Heq.
      apply (f_equal bval) in Heq. rewrite bval_digit_byte in Heq by lia.
      change (bval "0"%byte) with 48 in Heq. lia.
  - destruct (IH (n / 10) (digit_byte (n mod 10) :: acc) (n mod 10 * 10 ^ len acc + va))
      as (Hv & Hdg & _ & Hnz); try done.
    + apply Z.div_pos; lia.
    + rewrite Nat2Z.inj_succ, Z.pow_succ_r in Hlt by lia.
      assert (n / 10 * 2 <= n) by lia. lia.
    + repeat split; [|done|lia|].
      * intros a. unfold numeral in Hv. rewrite Hv. f_equal.
        rewrite len_cons, (Z.pow_add_r 10 1) by auto with go lia.
        replace (n * 10 ^ len acc) with ((10 * (n / 10) + n mod 10) * 10 ^ len acc)
          by (f_equal; lia). ring.
      * intros _. apply Hnz. lia.
Qed.

Lemma log2_fuel n : 0 <= n -> n < 2 ^ Z.of_nat (S (Z.to_nat (Z.log2 n))).
Proof.
  intros Hn. rewrite Nat2Z.inj_succ, Z2Nat.id by apply Z.log2_nonneg.
  destruct (Z.eq_dec n 0) as [->|]; [done|]. apply Z.log2_spec. lia.
Qed.

Lemma FormatUint_numeral n : 0 <= n -> numeral (FormatUint n) n.
Proof.
  intros Hn. destruct (digits_aux_spec (S (Z.to_nat (Z.log2 n))) n [] 0) as (H & _); auto using log2_fuel.
  { intros a. simpl. f_equal. rewrite len_nil. lia. }
  unfold FormatUint. replace n with (n * 10 ^ len (@nil byte) + 0) at 3 by (rewrite len_nil; lia).
  exact H.
Qed.

Lemma FormatUint_canonical n : 0 <= n -> canonical_nat (FormatUint n) = true.
Proof.
  intros Hn.
  destruct (digits_aux_spec (S (Z.to_nat (Z.log2 n))) n [] 0) as (_ & Hd & H0 & Hpos); auto using log2_fuel.
  { intros a. simpl. f_equal. rewrite len_nil. lia. }
  fold (FormatUint n) in *. destruct (Z.eq_dec n 0) as [->|Hne]; [done|].
  destruct Hpos as (c & s' & E & Hc); [lia|]. rewrite E in *. simpl in *.
  rewrite Hd. rewrite bool_decide_eq_false_2; done.
Qed.

Lemma FormatUint_cons n : 0 <= n -> exists c s, FormatUint n = c :: s /\ is_digit c = true.
Proof.
  intros Hn. pose proof (FormatUint_canonical n Hn) as H.
  destruct (FormatUint n) as [|c s]; [done|]. simpl in H. bool_to_prop. eauto.
Qed.

Lemma digits_value_nonneg s acc v : 0 <= acc -> digits_value s acc = Some v -> 0 <= v.
Proof.
  revert acc. induction s as [|c s IH]; simpl; intros acc Ha H; [naive_solver|].
  destruct (is_digit c) eqn:E; [|done]. unfold is_digit in E. bool_to_prop.
  eapply (IH (acc * 10 + (bval c - 48))); [lia|done].
Qed.

Lemma ParseUint_range s v : ParseUint s = Some v -> in_uint64 v.
Proof.
  unfold ParseUint, in_uint64. destruct s as [|c s]; [done|].
  destruct (digits_value (c :: s) 0) as [w|] eqn:E; [|done].
  apply digits_value_nonneg in E; [|lia].
  destruct (Z.leb_spec w MaxUint64); naive_solver.
Qed.

(** Round trip of unsigned numerals. *)
Lemma ParseInt_range s v : ParseInt s = Some v -> in_int64 v.
Proof.
  unfold ParseInt, in_int64, MinInt64, MaxInt64. intros H.
  repeat (case_match; try done; simplify_eq);
    match goal with H : ParseUint _ = Some _ |- _ => apply ParseUint_range in H; unfold in_uint64 in H end;
    bool_to_prop; lia.
Qed.

Lemma ParseUint_FormatUint n : in_uint64 n -> ParseUint (FormatUint n) = Some n.
Proof.
  intros [Hn Hmax]. unfold ParseUint. pose proof (FormatUint_numeral n Hn 0) as H.
  rewrite Z.mul_0_l, Z.add_0_l in H.
  destruct (FormatUint_cons n Hn) as (c & s & E & _). rewrite E in *.
  rewrite H, (proj2 (Z.leb_le n MaxUint64)) by lia. done.
Qed.

(** Round trip of signed numerals. *)
Lemma ParseInt_FormatInt n : in_int64 n -> ParseInt (FormatInt n) = Some n.
Proof.
  unfold in_int64, MinInt64, MaxInt64. intros Hn. unfold FormatInt.
  destruct (Z.ltb_spec n 0) as [Hneg|Hpos].
  - simpl. rewrite ParseUint_FormatUint by (unfold in_uint64, MaxUint64; lia).
    destruct (Z.leb_spec (- n) (2 ^ 63)); [f_equal; lia|lia].
  - destruct (FormatUint_cons n Hpos) as (c & s & E & Hc).
    pose proof (ParseUint_FormatUint n ltac:(unfold in_uint64, MaxUint64; lia)) as HP.
    unfold ParseInt. rewrite E in *.
    assert (c <> "-"%byte /\ c <> "+"%byte) as [Hm Hp] by (split; intros ->; discriminate).
    assert (Hlt : (n <? 2 ^ 63) = true) by (apply Z.ltb_lt; lia).
    destruct c; try congruence; rewrite HP, Hlt; reflexivity.
Qed.

(** ** Lemmas: UTF-8 *)

Lemma is_scalar_spec r :
  is_scalar r = true <-> 0 <= r <= 1114111 /\ ~ (55296 <= r <= 57343).
Proof. unfold is_scalar. zcase; split; intros; try done; lia. Qed.

Lemma length_encode_rune r : (1 <= length (encode_rune r) <= 4)%nat.
Proof. unfold encode_rune. zcase; lia. Qed.

Ltac bval_lia := repeat rewrite bval_byte_of by lia.

Lemma decode_2 a b t : 2 <= a < 32 -> 0 <= b < 64 ->
  DecodeRune (byte_of (192 + a) :: byte_of (128 + b) :: t) = (a * 64 + b, 2%nat).
Proof.
  intros. unfold DecodeRune, is_cont, in_range. bval_lia. zcase; f_equal; lia.
Qed.

Lemma decode_3 a b c t : 0 <= a < 16 -> 0 <= b < 64 -> 0 <= c < 64 ->
  (a = 0 -> 32 <= b) -> (a = 13 -> b < 32) ->
  DecodeRune (byte_of (224 + a) :: byte_of (128 + b) :: byte_of (128 + c) :: t)
  = (a * 4096 + b * 64 + c, 3%nat).
Proof.
  intros. unfold DecodeRune, second_ok3, is_cont, in_range. bval_lia. zcase; f_equal; lia.
Qed.

Lemma decode_4 a b c d t : 0 <= a < 5 -> 0 <= b < 64 -> 0 <= c < 64 -> 0 <= d < 64 ->
  (a = 0 -> 16 <= b) -> (a = 4 -> b < 16) ->
  DecodeRune (byte_of (240 + a) :: byte_of (128 + b) :: byte_of (128 + c) ::
              byte_of (128 + d) :: t)
  = (a * 262144 + b * 4096 + c * 64 + d, 4%nat).
Proof.
  intros. unfold DecodeRune, second_ok4, is_cont, in_range. bval_lia. zcase; f_equal; lia.
Qed.

(** Decoding reads back exactly one encoded rune. *)
Lemma decode_encode r t : is_scalar r = true ->
  DecodeRune (encode_rune r ++ t) = (r, length (encode_rune r)).
Proof.
  rewrite is_scalar_spec. intros Hr. unfold encode_rune.
  destruct (Z.ltb_spec r 128); [|destruct (Z.ltb_spec r 2048);
    [|destruct (Z.ltb_spec r 65536)]]; cbn [app length].
  - unfold DecodeRune. bval_lia. zcase. done.
  - rewrite decode_2 by lia. f_equal. lia.
  - rewrite decode_3 by lia. f_equal. lia.
  - rewrite decode_4 by lia. f_equal. lia.
Qed.

Lemma drop_encode r t : drop (length (encode_rune r)) (encode_rune r ++ t) = t.
Proof. apply drop_app_length. Qed.

Lemma byte_of_eq b v : v = bval b -> byte_of v = b.
Proof. intros ->. apply byte_of_bval. Qed.

(** What [DecodeRune] answers: the error pair, or a scalar and its encoding. *)
Lemma decode_cases c s :
  DecodeRune (c :: s) = (RuneError, 1%nat) \/
  exists r, is_scalar r = true /\ DecodeRune (c :: s) = (r, length (encode_rune r)) /\
            c :: s = encode_rune r ++ drop (length (encode_rune r)) (c :: s).
Proof.
  assert (Hsuff : forall r t, is_scalar r = true -> c :: s = encode_rune r ++ t ->
    exists r, is_scalar r = true /\ DecodeRune (c :: s) = (r, length (encode_rune r)) /\
              c :: s = encode_rune r ++ drop (length (encode_rune r)) (c :: s)).
  { intros r t Hr ->. exists r. rewrite drop_encode. auto using decode_encode. }
  pose proof (bval_range c) as Hc. unfold DecodeRune at 1.
  destruct (Z.ltb_spec (bval c) 128).
  { right. apply (Hsuff (bval c) s); [apply is_scalar_spec; lia|].
    unfold encode_rune. zcase. by rewrite byte_of_bval. }
  destruct (in_range c 194 223) eqn:E2; unfold in_range in E2; bool_to_prop.
  { destruct s as [|c1 s]; [by left|]. pose proof (bval_range c1).
    destruct (is_cont c1) eqn:E1; [|by left]. right.
    unfold is_cont in E1; bool_to_prop.
    apply (Hsuff ((bval c - 192) * 64 + (bval c1 - 128)) s); [apply is_scalar_spec; lia|].
    unfold encode_rune. zcase. rewrite (byte_of_eq c), (byte_of_eq c1) by lia. done. }
  destruct (in_range c 224 239) eqn:E3; unfold in_range in E3; bool_to_prop.
  { destruct s as [|c1 [|c2 s]]; [by left..|]. pose proof (bval_range c1). pose proof (bval_range c2).
    destruct (second_ok3 c c1 && is_cont c2) eqn:E; [|by left]. right.
    assert (128 <= bval c1 <= 191 /\ 128 <= bval c2 <= 191 /\
            (bval c = 224 -> 160 <= bval c1) /\ (bval c = 237 -> bval c1 <= 159)) as (?&?&?&?).
    { unfold second_ok3, is_cont, in_range in E. bool_to_prop.
      destruct (Z.eqb_spec (bval c) 224), (Z.eqb_spec (bval c) 237); bool_to_prop; lia. }
    apply (Hsuff ((bval c - 224) * 4096 + (bval c1 - 128) * 64 + (bval c2 - 128)) s);
      [apply is_scalar_spec; lia|].
    unfold encode_rune. zcase. rewrite (byte_of_eq c), (byte_of_eq c1), (byte_of_eq c2) by lia. done. }
  destruct (in_range c 240 244) eqn:E4; unfold in_range in E4; bool_to_prop; [|by left].
  destruct s as [|c1 [|c2 [|c3 s]]]; [by left..|].
  pose proof (bval_range c1). pose proof (bval_range c2). pose proof (bval_range c3).
  destruct (second_ok4 c c1 && is_cont c2 && is_cont c3) eqn:E; [|by left]. right.
  assert (128 <= bval c1 <= 191 /\ 128 <= bval c2 <= 191 /\ 128 <= bval c3 <= 191 /\
          (bval c = 240 -> 144 <= bval c1) /\ (bval c = 244 -> bval c1 <= 143)) as (?&?&?&?&?).
  { unfold second_ok4, is_cont, in_range in E. bool_to_prop.
    destruct (Z.eqb_spec (bval c) 240), (Z.eqb_spec (bval c) 244); bool_to_prop; lia. }
  apply (Hsuff ((bval c - 240) * 262144 + (bval c1 - 128) * 4096
                + (bval c2 - 128) * 64 + (bval c3 - 128)) s); [apply is_scalar_spec; lia|].
  unfold encode_rune. zcase. 
  rewrite (byte_of_eq c), (byte_of_eq c1), (byte_of_eq c2), (byte_of_eq c3) by lia. done.
Qed.

Abbreviation scalars := (Forall (fun r => is_scalar r = true)).

Lemma runes_str_cons r rs : runes_str (r :: rs) = encode_rune r ++ runes_str rs.
Proof. done. Qed.

Lemma runes_str_app rs ks : runes_str (rs ++ ks) = runes_str rs ++ runes_str ks.
Proof. induction rs; [done|]. simpl. rewrite !runes_str_cons, <- app_assoc. by f_equal. Qed.

Lemma encode_rune_cons r t : exists c s, encode_rune r ++ t = c :: s.
Proof. unfold encode_rune. zcase; eauto. Qed.

Lemma length_runes_str_cons r rs :
  (length (runes_str (r :: rs)) = length (encode_rune r) + length (runes_str rs))%nat.
Proof. rewrite runes_str_cons. apply length_app. Qed.

Lemma decode_encode_ok r t : is_scalar r = true ->
  (let '(r', n) := DecodeRune (encode_rune r ++ t) in
   negb ((r' =? RuneError) && (n =? 1)%nat)) = true.
Proof.
  intros Hr. rewrite decode_encode by done.
  destruct (Z.eqb_spec r RuneError) as [->|]; [reflexivity|done].
Qed.

Lemma Valid_aux_runes rs fuel : scalars rs -> (length (runes_str rs) <= fuel)%nat ->
  Valid_aux fuel (runes_str rs) = true.
Proof.
  intros Hrs. revert fuel. induction Hrs as [|r rs Hr Hrs IH]; intros fuel Hf; [by destruct fuel|].
  rewrite length_runes_str_cons in Hf. pose proof (length_encode_rune r).
  destruct fuel as [|f]; [lia|]. rewrite runes_str_cons.
  pose proof (decode_encode_ok r (runes_str rs) Hr) as Hok.
  destruct (encode_rune_cons r (runes_str rs)) as (c & s & E). rewrite E in *. cbn [Valid_aux].
  rewrite <- E in *. rewrite decode_encode in * by done. rewrite Hok, drop_encode. apply IH. lia.
Qed.

Lemma runes_aux_runes rs fuel : scalars rs -> (length (runes_str rs) <= fuel)%nat ->
  runes_aux fuel (runes_str rs) = rs.
Proof.
  intros Hrs. revert fuel. induction Hrs as [|r rs Hr Hrs IH]; intros fuel Hf; [by destruct fuel|].
  rewrite length_runes_str_cons in Hf. pose proof (length_encode_rune r).
  destruct fuel as [|f]; [lia|]. rewrite runes_str_cons.
  destruct (encode_rune_cons r (runes_str rs)) as (c & s & E). rewrite E. cbn [runes_aux].
  rewrite <- E. rewrite decode_encode, drop_encode by done. f_equal. apply IH. lia.
Qed.

Lemma Valid_aux_inv fuel s : (length s <= fuel)%nat -> Valid_aux fuel s = true ->
  exists rs, scalars rs /\ s = runes_str rs.
Proof.
  revert s. induction fuel as [|f IH]; intros [|c s] Hf; simpl in Hf; try lia.
  1,2: intros _; exists []; done.
  destruct (decode_cases c s) as [E|(r & Hr & E & Hs)]; cbn [Valid_aux]; rewrite E; [done|].
  intros [_ H]%andb_true_iff.
  destruct (IH (drop (length (encode_rune r)) (c :: s))) as (rs & Hrs & Ht); [|done|].
  { rewrite length_drop. pose proof (length_encode_rune r). simpl. lia. }
  exists (r :: rs). rewrite runes_str_cons, <- Ht. auto.
Qed.

(** Valid UTF-8 is exactly a concatenation of encoded scalar values. *)
Lemma Valid_spec s : Valid s = true <-> exists rs, scalars rs /\ s = runes_str rs.
Proof.
  split; [by apply Valid_aux_inv|]. intros (rs & Hrs & ->). by apply Valid_aux_runes.
Qed.

Lemma Valid_runes_str rs : scalars rs -> Valid (runes_str rs) = true.
Proof. rewrite Valid_spec. eauto. Qed.

Lemma runes_runes_str rs : scalars rs -> runes (runes_str rs) = rs.
Proof. intros. by apply runes_aux_runes. Qed.

Lemma runes_str_runes s : Valid s = true -> runes_str (runes s) = s.
Proof. rewrite Valid_spec. intros (rs & Hrs & ->). by rewrite runes_runes_str. Qed.

Lemma runes_scalars s : scalars (runes s).
Proof.
  unfold runes. generalize (length s) as f. intros f. revert s.
  induction f as [|f IH]; intros [|c s]; cbn [runes_aux]; auto.
  destruct (decode_cases c s) as [E|(r & Hr & E & Hs)]; rewrite E; auto.
Qed.

Lemma Valid_app s t : Valid s = true -> Valid t = true -> Valid (s ++ t) = true.
Proof.
  rewrite !Valid_spec. intros (rs & ? & ->) (ks & ? & ->).
  exists (rs ++ ks). rewrite runes_str_app. split; [by apply Forall_app|done].
Qed.

Lemma Valid_encode_rune r : is_scalar r = true -> Valid (encode_rune r) = true.
Proof.
  intros. rewrite <- (app_nil_r (encode_rune r)). apply (Valid_runes_str [r]). auto.
Qed.

Lemma AppendRune_scalar out r : is_scalar r = true -> AppendRune out r = out ++ encode_rune r.
Proof. intros H. unfold AppendRune. by rewrite H. Qed.

Lemma Valid_AppendRune out r : Valid out = true -> Valid (AppendRune out r) = true.
Proof.
  intros. unfold AppendRune. destruct (is_scalar r) eqn:E; apply Valid_app; auto using Valid_encode_rune.
Qed.

(** An ASCII string is the encoding of its own bytes. *)
Lemma ascii_runes_str s : forallb (fun c => bval c <? 128) s = true ->
  scalars (bval <$> s) /\ s = runes_str (bval <$> s).
Proof.
  intros H. induction s as [|c s IH]; [done|].
  cbn [forallb] in H. bool_to_prop. destruct IH as [IH1 IH2]; [done|]. pose proof (bval_range c). split.
  - constructor; [apply is_scalar_spec; lia|done].
  - change (bval <$> c :: s) with (bval c :: (bval <$> s)).
    rewrite runes_str_cons, <- IH2. unfold encode_rune. zcase. by rewrite byte_of_bval.
Qed.

Lemma Valid_ascii s : forallb (fun c => bval c <? 128) s = true -> Valid s = true.
Proof. rewrite Valid_spec. intros H%ascii_runes_str. eauto. Qed.

Lemma runes_ascii s : forallb (fun c => bval c <? 128) s = true -> runes s = bval <$> s.
Proof. intros [H1 H2]%ascii_runes_str. rewrite H2 at 1. by apply runes_runes_str. Qed.

#[export] Hint Resolve Valid_AppendRune Valid_app Valid_runes_str runes_scalars : go.

(** ** Lemmas: unrolling decimal conversion *)

Lemma digits_aux_app f n acc : digits_aux f n acc = digits_aux f n [] ++ acc.
Proof.
  revert n acc. induction f as [|f IH]; intros n acc; cbn [digits_aux]; [done|].
  destruct (n <? 10); [done|]. rewrite IH, (IH _ [_]), <- app_assoc. done.
Qed.

Lemma digits_aux_fuel f f' n acc : 0 <= n -> n < 2 ^ Z.of_nat f -> n < 2 ^ Z.of_nat f' ->
  (0 < f)%nat -> (0 < f')%nat -> digits_aux f n acc = digits_aux f' n acc.
Proof.
  revert f' n acc. induction f as [|f IH]; intros [|f'] n acc Hn H H' Hf Hf'; try lia.
  cbn [digits_aux]. destruct (Z.ltb_spec n 10) as [|Hge]; [done|].
  rewrite Nat2Z.inj_succ, Z.pow_succ_r in H, H' by lia.
  assert (Hpos : forall g, n < 2 * 2 ^ Z.of_nat g -> (0 < g)%nat).
  { intros [|g] Hg; [change (2 * 2 ^ Z.of_nat 0) with 2 in Hg; lia|lia]. }
  apply IH; auto; lia.
Qed.

Lemma FormatUint_step n : 0 <= n ->
  FormatUint n = if n <? 10 then [digit_byte n] else FormatUint (n / 10) ++ [digit_byte (n mod 10)].
Proof.
  intros Hn. unfold FormatUint at 1. cbn [digits_aux].
  destruct (Z.ltb_spec n 10) as [Hs|Hs]; [by rewrite Z.mod_small by lia|].
  rewrite digits_aux_app. f_equal. unfold FormatUint. apply digits_aux_fuel; try lia.
  - pose proof (log2_fuel n Hn) as H. rewrite Nat2Z.inj_succ, Z.pow_succ_r in H by lia. lia.
  - apply log2_fuel. lia.
  - assert (1 <= Z.log2 n) by (apply (Z.log2_le_mono 2); lia). lia.
Qed.

(** ** Lemmas: searching strings *)

Lemma IndexByte_app s c t : c ∉ s -> IndexByte (s ++ c :: t) c = Some (length s).
Proof.
  induction s as [|d s IH]; simpl; intros H; [by rewrite bool_decide_eq_true_2|].
  apply not_elem_of_cons in H as [? ?]. rewrite bool_decide_eq_false_2 by done. by rewrite IH.
Qed.

Lemma IndexByte_None s c : c ∉ s -> IndexByte s c = None.
Proof.
  induction s as [|d s IH]; simpl; intros H; [done|].
  apply not_elem_of_cons in H as [? ?]. rewrite bool_decide_eq_false_2 by done. by rewrite IH.
Qed.

Lemma HasPrefix_drop p : forall s, HasPrefix s p = true -> s = p ++ drop (length p) s.
Proof.
  induction p as [|c p IH]; intros [|d s] H; simpl in *; try done.
  bool_to_prop. subst. f_equal. by apply IH.
Qed.

Lemma HasPrefix_app p s : HasPrefix (p ++ s) p = true.
Proof. induction p as [|c p IH]; simpl; [by destruct s|]. by rewrite bool_decide_eq_true_2. Qed.

Lemma HasSuffix_app s p : HasSuffix (s ++ p) p = true.
Proof. unfold HasSuffix. rewrite rev_app_distr. apply HasPrefix_app. Qed.

Lemma TrimSuffix_app s p : TrimSuffix (s ++ p) p = s.
Proof.
  unfold TrimSuffix. rewrite HasSuffix_app, length_app.
  replace (length s + length p - length p)%nat with (length s) by lia. apply take_app_length.
Qed.

Lemma Split_word s sep : sep ∉ s -> Split s sep = [s].
Proof.
  induction s as [|c s IH]; cbn [Split]; intros H; [done|]. apply not_elem_of_cons in H as [? ?].
  rewrite IH by done. by rewrite bool_decide_eq_false_2.
Qed.

Lemma Split_not_nil s sep : Split s sep <> [].
Proof. destruct s as [|c s]; cbn [Split]; [done|]. repeat case_match; done. Qed.

Lemma Split_cons_word s sep t : sep ∉ s -> Split (s ++ sep :: t) sep = s :: Split t sep.
Proof.
  induction s as [|c s IH]; cbn [Split app]; intros H.
  - destruct (Split t sep) eqn:E; [by apply Split_not_nil in E|]. by rewrite bool_decide_eq_true_2.
  - apply not_elem_of_cons in H as [? ?]. rewrite IH by done. by rewrite bool_decide_eq_false_2.
Qed.

(** Splitting is exact: the words of a separator are joined by it and free of it. *)
Lemma Split_1 s sep w : Split s sep = [w] <-> s = w /\ sep ∉ w.
Proof.
  split; [|intros [-> ?]; by apply Split_word]. revert w.
  induction s as [|c s IH]; cbn [Split]; intros w H; [simplify_eq; set_solver|].
  destruct (Split s sep) as [|v vs] eqn:E; [by apply Split_not_nil in E|].
  case_bool_decide; simplify_eq. destruct (IH v eq_refl) as [-> ?]. set_solver.
Qed.

Lemma Split_2 s sep a b : Split s sep = [a; b] <-> s = a ++ sep :: b /\ sep ∉ a /\ sep ∉ b.
Proof.
  split.
  - revert a. induction s as [|c s IH]; cbn [Split]; intros a H; [done|].
    destruct (Split s sep) as [|v vs] eqn:E; [by apply Split_not_nil in E|].
    case_bool_decide; simplify_eq.
    + apply Split_1 in E as [-> ?]. set_solver.
    + destruct (IH v eq_refl) as (-> & ? & ?). set_solver.
  - intros (-> & Ha & Hb). rewrite Split_cons_word, Split_word by done. done.
Qed.

(** A byte that is no digit does not occur among digits. *)
Lemma not_in_digits (c d : byte) s : is_digit c = false -> is_digit d = true -> c ∉ s -> c ∉ d :: s.
Proof. intros Hc Hd Hs. apply not_elem_of_cons. split; [intros ->; congruence|done]. Qed.
