(* ===== verification/GoPath.v ===== *)
(** * Go's path/filepath on a Unix system

    The lexical functions the lock file and the start-up use. *)
From S2P Require Import Prelude GoLib.

(** [strings.LastIndexByte]. *)
Fixpoint LastIndexByte (s : str) (c : byte) : option nat :=
  match s with
  | [] => None
  | d :: s' => match LastIndexByte s' c with
               | Some i => Some (S i)
               | None => if bool_decide (d = c) then Some O else None
               end
  end.

Definition IsAbs (path : str) : bool := HasPrefix path "/".

(** [strings.Join]. *)
Fixpoint JoinWith (sep : str) (ws : list str) : str :=
  match ws with
  | [] => []
  | [w] => w
  | w :: ws' => w ++ sep ++ JoinWith sep ws'
  end.

(** The elements kept so far, last first: [..] takes one back, or stays at the front of a relative path. *)
Fixpoint clean_loop (rooted : bool) (elements out : list str) : list str :=
  match elements with
  | [] => rev out
  | e :: es =>
      if bool_decide (e = [] \/ e = "."%go) then clean_loop rooted es out
      else if bool_decide (e = ".."%go) then
        match out with
        | o :: out' => if bool_decide (o = ".."%go) then clean_loop rooted es (e :: out)
                       else clean_loop rooted es out'
        | [] => clean_loop rooted es (if rooted then [] else [e])
        end
      else clean_loop rooted es (e :: out)
  end.

Definition Clean (path : str) : str :=
  let rooted := IsAbs path in
  let body := JoinWith "/" (clean_loop rooted (Split path "/"%byte) []) in
  if rooted then "/" ++ body else if is_empty body then "." else body.

Definition Dir (path : str) : str :=
  Clean (match LastIndexByte path "/"%byte with Some i => take (S i) path | None => [] end).

(** A path without its trailing slashes. *)
Fixpoint trim_slashes (path : str) : str :=
  match path with
  | [] => []
  | c :: s => match trim_slashes s with
              | [] => if bool_decide (c = "/"%byte) then [] else [c]
              | s' => c :: s'
              end
  end.

Definition Base (path : str) : str :=
  if is_empty path then "."
  else
    let p := trim_slashes path in
    let p := match LastIndexByte p "/"%byte with Some i => drop (S i) p | None => p end in
    if is_empty p then "/" else p.

(** Leading empty elements are left out. *)
Fixpoint Join (elements : list str) : str :=
  match elements with
  | [] => []
  | e :: es => if is_empty e then Join es else Clean (JoinWith "/" (e :: es))
  end.

(** [cwd] is what [os.Getwd] answers. *)
Definition Abs (cwd : result str str) (path : str) : result str str :=
  if IsAbs path then Ok (Clean path) else let? wd := cwd in Ok (Join [wd; path]).

Example path_examples :
  Clean "/a/./b//../c/" = "/a/c" /\ Clean "../a/.." = ".." /\ Clean "a/.." = "." /\ Clean "/.." = "/" /\
  Dir "users.json" = "." /\ Dir "/etc/tc/users.json" = "/etc/tc" /\ Dir "/users.json" = "/" /\
  Base "/etc/tc/users.json" = "users.json" /\ Base "a/b/" = "b" /\ Base "//" = "/" /\
  Abs (Ok "/srv") "data/users.json" = Ok ("/srv/data/users.json"%go).
Proof. vm_compute. repeat split. Qed.

(** ** Lemmas: absolute paths stay absolute *)

Lemma IsAbs_cons s : IsAbs ("/" ++ s) = true.
Proof. apply HasPrefix_app. Qed.

Lemma IsAbs_inv path : IsAbs path = true -> exists s, path = "/"%byte :: s.
Proof. intros H%HasPrefix_drop. exists (drop 1 path). exact H. Qed.

Lemma Clean_abs path : IsAbs path = true -> IsAbs (Clean path) = true.
Proof. intros H. unfold Clean. rewrite H. apply IsAbs_cons. Qed.

Lemma Abs_abs cwd path full : (forall wd, cwd = Ok wd -> IsAbs wd = true) -> Abs cwd path = Ok full -> IsAbs full = true.
Proof.
  unfold Abs. intros Hwd. destruct (IsAbs path) eqn:E; [intros [= <-]; by apply Clean_abs|].
  intros H. apply rbind_Ok in H as (wd & Hc & [= <-]). apply Hwd in Hc. apply IsAbs_inv in Hc as [s ->].
  apply Clean_abs. exact (IsAbs_cons (s ++ "/" ++ path)).
Qed.

Lemma Dir_abs path : IsAbs path = true -> IsAbs (Dir path) = true.
Proof.
  intros [s ->]%IsAbs_inv. apply Clean_abs. cbn [LastIndexByte].
  destruct (LastIndexByte s "/"%byte) as [i|]; [exact (IsAbs_cons (take (S i) s))|exact (IsAbs_cons [])].
Qed.

Lemma abs_not_blank path : IsAbs path = true -> blank path = false.
Proof. intros [s ->]%IsAbs_inv. reflexivity. Qed.

(** ** Lemmas: paths in normal form *)

(** An ordinary name of a directory. *)
Definition plain (e : str) : Prop := e <> [] /\ e <> "."%go /\ e <> ".."%go /\ "/"%byte ∉ e.

(** An absolute path in normal form, by its elements. *)
Definition abs_path (es : list str) : str := "/" ++ JoinWith "/" es.

Lemma Split_no_sep s sep : Forall (fun e => sep ∉ e) (Split s sep).
Proof.
  induction s as [|c s IH]; cbn [Split]; [repeat constructor; apply not_elem_of_nil|].
  destruct (Split s sep) as [|w ws] eqn:E; [by apply Split_not_nil in E|].
  apply list.Forall_cons in IH as [Hw Hws]. case_bool_decide.
  - constructor; [apply not_elem_of_nil|by constructor].
  - constructor; [|done]. by apply not_elem_of_cons.
Qed.

Lemma JoinWith_cons2 e e' es : JoinWith "/" (e :: e' :: es) = e ++ "/"%byte :: JoinWith "/" (e' :: es).
Proof. reflexivity. Qed.

Lemma Split_JoinWith es : es <> [] -> Forall plain es -> Split (JoinWith "/" es) "/"%byte = es.
Proof.
  intros Hne Hes. destruct es as [|e es]; [done|]. clear Hne; revert e Hes.
  induction es as [|e' es IH]; intros e Hes; apply list.Forall_cons in Hes as [(_ & _ & _ & He) Hes].
  - by apply Split_word.
  - rewrite JoinWith_cons2, Split_cons_word by done. f_equal. by apply IH.
Qed.

(** A rooted path never keeps [..], so all it keeps are ordinary names. *)
Lemma clean_loop_plain elements : forall out, Forall (fun e => "/"%byte ∉ e) elements -> Forall plain out ->
  Forall plain (clean_loop true elements out).
Proof.
  induction elements as [|e es IH]; intros out He Ho; cbn [clean_loop]; [by apply Forall_rev|].
  apply list.Forall_cons in He as [He Hes]. case_bool_decide as H1; [by apply IH|]. case_bool_decide as H2.
  - destruct out as [|o out]; [by apply IH|]. apply list.Forall_cons in Ho as [(_ & _ & Ho1 & _) Ho].
    rewrite bool_decide_eq_false_2 by done. by apply IH.
  - apply IH; [done|]. constructor; [|done]. unfold plain. tauto.
Qed.

Lemma clean_loop_keeps es : forall out, Forall plain es -> clean_loop true es out = rev out ++ es.
Proof.
  induction es as [|e es IH]; intros out He; cbn [clean_loop]; [by rewrite app_nil_r|].
  apply list.Forall_cons in He as [(H1 & H2 & H3 & _) He]. rewrite !bool_decide_eq_false_2 by tauto.
  rewrite IH by done. cbn [rev]. by rewrite <- app_assoc.
Qed.

Lemma Clean_rooted s : Clean ("/"%byte :: s) = abs_path (clean_loop true (Split s "/"%byte) []).
Proof.
  unfold Clean. assert (E : IsAbs ("/"%byte :: s) = true) by exact (IsAbs_cons s). rewrite E. unfold abs_path.
  f_equal. f_equal.
  change ("/"%byte :: s) with ([] ++ "/"%byte :: s). rewrite Split_cons_word by apply not_elem_of_nil. reflexivity.
Qed.

(** [Clean] of an absolute path is in normal form, and leaves a normal form alone. *)
Lemma Clean_normal path : IsAbs path = true -> exists es, Forall plain es /\ Clean path = abs_path es.
Proof.
  intros [s ->]%IsAbs_inv. rewrite Clean_rooted. eexists. split; [|done].
  apply clean_loop_plain; [apply Split_no_sep|constructor].
Qed.

Lemma Split_JoinWith_app es t : es <> [] -> Forall plain es ->
  Split (JoinWith "/" es ++ "/"%byte :: t) "/"%byte = es ++ Split t "/"%byte.
Proof.
  intros Hne Hes. destruct es as [|e es]; [done|]. clear Hne. revert e Hes.
  induction es as [|e' es IH]; intros e Hes; apply list.Forall_cons in Hes as [(_ & _ & _ & He) Hes].
  - by apply Split_cons_word.
  - rewrite JoinWith_cons2, <- app_assoc, <- app_comm_cons, Split_cons_word by done. cbn [app]. f_equal. by apply IH.
Qed.

(** What is kept of a path below a directory in normal form. *)
Lemma Clean_below es t : Forall plain es ->
  Clean (abs_path es ++ "/"%byte :: t) = abs_path (clean_loop true (es ++ Split t "/"%byte) []).
Proof.
  intros Hes. change (abs_path es ++ "/"%byte :: t) with ("/"%byte :: JoinWith "/" es ++ "/"%byte :: t).
  rewrite Clean_rooted. f_equal. destruct es as [|e es]; [|by rewrite Split_JoinWith_app].
  change (JoinWith "/" [] ++ "/"%byte :: t) with ([] ++ "/"%byte :: t).
  by rewrite Split_cons_word by apply not_elem_of_nil.
Qed.

(** The elements of a directory and a name below it. *)
Lemma Clean_elements es n : Forall plain es -> plain n -> Clean (abs_path es ++ "/" ++ n) = abs_path (es ++ [n]).
Proof.
  intros Hes Hn. pose proof Hn as (_ & _ & _ & Hns). etrans; [exact (Clean_below es n Hes)|].
  rewrite Split_word, clean_loop_keeps; [done| |done]. apply Forall_app. split; [done|].
  constructor; [done|constructor].
Qed.

Lemma clean_loop_empty_last es out : clean_loop true (es ++ [[]]) out = clean_loop true es out.
Proof.
  revert out. induction es as [|e es IH]; intros out; [reflexivity|]. cbn [app clean_loop].
  repeat case_bool_decide; [apply IH| |apply IH]. destruct out; [apply IH|]. case_bool_decide; apply IH.
Qed.

Lemma Clean_slash es : Forall plain es -> Clean (abs_path es ++ "/") = abs_path es.
Proof.
  intros Hes. etrans; [exact (Clean_below es [] Hes)|]. change (Split [] "/"%byte) with [@nil byte].
  by rewrite clean_loop_empty_last, clean_loop_keeps.
Qed.

Lemma LastIndexByte_none s c : c ∉ s -> LastIndexByte s c = None.
Proof.
  induction s as [|d s IH]; cbn [LastIndexByte]; intros H; [done|]. apply not_elem_of_cons in H as [Hd Hs].
  rewrite IH by done. by rewrite bool_decide_eq_false_2.
Qed.

Lemma LastIndexByte_last s c t : c ∉ t -> LastIndexByte (s ++ c :: t) c = Some (length s).
Proof.
  intros Ht. induction s as [|d s IH]; cbn [app LastIndexByte length].
  - rewrite LastIndexByte_none by done. by rewrite bool_decide_eq_true_2.
  - by rewrite IH.
Qed.

Lemma JoinWith_snoc es e : es <> [] -> JoinWith "/" (es ++ [e]) = JoinWith "/" es ++ "/"%byte :: e.
Proof.
  destruct es as [|e0 es]; [done|]. intros _. revert e0. induction es as [|e1 es IH]; intros e0; [reflexivity|].
  change ((e0 :: e1 :: es) ++ [e]) with (e0 :: e1 :: (es ++ [e])).
  rewrite !JoinWith_cons2, <- app_assoc, <- app_comm_cons. do 2 f_equal. exact (IH e1).
Qed.

Lemma abs_path_snoc es e : exists s, abs_path (es ++ [e]) = s ++ "/"%byte :: e /\
  s ++ "/"%go = match es with [] => "/"%go | _ => abs_path es ++ "/" end.
Proof.
  destruct es as [|e0 es].
  - exists []. by split.
  - exists (abs_path (e0 :: es)). split; [|done]. unfold abs_path. rewrite JoinWith_snoc by done.
    by rewrite app_assoc.
Qed.

Lemma trim_slashes_last s c : c <> "/"%byte -> trim_slashes (s ++ [c]) = s ++ [c].
Proof.
  intros Hc. induction s as [|d s IH]; cbn [app trim_slashes]; [by rewrite bool_decide_eq_false_2|].
  rewrite IH. by destruct s.
Qed.

(** The last name of a path in normal form, and its directory. *)
Lemma Base_snoc es e : plain e -> Base (abs_path (es ++ [e])) = e.
Proof.
  intros (He0 & _ & _ & He). destruct (abs_path_snoc es e) as (s & -> & _). unfold Base.
  assert (Hne : forall t, is_empty (s ++ "/"%byte :: t) = false) by (by destruct s). rewrite Hne.
  assert (Ht : trim_slashes (s ++ "/"%byte :: e) = s ++ "/"%byte :: e).
  { destruct e as [|c e] using rev_ind; [done|].
    change (s ++ "/"%byte :: e ++ [c]) with (s ++ ("/"%byte :: e) ++ [c]). rewrite app_assoc.
    apply trim_slashes_last. set_solver. }
  rewrite Ht, LastIndexByte_last by done.
  assert (Hd : drop (S (length s)) (s ++ "/"%byte :: e) = e).
  { change (s ++ "/"%byte :: e) with (s ++ ["/"%byte] ++ e). rewrite app_assoc.
    apply drop_app_length'. rewrite length_app. cbn. lia. }
  rewrite Hd. by destruct e.
Qed.

Lemma Dir_snoc es e : Forall plain es -> plain e -> Dir (abs_path (es ++ [e])) = abs_path es.
Proof.
  intros Hes (_ & _ & _ & He). destruct (abs_path_snoc es e) as (s & -> & Hs). unfold Dir.
  rewrite LastIndexByte_last by done.
  assert (Ht : take (S (length s)) (s ++ "/"%byte :: e) = s ++ "/").
  { change (s ++ "/"%byte :: e) with (s ++ ["/"%byte] ++ e). rewrite app_assoc.
    apply take_app_length'. rewrite length_app. cbn. lia. }
  rewrite Ht, Hs. destruct es; [reflexivity|]. by apply Clean_slash.
Qed.

(** Normal forms are equal when their elements are. *)
Lemma abs_path_inj es es' : Forall plain es -> Forall plain es' -> abs_path es = abs_path es' -> es = es'.
Proof.
  intros H1 H2 E. apply (app_inv_head "/"%go) in E.
  destruct es as [|e es], es' as [|e' es']; [done| | |].
  - exfalso. apply list.Forall_cons in H2 as [(He & _) _]. destruct e', es'; done.
  - exfalso. apply list.Forall_cons in H1 as [(He & _) _]. destruct e, es; done.
  - by rewrite <- (Split_JoinWith (e :: es)), E, Split_JoinWith.
Qed.
