(* ===== verification/Cert.v ===== *)
(** * Loading the TLS certificate (internal/hosting/cert.go)

    The choice of a loader by the path's extension, the PEM files with the key beside the certificate, and
    PKCS#12 files. Decoding of PEM blocks, certificates, keys and PKCS#12 archives is done by libraries: they are
    the fields of [Libraries]. *)
From S2P Require Import Prelude GoLib GoPath.

(** ** The libraries *)

Inductive StatAnswer := StatOk | StatNotExist | StatError (e : str).

Record Block := { block_Type : str; block_Bytes : str }.

(** The dynamic type of a private key. *)
Inductive KeyKind := KeyRSA | KeyECDSA | KeyEd25519 | KeyOther.

Record Libraries (Cert Key : Type) := {
  Raw : Cert -> str;                                  (** the certificate's DER bytes *)
  key_kind : Key -> KeyKind;
  os_Stat : str -> StatAnswer;
  os_ReadFile : str -> result str str;
  pem_Decode : str -> option (Block * str);           (** the next block and what follows it *)
  ParseCertificate : str -> result str Cert;
  ParsePKCS8PrivateKey : str -> result str Key;
  ParsePKCS1PrivateKey : str -> result str Key;
  ParseECPrivateKey : str -> result str Key;
  DecodeChain : str -> result str (option Key * option Cert * list Cert) }.

Arguments Raw {Cert Key}.
Arguments key_kind {Cert Key}.
Arguments os_Stat {Cert Key}.
Arguments os_ReadFile {Cert Key}.
Arguments pem_Decode {Cert Key}.
Arguments ParseCertificate {Cert Key}.
Arguments ParsePKCS8PrivateKey {Cert Key}.
Arguments ParsePKCS1PrivateKey {Cert Key}.
Arguments ParseECPrivateKey {Cert Key}.
Arguments DecodeChain {Cert Key}.

Record TLSCertificate (Cert Key : Type) := mkTLS { tls_Certificate : list str; tls_PrivateKey : Key; tls_Leaf : Cert }.
Arguments mkTLS {Cert Key}.

(** ** Paths *)

(** [strings.ToLower], as far as a comparison with an ASCII suffix sees it. *)
Definition lower_byte (c : byte) : byte :=
  if (65 <=? bval c) && (bval c <=? 90) then byte_of (bval c + 32) else c.
Definition ToLower (s : str) : str := lower_byte <$> s.

(** [filepath.Ext]: from the last dot of the last element on. *)
Definition Ext (path : str) : str :=
  let element := match LastIndexByte path "/"%byte with Some i => drop (S i) path | None => path end in
  match LastIndexByte element "."%byte with Some i => drop i element | None => [] end.

(** The key file beside a certificate file. *)
Definition sidecar (certificatePath : str) : str := TrimSuffix certificatePath (Ext certificatePath) ++ ".key".

Section Load.
Context {Cert Key : Type} (lib : Libraries Cert Key).

Definition validKey (key : Key) : bool := match key_kind lib key with KeyOther => false | _ => true end.

(** ** PEM *)

Fixpoint certificates_loop (fuel : nat) (rest : str) (certificates : list Cert) : result str (list Cert) :=
  match fuel with
  | O => Ok certificates
  | S fuel =>
      match pem_Decode lib rest with
      | None => Ok certificates
      | Some (block, rest) =>
          if negb (streq (block_Type block) "CERTIFICATE") then certificates_loop fuel rest certificates
          else
            let? cert := ParseCertificate lib (block_Bytes block) in
            certificates_loop fuel rest (certificates ++ [cert])
      end
  end.

Definition parseCertificatesFromPEMFile (path : str) : result str (list Cert) :=
  let? raw := os_ReadFile lib path in
  certificates_loop (S (length raw)) raw [].

Definition no_key : str := "PEM file does not contain a private key.".

Fixpoint key_loop (fuel : nat) (rest : str) : result str Key :=
  match fuel with
  | O => Err no_key
  | S fuel =>
      match pem_Decode lib rest with
      | None => Err no_key
      | Some (block, rest) =>
          if streq (block_Type block) "PRIVATE KEY" then
            let? key := ParsePKCS8PrivateKey lib (block_Bytes block) in
            if validKey key then Ok key else key_loop fuel rest
          else if streq (block_Type block) "RSA PRIVATE KEY" then ParsePKCS1PrivateKey lib (block_Bytes block)
          else if streq (block_Type block) "EC PRIVATE KEY" then ParseECPrivateKey lib (block_Bytes block)
          else key_loop fuel rest
      end
  end.

Definition parsePrivateKeyFromPEMFile (path : str) : result str Key :=
  let? raw := os_ReadFile lib path in
  key_loop (S (length raw)) raw.

Definition pem_error (certificatePath e : str) : str :=
  "Unable to load PEM certificate '" ++ certificatePath ++ "': " ++ e.

Definition keyPath (certificatePath : str) : str :=
  match os_Stat lib (sidecar certificatePath) with StatOk => sidecar certificatePath | _ => certificatePath end.

Definition wrap_error {A} (certificatePath : str) (r : result str A) : result str A :=
  match r with Ok a => Ok a | Err e => Err (pem_error certificatePath e) end.

Definition loadPEM (certificatePath : str) : result str (TLSCertificate Cert Key) :=
  let? certificates := wrap_error certificatePath (parseCertificatesFromPEMFile certificatePath) in
  match certificates with
  | [] => Err (pem_error certificatePath "PEM file does not contain a certificate.")
  | leaf :: rest =>
      let? privateKey := wrap_error certificatePath (parsePrivateKeyFromPEMFile (keyPath certificatePath)) in
      Ok (mkTLS (Raw lib leaf :: (Raw lib <$> rest)) privateKey leaf)
  end.

(** ** PKCS#12 *)

Definition pfx_error : str := "TLS PFX must include an unencrypted private key".

Definition loadPKCS12 (path : str) : result str (TLSCertificate Cert Key) :=
  let? raw := os_ReadFile lib path in
  match DecodeChain lib raw with
  | Err e => Err (pfx_error ++ ": " ++ e)
  | Ok (Some privateKey, Some certificate, caCerts) =>
      Ok (mkTLS (Raw lib certificate :: (Raw lib <$> caCerts)) privateKey certificate)
  | Ok _ => Err (pfx_error ++ ".")
  end.

(** ** Dispatch *)

Definition LoadCertificate (path : str) : result str (TLSCertificate Cert Key) :=
  if blank path then Err "server.certificate_path must not be empty."
  else match os_Stat lib path with
       | StatNotExist => Err "TLS certificate file was not found."
       | StatError e => Err e
       | StatOk =>
           let lower := ToLower path in
           if HasSuffix lower ".pem" || HasSuffix lower ".crt" then loadPEM path
           else if HasSuffix lower ".pfx" || HasSuffix lower ".p12" then loadPKCS12 path
           else Err "TLS certificate must use .pem, .crt, .pfx, or .p12 extension."
       end.
End Load.

Example sidecar_examples : sidecar "/etc/tls/server.crt" = "/etc/tls/server.key" /\
  sidecar "a.b/c" = "a.b/c.key" /\ sidecar "x.tar.PEM" = "x.tar.key" /\ ToLower "A/x.PeM" = "a/x.pem".
Proof. repeat split; reflexivity. Qed.

(** ** What the loops find *)

Section Spec.
Context {Cert Key : Type} (lib : Libraries Cert Key).

(** The blocks of a text, up to where no further one is found. *)
Inductive decodes : str -> list Block -> Prop :=
| decodes_end raw : pem_Decode lib raw = None -> decodes raw []
| decodes_block raw b rest bs : pem_Decode lib raw = Some (b, rest) -> decodes rest bs -> decodes raw (b :: bs).

Definition is_certificate (b : Block) : Prop := block_Type b = "CERTIFICATE"%go.

(** What a block gives as a private key: nothing, an error or the key. *)
Definition block_key (b : Block) : option (result str Key) :=
  if streq (block_Type b) "PRIVATE KEY" then
    match ParsePKCS8PrivateKey lib (block_Bytes b) with
    | Ok key => if validKey lib key then Some (Ok key) else None
    | Err e => Some (Err e)
    end
  else if streq (block_Type b) "RSA PRIVATE KEY" then Some (ParsePKCS1PrivateKey lib (block_Bytes b))
  else if streq (block_Type b) "EC PRIVATE KEY" then Some (ParseECPrivateKey lib (block_Bytes b))
  else None.

(** A block is a proper part of the text it is decoded from. *)
Definition pem_shrinks : Prop :=
  forall raw b rest, pem_Decode lib raw = Some (b, rest) -> (length rest < length raw)%nat.


(** The first block that gives something gives the key. *)
Definition first_key (bs : list Block) (key : Key) : Prop :=
  exists pre b post, bs = pre ++ b :: post /\ Forall (fun b => block_key b = None) pre /\ block_key b = Some (Ok key).

Lemma decodes_total raw : pem_shrinks -> exists bs, decodes raw bs.
Proof.
  intros Hs. remember (length raw) as n eqn:Hn. revert raw Hn. induction n as [n IH] using lt_wf_ind. intros raw Hn.
  destruct (pem_Decode lib raw) as [[b rest]|] eqn:E; [|exists []; by constructor].
  destruct (IH (length rest)) with (raw := rest) as [bs Hbs]; [apply Hs in E; lia|done|].
  exists (b :: bs). by econstructor.
Qed.

Lemma decodes_fun raw bs bs' : decodes raw bs -> decodes raw bs' -> bs = bs'.
Proof.
  intros H. revert bs'.
  induction H as [raw E|raw b rest bs E H IH]; intros bs' H'; inversion H'; simplify_eq; [done|].
  f_equal. by apply IH.
Qed.

Lemma certificates_loop_spec raw bs : pem_shrinks -> decodes raw bs -> forall fuel acc cs, (length raw < fuel)%nat ->
  certificates_loop lib fuel raw acc = Ok cs <->
  exists l, cs = acc ++ l /\ Forall2 (fun b c => ParseCertificate lib (block_Bytes b) = Ok c) (filter is_certificate bs) l.
Proof.
  intros Hs Hd. induction Hd as [raw E|raw b rest bs E Hd IH]; intros [|fuel] acc cs Hf; try lia;
    cbn [certificates_loop]; rewrite E.
  - rewrite filter_nil. split; [intros [= <-]; exists []; by rewrite app_nil_r|].
    intros (l & -> & Hl). inversion Hl. by rewrite app_nil_r.
  - assert (length rest < fuel)%nat by (apply Hs in E; lia). rewrite filter_cons.
    destruct (streq_spec (block_Type b) "CERTIFICATE") as [Hb|Hb]; cbn [negb].
    2:{ rewrite decide_False by done. by apply IH. }
    rewrite decide_True by done. split.
    + intros H'. apply rbind_Ok in H' as (c & Hc & H'). apply IH in H' as (l & -> & Hl); [|done].
      exists (c :: l). rewrite <- app_assoc. split; [done|]. by constructor.
    + intros (l & -> & Hl). inversion Hl as [|? c ? l' Hc Hl']; subst. rewrite Hc. apply IH; [done|].
      exists l'. by rewrite <- app_assoc.
Qed.

Lemma key_loop_step fuel rest : key_loop lib (S fuel) rest =
  match pem_Decode lib rest with
  | None => Err no_key
  | Some (b, rest) => default (key_loop lib fuel rest) (block_key b)
  end.
Proof.
  cbn [key_loop]. destruct (pem_Decode lib rest) as [[b rest']|]; [|done]. unfold block_key.
  repeat (case_match; simplify_eq/=; try done).
Qed.

Lemma key_loop_spec raw bs : pem_shrinks -> decodes raw bs -> forall fuel key, (length raw < fuel)%nat ->
  key_loop lib fuel raw = Ok key <-> first_key bs key.
Proof.
  intros Hs Hd. induction Hd as [raw E|raw b rest bs E Hd IH]; intros [|fuel] key Hf; try lia;
    rewrite key_loop_step, E.
  - split; [done|]. intros (pre & b & post & Heq & _). by destruct pre.
  - assert (length rest < fuel)%nat by (apply Hs in E; lia).
    destruct (block_key b) as [r|] eqn:Eb; cbn [from_option id].
    + split; [intros ->; by exists [], b, bs|]. intros (pre & b' & post & Heq & Hpre & Hb').
      destruct pre as [|b0 pre]; simplify_eq/=; [congruence|]. inversion Hpre; congruence.
    + rewrite IH by done. split; intros (pre & b' & post & Heq & Hpre & Hb').
      * exists (b :: pre), b', post. subst. split; [done|]. split; [by constructor|done].
      * destruct pre as [|b0 pre]; [by simplify_eq/=|]. simplify_eq/=. inversion Hpre; subst. by exists pre, b', post.
Qed.

Lemma wrap_Ok {A} path (r : result str A) a : wrap_error path r = Ok a <-> r = Ok a.
Proof. by destruct r. Qed.

(** ** Properties *)

(** C29: The certificate loader is exact on PEM files, and its loops end (a decoded block shortens the text): a path
    that ends in .pem or .crt, in any case, and exists, loads exactly when every CERTIFICATE block of the file parses,
    there is at least one, and the first usable block of the .key file beside it (of the file itself where there is
    none) is a good private key. The chain is all certificates in the order of the file, the first one being the leaf; nothing
    relates the key to the leaf. *)
Theorem load_pem_exact path tls :
  pem_shrinks -> blank path = false -> os_Stat lib path = StatOk ->
  HasSuffix (ToLower path) ".pem" || HasSuffix (ToLower path) ".crt" = true ->
  LoadCertificate lib path = Ok tls <->
  exists raw blocks leaf rest kraw kblocks key,
    os_ReadFile lib path = Ok raw /\ decodes raw blocks /\
    Forall2 (fun b c => ParseCertificate lib (block_Bytes b) = Ok c) (filter is_certificate blocks) (leaf :: rest) /\
    os_ReadFile lib (match os_Stat lib (sidecar path) with StatOk => sidecar path | _ => path end) = Ok kraw /\
    decodes kraw kblocks /\ first_key kblocks key /\
    tls = mkTLS (Raw lib <$> leaf :: rest) key leaf.
Proof.
  intros Hs Hb Hst He. unfold LoadCertificate. rewrite Hb, Hst. cbv zeta. rewrite He. unfold loadPEM. split.
  - intros H. apply rbind_Ok in H as (cs & Hc & H). destruct cs as [|leaf rest]; [done|].
    apply rbind_Ok in H as (key & Hk & [= <-]). apply wrap_Ok in Hc. apply wrap_Ok in Hk.
    apply rbind_Ok in Hc as (raw & Hr & Hc). apply rbind_Ok in Hk as (kraw & Hkr & Hk).
    destruct (decodes_total raw Hs) as [bs Hbs]. destruct (decodes_total kraw Hs) as [kbs Hkbs].
    apply (certificates_loop_spec raw bs) in Hc as (l & Hl & Hc); auto. simpl in Hl. subst l.
    apply (key_loop_spec kraw kbs) in Hk; auto. by exists raw, bs, leaf, rest, kraw, kbs, key.
  - intros (raw & bs & leaf & rest & kraw & kbs & key & Hr & Hbs & Hc & Hkr & Hkbs & Hk & ->).
    unfold parseCertificatesFromPEMFile. rewrite Hr. cbn [rbind].
    rewrite (proj2 (certificates_loop_spec raw bs Hs Hbs (S (length raw)) [] (leaf :: rest) ltac:(lia))) by eauto.
    cbn [rbind wrap_error].
    unfold parsePrivateKeyFromPEMFile, keyPath. rewrite Hkr. cbn [rbind].
    by rewrite (proj2 (key_loop_spec kraw kbs Hs Hkbs (S (length kraw)) key ltac:(lia))).
Qed.
End Spec.

(** A toy library: a block is a line of a tag byte and a content byte. *)
Definition toy_Decode (raw : str) : option (Block * str) :=
  match raw with
  | t :: c :: rest =>
      Some ({| block_Type := if streq [t] "c" then "CERTIFICATE" else if streq [t] "k" then "PRIVATE KEY" else "OTHER";
               block_Bytes := [c] |}, rest)
  | _ => None
  end.

Definition toy : Libraries str str :=
  {| Raw := id; key_kind := fun k => if streq k "x" then KeyOther else KeyRSA;
     os_Stat := fun p => if streq p "s.pem" then StatOk else StatNotExist;
     os_ReadFile := fun _ => Ok ("o1c1kxc2k7" : str); pem_Decode := toy_Decode; ParseCertificate := Ok;
     ParsePKCS8PrivateKey := Ok; ParsePKCS1PrivateKey := Ok; ParseECPrivateKey := Ok;
     DecodeChain := fun _ => Err "no archive" |}.

Definition toy_blocks : list Block :=
  [Build_Block "OTHER" "1"; Build_Block "CERTIFICATE" "1"; Build_Block "PRIVATE KEY" "x";
   Build_Block "CERTIFICATE" "2"; Build_Block "PRIVATE KEY" "7"].

Lemma load_pem_exact_witness : LoadCertificate toy "s.pem" = Ok (mkTLS ["1"%go; "2"%go] ("7" : str) ("1" : str)).
Proof.
  apply (load_pem_exact toy "s.pem"); [|reflexivity..|].
  - intros [|t [|c r]] b rest; [done|done|]. intros [= _ <-]. simpl. lia.
  - exists "o1c1kxc2k7", toy_blocks, ("1" : str), [("2" : str)],
      "o1c1kxc2k7",
      toy_blocks, ("7" : str).
    assert (Hd : decodes toy "o1c1kxc2k7" toy_blocks).
    { repeat (eapply decodes_block; [reflexivity|]). by constructor. }
    split_and!; try done; try reflexivity.
    + repeat constructor.
    + eexists [_; _; _; _], _, []. split; [reflexivity|]. split; [repeat constructor|reflexivity].
Defined.
