(* ===== verification/JsonScan.v ===== *)
(** * The token-level JSON pre-scanner (internal/protocol/jsonscan.go)

    [Decode] turns a frame into a [Node] tree. The scanner state is the unread
    suffix of the input with its position; every function returns the new state
    or the scan error the code builds. *)
From S2P Require Import Prelude GoLib.

(** ** Data *)

(** [Node]: Go's [kind] tag with the field that kind uses. *)
Inductive Node : Type :=
| NObject (members : list (str * Node))
| NArray (items : list Node)
| NString (s : str)
| NNumber (raw : str)
| NBool (b : bool)
| NNull.

Definition IsObject (n : Node) : bool := match n with NObject _ => true | _ => false end.
Definition IsNull (n : Node) : bool := match n with NNull => true | _ => false end.
Definition IsArray (n : Node) : bool := match n with NArray _ => true | _ => false end.
Definition IsBool (n : Node) : bool := match n with NBool _ => true | _ => false end.
Definition IsString (n : Node) : bool := match n with NString _ => true | _ => false end.
Definition IsNumber (n : Node) : bool := match n with NNumber _ => true | _ => false end.

(** The field getters return Go's zero value for the other kinds. *)
Definition Str (n : Node) : str := match n with NString s => s | _ => [] end.
Definition Bool (n : Node) : bool := match n with NBool b => b | _ => false end.
Definition RawNumber (n : Node) : str := match n with NNumber r => r | _ => [] end.
Definition Members (n : Node) : list (str * Node) := match n with NObject ms => ms | _ => [] end.
Definition Items (n : Node) : list Node := match n with NArray its => its | _ => [] end.

Fixpoint find_member (key : str) (ms : list (str * Node)) : option Node :=
  match ms with
  | [] => None
  | (k, v) :: ms' => if bool_decide (k = key) then Some v else find_member key ms'
  end.

(** [Get]: the first member of that name; [None] is Go's [nil]. *)
Definition Get (n : Node) (key : str) : option Node :=
  match n with NObject ms => find_member key ms | _ => None end.

Definition Len (n : Node) : Z :=
  match n with NObject ms => len ms | NArray its => len its | _ => 0 end.

(** The errors of [scanErrf], one constructor per message. *)
Inductive scanError : Type :=
| EInvalidUTF8 | EEmpty | ETrailing (pos : Z) | EUnexpectedEnd
| EInvalidChar (c : byte) (pos : Z) | ELiteral (pos : Z) | EDepth (max : Z)
| EKey (pos : Z) | EColon (pos : Z) | EObjectEnd | EArrayEnd
| EUnexpectedChar (c : byte) (pos : Z)
| ENumberEnd | ENumber (start : Z) | ENotInteger (start : Z)
| EUnterminated | EControl (pos : Z) | EUnterminatedEscape
| EEscape (c : byte) (pos : Z) | EUnpaired (pos : Z) | EPair (pos : Z) | EUnicode (pos : Z)
| EFuel. (* not an error of the code: [Decode_total] shows it never occurs *)

Definition hexDigits : str := "0123456789abcdef".
Definition hex_byte (v : Z) : byte := nth (Z.to_nat v) hexDigits x00.

(** fmt's [%q] of a byte: a quoted character literal (strconv.QuoteRune). *)
Definition quote_byte (c : byte) : str :=
  let v := bval c in
  let body : str :=
    if bool_decide (c = "'"%byte) then "\'"
    else if bool_decide (c = "\"%byte) then "\\"
    else if v =? 7 then "\a" else if v =? 8 then "\b" else if v =? 12 then "\f"
    else if v =? 10 then "\n" else if v =? 13 then "\r" else if v =? 9 then "\t"
    else if v =? 11 then "\v"
    else if (v <? 32) || (v =? 127) then "\x" ++ [hex_byte (v / 16); hex_byte (v mod 16)]
    else if v <? 127 then [c]
    else if (v <=? 160) || (v =? 173) then "\u00" ++ [hex_byte (v / 16); hex_byte (v mod 16)]
    else encode_rune v in
  "'" ++ body ++ "'".

(** [jsonScanError.Error]. *)
Definition scan_message (e : scanError) : str :=
  let at_ (p : Z) : str := " at position " ++ FormatInt p ++ "." in
  match e with
  | EInvalidUTF8 => "input is not valid UTF-8."
  | EEmpty => "input is empty."
  | ETrailing p => "trailing content" ++ at_ p
  | EUnexpectedEnd => "unexpected end of input."
  | EInvalidChar c p => "invalid character " ++ quote_byte c ++ at_ p
  | ELiteral p => "invalid literal" ++ at_ p
  | EDepth m => "maximum depth of " ++ FormatInt m ++ " exceeded."
  | EKey p => "expected object key" ++ at_ p
  | EColon p => "expected ':'" ++ at_ p
  | EObjectEnd => "unexpected end of object."
  | EArrayEnd => "unexpected end of array."
  | EUnexpectedChar c p => "unexpected character " ++ quote_byte c ++ at_ p
  | ENumberEnd => "unexpected end of number."
  | ENumber p => "invalid number" ++ at_ p
  | ENotInteger p => "number must be an integer literal" ++ at_ p
  | EUnterminated => "unterminated string."
  | EControl p => "control character in string" ++ at_ p
  | EUnterminatedEscape => "unterminated escape sequence."
  | EEscape c p => "invalid escape character " ++ quote_byte c ++ at_ p
  | EUnpaired p => "unpaired surrogate in string" ++ at_ p
  | EPair p => "invalid surrogate pair in string" ++ at_ p
  | EUnicode p => "invalid unicode escape" ++ at_ p
  | EFuel => []
  end.

(** ** Scanner state: [rest] is [data[pos:]]. *)
Record scanner : Type := mkScanner { rest : str; pos : Z }.

Abbreviation scan A := (result scanError A).

Definition adv (n : nat) (p : scanner) : scanner :=
  mkScanner (drop n (rest p)) (pos p + Z.of_nat n).

(** ** Leaf scanners *)

Fixpoint skip_ws (s : str) (q : Z) : scanner :=
  match s with
  | (" "%byte | x09 | x0a | x0d) :: s' => skip_ws s' (q + 1)
  | _ => mkScanner s q
  end.
Definition skipWhitespace (p : scanner) : scanner := skip_ws (rest p) (pos p).

Fixpoint expectLiteral (l : str) (p : scanner) : scan scanner :=
  match l with
  | [] => Ok p
  | c :: l' => match rest p with
               | d :: _ => if bool_decide (d = c) then expectLiteral l' (adv 1 p)
                           else Err (ELiteral (pos p))
               | [] => Err (ELiteral (pos p))
               end
  end.

Definition hex_digit (c : byte) : option Z :=
  let v := bval c in
  if (48 <=? v) && (v <=? 57) then Some (v - 48)
  else if (97 <=? v) && (v <=? 102) then Some (v - 97 + 10)
  else if (65 <=? v) && (v <=? 70) then Some (v - 65 + 10)
  else None.

Fixpoint hex_loop (n : nat) (value : Z) (p : scanner) : scan (Z * scanner) :=
  match n with
  | O => Ok (value, p)
  | S n' => match rest p with
            | [] => Err (EUnicode (pos p))
            | c :: _ => match hex_digit c with
                        | Some d => hex_loop n' (Z.lor (Z.shiftl value 4) d) (adv 1 p)
                        | None => Err (EUnicode (pos p))
                        end
            end
  end.

(** [parseHex4] expects the state at the [u] of the escape. *)
Definition parseHex4 (p : scanner) : scan (Z * scanner) :=
  match rest p with
  | "u"%byte :: _ => hex_loop 4 0 (adv 1 p)
  | _ => Err (EUnicode (pos p))
  end.

Definition parseUnicodeEscape (out : str) (p : scanner) : scan (str * scanner) :=
  let? (hi, p1) := parseHex4 p in
  if IsSurrogate hi then
    match rest p1 with
    | "\"%byte :: "u"%byte :: _ =>
        let? (lo, p2) := parseHex4 (adv 1 p1) in
        let combined := DecodeRune16 hi lo in
        if combined =? RuneError then Err (EPair (pos p2))
        else Ok (AppendRune out combined, p2)
    | _ => Err (EUnpaired (pos p1))
    end
  else Ok (AppendRune out hi, p1).

(** The body of [parseString] after the opening quote. *)
Fixpoint string_loop (fuel : nat) (out : str) (p : scanner) : scan (str * scanner) :=
  match fuel with
  | O => Err EFuel
  | S f =>
    match rest p with
    | [] => Err EUnterminated
    | c :: _ =>
      if bool_decide (c = x22) then Ok (out, adv 1 p)
      else if bval c <? 32 then Err (EControl (pos p))
      else if bool_decide (c = "\"%byte) then
        let p1 := adv 1 p in
        match rest p1 with
        | [] => Err EUnterminatedEscape
        | esc :: _ =>
          match esc with
          | x22 => string_loop f (out ++ [x22]) (adv 1 p1)
          | "\"%byte => string_loop f (out ++ "\") (adv 1 p1)
          | "/"%byte => string_loop f (out ++ "/") (adv 1 p1)
          | "b"%byte => string_loop f (out ++ [x08]) (adv 1 p1)
          | "f"%byte => string_loop f (out ++ [x0c]) (adv 1 p1)
          | "n"%byte => string_loop f (out ++ [x0a]) (adv 1 p1)
          | "r"%byte => string_loop f (out ++ [x0d]) (adv 1 p1)
          | "t"%byte => string_loop f (out ++ [x09]) (adv 1 p1)
          | "u"%byte => let? (out', p2) := parseUnicodeEscape out p1 in string_loop f out' p2
          | _ => Err (EEscape esc (pos p1))
          end
        end
      else let '(r, size) := DecodeRune (rest p) in
           string_loop f (AppendRune out r) (adv size p)
    end
  end.

Definition parseString (p : scanner) : scan (str * scanner) :=
  let p1 := adv 1 p in string_loop (S (length (rest p1))) [] p1.

Fixpoint skip_digits (s : str) (q : Z) : scanner :=
  match s with
  | c :: s' => if is_digit c then skip_digits s' (q + 1) else mkScanner s q
  | [] => mkScanner [] q
  end.

(** [data[start:p.pos]] for two states of one scan. *)
Definition slice (p0 p : scanner) : str :=
  take (length (rest p0) - length (rest p)) (rest p0).

Definition parseNumber (p : scanner) : scan (Node * scanner) :=
  let start := pos p in
  let? p1 := (match rest p with
              | "-"%byte :: r => if bool_decide (r = []) then Err ENumberEnd else Ok (adv 1 p)
              | _ => Ok p
              end) in
  let? p2 := (match rest p1 with
              | [] => Err ENumberEnd
              | c :: _ =>
                  if bool_decide (c = "0"%byte) then Ok (adv 1 p1)
                  else if is_digit c then Ok (skip_digits (rest p1) (pos p1))
                  else Err (ENumber start)
              end) in
  match rest p2 with
  | c :: _ =>
      if ContainsAny [c] ".eE" then Err (ENotInteger start)
      else if ContainsAny [c] "0123456789-+" then Err (ENumber start)
      else Ok (NNumber (slice p p2), p2)
  | [] => Ok (NNumber (slice p p2), p2)
  end.

(** ** Containers and values *)

Section Values.
Variable maxDepth : Z.

Section Containers.
(** [parseValue(depth + 1)], tied in [parseValue] below. *)
Variable parseNested : scanner -> scan (Node * scanner).

Fixpoint object_loop (fuel : nat) (acc : list (str * Node)) (p0 : scanner)
  : scan (Node * scanner) :=
  match fuel with
  | O => Err EFuel
  | S f =>
    let p := skipWhitespace p0 in
    match rest p with
    | x22 :: _ =>
      let? (key, p1) := parseString p in
      let p2 := skipWhitespace p1 in
      match rest p2 with
      | ":"%byte :: _ =>
        let? (value, p3) := parseNested (skipWhitespace (adv 1 p2)) in
        let acc' := acc ++ [(key, value)] in
        let p4 := skipWhitespace p3 in
        match rest p4 with
        | [] => Err EObjectEnd
        | ","%byte :: _ => object_loop f acc' (adv 1 p4)
        | "}"%byte :: _ => Ok (NObject acc', adv 1 p4)
        | c :: _ => Err (EUnexpectedChar c (pos p4))
        end
      | _ => Err (EColon (pos p2))
      end
    | _ => Err (EKey (pos p))
    end
  end.

Definition parseObject (depth : Z) (p : scanner) : scan (Node * scanner) :=
  if maxDepth <? depth then Err (EDepth maxDepth)
  else let p1 := skipWhitespace (adv 1 p) in
       match rest p1 with
       | "}"%byte :: _ => Ok (NObject [], adv 1 p1)
       | _ => object_loop (S (length (rest p1))) [] p1
       end.

Fixpoint array_loop (fuel : nat) (acc : list Node) (p0 : scanner)
  : scan (Node * scanner) :=
  match fuel with
  | O => Err EFuel
  | S f =>
    let? (value, p1) := parseNested (skipWhitespace p0) in
    let acc' := acc ++ [value] in
    let p2 := skipWhitespace p1 in
    match rest p2 with
    | [] => Err EArrayEnd
    | ","%byte :: _ => array_loop f acc' (adv 1 p2)
    | "]"%byte :: _ => Ok (NArray acc', adv 1 p2)
    | c :: _ => Err (EUnexpectedChar c (pos p2))
    end
  end.

Definition parseArray (depth : Z) (p : scanner) : scan (Node * scanner) :=
  if maxDepth <? depth then Err (EDepth maxDepth)
  else let p1 := skipWhitespace (adv 1 p) in
       match rest p1 with
       | "]"%byte :: _ => Ok (NArray [], adv 1 p1)
       | _ => array_loop (S (length (rest p1))) [] p1
       end.
End Containers.

(** The fuel bounds the nesting: [parseObject] and [parseArray] stop at
    [maxDepth] before they recurse. *)
Fixpoint parseValue (fuel : nat) (depth : Z) (p : scanner) : scan (Node * scanner) :=
  match fuel with
  | O => Err EFuel
  | S f =>
    match rest p with
    | [] => Err EUnexpectedEnd
    | c :: _ =>
      match c with
      | "{"%byte => parseObject (parseValue f (depth + 1)) depth p
      | "["%byte => parseArray (parseValue f (depth + 1)) depth p
      | x22 => let? (s, p1) := parseString p in Ok (NString s, p1)
      | "t"%byte => let? p1 := expectLiteral "true" p in Ok (NBool true, p1)
      | "f"%byte => let? p1 := expectLiteral "false" p in Ok (NBool false, p1)
      | "n"%byte => let? p1 := expectLiteral "null" p in Ok (NNull, p1)
      | _ => if bool_decide (c = "-"%byte) || is_digit c then parseNumber p
             else Err (EInvalidChar c (pos p))
      end
    end
  end.

Definition Decode (frame : str) : scan Node :=
  if negb (Valid frame) then Err EInvalidUTF8
  else
    let p := skipWhitespace (mkScanner frame 0) in
    if bool_decide (rest p = []) then Err EEmpty
    else let? (root, p1) := parseValue (S (Z.to_nat maxDepth)) 1 p in
         let p2 := skipWhitespace p1 in
         if bool_decide (rest p2 = []) then Ok root else Err (ETrailing (pos p2)).
End Values.

(** ** Specification vocabulary *)

(** The number forms the scanner lets through: [-?(0|[1-9][0-9]* )]. *)
Definition canonical_number (raw : str) : bool :=
  match raw with "-"%byte :: r => canonical_nat r | _ => canonical_nat raw end.

(** Well-formed trees: every key and string is valid UTF-8, every number canonical. *)
Fixpoint wf_node (n : Node) : bool :=
  match n with
  | NObject ms => forallb (fun '(k, v) => Valid k && wf_node v) ms
  | NArray its => forallb wf_node its
  | NString s => Valid s
  | NNumber raw => canonical_number raw
  | NBool _ | NNull => true
  end.

(** Nesting depth: the root container counts as 1, a scalar as 0. *)
Fixpoint node_depth (n : Node) : Z :=
  match n with
  | NObject ms => 1 + foldr (fun '(_, v) m => Z.max (node_depth v) m) 0 ms
  | NArray its => 1 + foldr (fun v m => Z.max (node_depth v) m) 0 its
  | _ => 0
  end.

Definition members_depth (ms : list (str * Node)) : Z :=
  foldr (fun '(_, v) m => Z.max (node_depth v) m) 0 ms.
Definition items_depth (its : list Node) : Z :=
  foldr (fun v m => Z.max (node_depth v) m) 0 its.

(** [p'] is [p] after reading [k]. *)
Definition consumes (k : str) (p p' : scanner) : Prop :=
  rest p = k ++ rest p' /\ pos p' = pos p + len k.

(** [p'] is [p] after reading at least one byte. *)
Definition advances (p p' : scanner) : Prop := exists k, k <> [] /\ consumes k p p'.

(** Postcondition of a scan: it read something and its value is good, or it failed
    with an error of the code. *)
Definition scanned {A} (P : A -> Prop) (p : scanner) (m : scan (A * scanner)) : Prop :=
  match m with
  | Ok (a, p') => advances p p' /\ P a
  | Err e => e <> EFuel
  end.

(** ** Consumption lemmas *)

Lemma consumes_nil p : consumes [] p p.
Proof. split; [done|]. rewrite len_nil. lia. Qed.

Lemma consumes_app k k' p p' p'' :
  consumes k p p' -> consumes k' p' p'' -> consumes (k ++ k') p p''.
Proof.
  intros [H1 H2] [H3 H4]. split; [by rewrite H1, H3, app_assoc|].
  rewrite H4, H2, len_app. lia.
Qed.

Lemma consumes_adv n p : (n <= length (rest p))%nat -> consumes (take n (rest p)) p (adv n p).
Proof.
  intros Hn. unfold consumes, adv; simpl. rewrite take_drop. split; [done|].
  unfold len. rewrite length_take. lia.
Qed.

Lemma advances_adv p c s : rest p = c :: s -> advances p (adv 1 p).
Proof.
  intros E. exists [c]. split; [done|]. unfold consumes, adv. rewrite E. done.
Qed.

Lemma advances_consumes k p p' p'' : advances p p' -> consumes k p' p'' -> advances p p''.
Proof.
  intros (k0 & Hk & H0) H. exists (k0 ++ k). split; [by destruct k0|]. by eapply consumes_app.
Qed.

Lemma consumes_advances k p p' p'' : consumes k p p' -> advances p' p'' -> advances p p''.
Proof.
  intros H (k0 & Hk & H0). exists (k ++ k0). split; [by destruct k|]. by eapply consumes_app.
Qed.

Lemma advances_trans p p' p'' : advances p p' -> advances p' p'' -> advances p p''.
Proof. intros (k & _ & H). by apply consumes_advances with k. Qed.

Lemma advances_shorter p p' : advances p p' -> (length (rest p') < length (rest p))%nat.
Proof. intros ([|c k] & Hk & [-> _]); [done|]. simpl. rewrite length_app. lia. Qed.

Lemma skip_ws_consumes s q : exists k, consumes k (mkScanner s q) (skip_ws s q).
Proof.
  assert (Hcons : forall c s q, (exists k, consumes k (mkScanner s (q + 1)) (skip_ws s (q + 1))) ->
    exists k, consumes k (mkScanner (c :: s) q) (skip_ws s (q + 1))).
  { intros c t r (k & H1 & H2). exists (c :: k). split; simpl in *; [by f_equal|].
    rewrite H2, len_cons. lia. }
  revert q. induction s as [|c s IH]; intros q; [by exists []; apply consumes_nil|].
  destruct c; simpl; try apply Hcons, IH; exists []; apply consumes_nil.
Qed.

Lemma skipWhitespace_consumes p : exists k, consumes k p (skipWhitespace p).
Proof. destruct p as [s q]. apply skip_ws_consumes. Qed.

Lemma advances_skip p p' : advances p p' -> advances p (skipWhitespace p').
Proof.
  intros H. destruct (skipWhitespace_consumes p') as [k Hk]. by eapply advances_consumes.
Qed.

Lemma skip_advances p p' : advances (skipWhitespace p) p' -> advances p p'.
Proof.
  intros H. destruct (skipWhitespace_consumes p) as [k Hk]. by eapply consumes_advances.
Qed.

Lemma skip_length p : (length (rest (skipWhitespace p)) <= length (rest p))%nat.
Proof.
  destruct (skipWhitespace_consumes p) as (k & H & _). rewrite H, length_app. lia.
Qed.

#[export] Hint Resolve advances_adv advances_skip skip_advances : go.

(** Sequencing two scans. *)
Lemma scanned_bind {A B} (P : A -> Prop) (Q : B -> Prop) p (m : scan (A * scanner)) k :
  scanned P p m ->
  (forall a p', advances p p' -> P a -> scanned Q p' (k (a, p')) \/
     (exists b, k (a, p') = Ok (b, p') /\ Q b)) ->
  scanned Q p (rbind m k).
Proof.
  destruct m as [[a p']|e]; simpl; [|done]. intros [Hadv HP] Hk.
  destruct (Hk a p' Hadv HP) as [H|(b & E & HQ)].
  - unfold scanned in *. destruct (k (a, p')) as [[b p'']|]; [|done].
    destruct H. split; [by eapply advances_trans|done].
  - rewrite E. done.
Qed.

(** ** Leaf scanners meet their postcondition *)

Lemma expectLiteral_consumes l p : match expectLiteral l p with
  | Ok p' => consumes l p p' | Err e => e <> EFuel end.
Proof.
  revert p. induction l as [|c l IH]; intros p; simpl; [apply consumes_nil|].
  destruct (rest p) as [|d s] eqn:E; [done|]. case_bool_decide; [subst d|done].
  specialize (IH (adv 1 p)). destruct (expectLiteral l (adv 1 p)) as [p'|]; [|done].
  apply (consumes_app [c] l p (adv 1 p)); [|done]. unfold consumes, adv. rewrite E. done.
Qed.

Lemma expectLiteral_scanned {A} (P : A -> Prop) c l p a : P a ->
  scanned P p (rbind (expectLiteral (c :: l) p) (fun p1 => Ok (a, p1))).
Proof.
  intros HP. pose proof (expectLiteral_consumes (c :: l) p) as H.
  destruct (expectLiteral (c :: l) p) as [p'|]; [|done]. split; [|done]. by exists (c :: l).
Qed.

Lemma hex_digit_range c d : hex_digit c = Some d -> 0 <= d < 16.
Proof. unfold hex_digit. intros H. repeat case_match; bool_to_prop; simplify_eq; lia. Qed.

Lemma lor_nibble v d : 0 <= v -> 0 <= d < 16 -> Z.lor (Z.shiftl v 4) d = v * 16 + d.
Proof.
  intros Hv Hd. rewrite Z.shiftl_mul_pow2 by lia.
  pose proof (Z.add_lor_land (v * 2 ^ 4) d) as Hadd.
  assert (Z.land (v * 2 ^ 4) d = 0) as Hz; [|lia]. apply Z.bits_inj'. intros n Hn.
  rewrite Z.land_spec, Z.bits_0.
  destruct (Z.ltb_spec n 4).
  - by rewrite Z.mul_pow2_bits_low.
  - rewrite (Z.bits_above_log2 d n), andb_false_r; [done|lia|].
    destruct (Z.eq_dec d 0) as [->|]; [simpl; lia|]. apply Z.log2_lt_pow2; [lia|].
    apply Z.lt_le_trans with (2 ^ 4); [lia|]. apply Z.pow_le_mono_r; lia.
Qed.

Lemma hex_loop_scanned n v p : 0 <= v -> match hex_loop n v p with
  | Ok (w, p') => (exists k, length k = n /\ consumes k p p') /\
                  0 <= w < (v + 1) * 16 ^ Z.of_nat n
  | Err e => e <> EFuel end.
Proof.
  revert v p. induction n as [|n IH]; intros v p Hv; simpl hex_loop.
  { split; [exists []; split; [done|apply consumes_nil]|simpl; lia]. }
  destruct (rest p) as [|c s] eqn:E; [done|]. destruct (hex_digit c) as [d|] eqn:Hd; [|done].
  apply hex_digit_range in Hd. rewrite lor_nibble by done.
  specialize (IH (v * 16 + d) (adv 1 p) ltac:(lia)).
  destruct (hex_loop n (v * 16 + d) (adv 1 p)) as [[w p']|]; [|done].
  destruct IH as [(k & Hl & Hk) Hw]. split.
  - exists (c :: k). split; [simpl; by rewrite Hl|]. apply (consumes_app [c] k p (adv 1 p)); [|done].
    unfold consumes, adv. rewrite E. done.
  - rewrite Nat2Z.inj_succ, Z.pow_succ_r by lia.
    assert ((v * 16 + d + 1) * 16 ^ Z.of_nat n <= (v + 1) * 16 * 16 ^ Z.of_nat n)
      by (apply Z.mul_le_mono_nonneg_r; lia).
    rewrite Z.mul_assoc. lia.
Qed.

(** A [\uXXXX] unit is a 16-bit value. *)
Lemma parseHex4_scanned p : scanned (fun w => 0 <= w < 65536) p (parseHex4 p).
Proof.
  unfold parseHex4. destruct (rest p) as [|c s] eqn:E; [done|].
  pose proof (hex_loop_scanned 4 0 (adv 1 p) ltac:(lia)) as H.
  destruct c; try done. destruct (hex_loop 4 0 (adv 1 p)) as [[w p']|]; [|done].
  destruct H as [(k & _ & Hk) Hw]. split; [|simpl in Hw; lia].
  eapply advances_consumes; [|done]. by eapply advances_adv.
Qed.

Lemma DecodeRune16_scalar hi lo : is_scalar (DecodeRune16 hi lo) = true.
Proof.
  unfold DecodeRune16. destruct (_ && _) eqn:E; [|done]. bool_to_prop.
  apply is_scalar_spec. lia.
Qed.

Lemma parseUnicodeEscape_scanned out p :
  Valid out = true -> scanned (fun o => Valid o = true) p (parseUnicodeEscape out p).
Proof.
  intros Hout. unfold parseUnicodeEscape.
  eapply scanned_bind; [apply parseHex4_scanned|]. intros hi p1 _ _.
  destruct (IsSurrogate hi); [|right; eauto with go].
  left. destruct (rest p1) as [|c [|d s]] eqn:E; [done|by destruct c|].
  destruct c; try done. destruct d; try done.
  pose proof (parseHex4_scanned (adv 1 p1)) as H.
  destruct (parseHex4 (adv 1 p1)) as [[lo p2]|]; [|done]. destruct H as [H _].
  cbn. destruct (_ =? _); [done|]. split; [|by apply Valid_AppendRune].
  eapply advances_trans; [|exact H]. by eapply advances_adv.
Qed.

Lemma decode_size c s : (1 <= (DecodeRune (c :: s)).2 <= length (c :: s))%nat.
Proof.
  destruct (decode_cases c s) as [->|(r & _ & -> & E)]; [simpl; lia|].
  pose proof (length_encode_rune r). apply (f_equal length) in E.
  rewrite length_app in E. simpl in *. lia.
Qed.

Lemma advances_decode p c s : rest p = c :: s -> advances p (adv (DecodeRune (c :: s)).2 p).
Proof.
  intros E. pose proof (decode_size c s) as [H1 H2].
  exists (take (DecodeRune (c :: s)).2 (rest p)). split.
  - rewrite E. destruct (DecodeRune (c :: s)).2; [lia|done].
  - apply consumes_adv. by rewrite E.
Qed.

Lemma scanned_after {A} (P : A -> Prop) p p' m :
  advances p p' -> scanned P p' m -> scanned P p m.
Proof.
  unfold scanned. intros H. destruct m as [[a p'']|]; [|done]. intros [H' HP].
  split; [by eapply advances_trans|done].
Qed.

Lemma string_loop_scanned fuel out p : (length (rest p) < fuel)%nat -> Valid out = true ->
  scanned (fun o => Valid o = true) p (string_loop fuel out p).
Proof.
  revert out p. induction fuel as [|f IH]; intros out p Hf Hout; [lia|]. cbn [string_loop].
  destruct (rest p) as [|c s] eqn:E; [done|]. simpl in Hf.
  assert (Hstep : forall out' p', Valid out' = true -> advances p p' ->
    scanned (fun o => Valid o = true) p (string_loop f out' p')).
  { intros out' p' Hv Hadv. eapply scanned_after; [done|]. apply IH; [|done].
    apply advances_shorter in Hadv. rewrite E in Hadv. simpl in Hadv. lia. }
  case_bool_decide; [split; [by eapply advances_adv|done]|].
  destruct (_ <? _); [done|]. case_bool_decide.
  - destruct (rest (adv 1 p)) as [|esc t] eqn:E1; [done|].
    pose proof (advances_adv _ _ _ E) as Ha. pose proof (advances_adv _ _ _ E1) as Hb.
    assert (Hesc : forall b : byte, (bval b <? 128) = true ->
      scanned (fun o => Valid o = true) p (string_loop f (out ++ [b]) (adv 1 (adv 1 p)))).
    { intros b Hb128. apply Hstep; [|by eapply advances_trans].
      apply Valid_app; [done|]. apply Valid_ascii. simpl. by rewrite Hb128. }
    destruct esc; try done; try (apply Hesc; reflexivity).
    eapply scanned_after; [done|].
    eapply scanned_bind; [by apply parseUnicodeEscape_scanned|].
    intros out' p2 Hadv Hv. left. apply IH; [|done].
    apply advances_shorter in Hadv, Ha. rewrite E in Ha. cbn [length] in Ha. lia.
  - destruct (DecodeRune (c :: s)) as [r n] eqn:D. apply Hstep; [by apply Valid_AppendRune|].
    replace n with (DecodeRune (c :: s)).2 by (by rewrite D). by apply advances_decode.
Qed.

Lemma parseString_scanned p c s : rest p = c :: s ->
  scanned (fun o => Valid o = true) p (parseString p).
Proof.
  intros E. unfold parseString. eapply scanned_after; [by eapply advances_adv|].
  apply string_loop_scanned; [lia|done].
Qed.

Lemma slice_consumes k p p' : consumes k p p' -> slice p p' = k.
Proof.
  intros [E _]. unfold slice. rewrite E, length_app.
  replace (length k + length (rest p') - length (rest p'))%nat with (length k) by lia.
  apply take_app_length.
Qed.

Lemma skip_digits_consumes s q : exists k,
  forallb is_digit k = true /\ consumes k (mkScanner s q) (skip_digits s q).
Proof.
  revert q. induction s as [|c s IH]; intros q; simpl; [exists []; split; [done|apply consumes_nil]|].
  destruct (is_digit c) eqn:Hc; [|exists []; split; [done|apply consumes_nil]].
  destruct (IH (q + 1)) as (k & Hk & H1 & H2). exists (c :: k). simpl. rewrite Hc, Hk.
  split; [done|]. split; simpl in *; [by f_equal|]. rewrite H2, len_cons. lia.
Qed.

(** The integer part: ["0"] or a digit run that does not start with [0]. *)
Lemma integer_part_consumes p1 e :
  match (match rest p1 with
         | [] => Err ENumberEnd
         | c :: _ => if bool_decide (c = "0"%byte) then Ok (adv 1 p1)
                     else if is_digit c then Ok (skip_digits (rest p1) (pos p1))
                     else Err (ENumber e)
         end) with
  | Ok p2 => exists k, canonical_nat k = true /\ consumes k p1 p2
  | Err e => e <> EFuel
  end.
Proof.
  destruct (rest p1) as [|c s] eqn:E; [done|]. case_bool_decide as Hc.
  - subst c. exists "0"%go. split; [done|]. unfold consumes, adv. rewrite E. done.
  - destruct (is_digit c) eqn:Hd; [|done].
    destruct (skip_digits_consumes (c :: s) (pos p1)) as (k & Hk & H1 & H2).
    exists k. split.
    + simpl in H1, H2. rewrite Hd in H1, H2. destruct k as [|d k].
      { destruct (skip_digits_consumes s (pos p1 + 1)) as (k' & _ & H1' & _). simpl in *.
        apply (f_equal length) in H1, H1'. rewrite length_app in H1'. simpl in *. lia. }
      simpl in H1. injection H1 as <- _. unfold canonical_nat. simpl in Hk. bool_to_prop.
      rewrite Hd, H0. rewrite bool_decide_eq_false_2; done.
    + destruct p1 as [r q]; simpl in *. by rewrite E.
Qed.

(** A number node holds the bytes that were read. *)
Lemma parseNumber_consumes p c s : rest p = c :: s ->
  match parseNumber p with
  | Ok (n, p') => exists raw, n = NNumber raw /\ canonical_number raw = true /\ raw <> [] /\ consumes raw p p'
  | Err e => e <> EFuel
  end.
Proof.
  intros E. unfold parseNumber.
  assert (Hsign : match (match rest p with
      | "-"%byte :: r => if bool_decide (r = []) then Err ENumberEnd else Ok (adv 1 p)
      | _ => Ok p end) with
    | Ok p1 => exists sg, (sg = [] /\ c <> "-"%byte \/ sg = "-"%go) /\ consumes sg p p1
    | Err e => e <> EFuel end).
  { rewrite E. destruct c; try (exists []; split; [by left|apply consumes_nil]).
    case_bool_decide; [done|]. exists "-"%go. split; [by right|]. unfold consumes, adv. by rewrite E. }
  destruct (match rest p with "-"%byte :: r => _ | _ => _ end) as [p1|]; [|done].
  destruct Hsign as (sg & Hsg & H1). cbn [rbind].
  pose proof (integer_part_consumes p1 (pos p)) as H2.
  destruct (match rest p1 with [] => _ | _ :: _ => _ end) as [p2|]; [|done]. cbn [rbind].
  destruct H2 as (k & Hk & H2). pose proof (consumes_app _ _ _ _ _ H1 H2) as H12.
  assert (Hcan : canonical_number (sg ++ k) = true).
  { destruct Hsg as [[-> Hc]| ->]; [|done]. destruct k as [|d k]; [done|].
    destruct H12 as [H12 _]. rewrite E in H12. injection H12 as -> _.
    unfold canonical_number. simpl. by destruct d. }
  assert (Hraw : exists raw, NNumber (sg ++ k) = NNumber raw /\ canonical_number raw = true /\ raw <> [] /\
    consumes raw p p2).
  { exists (sg ++ k). split_and!; try done. by destruct sg, k. }
  rewrite (slice_consumes _ _ _ H12).
  destruct (rest p2); [exact Hraw|]. do 2 (destruct (ContainsAny _ _); [done|]). exact Hraw.
Qed.

Lemma parseNumber_scanned p c s : rest p = c :: s ->
  scanned (fun n => wf_node n = true /\ node_depth n = 0) p (parseNumber p).
Proof.
  intros E. pose proof (parseNumber_consumes p c s E) as H. unfold scanned.
  destruct (parseNumber p) as [[n p']|e]; [|done]. destruct H as (raw & -> & Hc & Hne & H).
  split; [exists raw; split; [exact Hne|exact H]|split; [exact Hc|reflexivity]].
Qed.

(** ** Containers and values meet their postcondition *)

Definition bounded_node (D : Z) (n : Node) : Prop := wf_node n = true /\ node_depth n <= D.

Section ContainerProofs.
Variable maxDepth : Z.
Variable parseNested : scanner -> scan (Node * scanner).
Variable D : Z.
Hypothesis D_nonneg : 0 <= D.
Hypothesis nested_ok : forall p, scanned (bounded_node D) p (parseNested p).

Lemma members_depth_app ms ks :
  members_depth (ms ++ ks) <= D <-> members_depth ms <= D /\ members_depth ks <= D.
Proof using D_nonneg.
  induction ms as [|[k v] ms IH]; simpl; [|unfold members_depth in *; simpl; lia].
  unfold members_depth; simpl; lia.
Qed.

Lemma items_depth_app ns ks :
  items_depth (ns ++ ks) <= D <-> items_depth ns <= D /\ items_depth ks <= D.
Proof using D_nonneg.
  induction ns as [|v ns IH]; simpl; [|unfold items_depth in *; simpl; lia].
  unfold items_depth; simpl; lia.
Qed.

Definition good_members (ms : list (str * Node)) : Prop :=
  forallb (fun '(k, v) => Valid k && wf_node v) ms = true /\ members_depth ms <= D.
Definition good_items (ns : list Node) : Prop :=
  forallb wf_node ns = true /\ items_depth ns <= D.

Lemma object_loop_scanned fuel acc p : (length (rest p) < fuel)%nat -> good_members acc ->
  scanned (bounded_node (1 + D)) p (object_loop parseNested fuel acc p).
Proof using D_nonneg nested_ok.
  revert acc p. induction fuel as [|f IH]; intros acc p Hf Hacc; [lia|]. cbn [object_loop].
  set (q := skipWhitespace p). destruct (skipWhitespace_consumes p) as [k0 Hk0]. fold q in Hk0.
  destruct (rest q) as [|c s] eqn:E; [done|]. destruct c; try done.
  pose proof (parseString_scanned q _ _ E) as Hs.
  destruct (parseString q) as [[key p1]|]; [|done]. destruct Hs as [Ha1 Hkey]. cbn [rbind].
  apply (consumes_advances _ _ _ _ Hk0), advances_skip in Ha1.
  set (p2 := skipWhitespace p1) in *. destruct (rest p2) as [|c t] eqn:E2; [done|].
  destruct c; try done. pose proof (nested_ok (skipWhitespace (adv 1 p2))) as Hn.
  destruct (parseNested (skipWhitespace (adv 1 p2))) as [[v p3]|]; [|done].
  destruct Hn as [Ha3 [Hwf Hd]]. cbn [rbind].
  assert (Ha : advances p (skipWhitespace p3)).
  { eapply advances_trans; [exact Ha1|]. eapply advances_trans; [by eapply advances_adv|].
    by apply advances_skip, skip_advances. }
  assert (Hgood : good_members (acc ++ [(key, v)])).
  { destruct Hacc as [H1 H2]. split.
    - rewrite forallb_app, H1. simpl. by rewrite Hkey, Hwf.
    - apply members_depth_app. split; [done|]. unfold members_depth; simpl. lia. }
  destruct (rest (skipWhitespace p3)) as [|c u] eqn:E4; [done|].
  assert (Ha4 : advances p (adv 1 (skipWhitespace p3))).
  { eapply advances_trans; [exact Ha|]. by eapply advances_adv. }
  destruct c; try done.
  - eapply scanned_after; [exact Ha4|]. apply IH; [|done]. apply advances_shorter in Ha4. lia.
  - split; [done|]. destruct Hgood as [Hg1 Hg2]. split; [done|].
    cbn [node_depth]. fold (members_depth (acc ++ [(key, v)])). lia.
Qed.

Lemma array_loop_scanned fuel acc p : (length (rest p) < fuel)%nat -> good_items acc ->
  scanned (bounded_node (1 + D)) p (array_loop parseNested fuel acc p).
Proof using D_nonneg nested_ok.
  revert acc p. induction fuel as [|f IH]; intros acc p Hf Hacc; [lia|]. cbn [array_loop].
  pose proof (nested_ok (skipWhitespace p)) as Hn.
  destruct (parseNested (skipWhitespace p)) as [[v p1]|]; [|done].
  destruct Hn as [Ha1 [Hwf Hd]]. cbn [rbind].
  apply skip_advances, advances_skip in Ha1.
  assert (Hgood : good_items (acc ++ [v])).
  { destruct Hacc as [H1 H2]. split.
    - rewrite forallb_app, H1. simpl. by rewrite Hwf.
    - apply items_depth_app. split; [done|]. unfold items_depth; simpl. lia. }
  destruct (rest (skipWhitespace p1)) as [|c u] eqn:E4; [done|].
  assert (Ha4 : advances p (adv 1 (skipWhitespace p1))).
  { eapply advances_trans; [exact Ha1|]. by eapply advances_adv. }
  destruct c; try done.
  - eapply scanned_after; [exact Ha4|]. apply IH; [|done]. apply advances_shorter in Ha4. lia.
  - split; [done|]. destruct Hgood as [Hg1 Hg2]. split; [done|].
    cbn [node_depth]. fold (items_depth (acc ++ [v])). lia.
Qed.

Lemma parseObject_scanned depth p c s : rest p = c :: s ->
  scanned (bounded_node (1 + D)) p (parseObject maxDepth parseNested depth p).
Proof using D_nonneg nested_ok.
  intros E. unfold parseObject. destruct (_ <? _); [done|].
  pose proof (advances_adv _ _ _ E) as Ha. apply advances_skip in Ha.
  set (p1 := skipWhitespace (adv 1 p)) in *.
  assert (Hl : scanned (bounded_node (1 + D)) p
      (object_loop parseNested (S (length (rest p1))) [] p1)).
  { eapply scanned_after; [exact Ha|]. apply object_loop_scanned; [lia|]. split; [done|].
    unfold members_depth; simpl; lia. }
  destruct (rest p1) as [|d t] eqn:E1; [done|]. destruct d; try done.
  split; [|split; [done|simpl; lia]]. eapply advances_trans; [exact Ha|]. by eapply advances_adv.
Qed.

Lemma parseArray_scanned depth p c s : rest p = c :: s ->
  scanned (bounded_node (1 + D)) p (parseArray maxDepth parseNested depth p).
Proof using D_nonneg nested_ok.
  intros E. unfold parseArray. destruct (_ <? _); [done|].
  pose proof (advances_adv _ _ _ E) as Ha. apply advances_skip in Ha.
  set (p1 := skipWhitespace (adv 1 p)) in *.
  assert (Hl : scanned (bounded_node (1 + D)) p
      (array_loop parseNested (S (length (rest p1))) [] p1)).
  { eapply scanned_after; [exact Ha|]. apply array_loop_scanned; [lia|]. split; [done|].
    unfold items_depth; simpl; lia. }
  destruct (rest p1) as [|d t] eqn:E1; [done|]. destruct d; try done.
  split; [|split; [done|simpl; lia]]. eapply advances_trans; [exact Ha|]. by eapply advances_adv.
Qed.
End ContainerProofs.

Lemma parseValue_scanned maxDepth fuel depth p :
  1 <= depth -> maxDepth + 1 < depth + Z.of_nat fuel -> (0 < fuel)%nat ->
  scanned (bounded_node (Z.max 0 (maxDepth - depth + 1))) p (parseValue maxDepth fuel depth p).
Proof.
  revert depth p. induction fuel as [|f IH]; intros depth p Hd Hf Hpos; [lia|]. cbn [parseValue].
  destruct (rest p) as [|c s] eqn:E; [done|].
  set (B := Z.max 0 (maxDepth - depth + 1)).
  assert (HB : forall n, wf_node n = true /\ node_depth n = 0 -> bounded_node B n).
  { intros n [H1 H2]. split; [done|]. unfold B. lia. }
  assert (Hnum : scanned (bounded_node B) p (parseNumber p)).
  { pose proof (parseNumber_scanned p c s E) as H. unfold scanned in *.
    destruct (parseNumber p) as [[n p']|]; [|done]. destruct H; auto. }
  assert (Hstr : scanned (bounded_node B) p (rbind (parseString p) (fun '(s, p1) => Ok (NString s, p1)))).
  { pose proof (parseString_scanned p c s E) as H. unfold scanned in *.
    destruct (parseString p) as [[n p']|]; [|done]. destruct H. split; [done|]. apply HB. done. }
  assert (Hobj : scanned (bounded_node B) p (parseObject maxDepth (parseValue maxDepth f (depth + 1)) depth p) /\
                 scanned (bounded_node B) p (parseArray maxDepth (parseValue maxDepth f (depth + 1)) depth p)).
  { destruct (Z.ltb_spec maxDepth depth) as [Hlt|Hge].
    - unfold parseObject, parseArray. rewrite (proj2 (Z.ltb_lt _ _)) by done. done.
    - replace B with (1 + Z.max 0 (maxDepth - (depth + 1) + 1)) by (unfold B; lia).
      split; [eapply parseObject_scanned|eapply parseArray_scanned]; try done; try lia;
      intros q; (apply IH; lia). }
  destruct Hobj as [Hobj Harr].
  destruct c; try done; try (apply expectLiteral_scanned; by apply HB).
Qed.

(** Everything [Decode] can do: a bounded well-formed tree or an error of the code. *)
Lemma Decode_post maxDepth frame :
  match Decode maxDepth frame with
  | Ok n => bounded_node (Z.max 0 maxDepth) n
  | Err e => e <> EFuel
  end.
Proof.
  unfold Decode. destruct (Valid frame); [|done]. cbn [negb].
  case_bool_decide; [done|].
  set (p := skipWhitespace (mkScanner frame 0)).
  pose proof (parseValue_scanned maxDepth (S (Z.to_nat maxDepth)) 1 p ltac:(lia) ltac:(lia) ltac:(lia)) as Hv.
  destruct (parseValue _ _ _ _) as [[n p1]|]; [|done]. destruct Hv as [_ Hn]. cbn [rbind].
  case_bool_decide; [|done]. by replace (Z.max 0 maxDepth) with (Z.max 0 (maxDepth - 1 + 1)) by lia.
Qed.

(** ** Properties *)

(** C19: The scanner is total: for every frame and depth limit it answers a tree or one of the errors of the
    code, never running out of the recursion depth the model gives it; a tree it answers is well formed
    (valid UTF-8 strings and keys, canonical numerals) and no deeper than the limit. *)
Theorem decode_total maxDepth frame :
  match Decode maxDepth frame with
  | Ok n => wf_node n = true /\ node_depth n <= Z.max 0 maxDepth
  | Err e => e <> EFuel
  end.
Proof. exact (Decode_post maxDepth frame). Qed.
