(* ===== verification/JsonGrammar.v ===== *)
(** * The JSON grammar the scanner accepts

    An independent, relational description of JSON texts and of the tree each one
    denotes, and the proof that [JsonScan.Decode] reads every text of the grammar
    back to its tree ([JsonSound] has the converse). The serializers are proved against this grammar. *)
From S2P Require Import Prelude GoLib JsonScan.

(** ** Texts *)

Definition is_ws (c : byte) : bool := existsb (fun d => bool_decide (c = d)) [" "%byte; x09; x0a; x0d].
Abbreviation ws w := (forallb is_ws w = true).

Definition simple_escape (e : byte) : option byte :=
  match e with
  | x22 => Some x22 | "\"%byte => Some "\"%byte | "/"%byte => Some "/"%byte
  | "b"%byte => Some x08 | "f"%byte => Some x0c | "n"%byte => Some x0a
  | "r"%byte => Some x0d | "t"%byte => Some x09 | _ => None
  end.

(** The value of four hexadecimal digits. *)
Definition hex4 (h : str) : option Z :=
  match h with
  | [a; b; c; d] =>
      match hex_digit a, hex_digit b, hex_digit c, hex_digit d with
      | Some w, Some x, Some y, Some z => Some (((w * 16 + x) * 16 + y) * 16 + z)
      | _, _, _, _ => None
      end
  | _ => None
  end.

(** [string_text s q]: [q] between quotes denotes the string [s]. *)
Inductive string_text : str -> str -> Prop :=
| ST_nil : string_text [] []
| ST_rune r s q : is_scalar r = true -> 32 <= r -> r <> 34 -> r <> 92 ->
    string_text s q -> string_text (encode_rune r ++ s) (encode_rune r ++ q)
| ST_escape e b s q : simple_escape e = Some b ->
    string_text s q -> string_text (b :: s) ("\"%byte :: e :: q)
| ST_unit h v s q : hex4 h = Some v -> IsSurrogate v = false ->
    string_text s q -> string_text (encode_rune v ++ s) ("\u" ++ h ++ q)
| ST_pair h1 h2 hi lo s q : hex4 h1 = Some hi -> hex4 h2 = Some lo ->
    IsSurrogate hi = true -> DecodeRune16 hi lo <> RuneError ->
    string_text s q ->
    string_text (encode_rune (DecodeRune16 hi lo) ++ s) ("\u" ++ h1 ++ "\u" ++ h2 ++ q).

Definition quoted (q : str) : str := x22 :: q ++ [x22].

Inductive text : Node -> str -> Prop :=
| T_string s q : string_text s q -> text (NString s) (quoted q)
| T_number raw : canonical_number raw = true -> text (NNumber raw) raw
| T_true : text (NBool true) "true"
| T_false : text (NBool false) "false"
| T_null : text NNull "null"
| T_empty_object w : ws w -> text (NObject []) ("{" ++ w ++ "}")
| T_object ms b : members_text ms b -> text (NObject ms) ("{" ++ b ++ "}")
| T_empty_array w : ws w -> text (NArray []) ("[" ++ w ++ "]")
| T_array ns b : items_text ns b -> text (NArray ns) ("[" ++ b ++ "]")
with members_text : list (str * Node) -> str -> Prop :=
| M_last w1 k q w2 w3 v t w4 : ws w1 -> ws w2 -> ws w3 -> ws w4 ->
    string_text k q -> text v t ->
    members_text [(k, v)] (w1 ++ quoted q ++ w2 ++ ":" ++ w3 ++ t ++ w4)
| M_more w1 k q w2 w3 v t w4 ms b : ws w1 -> ws w2 -> ws w3 -> ws w4 ->
    string_text k q -> text v t -> members_text ms b ->
    members_text ((k, v) :: ms) (w1 ++ quoted q ++ w2 ++ ":" ++ w3 ++ t ++ w4 ++ "," ++ b)
with items_text : list Node -> str -> Prop :=
| I_last w1 v t w2 : ws w1 -> ws w2 -> text v t -> items_text [v] (w1 ++ t ++ w2)
| I_more w1 v t w2 ns b : ws w1 -> ws w2 -> text v t -> items_text ns b ->
    items_text (v :: ns) (w1 ++ t ++ w2 ++ "," ++ b).

Scheme text_mut := Induction for text Sort Prop
  with members_mut := Induction for members_text Sort Prop
  with items_mut := Induction for items_text Sort Prop.
Combined Scheme text_ind3 from text_mut, members_mut, items_mut.

(** ** The scanner reads texts of the grammar *)

Abbreviation at_ s q := (mkScanner s q).

Lemma skip_ws_app w s q : ws w -> skipWhitespace (at_ (w ++ s) q) = skipWhitespace (at_ s (q + len w)).
Proof.
  revert q. induction w as [|c w IH]; intros q Hw; simpl in Hw.
  { rewrite len_nil, Z.add_0_r. done. }
  bool_to_prop. rewrite len_cons, Z.add_assoc, <- IH by done.
  unfold skipWhitespace; simpl. destruct c; try discriminate; reflexivity.
Qed.

Definition starts_nonws (s : str) : Prop := match s with c :: _ => is_ws c = false | [] => True end.

Lemma skip_nonws s q : starts_nonws s -> skipWhitespace (at_ s q) = at_ s q.
Proof. destruct s as [|c s]; [done|]. unfold skipWhitespace; simpl. intros H. by destruct c. Qed.

Lemma skip_ws_stop w s q : ws w -> starts_nonws s ->
  skipWhitespace (at_ (w ++ s) q) = at_ s (q + len w).
Proof. intros. rewrite skip_ws_app by done. by apply skip_nonws. Qed.

Lemma adv_app k s q : adv (length k) (at_ (k ++ s) q) = at_ s (q + len k).
Proof. unfold adv; simpl. by rewrite drop_app_length. Qed.

Lemma adv_cons c s q : adv 1 (at_ (c :: s) q) = at_ s (q + 1).
Proof. done. Qed.

Lemma scan_ok_eq {A} (v v' : A) (s s' : str) (q q' : Z) : v = v' -> s = s' -> q = q' ->
  (Ok (v, at_ s q) : scan (A * scanner)) = Ok (v', at_ s' q').
Proof. by intros -> -> ->. Qed.

Lemma hex_loop_hex4 h v s q : hex4 h = Some v ->
  hex_loop 4 0 (at_ (h ++ s) q) = Ok (v, at_ s (q + 4)).
Proof.
  destruct h as [|a [|b [|c [|d [|]]]]]; try done. unfold hex4. simpl app.
  destruct (hex_digit a) as [w|] eqn:Ea; [|done]. destruct (hex_digit b) as [x|] eqn:Eb; [|done].
  destruct (hex_digit c) as [y|] eqn:Ec; [|done]. destruct (hex_digit d) as [z|] eqn:Ed; [|done].
  intros [= <-]. cbn [hex_loop rest]. rewrite Ea, adv_cons.
  cbn [hex_loop rest]. rewrite Eb, adv_cons. cbn [hex_loop rest]. rewrite Ec, adv_cons.
  cbn [hex_loop rest]. rewrite Ed, adv_cons.
  apply hex_digit_range in Ea, Eb, Ec, Ed. rewrite (lor_nibble 0 w) by lia.
  rewrite (lor_nibble _ x) by lia. rewrite (lor_nibble _ y) by lia. rewrite (lor_nibble _ z) by lia.
  apply scan_ok_eq; [try lia; done|done|lia].
Qed.

Lemma parseHex4_hex4 h v s q : hex4 h = Some v ->
  parseHex4 (at_ ("u"%byte :: h ++ s) q) = Ok (v, at_ s (q + 5)).
Proof.
  intros H. unfold parseHex4. cbn [rest]. rewrite adv_cons, (hex_loop_hex4 _ v) by done.
  apply scan_ok_eq; [try lia; done|done|lia].
Qed.

Lemma hex4_range h v : hex4 h = Some v -> 0 <= v < 65536 /\ len h = 4.
Proof.
  destruct h as [|a [|b [|c [|d [|]]]]]; try done. unfold hex4.
  destruct (hex_digit a) eqn:Ea; [|done]. destruct (hex_digit b) eqn:Eb; [|done].
  destruct (hex_digit c) eqn:Ec; [|done]. destruct (hex_digit d) eqn:Ed; [|done].
  intros [= <-]. apply hex_digit_range in Ea, Eb, Ec, Ed. split; [lia|done].
Qed.

Lemma not_surrogate_scalar v : 0 <= v < 65536 -> IsSurrogate v = false -> is_scalar v = true.
Proof.
  intros Hv H. apply is_scalar_spec. unfold IsSurrogate in H. apply andb_false_iff in H.
  destruct H; bool_to_prop; lia.
Qed.

Lemma parseUnicodeEscape_unit out h v s q : hex4 h = Some v -> IsSurrogate v = false ->
  parseUnicodeEscape out (at_ ("u"%byte :: h ++ s) q) = Ok (out ++ encode_rune v, at_ s (q + 5)).
Proof.
  intros Hh Hv. unfold parseUnicodeEscape. rewrite (parseHex4_hex4 _ v) by done. cbn [rbind].
  rewrite Hv. apply hex4_range in Hh as [Hr _].
  by rewrite AppendRune_scalar by (by apply not_surrogate_scalar).
Qed.

Lemma parseUnicodeEscape_pair out h1 h2 hi lo s q :
  hex4 h1 = Some hi -> hex4 h2 = Some lo -> IsSurrogate hi = true ->
  DecodeRune16 hi lo <> RuneError ->
  parseUnicodeEscape out (at_ ("u"%byte :: h1 ++ "\"%byte :: "u"%byte :: h2 ++ s) q)
  = Ok (out ++ encode_rune (DecodeRune16 hi lo), at_ s (q + 11)).
Proof.
  intros H1 H2 Hhi Hne. unfold parseUnicodeEscape. rewrite (parseHex4_hex4 _ hi) by done.
  cbn [rbind]. rewrite Hhi. cbn [rest app lit]. rewrite adv_cons.
  rewrite (parseHex4_hex4 _ lo) by done. cbn [rbind].
  rewrite (proj2 (Z.eqb_neq _ _)) by done.
  rewrite AppendRune_scalar by apply DecodeRune16_scalar. apply scan_ok_eq; [try lia; done|done|lia].
Qed.

Lemma encode_rune_head r : is_scalar r = true -> exists c k,
  encode_rune r = c :: k /\ (r < 128 /\ bval c = r \/ 128 <= r /\ 128 <= bval c).
Proof.
  rewrite is_scalar_spec. intros Hr. unfold encode_rune.
  destruct (Z.ltb_spec r 128); [|destruct (Z.ltb_spec r 2048); [|destruct (Z.ltb_spec r 65536)]];
  eexists _, _; (split; [reflexivity|]); bval_lia; lia.
Qed.

Lemma string_loop_rune f out r s q : is_scalar r = true -> 32 <= r -> r <> 34 -> r <> 92 ->
  string_loop (S f) out (at_ (encode_rune r ++ s) q)
  = string_loop f (out ++ encode_rune r) (at_ s (q + len (encode_rune r))).
Proof.
  intros Hr H32 H34 H92. destruct (encode_rune_head r Hr) as (c & k & E & Hc).
  pose proof (decode_encode r s Hr) as Hdec. cbn [string_loop rest].
  rewrite E in *. simpl app in *. cbn [app] in *.
  assert (c <> x22 /\ c <> "\"%byte) as [Hq Hb].
  { split; intros ->; [change (bval x22) with 34 in Hc|change (bval "\"%byte) with 92 in Hc]; lia. }
  rewrite bool_decide_eq_false_2 by done. rewrite (proj2 (Z.ltb_ge _ _)) by lia.
  rewrite bool_decide_eq_false_2 by done. rewrite Hdec.
  rewrite AppendRune_scalar, E by done. f_equal.
  change (c :: k ++ s) with ((c :: k) ++ s). apply adv_app.
Qed.

Lemma string_loop_escape f out e b s q : simple_escape e = Some b ->
  string_loop (S f) out (at_ ("\"%byte :: e :: s) q) = string_loop f (out ++ [b]) (at_ s (q + 2)).
Proof.
  intros H. cbn [string_loop rest]. rewrite bool_decide_eq_false_2 by done.
  change (bval "\"%byte <? 32) with false. cbn iota. rewrite bool_decide_eq_true_2 by done.
  rewrite !adv_cons. cbn [rest]. replace (q + 1 + 1) with (q + 2) by lia.
  destruct e; try discriminate; injection H as <-; reflexivity.
Qed.

Lemma string_loop_u f out s q : 
  string_loop (S f) out (at_ ("\"%byte :: "u"%byte :: s) q)
  = rbind (parseUnicodeEscape out (at_ ("u"%byte :: s) (q + 1)))
          (fun '(out', p2) => string_loop f out' p2).
Proof. reflexivity. Qed.

Lemma string_loop_text s q : string_text s q -> forall fuel out t p,
  (length q < fuel)%nat ->
  string_loop fuel out (at_ (q ++ x22 :: t) p) = Ok (out ++ s, at_ t (p + len q + 1)).
Proof.
  induction 1 as [|r s q Hr H32 H34 H92 _ IH|e b s q He _ IH|h v s q Hh Hv _ IH
                 |h1 h2 hi lo s q H1 H2 Hhi Hne _ IH]; intros fuel out t p Hf.
  - destruct fuel as [|f]; [simpl in Hf; lia|]. rewrite app_nil_r. cbn [string_loop rest app].
    rewrite bool_decide_eq_true_2, adv_cons by done. apply scan_ok_eq; [done|done|rewrite len_nil; lia].
  - rewrite length_app in Hf. pose proof (length_encode_rune r).
    destruct fuel as [|f]; [lia|]. rewrite <- app_assoc, string_loop_rune, IH by (done || lia).
    apply scan_ok_eq; [by rewrite app_assoc|done|rewrite len_app; lia].
  - destruct fuel as [|f]; [simpl in Hf; lia|]. cbn [app].
    rewrite (string_loop_escape _ _ e b), IH by (done || (simpl in Hf; lia)).
    apply scan_ok_eq; [by rewrite <- app_assoc|done|rewrite !len_cons; lia].
  - destruct fuel as [|f]; [simpl in Hf; lia|]. rewrite <- !app_assoc. cbn [lit app].
    apply hex4_range in Hh as Hl. rewrite string_loop_u, (parseUnicodeEscape_unit _ _ v) by done.
    cbn [rbind]. rewrite !length_app in Hf. rewrite IH by (simpl in Hf; lia).
    apply scan_ok_eq; [by rewrite app_assoc|done|rewrite !len_cons, len_app; lia].
  - destruct fuel as [|f]; [simpl in Hf; lia|]. rewrite <- !app_assoc. cbn [lit app].
    apply hex4_range in H1 as Hl1. apply hex4_range in H2 as Hl2.
    rewrite string_loop_u.
    rewrite (parseUnicodeEscape_pair out h1 h2 hi lo (q ++ x22 :: t) (p + 1)) by done.
    cbn [rbind]. rewrite !length_app in Hf. rewrite IH by (simpl in Hf; lia).
    apply scan_ok_eq; [by rewrite app_assoc|done|].
    len_norm. lia.
Qed.

(** The scanner reads a quoted string. *)
Lemma parseString_text s q t p : string_text s q ->
  parseString (at_ (quoted q ++ t) p) = Ok (s, at_ t (p + len (quoted q))).
Proof.
  intros H. unfold parseString, quoted. cbn [app]. rewrite adv_cons, <- app_assoc. cbn [app].
  rewrite (string_loop_text s q H); [|simpl; rewrite length_app; simpl; lia].
  apply scan_ok_eq; [done|done|]. rewrite len_cons, len_app, len_cons, len_nil. lia.
Qed.

(** What may follow a number: not a byte that would extend it. *)
Definition number_stop (t : str) : Prop :=
  match t with c :: _ => is_ws c || ContainsAny [c] ",]}" = true | [] => True end.

Lemma number_stop_cons c t : number_stop (c :: t) ->
  is_digit c = false /\ ContainsAny [c] ".eE" = false /\ ContainsAny [c] "0123456789-+" = false.
Proof. simpl number_stop. destruct c; try discriminate; intros _; repeat split; reflexivity. Qed.

Lemma skip_digits_app k t q : forallb is_digit k = true -> number_stop t ->
  skip_digits (k ++ t) q = at_ t (q + len k).
Proof.
  intros Hk Ht. revert q Hk. induction k as [|c k IH]; intros q Hk; simpl in *.
  - rewrite len_nil, Z.add_0_r. destruct t as [|c t]; [done|].
    apply number_stop_cons in Ht as (Hd & _). simpl. by rewrite Hd.
  - bool_to_prop. rewrite H, IH by done. rewrite len_cons. f_equal. lia.
Qed.

(** The match of [parseNumber] on the integer part, on a canonical numeral. *)
Lemma integer_part_text e raw t q : canonical_nat raw = true -> number_stop t ->
  (match rest (at_ (raw ++ t) q) with
   | [] => Err ENumberEnd
   | c :: _ => if bool_decide (c = "0"%byte) then Ok (adv 1 (at_ (raw ++ t) q))
               else if is_digit c then Ok (skip_digits (rest (at_ (raw ++ t) q)) (pos (at_ (raw ++ t) q)))
               else Err (ENumber e)
   end : scan scanner) = Ok (at_ t (q + len raw)).
Proof.
  destruct raw as [|c raw]; [done|]. unfold canonical_nat. intros H Ht. cbn [rest pos app].
  bool_to_prop. case_bool_decide as Hc.
  - destruct raw; [done|]. subst c. by apply orb_true_iff in H0 as [H0|H0].
  - rewrite H. f_equal. apply (skip_digits_app (c :: raw)); [|done]. simpl. by rewrite H, H1.
Qed.

Lemma consumes_text s t q : consumes s (at_ (s ++ t) q) (at_ t (q + len s)).
Proof. done. Qed.

Lemma parseNumber_text raw t q : canonical_number raw = true -> number_stop t ->
  parseNumber (at_ (raw ++ t) q) = Ok (NNumber raw, at_ t (q + len raw)).
Proof.
  intros Hraw Ht. unfold parseNumber.
  assert (Hfinish : forall p2, p2 = at_ t (q + len raw) ->
    (match rest p2 with
     | c :: _ =>
         if ContainsAny [c] ".eE" then Err (ENotInteger q)
         else if ContainsAny [c] "0123456789-+" then Err (ENumber q)
         else Ok (NNumber (slice (at_ (raw ++ t) q) p2), p2)
     | [] => Ok (NNumber (slice (at_ (raw ++ t) q) p2), p2)
     end : scan (Node * scanner)) = Ok (NNumber raw, at_ t (q + len raw))).
  { intros p2 ->. rewrite (slice_consumes _ _ _ (consumes_text raw t q)). cbn [rest].
    destruct t as [|c t]; [done|]. apply number_stop_cons in Ht as (_ & -> & ->). done. }
  destruct raw as [|c raw]; [done|].
  assert (Hneg : c = "-"%byte \/ c <> "-"%byte) by (destruct (decide (c = "-"%byte)); auto).
  destruct Hneg as [-> | Hne].
  - change (canonical_number ("-"%byte :: raw)) with (canonical_nat raw) in Hraw.
    cbn [rest app pos]. rewrite bool_decide_eq_false_2 by (by destruct raw).
    cbn [rbind]. rewrite adv_cons.
    rewrite integer_part_text by done. cbn [rbind]. apply Hfinish. rewrite len_cons. f_equal. lia.
  - assert (Hcan : canonical_nat (c :: raw) = true) by (unfold canonical_number in Hraw; by destruct c).
    assert (E : (match rest (at_ ((c :: raw) ++ t) q) with
      | "-"%byte :: r => if bool_decide (r = []) then Err ENumberEnd else Ok (adv 1 (at_ ((c :: raw) ++ t) q))
      | _ => Ok (at_ ((c :: raw) ++ t) q) end : scan scanner) = Ok (at_ ((c :: raw) ++ t) q)).
    { cbn [rest app]. by destruct c. }
    rewrite E. cbn [rbind]. rewrite integer_part_text by done. cbn [rbind]. by apply Hfinish.
Qed.

Lemma expectLiteral_text l t q : expectLiteral l (at_ (l ++ t) q) = Ok (at_ t (q + len l)).
Proof.
  revert q. induction l as [|c l IH]; intros q; simpl.
  - by rewrite len_nil, Z.add_0_r.
  - rewrite bool_decide_eq_true_2 by done. rewrite adv_cons, IH, len_cons. do 2 f_equal. lia.
Qed.

(** ** Whole values *)

Lemma canonical_number_cons raw : canonical_number raw = true ->
  exists c k, raw = c :: k /\ is_ws c = false /\ (c = "-"%byte \/ is_digit c = true).
Proof.
  destruct raw as [|c k]; [done|]. intros H. exists c, k. split; [done|].
  destruct (decide (c = "-"%byte)) as [->|Hne]; [auto|].
  assert (Hd : is_digit c = true).
  { unfold canonical_number, canonical_nat in H. destruct c; try done; by bool_to_prop. }
  split; [by destruct c|auto].
Qed.

(** A text never starts with white space. *)
Lemma text_head n s : text n s -> exists c k, s = c :: k /\ is_ws c = false.
Proof.
  destruct 1 as [| raw H | | | | | | |]; try (by eexists _, _).
  destruct (canonical_number_cons raw H) as (c & k & -> & Hc & _). eauto.
Qed.

Lemma text_nonws n s t : text n s -> starts_nonws (s ++ t).
Proof. intros (c & k & -> & H)%text_head. done. Qed.

Lemma skip_idem p : skipWhitespace (skipWhitespace p) = skipWhitespace p.
Proof.
  destruct p as [s q]. unfold skipWhitespace at 2 3. simpl rest; simpl pos. revert q.
  induction s as [|c s IH]; intros q; [done|].
  assert (H : forall r, skipWhitespace (skip_ws s r) = skip_ws s r) by auto.
  destruct c; simpl; auto.
Qed.

Lemma object_loop_skip pn fuel acc p :
  object_loop pn fuel acc (skipWhitespace p) = object_loop pn fuel acc p.
Proof. destruct fuel; [done|]. cbn [object_loop]. by rewrite skip_idem. Qed.

Lemma array_loop_skip pn fuel acc p :
  array_loop pn fuel acc (skipWhitespace p) = array_loop pn fuel acc p.
Proof. destruct fuel; [done|]. cbn [array_loop]. by rewrite skip_idem. Qed.

(** Leading white space of a member or item list can be dropped. *)
Lemma members_lead ms b : members_text ms b ->
  exists w c, ws w /\ b = w ++ x22 :: c /\ (length ms <= length c)%nat.
Proof.
  induction 1 as [w1 k q w2 w3 v t w4 H1|w1 k q w2 w3 v t w4 ms b H1 ? ? ? ? ? Hms IH];
  unfold quoted; eexists w1, _; (split; [done|]); (split; [reflexivity|]).
  - rewrite !length_app. simpl. lia.
  - destruct IH as (w & c & _ & -> & Hl). simpl. rewrite !length_app. simpl.
    rewrite !length_app. simpl. rewrite !length_app. simpl. lia.
Qed.

Lemma items_lead ns b : items_text ns b ->
  exists w c k, ws w /\ b = w ++ c :: k /\ is_ws c = false /\ c <> "]"%byte /\
                (length ns <= length (c :: k))%nat.
Proof.
  assert (Hhead : forall v t, text v t -> exists c k, t = c :: k /\ is_ws c = false /\ c <> "]"%byte).
  { destruct 1 as [| raw H | | | | | | |]; try (by eexists _, _).
    destruct (canonical_number_cons raw H) as (c & k & -> & Hc & Hd). exists c, k.
    repeat split; [done|]. intros ->. by destruct Hd. }
  induction 1 as [w1 v t w2 H1 H2 Hv|w1 v t w2 ns b H1 H2 Hv Hns IH];
    destruct (Hhead _ _ Hv) as (c & k & -> & Hc & Hc'); exists w1, c.
  - exists (k ++ w2). repeat split; try done. simpl. lia.
  - exists (k ++ w2 ++ "," ++ b). repeat split; try done.
    destruct IH as (w & d & l & _ & -> & _ & _ & Hl). simpl in *. rewrite !length_app. simpl.
    rewrite !length_app. simpl. lia.
Qed.

Definition reads_value (n : Node) (s : str) : Prop :=
  forall maxDepth fuel depth t q,
  1 <= depth -> depth + node_depth n <= maxDepth + 1 -> node_depth n < Z.of_nat fuel ->
  number_stop t ->
  parseValue maxDepth fuel depth (at_ (s ++ t) q) = Ok (n, at_ t (q + len s)).

Definition reads_members (ms : list (str * Node)) (b : str) : Prop :=
  forall maxDepth f depth fuel acc t q,
  1 <= depth -> depth + 1 + members_depth ms <= maxDepth + 1 -> members_depth ms < Z.of_nat f ->
  (length ms <= fuel)%nat ->
  object_loop (parseValue maxDepth f (depth + 1)) fuel acc (at_ (b ++ "}"%byte :: t) q)
  = Ok (NObject (acc ++ ms), at_ t (q + len b + 1)).

Definition reads_items (ns : list Node) (b : str) : Prop :=
  forall maxDepth f depth fuel acc t q,
  1 <= depth -> depth + 1 + items_depth ns <= maxDepth + 1 -> items_depth ns < Z.of_nat f ->
  (length ns <= fuel)%nat ->
  array_loop (parseValue maxDepth f (depth + 1)) fuel acc (at_ (b ++ "]"%byte :: t) q)
  = Ok (NArray (acc ++ ns), at_ t (q + len b + 1)).

Lemma members_depth_cons k v ms : members_depth ((k, v) :: ms) = Z.max (node_depth v) (members_depth ms).
Proof. done. Qed.
Lemma items_depth_cons v ns : items_depth (v :: ns) = Z.max (node_depth v) (items_depth ns).
Proof. done. Qed.
Lemma members_depth_nonneg ms : 0 <= members_depth ms.
Proof. induction ms as [|[k v] ms IH]; [done|]. rewrite members_depth_cons. lia. Qed.
Lemma items_depth_nonneg ns : 0 <= items_depth ns.
Proof. induction ns as [|v ns IH]; [done|]. rewrite items_depth_cons. lia. Qed.

Lemma number_stop_ws w d u : ws w -> ContainsAny [d] ",]}" = true -> number_stop (w ++ d :: u).
Proof.
  intros Hw Hd. destruct w as [|c w]; simpl in *; [by rewrite Hd, orb_true_r|]. by bool_to_prop; rewrite H.
Qed.

Lemma closer_nonws d u : ContainsAny [d] ",]}" = true -> starts_nonws (d :: u).
Proof. simpl. by destruct d. Qed.

(** One member of an object, up to the byte [d] that follows it. *)
Lemma object_loop_member maxDepth f depth fuel acc w1 k q w2 w3 v t w4 d u p :
  ws w1 -> ws w2 -> ws w3 -> ws w4 -> string_text k q -> text v t -> reads_value v t ->
  1 <= depth -> depth + 1 + node_depth v <= maxDepth + 1 -> node_depth v < Z.of_nat f ->
  ContainsAny [d] ",]}" = true ->
  let p' := p + len (w1 ++ quoted q ++ w2 ++ ":" ++ w3 ++ t ++ w4) + 1 in
  object_loop (parseValue maxDepth f (depth + 1)) (S fuel) acc
    (at_ ((w1 ++ quoted q ++ w2 ++ ":" ++ w3 ++ t ++ w4) ++ d :: u) p)
  = match d with
    | ","%byte => object_loop (parseValue maxDepth f (depth + 1)) fuel (acc ++ [(k, v)]) (at_ u p')
    | "}"%byte => Ok (NObject (acc ++ [(k, v)]), at_ u p')
    | _ => Err (EUnexpectedChar d (p' - 1))
    end.
Proof.
  intros H1 H2 H3 H4 Hq Ht Hr Hd Hb Hf Hc p'. rewrite <- !app_assoc. cbn [object_loop].
  rewrite skip_ws_stop by done. cbn [rest app quoted].
  change (x22 :: (q ++ [x22]) ++ w2 ++ ":" ++ w3 ++ t ++ w4 ++ d :: u)
    with (quoted q ++ w2 ++ ":" ++ w3 ++ t ++ w4 ++ d :: u).
  rewrite (parseString_text k) by done. cbn [rbind].
  rewrite skip_ws_stop by done. cbn [rest app lit]. rewrite adv_cons.
  rewrite skip_ws_stop by (done || by eapply text_nonws).
  rewrite Hr by (try lia; try done; by apply number_stop_ws). cbn [rbind].
  rewrite skip_ws_stop by (done || by apply closer_nonws). cbn [rest]. rewrite adv_cons.
  assert (E : p + len w1 + len (quoted q) + len w2 + 1 + len w3 + len t + len w4 + 1 = p').
  { unfold p'. rewrite !len_app. change (len ":") with 1. lia. }
  rewrite E. destruct d; try discriminate; try reflexivity. cbn [pos].
  do 2 f_equal. lia.
Qed.

Lemma array_loop_item maxDepth f depth fuel acc w1 v t w2 d u p :
  ws w1 -> ws w2 -> text v t -> reads_value v t ->
  1 <= depth -> depth + 1 + node_depth v <= maxDepth + 1 -> node_depth v < Z.of_nat f ->
  ContainsAny [d] ",]}" = true ->
  let p' := p + len (w1 ++ t ++ w2) + 1 in
  array_loop (parseValue maxDepth f (depth + 1)) (S fuel) acc (at_ ((w1 ++ t ++ w2) ++ d :: u) p)
  = match d with
    | ","%byte => array_loop (parseValue maxDepth f (depth + 1)) fuel (acc ++ [v]) (at_ u p')
    | "]"%byte => Ok (NArray (acc ++ [v]), at_ u p')
    | _ => Err (EUnexpectedChar d (p' - 1))
    end.
Proof.
  intros H1 H2 Ht Hr Hd Hb Hf Hc p'. rewrite <- !app_assoc. cbn [array_loop].
  rewrite skip_ws_stop by (done || by eapply text_nonws).
  rewrite Hr by (try lia; try done; by apply number_stop_ws). cbn [rbind].
  rewrite skip_ws_stop by (done || by apply closer_nonws). cbn [rest]. rewrite adv_cons.
  assert (E : p + len w1 + len t + len w2 + 1 = p') by (unfold p'; rewrite !len_app; lia).
  rewrite E. destruct d; try discriminate; try reflexivity. cbn [pos]. do 2 f_equal. lia.
Qed.

Lemma parseObject_members maxDepth f depth ms b t q : members_text ms b -> reads_members ms b ->
  1 <= depth -> depth + 1 + members_depth ms <= maxDepth + 1 -> members_depth ms < Z.of_nat f ->
  parseObject maxDepth (parseValue maxDepth f (depth + 1)) depth (at_ (("{" ++ b ++ "}") ++ t) q)
  = Ok (NObject ms, at_ t (q + len ("{" ++ b ++ "}"))).
Proof.
  intros Hms Hr Hd Hb Hf. unfold parseObject. pose proof (members_depth_nonneg ms).
  rewrite (proj2 (Z.ltb_ge _ _)) by lia. rewrite <- !app_assoc. cbn [lit app]. rewrite adv_cons.
  destruct (members_lead ms b Hms) as (w & c & Hw & E & Hl).
  assert (Es : rest (skipWhitespace (at_ (b ++ "}"%byte :: t) (q + 1))) = x22 :: c ++ "}"%byte :: t).
  { rewrite E, <- app_assoc, skip_ws_stop by done. done. }
  rewrite Es. cbn iota. rewrite object_loop_skip, Hr; try done.
  - apply scan_ok_eq; [done|done|]. len_norm. lia.
  - simpl. rewrite length_app. simpl. lia.
Qed.

Lemma parseArray_items maxDepth f depth ns b t q : items_text ns b -> reads_items ns b ->
  1 <= depth -> depth + 1 + items_depth ns <= maxDepth + 1 -> items_depth ns < Z.of_nat f ->
  parseArray maxDepth (parseValue maxDepth f (depth + 1)) depth (at_ (("[" ++ b ++ "]") ++ t) q)
  = Ok (NArray ns, at_ t (q + len ("[" ++ b ++ "]"))).
Proof.
  intros Hns Hr Hd Hb Hf. unfold parseArray. pose proof (items_depth_nonneg ns).
  rewrite (proj2 (Z.ltb_ge _ _)) by lia. rewrite <- !app_assoc. cbn [lit app]. rewrite adv_cons.
  destruct (items_lead ns b Hns) as (w & c & k & Hw & E & Hc & Hc' & Hl).
  assert (Es : rest (skipWhitespace (at_ (b ++ "]"%byte :: t) (q + 1))) = c :: k ++ "]"%byte :: t).
  { rewrite E, <- app_assoc, skip_ws_stop by done. done. }
  rewrite Es.
  assert (Hloop : array_loop (parseValue maxDepth f (depth + 1)) (S (length (c :: k ++ "]"%byte :: t))) []
      (skipWhitespace (at_ (b ++ "]"%byte :: t) (q + 1)))
    = Ok (NArray ns, at_ t (q + len ("["%byte :: b ++ ["]"%byte])))).
  { rewrite array_loop_skip, Hr; try done.
    - apply scan_ok_eq; [done|done|]. len_norm. lia.
    - simpl in *. rewrite length_app. simpl. lia. }
  destruct c; try exact Hloop; done.
Qed.

Lemma reads_number raw : canonical_number raw = true -> reads_value (NNumber raw) raw.
Proof.
  intros Hraw maxDepth fuel depth t q Hd Hb Hf Hs. destruct fuel as [|f]; [simpl in Hf; lia|].
  rewrite <- (parseNumber_text raw t q) by done.
  destruct (canonical_number_cons raw Hraw) as (c & k & -> & _ & Hc). cbn [parseValue rest app].
  destruct Hc as [->|Hdig]; [done|]. destruct c; try discriminate; reflexivity.
Qed.

Lemma reads_string s q : string_text s q -> reads_value (NString s) (quoted q).
Proof.
  intros Hq maxDepth fuel depth t p Hd Hb Hf _. destruct fuel as [|f]; [simpl in Hf; lia|].
  change (parseValue maxDepth (S f) depth (at_ (quoted q ++ t) p))
    with (rbind (parseString (at_ (quoted q ++ t) p)) (fun '(s, p1) => Ok (NString s, p1))).
  by rewrite (parseString_text s).
Qed.

Lemma empty_container_nonws c w t : ws w -> forall q, is_ws c = false ->
  skipWhitespace (at_ (w ++ c :: t) q) = at_ (c :: t) (q + len w).
Proof. intros Hw q Hc. by apply skip_ws_stop. Qed.

Lemma reads_literal v l : node_depth v = 0 ->
  (forall maxDepth f depth t q, parseValue maxDepth (S f) depth (at_ (l ++ t) q) =
     rbind (expectLiteral l (at_ (l ++ t) q)) (fun p1 => Ok (v, p1))) ->
  reads_value v l.
Proof.
  intros Hv Hp maxDepth [|f] depth t q Hd Hb Hf _; [lia|]. by rewrite Hp, expectLiteral_text.
Qed.

Lemma reads_all :
  (forall n s, text n s -> reads_value n s) /\
  (forall ms b, members_text ms b -> reads_members ms b) /\
  (forall ns b, items_text ns b -> reads_items ns b).
Proof.
  apply text_ind3.
  - intros; by apply reads_string.
  - intros; by apply reads_number.
  - by apply reads_literal.
  - by apply reads_literal.
  - by apply reads_literal.
  - intros w Hw maxDepth [|f] depth t q Hd Hb Hf _; [simpl in Hf; lia|].
    simpl node_depth in *. rewrite <- !app_assoc. cbn [lit app parseValue rest]. unfold parseObject.
    rewrite (proj2 (Z.ltb_ge _ _)) by lia. rewrite adv_cons, empty_container_nonws by done.
    cbn [rest]. rewrite adv_cons. apply scan_ok_eq; [done|done|]. len_norm. lia.
  - intros ms b Hms Hr maxDepth [|f] depth t q Hd Hb Hf _;
    change (node_depth (NObject ms)) with (1 + members_depth ms) in *;
    pose proof (members_depth_nonneg ms); [lia|].
    rewrite <- (parseObject_members maxDepth f depth) by (done || lia). reflexivity.
  - intros w Hw maxDepth [|f] depth t q Hd Hb Hf _; [simpl in Hf; lia|].
    simpl node_depth in *. rewrite <- !app_assoc. cbn [lit app parseValue rest]. unfold parseArray.
    rewrite (proj2 (Z.ltb_ge _ _)) by lia. rewrite adv_cons, empty_container_nonws by done.
    cbn [rest]. rewrite adv_cons. apply scan_ok_eq; [done|done|]. len_norm. lia.
  - intros ns b Hns Hr maxDepth [|f] depth t q Hd Hb Hf _;
    change (node_depth (NArray ns)) with (1 + items_depth ns) in *;
    pose proof (items_depth_nonneg ns); [lia|].
    rewrite <- (parseArray_items maxDepth f depth) by (done || lia). reflexivity.
  - intros w1 k q w2 w3 v t w4 H1 H2 H3 H4 Hq Ht Hr maxDepth f depth fuel acc u p Hd Hb Hf Hl.
    destruct fuel as [|fuel]; [simpl in Hl; lia|]. rewrite members_depth_cons in *.
    rewrite (object_loop_member _ _ _ _ _ _ k _ _ _ v) by (done || lia). reflexivity.
  - intros w1 k q w2 w3 v t w4 ms b H1 H2 H3 H4 Hq Ht Hr Hms IH maxDepth f depth fuel acc u p Hd Hb Hf Hl.
    destruct fuel as [|fuel]; [simpl in Hl; lia|]. rewrite members_depth_cons in *.
    replace ((w1 ++ quoted q ++ w2 ++ ":" ++ w3 ++ t ++ w4 ++ "," ++ b) ++ "}"%byte :: u)
      with ((w1 ++ quoted q ++ w2 ++ ":" ++ w3 ++ t ++ w4) ++ ","%byte :: b ++ "}"%byte :: u)
      by (rewrite <- !app_assoc; reflexivity).
    rewrite (object_loop_member _ _ _ _ _ _ k _ _ _ v) by (done || lia).
    rewrite IH by (lia || (simpl in Hl; lia)). rewrite <- app_assoc.
    apply scan_ok_eq; [done|done|]. len_norm. lia.
  - intros w1 v t w2 H1 H2 Ht Hr maxDepth f depth fuel acc u p Hd Hb Hf Hl.
    destruct fuel as [|fuel]; [simpl in Hl; lia|]. rewrite items_depth_cons in *.
    rewrite (array_loop_item _ _ _ _ _ _ v) by (done || lia). reflexivity.
  - intros w1 v t w2 ns b H1 H2 Ht Hr Hns IH maxDepth f depth fuel acc u p Hd Hb Hf Hl.
    destruct fuel as [|fuel]; [simpl in Hl; lia|]. rewrite items_depth_cons in *.
    replace ((w1 ++ t ++ w2 ++ "," ++ b) ++ "]"%byte :: u)
      with ((w1 ++ t ++ w2) ++ ","%byte :: b ++ "]"%byte :: u)
      by (rewrite <- !app_assoc; reflexivity).
    rewrite (array_loop_item _ _ _ _ _ _ v) by (done || lia).
    rewrite IH by (lia || (simpl in Hl; lia)). rewrite <- app_assoc.
    apply scan_ok_eq; [done|done|]. len_norm. lia.
Qed.

(** Reading a text of the grammar back, with any white space around it. *)
Lemma Decode_text maxDepth n s w w' :
  text n s -> ws w -> ws w' -> Valid (w ++ s ++ w') = true -> node_depth n <= maxDepth ->
  Decode maxDepth (w ++ s ++ w') = Ok n.
Proof.
  intros Ht Hw Hw' Hv Hd. unfold Decode. rewrite Hv. cbn [negb].
  rewrite skip_ws_stop by (done || by eapply text_nonws). cbn [rest].
  rewrite bool_decide_eq_false_2 by (destruct (text_head n s Ht) as (c & k & -> & _); done).
  destruct reads_all as [Hr _].
  rewrite (Hr n s Ht); [|lia|lia|lia|].
  - cbn [rbind]. rewrite <- (app_nil_r w'), skip_ws_stop by done. done.
  - destruct w' as [|c w']; [done|]. simpl in *. bool_to_prop. by rewrite H.
Qed.

Lemma Decode_text0 maxDepth n s :
  text n s -> Valid s = true -> node_depth n <= maxDepth -> Decode maxDepth s = Ok n.
Proof.
  intros Ht Hv Hd. rewrite <- (app_nil_r s). apply (Decode_text maxDepth n s [] []); try done.
  by rewrite app_nil_r.
Qed.

(** ** Compact objects: no white space between the tokens *)

(** A byte that stands for itself inside a quoted string. *)
Definition plain_byte (c : byte) : bool :=
  (32 <=? bval c) && (bval c <? 127) && negb (bool_decide (c = x22)) && negb (bool_decide (c = x5c)).
Abbreviation plain s := (forallb plain_byte s = true).

Lemma plain_text s : plain s -> string_text s s.
Proof.
  induction s as [|c s IH]; intros H; [constructor|]. cbn [forallb] in H.
  apply andb_true_iff in H as [Hc H]. unfold plain_byte in Hc.
  apply andb_true_iff in Hc as [[[H1 H2]%andb_true_iff H3]%andb_true_iff H4]. bool_to_prop.
  assert (E : encode_rune (bval c) = [c]).
  { unfold encode_rune. rewrite (proj2 (Z.ltb_lt _ _)) by lia. by rewrite byte_of_bval. }
  change (c :: s) with ([c] ++ s). rewrite <- E. apply ST_rune; auto.
  - apply is_scalar_spec. lia.
  - intros Hv. apply H3. by apply bval_inj.
  - intros Hv. apply H4. by apply bval_inj.
Qed.

Fixpoint compact_members (kts : list (str * str)) : str :=
  match kts with
  | [] => []
  | [(k, t)] => quoted k ++ ":" ++ t
  | (k, t) :: kts' => quoted k ++ ":" ++ t ++ "," ++ compact_members kts'
  end.

(** Fields with plain names and the texts of their values. *)
Definition field_texts (ms : list (str * Node)) (kts : list (str * str)) : Prop :=
  Forall2 (fun '(k, v) '(k', t) => k = k' /\ plain k /\ text v t) ms kts.

Lemma compact_members_text ms kts : ms <> [] -> field_texts ms kts ->
  members_text ms (compact_members kts).
Proof.
  intros Hne H. induction H as [|[k v] [k' t] ms kts (<- & Hk & Ht) Hrest IH]; [done|].
  destruct ms as [|[k2 v2] ms].
  - inversion Hrest; subst. cbn [compact_members].
    rewrite <- (app_nil_r t) at 1.
    apply (M_last [] k k [] [] v t []); auto using plain_text.
  - destruct kts as [|[k2' t2] kts]; [by inversion Hrest|].
    apply (M_more [] k k [] [] v t [] _ (compact_members ((k2', t2) :: kts))); auto using plain_text.
Qed.

(** Reading a compact object. *)
Lemma compact_object_text ms kts s : ms <> [] -> field_texts ms kts ->
  s = "{" ++ compact_members kts ++ "}" -> text (NObject ms) s.
Proof. intros Hne H ->. apply T_object. by apply compact_members_text. Qed.

(** Indented objects: white space before each key, one space after each colon and
    white space before the closing brace. *)
Fixpoint spaced_members (wend : str) (wkts : list (str * str * str)) : str :=
  match wkts with
  | [] => []
  | [(w, k, t)] => w ++ quoted k ++ ": " ++ t ++ wend
  | (w, k, t) :: wkts' => w ++ quoted k ++ ": " ++ t ++ "," ++ spaced_members wend wkts'
  end.

Definition spaced_field (m : str * Node) (wkt : str * str * str) : Prop :=
  let '(k, v) := m in let '(w, k', t) := wkt in ws w /\ k = k' /\ plain k /\ text v t.

Lemma spaced_object_text wend ms wkts s : ms <> [] -> ws wend -> Forall2 spaced_field ms wkts ->
  s = "{" ++ spaced_members wend wkts ++ "}" -> text (NObject ms) s.
Proof.
  intros Hne Hend H ->. apply T_object.
  induction H as [|[k v] [[w k'] t] ms wkts (Hw & <- & Hk & Ht) Hrest IH]; [done|].
  destruct ms as [|m2 ms].
  - inversion Hrest; subst. by apply (M_last w k k [] " " v t wend); auto using plain_text.
  - destruct wkts as [|wkt2 wkts]; [by inversion Hrest|].
    apply (M_more w k k [] " " v t [] _ (spaced_members wend (wkt2 :: wkts))); auto using plain_text.
Qed.

Lemma bool_text b : text (NBool b) (FormatBool b).
Proof. destruct b; constructor. Qed.

Lemma uint_text n : 0 <= n -> text (NNumber (FormatUint n)) (FormatUint n).
Proof.
  intros H. constructor. pose proof (FormatUint_canonical n H) as Hc.
  unfold canonical_number. destruct (FormatUint n) as [|c s]; [done|]. by destruct c.
Qed.

Lemma int_text n : text (NNumber (FormatInt n)) (FormatInt n).
Proof.
  unfold FormatInt. destruct (Z.ltb_spec n 0).
  - constructor. unfold canonical_number. apply FormatUint_canonical. lia.
  - by apply uint_text.
Qed.

Lemma plain_string_text s : plain s -> text (NString s) (quoted s).
Proof. intros. by apply T_string, plain_text. Qed.

Definition ascii_byte (c : byte) : bool := bval c <? 128.
Abbreviation ascii s := (forallb ascii_byte s = true).

Lemma ascii_app s t : ascii s -> ascii t -> ascii (s ++ t).
Proof. intros Hs Ht. by rewrite forallb_app, Hs, Ht. Qed.

Lemma plain_ascii s : plain s -> ascii s.
Proof.
  induction s as [|c s IH]; [done|]. cbn [forallb]. intros [Hc Hs]%andb_true_iff.
  rewrite IH by done. unfold plain_byte, ascii_byte in *. bool_to_prop.
  rewrite (proj2 (Z.ltb_lt _ _)) by lia. done.
Qed.

Lemma digits_plain s : forallb is_digit s = true -> plain s.
Proof.
  induction s as [|c s IH]; [done|]. cbn [forallb]. intros [Hc Hs]%andb_true_iff.
  rewrite IH by done. by destruct c.
Qed.

Lemma canonical_nat_digits s : canonical_nat s = true -> forallb is_digit s = true.
Proof. destruct s as [|c s]; [done|]. unfold canonical_nat. simpl. intros; bool_to_prop. by rewrite H, H1. Qed.

Lemma FormatUint_plain n : 0 <= n -> plain (FormatUint n).
Proof. intros. by apply digits_plain, canonical_nat_digits, FormatUint_canonical. Qed.

Lemma plain_app s t : plain s -> plain t -> plain (s ++ t).
Proof. intros Hs Ht. by rewrite forallb_app, Hs, Ht. Qed.

Lemma FormatInt_plain n : plain (FormatInt n).
Proof.
  unfold FormatInt. destruct (Z.ltb_spec n 0).
  - cbn [forallb]. by rewrite FormatUint_plain by lia.
  - by apply FormatUint_plain.
Qed.

#[export] Hint Resolve ascii_app plain_app plain_ascii FormatInt_plain plain_text : go.
