(* ===== verification/JsonSound.v ===== *)
(** * The scanner accepts only the grammar

    The converse of [JsonGrammar]: what [JsonScan.Decode] accepts is a text of the grammar for the tree it answers.
    With completeness the scanner decides exactly the grammar, and the grammar is unambiguous. *)
From S2P Require Import Prelude GoLib JsonScan JsonGrammar.

(** ** Valid UTF-8 after an ASCII byte *)

Lemma Valid_step c s : Valid (c :: s) = true ->
  exists r t, is_scalar r = true /\ c :: s = encode_rune r ++ t /\ Valid t = true.
Proof.
  intros (rs & Hrs & E)%Valid_spec. destruct rs as [|r rs]; [done|].
  apply list.Forall_cons in Hrs as [Hr Hrs]. rewrite runes_str_cons in E. exists r, (runes_str rs).
  split_and!; [done|done|]. by apply Valid_runes_str.
Qed.

Lemma encode_rune_ascii r : r < 128 -> encode_rune r = [byte_of r].
Proof. intros. unfold encode_rune. by rewrite (proj2 (Z.ltb_lt _ _)). Qed.

Lemma Valid_tail c s : bval c < 128 -> Valid (c :: s) = true -> Valid s = true.
Proof.
  intros Hc (r & t & Hr & E & Ht)%Valid_step. destruct (encode_rune_head r Hr) as (d & k & Ed & Hd).
  rewrite Ed in E. injection E as -> E. destruct Hd as [[Hlt _]|]; [|lia].
  rewrite encode_rune_ascii in Ed by done. injection Ed as _ <-. by subst s.
Qed.

Lemma Valid_after k s : ascii k -> Valid (k ++ s) = true -> Valid s = true.
Proof.
  induction k as [|c k IH]; [done|]. cbn [forallb app]. intros [Hc Hk]%andb_true_iff Hv. apply IH; [done|].
  apply (Valid_tail c); [|done]. unfold ascii_byte in Hc. lia.
Qed.

Lemma ws_ascii w : ws w -> ascii w.
Proof.
  induction w as [|c w IH]; [done|]. cbn [forallb]. intros [Hc Hw]%andb_true_iff. rewrite IH by done.
  by destruct c.
Qed.

(** ** Reading and what it denotes *)

(** [p'] is [p] after the text [k], with valid UTF-8 left to read. *)
Definition reads (k : str) (p p' : scanner) : Prop := consumes k p p' /\ Valid (rest p') = true.

Lemma reads_consumes k p p' : ascii k -> consumes k p p' -> Valid (rest p) = true -> reads k p p'.
Proof. intros Hk H Hv. split; [done|]. destruct H as [E _]. rewrite E in Hv. by eapply Valid_after. Qed.

Lemma reads_app k k' p p' p'' : reads k p p' -> reads k' p' p'' -> reads (k ++ k') p p''.
Proof. intros [H1 _] [H2 Hv]. split; [by eapply consumes_app|done]. Qed.

Lemma reads_adv c s p : rest p = c :: s -> bval c < 128 -> Valid (rest p) = true -> reads [c] p (adv 1 p).
Proof.
  intros E Hc Hv. apply reads_consumes; [|unfold consumes, adv; by rewrite E|done].
  cbn [forallb]. unfold ascii_byte. by rewrite (proj2 (Z.ltb_lt _ _)).
Qed.

Lemma reads_skip p : Valid (rest p) = true -> exists w, ws w /\ reads w p (skipWhitespace p).
Proof.
  intros Hv. enough (H : exists w, ws w /\ consumes w p (skipWhitespace p)).
  { destruct H as (w & Hw & H). exists w. split; [done|]. apply reads_consumes; auto using ws_ascii. }
  clear Hv. destruct p as [s q]. unfold skipWhitespace. cbn [rest pos]. revert q.
  induction s as [|c s IH]; intros q; [exists []; split; [done|apply consumes_nil]|].
  assert (Hcons : is_ws c = true -> skip_ws (c :: s) q = skip_ws s (q + 1) ->
    exists w, ws w /\ consumes w (mkScanner (c :: s) q) (skip_ws (c :: s) q)).
  { intros Hc ->. destruct (IH (q + 1)) as (w & Hw & H1 & H2). exists (c :: w). split; [by cbn [forallb]; rewrite Hc, Hw|].
    split; simpl in *; [by f_equal|]. rewrite H2, len_cons. lia. }
  destruct c; try (apply Hcons; reflexivity); exists []; (split; [done|apply consumes_nil]).
Qed.

(** ** Strings *)

Lemma hex_ascii a d : hex_digit a = Some d -> ascii_byte a = true.
Proof. all_bytes a. Qed.

Lemma parseHex4_sound p v p' : parseHex4 p = Ok (v, p') ->
  exists h, hex4 h = Some v /\ consumes ("u"%byte :: h) p p' /\ ascii ("u"%byte :: h).
Proof.
  unfold parseHex4. destruct p as [s q]. cbn [rest]. destruct s as [|u s]; [done|]. destruct u; try done.
  rewrite adv_cons. intros H.
  destruct s as [|a s]; [done|]. cbn [hex_loop rest] in H. destruct (hex_digit a) as [w|] eqn:Ea; [|done].
  rewrite adv_cons in H. destruct s as [|b s]; [done|]. cbn [hex_loop rest] in H.
  destruct (hex_digit b) as [x|] eqn:Eb; [|done].
  rewrite adv_cons in H. destruct s as [|c s]; [done|]. cbn [hex_loop rest] in H.
  destruct (hex_digit c) as [y|] eqn:Ec; [|done].
  rewrite adv_cons in H. destruct s as [|d s]; [done|]. cbn [hex_loop rest] in H.
  destruct (hex_digit d) as [z|] eqn:Ed; [|done]. rewrite adv_cons in H. injection H as <- <-.
  pose proof (hex_digit_range _ _ Ea). pose proof (hex_digit_range _ _ Eb).
  pose proof (hex_digit_range _ _ Ec). pose proof (hex_digit_range _ _ Ed).
  exists [a; b; c; d]. split; [|split].
  - unfold hex4. rewrite Ea, Eb, Ec, Ed. f_equal.
    rewrite (lor_nibble 0 w), (lor_nibble _ x), (lor_nibble _ y), (lor_nibble _ z) by lia. lia.
  - split; [done|]. simpl. rewrite !len_cons, len_nil. lia.
  - cbn [forallb]. by rewrite (hex_ascii a w), (hex_ascii b x), (hex_ascii c y), (hex_ascii d z).
Qed.

Lemma parseUnicodeEscape_sound out p o p' : Valid (rest p) = true -> parseUnicodeEscape out p = Ok (o, p') ->
  exists s k, o = out ++ s /\ reads k p p' /\
    forall s' q, string_text s' q -> string_text (s ++ s') ("\"%byte :: k ++ q).
Proof.
  intros Hv H. unfold parseUnicodeEscape in H. apply rbind_Ok in H as ([hi p1] & H1 & H).
  apply parseHex4_sound in H1 as (h1 & Hh1 & C1 & A1). apply (reads_consumes _ _ _ A1) in C1; [|done].
  destruct (IsSurrogate hi) eqn:Es.
  - destruct (rest p1) as [|c [|d t]] eqn:E1; [done|by destruct c|]. destruct c; try done. destruct d; try done.
    apply rbind_Ok in H as ([lo p2] & H2 & H). apply parseHex4_sound in H2 as (h2 & Hh2 & C2 & A2).
    pose proof (reads_adv _ _ _ E1 ltac:(done) (proj2 C1)) as C3. apply (reads_consumes _ _ _ A2) in C2; [|apply C3].
    destruct (Z.eqb_spec (DecodeRune16 hi lo) RuneError) as [|Hne]; [done|]. injection H as <- <-.
    rewrite AppendRune_scalar by apply DecodeRune16_scalar. eexists _, _. split; [reflexivity|]. split.
    + eapply reads_app; [exact C1|]. eapply reads_app; [exact C3|exact C2].
    + intros s' q Hq. pose proof (ST_pair h1 h2 hi lo s' q Hh1 Hh2 Es Hne Hq) as H.
      replace ("\"%byte :: (("u"%byte :: h1) ++ ["\"%byte] ++ "u"%byte :: h2) ++ q)
        with ("\u" ++ h1 ++ "\u" ++ h2 ++ q); [exact H|]. cbn [lit app]. by rewrite <- !app_assoc.
  - injection H as <- <-. pose proof (hex4_range _ _ Hh1) as [Hr _].
    rewrite AppendRune_scalar by (by apply not_surrogate_scalar). eexists _, _. split; [reflexivity|].
    split; [exact C1|]. intros s' q Hq. by apply (ST_unit h1 hi).
Qed.

Lemma string_loop_sound fuel : forall out p o p', Valid (rest p) = true -> string_loop fuel out p = Ok (o, p') ->
  exists s q, o = out ++ s /\ string_text s q /\ reads (q ++ [x22]) p p'.
Proof.
  induction fuel as [|f IH]; intros out p o p' Hv H; [done|]. cbn [string_loop] in H.
  destruct (rest p) as [|c s] eqn:E; [done|]. rewrite <- E in Hv. case_bool_decide as Hc.
  { injection H as <- <-. exists [], []. rewrite app_nil_r. split; [done|]. split; [constructor|]. subst c.
    by eapply reads_adv. }
  destruct (bval c <? 32) eqn:E32; [done|]. case_bool_decide as Hb.
  - subst c. pose proof (reads_adv _ _ _ E ltac:(done) Hv) as C1.
    destruct (rest (adv 1 p)) as [|e t] eqn:E1; [done|].
    assert (Hesc : forall b, simple_escape e = Some b -> bval e < 128 ->
      string_loop f (out ++ [b]) (adv 1 (adv 1 p)) = Ok (o, p') ->
      exists s q, o = out ++ s /\ string_text s q /\ reads (q ++ [x22]) p p').
    { intros b He Hlt Hl. pose proof (reads_adv _ _ _ E1 Hlt (proj2 C1)) as C2.
      apply IH in Hl as (s' & q & -> & Hq & C3); [|apply C2]. exists (b :: s'), ("\"%byte :: e :: q).
      split; [by rewrite <- app_assoc|]. split; [by constructor|].
      change (("\"%byte :: e :: q) ++ [x22]) with (["\"%byte] ++ [e] ++ q ++ [x22]).
      eapply reads_app; [exact C1|]. by eapply reads_app. }
    destruct e; try done; try (eapply Hesc; [reflexivity|done|exact H]).
    apply rbind_Ok in H as ([o1 p1] & Hu & H).
    apply parseUnicodeEscape_sound in Hu as (s1 & k & -> & C2 & Hst); [|apply C1].
    apply IH in H as (s' & q & -> & Hq & C3); [|apply C2]. exists (s1 ++ s'), ("\"%byte :: k ++ q).
    split; [by rewrite <- app_assoc|]. split; [by apply Hst|].
    change (("\"%byte :: k ++ q) ++ [x22]) with (["\"%byte] ++ (k ++ q) ++ [x22]). rewrite <- app_assoc.
    eapply reads_app; [exact C1|]. by eapply reads_app.
  - rewrite E in Hv. destruct (Valid_step c s Hv) as (r & t & Hr & Er & Ht). rewrite Er, decode_encode in H by done.
    rewrite AppendRune_scalar in H by done.
    assert (C1 : reads (encode_rune r) p (adv (length (encode_rune r)) p)).
    { unfold reads, consumes, adv. cbn [rest pos]. by rewrite E, Er, drop_encode. }
    apply IH in H as (s' & q & -> & Hq & C2); [|apply C1]. exists (encode_rune r ++ s'), (encode_rune r ++ q).
    split; [by rewrite <- app_assoc|]. rewrite <- app_assoc. split; [|by eapply reads_app].
    destruct (encode_rune_head r Hr) as (d & k & Ed & Hd). rewrite Ed in Er. injection Er as <- _.
    assert (Hbyte : forall v, bval c <> v -> v < 128 -> r <> v) by (intros v Hne Hlt ->; lia).
    apply ST_rune; try done; [lia|apply Hbyte; [|lia]..]; intros Hx.
    + apply Hc. by apply bval_inj.
    + apply Hb. by apply bval_inj.
Qed.

Lemma parseString_sound p s0 o p' : rest p = x22 :: s0 -> Valid (rest p) = true -> parseString p = Ok (o, p') ->
  exists q, string_text o q /\ reads (quoted q) p p'.
Proof.
  intros E Hv H. pose proof (reads_adv _ _ _ E ltac:(done) Hv) as C1. unfold parseString in H.
  apply string_loop_sound in H as (s & q & -> & Hq & C2); [|apply C1]. exists q. split; [done|].
  change (quoted q) with ([x22] ++ q ++ [x22]). by eapply reads_app.
Qed.

(** ** Containers and values *)

Lemma members_ws w ms b : ws w -> members_text ms b -> members_text ms (w ++ b).
Proof.
  assert (Happ : forall w1, ws w -> ws w1 -> ws (w ++ w1)) by (intros w1 H1 H2; by rewrite forallb_app, H1, H2).
  intros Hw H. destruct H; rewrite app_assoc; constructor; auto.
Qed.

Lemma items_ws w ns b : ws w -> items_text ns b -> items_text ns (w ++ b).
Proof.
  assert (Happ : forall w1, ws w -> ws w1 -> ws (w ++ w1)) by (intros w1 H1 H2; by rewrite forallb_app, H1, H2).
  intros Hw H. destruct H; rewrite app_assoc; constructor; auto.
Qed.

Definition sound (parse : scanner -> scan (Node * scanner)) : Prop :=
  forall p n p', Valid (rest p) = true -> parse p = Ok (n, p') -> exists k, text n k /\ reads k p p'.

Section ContainerProofs.
Variable maxDepth : Z.
Variable parseNested : scanner -> scan (Node * scanner).
Hypothesis nested_sound : sound parseNested.

Lemma object_loop_sound fuel : forall acc p n p', Valid (rest p) = true ->
  object_loop parseNested fuel acc p = Ok (n, p') ->
  exists ms b, n = NObject (acc ++ ms) /\ members_text ms b /\ reads (b ++ "}") p p'.
Proof using nested_sound.
  induction fuel as [|f IH]; intros acc p n p' Hv H; [done|]. cbn [object_loop] in H.
  destruct (reads_skip p Hv) as (w1 & Hw1 & C1). destruct (rest (skipWhitespace p)) as [|c s] eqn:E; [done|].
  destruct c; try done. apply rbind_Ok in H as ([key p1] & Hs & H).
  apply (parseString_sound _ s) in Hs as (q & Hq & C2); [|done|apply C1].
  destruct (reads_skip p1 (proj2 C2)) as (w2 & Hw2 & C3).
  destruct (rest (skipWhitespace p1)) as [|c t] eqn:E2; [done|]. destruct c; try done.
  pose proof (reads_adv _ _ _ E2 ltac:(done) (proj2 C3)) as C4.
  destruct (reads_skip _ (proj2 C4)) as (w3 & Hw3 & C5). apply rbind_Ok in H as ([v p3] & Hn & H).
  apply nested_sound in Hn as (k & Hk & C6); [|apply C5]. destruct (reads_skip p3 (proj2 C6)) as (w4 & Hw4 & C7).
  assert (C : reads (w1 ++ quoted q ++ w2 ++ ":" ++ w3 ++ k ++ w4) p (skipWhitespace p3)).
  { do 6 (eapply reads_app; [eassumption|]). exact C7. }
  destruct (rest (skipWhitespace p3)) as [|c u] eqn:E4; [done|]. destruct c; try done.
  - pose proof (reads_adv _ _ _ E4 ltac:(done) (proj2 C7)) as C8.
    apply IH in H as (ms & b & -> & Hms & C9); [|apply C8].
    exists ((key, v) :: ms), (w1 ++ quoted q ++ w2 ++ ":" ++ w3 ++ k ++ w4 ++ "," ++ b).
    split; [by rewrite <- app_assoc|]. split; [by constructor|].
    pose proof (reads_app _ _ _ _ _ C (reads_app _ _ _ _ _ C8 C9)) as Call. rewrite <- !app_assoc in *. exact Call.
  - injection H as <- <-. pose proof (reads_adv _ _ _ E4 ltac:(done) (proj2 C7)) as C8.
    exists [(key, v)], (w1 ++ quoted q ++ w2 ++ ":" ++ w3 ++ k ++ w4). split; [done|]. split; [by constructor|].
    by eapply reads_app.
Qed.

Lemma array_loop_sound fuel : forall acc p n p', Valid (rest p) = true ->
  array_loop parseNested fuel acc p = Ok (n, p') ->
  exists ns b, n = NArray (acc ++ ns) /\ items_text ns b /\ reads (b ++ "]") p p'.
Proof using nested_sound.
  induction fuel as [|f IH]; intros acc p n p' Hv H; [done|]. cbn [array_loop] in H.
  destruct (reads_skip p Hv) as (w1 & Hw1 & C1). apply rbind_Ok in H as ([v p1] & Hn & H).
  apply nested_sound in Hn as (k & Hk & C2); [|apply C1]. destruct (reads_skip p1 (proj2 C2)) as (w2 & Hw2 & C3).
  assert (C : reads (w1 ++ k ++ w2) p (skipWhitespace p1)).
  { do 2 (eapply reads_app; [eassumption|]). exact C3. }
  destruct (rest (skipWhitespace p1)) as [|c u] eqn:E; [done|]. destruct c; try done.
  - pose proof (reads_adv _ _ _ E ltac:(done) (proj2 C3)) as C4.
    apply IH in H as (ns & b & -> & Hns & C5); [|apply C4].
    exists (v :: ns), (w1 ++ k ++ w2 ++ "," ++ b).
    split; [by rewrite <- app_assoc|]. split; [by constructor|].
    pose proof (reads_app _ _ _ _ _ C (reads_app _ _ _ _ _ C4 C5)) as Call. rewrite <- !app_assoc in *. exact Call.
  - injection H as <- <-. pose proof (reads_adv _ _ _ E ltac:(done) (proj2 C3)) as C4.
    exists [v], (w1 ++ k ++ w2). split; [done|]. split; [by constructor|]. by eapply reads_app.
Qed.

Lemma parseObject_sound depth p s n p' : rest p = "{"%byte :: s -> Valid (rest p) = true ->
  parseObject maxDepth parseNested depth p = Ok (n, p') -> exists k, text n k /\ reads k p p'.
Proof using nested_sound.
  intros E Hv H. unfold parseObject in H. destruct (_ <? _); [done|].
  pose proof (reads_adv _ _ _ E ltac:(done) Hv) as C1. destruct (reads_skip _ (proj2 C1)) as (w & Hw & C2).
  set (p1 := skipWhitespace (adv 1 p)) in *.
  assert (Hl : object_loop parseNested (S (length (rest p1))) [] p1 = Ok (n, p') -> exists k, text n k /\ reads k p p').
  { intros Hl. apply object_loop_sound in Hl as (ms & b & -> & Hms & C3); [|apply C2].
    exists ("{" ++ (w ++ b) ++ "}"). split; [by apply T_object, members_ws|]. rewrite <- app_assoc.
    eapply reads_app; [exact C1|]. by eapply reads_app. }
  destruct (rest p1) as [|c t] eqn:E1; [by apply Hl|]. destruct c; try (by apply Hl).
  injection H as <- <-. pose proof (reads_adv _ _ _ E1 ltac:(done) (proj2 C2)) as C3.
  exists ("{" ++ w ++ "}"). split; [by constructor|]. eapply reads_app; [exact C1|]. by eapply reads_app.
Qed.

Lemma parseArray_sound depth p s n p' : rest p = "["%byte :: s -> Valid (rest p) = true ->
  parseArray maxDepth parseNested depth p = Ok (n, p') -> exists k, text n k /\ reads k p p'.
Proof using nested_sound.
  intros E Hv H. unfold parseArray in H. destruct (_ <? _); [done|].
  pose proof (reads_adv _ _ _ E ltac:(done) Hv) as C1. destruct (reads_skip _ (proj2 C1)) as (w & Hw & C2).
  set (p1 := skipWhitespace (adv 1 p)) in *.
  assert (Hl : array_loop parseNested (S (length (rest p1))) [] p1 = Ok (n, p') -> exists k, text n k /\ reads k p p').
  { intros Hl. apply array_loop_sound in Hl as (ns & b & -> & Hns & C3); [|apply C2].
    exists ("[" ++ (w ++ b) ++ "]"). split; [by apply T_array, items_ws|]. rewrite <- app_assoc.
    eapply reads_app; [exact C1|]. by eapply reads_app. }
  destruct (rest p1) as [|c t] eqn:E1; [by apply Hl|]. destruct c; try (by apply Hl).
  injection H as <- <-. pose proof (reads_adv _ _ _ E1 ltac:(done) (proj2 C2)) as C3.
  exists ("[" ++ w ++ "]"). split; [by constructor|]. eapply reads_app; [exact C1|]. by eapply reads_app.
Qed.
End ContainerProofs.

Lemma canonical_number_ascii raw : canonical_number raw = true -> ascii raw.
Proof.
  intros H. assert (Hn : forall s, canonical_nat s = true -> ascii s).
  { intros s Hs. by apply plain_ascii, digits_plain, canonical_nat_digits. }
  destruct raw as [|c raw]; [done|]. destruct (decide (c = "-"%byte)) as [->|Hc].
  - cbn [forallb]. rewrite (Hn raw) by done. done.
  - apply Hn. unfold canonical_number in H. by destruct c.
Qed.

Lemma parseNumber_sound p c s n p' : rest p = c :: s -> Valid (rest p) = true -> parseNumber p = Ok (n, p') ->
  exists k, text n k /\ reads k p p'.
Proof.
  intros E Hv H. pose proof (parseNumber_consumes p c s E) as Hn. rewrite H in Hn.
  destruct Hn as (raw & -> & Hc & _ & C). exists raw. split; [by constructor|].
  apply reads_consumes; [by apply canonical_number_ascii|done|done].
Qed.

Lemma literal_sound l m p n p' : ascii l -> text m l -> Valid (rest p) = true ->
  rbind (expectLiteral l p) (fun p1 => Ok (m, p1)) = Ok (n, p') -> exists k, text n k /\ reads k p p'.
Proof.
  intros Hl Hm Hv H. pose proof (expectLiteral_consumes l p) as C. destruct (expectLiteral l p) as [p1|]; [|done].
  injection H as <- <-. exists l. split; [done|]. by apply reads_consumes.
Qed.

Lemma parseValue_sound maxDepth fuel : forall depth, sound (parseValue maxDepth fuel depth).
Proof.
  induction fuel as [|f IH]; intros depth p n p' Hv H; [done|]. cbn [parseValue] in H.
  destruct (rest p) as [|c s] eqn:E; [done|]. rewrite <- E in Hv.
  assert (Hnum : parseNumber p = Ok (n, p') -> exists k, text n k /\ reads k p p') by (by eapply parseNumber_sound).
  destruct c; try done;
    try (eapply literal_sound; [| |exact Hv|exact H]; [reflexivity|constructor]); try (by apply Hnum).
  - apply rbind_Ok in H as ([o p1] & Hs & [= <- <-]). apply (parseString_sound _ s) in Hs as (q & Hq & C); try done.
    exists (quoted q). split; [by constructor|done].
  - by apply (parseArray_sound maxDepth _ (IH (depth + 1)) depth p s).
  - by apply (parseObject_sound maxDepth _ (IH (depth + 1)) depth p s).
Qed.

Lemma Decode_sound maxDepth s n : Decode maxDepth s = Ok n ->
  Valid s = true /\ exists w t w', s = w ++ t ++ w' /\ ws w /\ ws w' /\ text n t.
Proof.
  unfold Decode. destruct (Valid s) eqn:Hv; [|done]. cbn [negb]. case_bool_decide; [done|].
  intros H'. apply rbind_Ok in H' as ([root p1] & Hp & H'). case_bool_decide as He; [|done]. injection H' as ->.
  destruct (reads_skip (mkScanner s 0) Hv) as (w & Hw & C1).
  apply parseValue_sound in Hp as (t & Ht & C2); [|apply C1].
  destruct (reads_skip p1 (proj2 C2)) as (w' & Hw' & C3). split; [done|]. exists w, t, w'. split_and!; try done.
  destruct (reads_app _ _ _ _ _ C1 (reads_app _ _ _ _ _ C2 C3)) as [[E _] _]. cbn [rest] in E.
  by rewrite E, He, app_nil_r.
Qed.

(** ** Properties *)

(** C20: The scanner decides exactly the JSON grammar within its depth limit: it accepts a frame, and answers a tree, if
    and only if the frame is valid UTF-8 and a text of the grammar for that tree with white space around it, and the tree
    is no deeper than the limit. Nothing malformed is accepted, nothing well formed is refused, and no frame has two trees. *)
Theorem decode_exact maxDepth s n :
  0 <= maxDepth ->
  Decode maxDepth s = Ok n <->
  Valid s = true /\ node_depth n <= maxDepth /\ exists w t w', s = w ++ t ++ w' /\ ws w /\ ws w' /\ text n t.
Proof.
  intros Hm. split.
  - intros H. pose proof (Decode_post maxDepth s) as Hp. rewrite H in Hp. destruct Hp as [_ Hd].
    apply Decode_sound in H as [Hv Ht]. split; [done|]. split; [lia|done].
  - intros (Hv & Hd & w & t & w' & -> & Hw & Hw' & Ht). by apply Decode_text.
Qed.

Lemma decode_exact_witness : Decode 3 " [true, -0] " = Ok (NArray [NBool true; NNumber "-0"]).
Proof.
  apply decode_exact; [lia|]. split; [reflexivity|]. split; [simpl; lia|].
  exists " ", "[true, -0]", " ". split_and!; try reflexivity. apply (T_array _ "true, -0").
  apply (I_more [] (NBool true) "true" [] [NNumber "-0"] " -0"); [reflexivity|reflexivity|constructor|].
  apply (I_last " " (NNumber "-0") "-0" []); [reflexivity|reflexivity|by constructor].
Defined.
