(* ===== verification/Config.v ===== *)
(** * Runtime configuration (internal/config/config.go)

    The configuration record, its defaults, the overlay of a parsed TOML document,
    the environment overrides and the start-up validation. The TOML parser
    (go-toml) is outside the sources: its result is the [model] argument. *)
From S2P Require Import Prelude GoLib.

(** ** Data *)

Record ServerConfig := { Bind : str; Port : Z; CertificatePath : str }.

Record AuthConfig := {
  TokenTtlDays : Z; TokenSecretEnv : str;
  Argon2MemoryKiB : Z; Argon2Iterations : Z; Argon2Parallelism : Z }.

Record LimitsConfig := {
  MaxTextBytes : Z; MaxFrameBytes : Z; SendQueueCapacity : Z; SeenIdCapacity : Z;
  HelloTimeoutSeconds : Z; HeartbeatIntervalSeconds : Z; HeartbeatTimeoutSeconds : Z;
  SnapshotWindowSeconds : Z; SnapshotTotalBytes : Z; RecoveryClipQueueCapacity : Z }.

Record RateLimitConfig := {
  LoginIpPerMinute : Z; LoginUserPerMinute : Z; MaxKeys : Z;
  ClipBurst : Z; ClipTokensPerSecond : Z }.

Record FilesConfig := { UsersFile : str; StateFile : str }.

(** [TokenSecret = None] is Go's [nil] slice. *)
Record RuntimeConfig := {
  Server : ServerConfig; Auth : AuthConfig; Limits : LimitsConfig;
  RateLimit : RateLimitConfig; Files : FilesConfig; TokenSecret : option str }.

Definition Defaults : RuntimeConfig := {|
  Server := {| Bind := "0.0.0.0"; Port := 8443; CertificatePath := "certs/server.pfx" |};
  Auth := {| TokenTtlDays := 30; TokenSecretEnv := "TEXTCASCADE_TOKEN_SECRET";
             Argon2MemoryKiB := 19456; Argon2Iterations := 2; Argon2Parallelism := 1 |};
  Limits := {| MaxTextBytes := 524288; MaxFrameBytes := 589824; SendQueueCapacity := 16;
               SeenIdCapacity := 64; HelloTimeoutSeconds := 5; HeartbeatIntervalSeconds := 30;
               HeartbeatTimeoutSeconds := 60; SnapshotWindowSeconds := 3;
               SnapshotTotalBytes := 4194304; RecoveryClipQueueCapacity := 16 |};
  RateLimit := {| LoginIpPerMinute := 10; LoginUserPerMinute := 5; MaxKeys := 10000;
                  ClipBurst := 10; ClipTokensPerSecond := 2 |};
  Files := {| UsersFile := "users.json"; StateFile := "textcascade.state.json" |};
  TokenSecret := None |}.

(** ** The TOML overlay *)

(** A decoded TOML value, Go's [any]; a table is a map with distinct keys. *)
Inductive TomlValue :=
| TString (s : str) | TInt (n : Z) | TTable (t : list (str * TomlValue)) | TOther.
Abbreviation TomlTable := (list (str * TomlValue)).

(** Warnings printed on the way, and the value or the error. *)
Definition toml (A : Type) : Type := list str * result str A.
Definition tret {A} (a : A) : toml A := ([], Ok a).
Definition terr {A} (e : str) : toml A := ([], Err e).
Definition tbind {A B} (m : toml A) (k : A -> toml B) : toml B :=
  match m with
  | (w, Ok a) => let '(w', r) := k a in (w ++ w', r)
  | (w, Err e) => (w, Err e)
  end.
Notation "'let!' x ':=' c 'in' k" := (tbind c (fun x => k))
  (at level 10, x pattern, c at level 200, k at level 200) : go_scope.

Fixpoint table_lookup (t : TomlTable) (key : str) : option TomlValue :=
  match t with
  | [] => None
  | (k, v) :: t' => if bool_decide (k = key) then Some v else table_lookup t' key
  end.

Definition getTable (table : TomlTable) (key : str) : toml (option TomlTable) :=
  match table_lookup table key with
  | None => tret None
  | Some (TTable nested) => tret (Some nested)
  | Some _ => terr ("TOML key '" ++ key ++ "' must be a table.")
  end.

Definition getString (table : TomlTable) (key fallback path : str) : toml str :=
  match table_lookup table key with
  | None => tret fallback
  | Some (TString text) => tret text
  | Some _ => terr ("TOML key '" ++ path ++ "' must be a string.")
  end.

Definition getInt (table : TomlTable) (key : str) (fallback : Z) (path : str) : toml Z :=
  match table_lookup table key with
  | None => tret fallback
  | Some (TInt number) =>
      if (number <? -2147483648) || (2147483647 <? number)
      then terr ("TOML key '" ++ path ++ "' must be a 32-bit integer.")
      else tret number
  | Some _ => terr ("TOML key '" ++ path ++ "' must be a 32-bit integer.")
  end.

Fixpoint insert_sorted (k : str) (ks : list str) : list str :=
  match ks with
  | [] => [k]
  | h :: t => if str_ltb h k then h :: insert_sorted k t else k :: ks
  end.
(** [sort.Strings] *)
Definition sort_strings (ks : list str) : list str := foldr insert_sorted [] ks.

Definition warnUnknownKeys (table : TomlTable) (section : str) (known : list str) : toml unit :=
  let unknown := List.filter (fun k => negb (existsb (fun n => bool_decide (n = k)) known))
                             (sort_strings (map fst table)) in
  (map (fun key => let path := if bool_decide (section = []) then key else section ++ "." ++ key in
                   "Warning: unknown TOML key '" ++ path ++ "' was ignored.") unknown, Ok tt).

Definition apply_server (c : ServerConfig) (t : TomlTable) : toml ServerConfig :=
  let! _ := warnUnknownKeys t "server" ["bind"; "port"; "certificate_path"] in
  let! b := getString t "bind" (Bind c) "server.bind" in
  let! p := getInt t "port" (Port c) "server.port" in
  let! cp := getString t "certificate_path" (CertificatePath c) "server.certificate_path" in
  tret {| Bind := b; Port := p; CertificatePath := cp |}.

Definition apply_auth (c : AuthConfig) (t : TomlTable) : toml AuthConfig :=
  let! _ := warnUnknownKeys t "auth" ["token_ttl_days"; "token_secret_env"; "argon2_memory_kib";
                                      "argon2_iterations"; "argon2_parallelism"] in
  let! ttl := getInt t "token_ttl_days" (TokenTtlDays c) "auth.token_ttl_days" in
  let! env := getString t "token_secret_env" (TokenSecretEnv c) "auth.token_secret_env" in
  let! m := getInt t "argon2_memory_kib" (Argon2MemoryKiB c) "auth.argon2_memory_kib" in
  let! i := getInt t "argon2_iterations" (Argon2Iterations c) "auth.argon2_iterations" in
  let! p := getInt t "argon2_parallelism" (Argon2Parallelism c) "auth.argon2_parallelism" in
  tret {| TokenTtlDays := ttl; TokenSecretEnv := env; Argon2MemoryKiB := m;
          Argon2Iterations := i; Argon2Parallelism := p |}.

Definition apply_limits (c : LimitsConfig) (t : TomlTable) : toml LimitsConfig :=
  let! _ := warnUnknownKeys t "limits"
    ["max_text_bytes"; "max_frame_bytes"; "send_queue_capacity"; "seen_id_capacity";
     "hello_timeout_seconds"; "heartbeat_interval_seconds"; "heartbeat_timeout_seconds";
     "snapshot_window_seconds"; "snapshot_total_bytes"; "recovery_clip_queue_capacity"] in
  let! a := getInt t "max_text_bytes" (MaxTextBytes c) "limits.max_text_bytes" in
  let! b := getInt t "max_frame_bytes" (MaxFrameBytes c) "limits.max_frame_bytes" in
  let! s := getInt t "send_queue_capacity" (SendQueueCapacity c) "limits.send_queue_capacity" in
  let! d := getInt t "seen_id_capacity" (SeenIdCapacity c) "limits.seen_id_capacity" in
  let! e := getInt t "hello_timeout_seconds" (HelloTimeoutSeconds c) "limits.hello_timeout_seconds" in
  let! f := getInt t "heartbeat_interval_seconds" (HeartbeatIntervalSeconds c)
                   "limits.heartbeat_interval_seconds" in
  let! g := getInt t "heartbeat_timeout_seconds" (HeartbeatTimeoutSeconds c)
                   "limits.heartbeat_timeout_seconds" in
  let! h := getInt t "snapshot_window_seconds" (SnapshotWindowSeconds c)
                   "limits.snapshot_window_seconds" in
  let! i := getInt t "snapshot_total_bytes" (SnapshotTotalBytes c) "limits.snapshot_total_bytes" in
  let! j := getInt t "recovery_clip_queue_capacity" (RecoveryClipQueueCapacity c)
                   "limits.recovery_clip_queue_capacity" in
  tret {| MaxTextBytes := a; MaxFrameBytes := b; SendQueueCapacity := s; SeenIdCapacity := d;
          HelloTimeoutSeconds := e; HeartbeatIntervalSeconds := f; HeartbeatTimeoutSeconds := g;
          SnapshotWindowSeconds := h; SnapshotTotalBytes := i; RecoveryClipQueueCapacity := j |}.

Definition apply_rate_limit (c : RateLimitConfig) (t : TomlTable) : toml RateLimitConfig :=
  let! _ := warnUnknownKeys t "rate_limit"
    ["login_ip_per_minute"; "login_user_per_minute"; "max_keys"; "clip_burst";
     "clip_tokens_per_second"] in
  let! a := getInt t "login_ip_per_minute" (LoginIpPerMinute c) "rate_limit.login_ip_per_minute" in
  let! b := getInt t "login_user_per_minute" (LoginUserPerMinute c)
                   "rate_limit.login_user_per_minute" in
  let! k := getInt t "max_keys" (MaxKeys c) "rate_limit.max_keys" in
  let! d := getInt t "clip_burst" (ClipBurst c) "rate_limit.clip_burst" in
  let! e := getInt t "clip_tokens_per_second" (ClipTokensPerSecond c)
                   "rate_limit.clip_tokens_per_second" in
  tret {| LoginIpPerMinute := a; LoginUserPerMinute := b; MaxKeys := k; ClipBurst := d;
          ClipTokensPerSecond := e |}.

Definition apply_files (c : FilesConfig) (t : TomlTable) : toml FilesConfig :=
  let! _ := warnUnknownKeys t "files" ["users_file"; "state_file"] in
  let! u := getString t "users_file" (UsersFile c) "files.users_file" in
  let! s := getString t "state_file" (StateFile c) "files.state_file" in
  tret {| UsersFile := u; StateFile := s |}.

Definition apply_section {A} (apply : A -> TomlTable -> toml A) (c : A) (t : option TomlTable) : toml A :=
  match t with Some table => apply c table | None => tret c end.

Definition applyTOMLModel (c : RuntimeConfig) (model : TomlTable) : toml RuntimeConfig :=
  let! ts := getTable model "server" in let! sv := apply_section apply_server (Server c) ts in
  let! ta := getTable model "auth" in let! au := apply_section apply_auth (Auth c) ta in
  let! tl := getTable model "limits" in let! li := apply_section apply_limits (Limits c) tl in
  let! tr := getTable model "rate_limit" in
  let! rl := apply_section apply_rate_limit (RateLimit c) tr in
  let! tf := getTable model "files" in let! fi := apply_section apply_files (Files c) tf in
  tret {| Server := sv; Auth := au; Limits := li; RateLimit := rl; Files := fi;
          TokenSecret := TokenSecret c |}.

(** [LoadTOML] after the file was read ([None]: it does not exist); [parse] is
    [toml.Unmarshal]. *)
Definition LoadTOML (parse : str -> result str TomlTable) (raw : option str) (def : RuntimeConfig)
  : toml RuntimeConfig :=
  match raw with
  | None => tret def
  | Some bytes =>
      if negb (Valid bytes) then terr "TOML configuration must be UTF-8."
      else match parse bytes with
           | Err e => terr ("Invalid TOML configuration: " ++ e)
           | Ok model =>
               let! _ := warnUnknownKeys model [] ["server"; "auth"; "limits"; "rate_limit"; "files"] in
               applyTOMLModel def model
           end
  end.

(** [ApplyEnv]; [env] is [os.Getenv], empty when unset. *)
Definition ApplyEnv (env : str -> str) (c : RuntimeConfig) : result str RuntimeConfig :=
  let over (name cur : str) : str := if 0 <? len (env name) then env name else cur in
  let bind := over "TEXTCASCADE_BIND" (Bind (Server c)) in
  let? port := (if 0 <? len (env "TEXTCASCADE_PORT") then
                  match ParseInt (env "TEXTCASCADE_PORT") with
                  | Some p => Ok p
                  | None => Err "TEXTCASCADE_PORT must be a valid integer."
                  end
                else Ok (Port (Server c))) in
  let secretText := env (TokenSecretEnv (Auth c)) in
  Ok {| Server := {| Bind := bind; Port := port;
                     CertificatePath := over "TEXTCASCADE_CERTIFICATE_PATH" (CertificatePath (Server c)) |};
        Auth := Auth c; Limits := Limits c; RateLimit := RateLimit c;
        Files := {| UsersFile := over "TEXTCASCADE_USERS_FILE" (UsersFile (Files c));
                    StateFile := over "TEXTCASCADE_STATE_FILE" (StateFile (Files c)) |};
        TokenSecret := if 0 <? len secretText then Some secretText else TokenSecret c |}.

Definition secret_too_short (c : RuntimeConfig) : bool :=
  match TokenSecret c with None => true | Some s => len s <? 32 end.

(** [RuntimeConfig.Validate]: [None] is a nil error. *)
Definition Validate (c : RuntimeConfig) : option str :=
  let s := Server c in let a := Auth c in let l := Limits c in
  let r := RateLimit c in let f := Files c in
  if (Port s <? 1) || (65535 <? Port s) then Some "server.port must be between 1 and 65535." else
  if blank (Bind s) then Some "server.bind must not be empty." else
  if blank (CertificatePath s) then Some "server.certificate_path must not be empty." else
  if TokenTtlDays a <=? 0 then Some "auth.token_ttl_days must be positive." else
  if blank (TokenSecretEnv a) then Some "auth.token_secret_env must not be empty." else
  if (Argon2MemoryKiB a <=? 0) || (Argon2Iterations a <=? 0) || (Argon2Parallelism a <=? 0)
  then Some "Argon2 parameters must be positive." else
  if secret_too_short c
  then Some ("Token secret from " ++ TokenSecretEnv a ++ " must be at least 32 bytes.") else
  if (MaxTextBytes l <=? 0) || (MaxFrameBytes l <=? MaxTextBytes l)
  then Some "limits.max_frame_bytes must be greater than max_text_bytes." else
  if (SendQueueCapacity l <=? 0) || (SeenIdCapacity l <=? 0) || (HelloTimeoutSeconds l <=? 0)
  then Some "limits capacities and timeouts must be positive." else
  if (HeartbeatIntervalSeconds l <=? 0) || (HeartbeatTimeoutSeconds l <=? HeartbeatIntervalSeconds l)
  then Some "heartbeat timeout must be greater than interval." else
  if (SnapshotWindowSeconds l <=? 0) || (SnapshotTotalBytes l <=? 0)
     || (RecoveryClipQueueCapacity l <=? 0)
  then Some "snapshot limits must be positive." else
  if (LoginIpPerMinute r <=? 0) || (LoginUserPerMinute r <=? 0) || (MaxKeys r <=? 0)
     || (ClipBurst r <=? 0) || (ClipTokensPerSecond r <=? 0)
  then Some "rate limits must be positive." else
  if blank (UsersFile f) then Some "files.users_file must not be empty." else
  if blank (StateFile f) then Some "files.state_file must not be empty." else
  None.

(** ** What a validated configuration guarantees *)

Record validated (c : RuntimeConfig) : Prop := {
  v_port : 1 <= Port (Server c) <= 65535;
  v_ttl : 0 < TokenTtlDays (Auth c);
  v_argon : 0 < Argon2MemoryKiB (Auth c) /\ 0 < Argon2Iterations (Auth c) /\
            0 < Argon2Parallelism (Auth c);
  v_secret : exists s, TokenSecret c = Some s /\ 32 <= len s;
  v_text : 0 < MaxTextBytes (Limits c) < MaxFrameBytes (Limits c);
  v_queues : 0 < SendQueueCapacity (Limits c) /\ 0 < SeenIdCapacity (Limits c) /\
             0 < HelloTimeoutSeconds (Limits c);
  v_heartbeat : 0 < HeartbeatIntervalSeconds (Limits c) < HeartbeatTimeoutSeconds (Limits c);
  v_snapshot : 0 < SnapshotWindowSeconds (Limits c) /\ 0 < SnapshotTotalBytes (Limits c) /\
               0 < RecoveryClipQueueCapacity (Limits c);
  v_rate : 0 < LoginIpPerMinute (RateLimit c) /\ 0 < LoginUserPerMinute (RateLimit c) /\
           0 < MaxKeys (RateLimit c) /\ 0 < ClipBurst (RateLimit c) /\
           0 < ClipTokensPerSecond (RateLimit c);
  v_strings : blank (Bind (Server c)) = false /\ blank (CertificatePath (Server c)) = false /\
              blank (TokenSecretEnv (Auth c)) = false /\ blank (UsersFile (Files c)) = false /\
              blank (StateFile (Files c)) = false }.

Lemma secret_too_short_spec c :
  secret_too_short c = false <-> exists s, TokenSecret c = Some s /\ 32 <= len s.
Proof.
  unfold secret_too_short. destruct (TokenSecret c) as [s|]; [|naive_solver].
  rewrite Z.ltb_ge. naive_solver.
Qed.

Lemma if_Some_None {A} (b : bool) (e : A) (r : option A) :
  (if b then Some e else r) = None <-> b = false /\ r = None.
Proof. destruct b; naive_solver. Qed.

Lemma Validate_validated c : Validate c = None <-> validated c.
Proof.
  unfold Validate. rewrite !if_Some_None, secret_too_short_spec, !orb_false_iff,
    !Z.leb_gt, !Z.ltb_ge. split.
  - intros H. destruct_and! H. constructor; repeat split; eauto; lia.
  - intros []. naive_solver lia.
Qed.

(** Every integer of the configuration fits a signed 32-bit integer. *)
Definition int32 (n : Z) : Prop := -2147483648 <= n <= 2147483647.
Definition ints (c : RuntimeConfig) : list Z :=
  [Port (Server c); TokenTtlDays (Auth c); Argon2MemoryKiB (Auth c); Argon2Iterations (Auth c);
   Argon2Parallelism (Auth c); MaxTextBytes (Limits c); MaxFrameBytes (Limits c);
   SendQueueCapacity (Limits c); SeenIdCapacity (Limits c); HelloTimeoutSeconds (Limits c);
   HeartbeatIntervalSeconds (Limits c); HeartbeatTimeoutSeconds (Limits c);
   SnapshotWindowSeconds (Limits c); SnapshotTotalBytes (Limits c);
   RecoveryClipQueueCapacity (Limits c); LoginIpPerMinute (RateLimit c);
   LoginUserPerMinute (RateLimit c); MaxKeys (RateLimit c); ClipBurst (RateLimit c);
   ClipTokensPerSecond (RateLimit c)].
Definition ints32 (c : RuntimeConfig) : Prop := Forall int32 (ints c).

Definition yields {A} (P : A -> Prop) (m : toml A) : Prop := forall a, m.2 = Ok a -> P a.

Lemma yields_bind {A B} (P : A -> Prop) (Q : B -> Prop) m k :
  yields P m -> (forall a, P a -> yields Q (k a)) -> yields Q (tbind m k).
Proof.
  unfold yields, tbind. intros Hm Hk b. destruct m as [w [a|e]]; simpl; [|done].
  specialize (Hk a (Hm a eq_refl) b). destruct (k a) as [w' r]. exact Hk.
Qed.

Lemma yields_any {A} (m : toml A) : yields (fun _ => True) m.
Proof. done. Qed.

Lemma yields_ret {A} (P : A -> Prop) a : P a -> yields P (tret a).
Proof. unfold yields. by intros ? ? [= <-]. Qed.

Lemma getInt_int32 t k d p : int32 d -> yields int32 (getInt t k d p).
Proof.
  unfold getInt, yields, int32. intros Hd a. destruct (table_lookup t k) as [[| n | |]|]; simpl;
    try (intros [= <-]; done); try done.
  destruct (_ || _) eqn:E; [done|]. intros [= <-]. bool_to_prop. lia.
Qed.

Lemma yields_section {A} (P : A -> Prop) apply c t :
  P c -> (forall tb, yields P (apply c tb)) -> yields P (apply_section apply c t).
Proof. intros Hc Ha. destruct t; [apply Ha|by apply yields_ret]. Qed.

Definition s_ok (s : ServerConfig) := int32 (Port s).
Definition a_ok (a : AuthConfig) := int32 (TokenTtlDays a) /\ int32 (Argon2MemoryKiB a) /\
  int32 (Argon2Iterations a) /\ int32 (Argon2Parallelism a).
Definition l_ok (l : LimitsConfig) := int32 (MaxTextBytes l) /\ int32 (MaxFrameBytes l) /\
  int32 (SendQueueCapacity l) /\ int32 (SeenIdCapacity l) /\ int32 (HelloTimeoutSeconds l) /\
  int32 (HeartbeatIntervalSeconds l) /\ int32 (HeartbeatTimeoutSeconds l) /\
  int32 (SnapshotWindowSeconds l) /\ int32 (SnapshotTotalBytes l) /\
  int32 (RecoveryClipQueueCapacity l).
Definition r_ok (r : RateLimitConfig) := int32 (LoginIpPerMinute r) /\
  int32 (LoginUserPerMinute r) /\ int32 (MaxKeys r) /\ int32 (ClipBurst r) /\
  int32 (ClipTokensPerSecond r).

(** Read every field of a section, keeping [int32] of the integer ones. *)
Ltac read_fields :=
  intros; repeat (eapply yields_bind;
    [first [apply getInt_int32; assumption | apply yields_any]|intros]);
  apply yields_ret; unfold s_ok, a_ok, l_ok, r_ok in *; simpl; tauto.

Lemma ints32_sections c : ints32 c <->
  s_ok (Server c) /\ a_ok (Auth c) /\ l_ok (Limits c) /\ r_ok (RateLimit c).
Proof.
  unfold ints32, ints, s_ok, a_ok, l_ok, r_ok. rewrite !Forall_cons_iff. split; [tauto|].
  intros H. assert (Forall int32 []) by constructor. tauto.
Qed.

Lemma apply_server_ok s t : s_ok s -> yields s_ok (apply_server s t).
Proof. unfold s_ok at 1. read_fields. Qed.
Lemma apply_auth_ok a t : a_ok a -> yields a_ok (apply_auth a t).
Proof. intros (?&?&?&?). read_fields. Qed.
Lemma apply_limits_ok l t : l_ok l -> yields l_ok (apply_limits l t).
Proof. intros (?&?&?&?&?&?&?&?&?&?). read_fields. Qed.
Lemma apply_rate_limit_ok r t : r_ok r -> yields r_ok (apply_rate_limit r t).
Proof. intros (?&?&?&?&?). read_fields. Qed.

Lemma applyTOMLModel_ints32 c model : ints32 c -> yields ints32 (applyTOMLModel c model).
Proof.
  rewrite ints32_sections. intros (Hs & Ha & Hl & Hr). unfold applyTOMLModel.
  eapply yields_bind; [apply yields_any|intros ts _].
  eapply yields_bind; [apply (yields_section s_ok); auto using apply_server_ok|intros sv ?].
  eapply yields_bind; [apply yields_any|intros ta _].
  eapply yields_bind; [apply (yields_section a_ok); auto using apply_auth_ok|intros au ?].
  eapply yields_bind; [apply yields_any|intros tl _].
  eapply yields_bind; [apply (yields_section l_ok); auto using apply_limits_ok|intros li ?].
  eapply yields_bind; [apply yields_any|intros tr _].
  eapply yields_bind; [apply (yields_section r_ok); auto using apply_rate_limit_ok|intros rl ?].
  eapply yields_bind; [apply yields_any|intros tf _].
  eapply yields_bind; [apply yields_any|intros fi _].
  apply yields_ret. by apply ints32_sections.
Qed.

Lemma Defaults_ints32 : ints32 Defaults.
Proof. repeat constructor; unfold int32; simpl; lia. Qed.

(** Loading a TOML overlay over the defaults keeps every integer setting in the signed 32-bit range,
    whatever the file contains. *)
Lemma toml_overlay_int32 model c : (applyTOMLModel Defaults model).2 = Ok c -> ints32 c.
Proof. apply applyTOMLModel_ints32, Defaults_ints32. Qed.

Lemma LoadTOML_ints32 parse raw c : (LoadTOML parse raw Defaults).2 = Ok c -> ints32 c.
Proof.
  destruct raw as [bytes|]; cbn [LoadTOML]; [|intros [= <-]; apply Defaults_ints32].
  destruct (negb (Valid bytes)); [done|]. destruct (parse bytes) as [model|e]; [|done].
  unfold tbind. destruct (warnUnknownKeys _ _ _) as [w [[]|e]]; [|done].
  pose proof (toml_overlay_int32 model c) as H. destruct (applyTOMLModel Defaults model) as [w' r]. exact H.
Qed.

(** The environment sets no integer but the port, whose range is checked. *)
Lemma ApplyEnv_ints32 env c c' : ints32 c -> ApplyEnv env c = Ok c' -> validated c' -> ints32 c'.
Proof.
  unfold ints32, ints, ApplyEnv. intros Hc H Hv. apply rbind_Ok in H as (port & _ & [= <-]).
  pose proof (v_port _ Hv) as Hp. apply list.Forall_cons in Hc as [_ Hc]. apply list.Forall_cons. split; [|exact Hc].
  simpl in *. unfold int32. lia.
Qed.
