(* ===== verification/GoTime.v ===== *)
(** * Go's [time] as the server uses it

    Instants are nanoseconds since the Unix epoch with a zone offset; durations
    are 64-bit nanosecond counts. Calendar conversion, the two [time.Parse]
    layouts and the two [Format] layouts of the sources are written out. *)
From S2P Require Import Prelude GoLib.

(** ** Instants and durations *)

Record Time := mkTime { ns : Z; zone_offset : Z }.

Definition utc (n : Z) : Time := mkTime n 0.

Definition Second : Z := 1000000000.
Definition Minute : Z := 60 * Second.
Definition Hour : Z := 60 * Minute.

(** [time.Duration(n) * unit]: a 64-bit product. *)
Definition duration (n unit : Z) : Z := wrap64 (n * unit).

(** [t.Add(d)]; an instant's seconds are 64-bit, far beyond any [t] and [d] here. *)
Definition Add (t : Time) (d : Z) : Time := mkTime (ns t + d) (zone_offset t).

(** [t.Sub(u)] saturates at the 64-bit bounds. *)
Definition Sub (t u : Time) : Z := Z.max MinInt64 (Z.min MaxInt64 (ns t - ns u)).

Definition Before (t u : Time) : bool := ns t <? ns u.
Definition After (t u : Time) : bool := ns u <? ns t.
Definition Equal (t u : Time) : bool := ns t =? ns u.

(** The zero [time.Time] is 0001-01-01 00:00:00 UTC. *)
Definition zeroTime : Time := utc (-62135596800 * Second).
Definition IsZero (t : Time) : bool := ns t =? -62135596800 * Second.

Definition Unix (t : Time) : Z := ns t / Second.
Definition UnixNano (t : Time) : Z := wrap64 (ns t).

(** ** Calendar *)

Definition isLeap (y : Z) : bool := (y mod 4 =? 0) && (negb (y mod 100 =? 0) || (y mod 400 =? 0)).

Definition daysIn (m y : Z) : Z :=
  if m =? 2 then (if isLeap y then 29 else 28)
  else if (m =? 4) || (m =? 6) || (m =? 9) || (m =? 11) then 30 else 31.

(** Days from 1970-01-01 of a proleptic Gregorian date. *)
Definition days_from_civil (y m d : Z) : Z :=
  let y' := if m <=? 2 then y - 1 else y in
  let era := y' / 400 in
  let yoe := y' - era * 400 in
  let doy := (153 * (if 2 <? m then m - 3 else m + 9) + 2) / 5 + d - 1 in
  let doe := yoe * 365 + yoe / 4 - yoe / 100 + doy in
  era * 146097 + doe - 719468.

(** The year of era and the day of year of a day of era (years start in March). *)
Definition yoe_of (doe : Z) : Z := (doe - doe / 1460 + doe / 36524 - doe / 146096) / 365.
Definition doy_of (doe : Z) : Z :=
  let yoe := yoe_of doe in doe - (365 * yoe + yoe / 4 - yoe / 100).

Definition civil_from_days (z : Z) : Z * Z * Z :=
  let z' := z + 719468 in
  let era := z' / 146097 in
  let doe := z' - era * 146097 in
  let mp := (5 * doy_of doe + 2) / 153 in
  let d := doy_of doe - (153 * mp + 2) / 5 + 1 in
  let m := if mp <? 10 then mp + 3 else mp - 9 in
  let y := yoe_of doe + era * 400 in
  (if m <=? 2 then y + 1 else y, m, d).

(** [time.Date(y, m, d, hh, mm, ss, nsec, time.UTC)] for fields in range. *)
Definition Date (y m d hh mm ss nsec : Z) : Time :=
  utc ((days_from_civil y m d * 86400 + hh * 3600 + mm * 60 + ss) * Second + nsec).

(** ** Formatting *)

Definition pad2 (n : Z) : str := [digit_byte (n / 10 mod 10); digit_byte (n mod 10)].

(** Zero-padded decimal of at least [w] digits (Go's [appendInt]). *)
Definition appendInt (n : Z) (w : nat) : str :=
  let u := FormatUint (Z.abs n) in
  (if n <? 0 then "-" else []) ++ repeat "0"%byte (w - length u) ++ u.

(** Layout ["2006-01-02T15:04:05"] of an instant taken in UTC. *)
Definition format_seconds (t : Time) : str :=
  let s := Unix t in
  let '(y, m, d) := civil_from_days (s / 86400) in
  let r := s mod 86400 in
  appendInt y 4 ++ "-" ++ pad2 m ++ "-" ++ pad2 d ++ "T" ++
  pad2 (r / 3600) ++ ":" ++ pad2 (r / 60 mod 60) ++ ":" ++ pad2 (r mod 60).

(** ** Parsing *)

Definition isDigitAt (s : str) (i : nat) : bool :=
  match nth_error s i with Some c => is_digit c | None => false end.
Definition digit_val (c : byte) : Z := bval c - 48.

(** [getnum]: two digits, or one when not [fixed]. *)
Definition getnum (s : str) (fixed : bool) : option (Z * str) :=
  match s with
  | a :: r =>
      if is_digit a then
        match r with
        | b :: r' => if is_digit b then Some (digit_val a * 10 + digit_val b, r')
                     else if fixed then None else Some (digit_val a, r)
        | [] => if fixed then None else Some (digit_val a, r)
        end
      else None
  | [] => None
  end.

Definition skip_byte (c : byte) (s : str) : option str :=
  match s with d :: r => if bool_decide (d = c) then Some r else None | [] => None end.

Notation "'let*' x ':=' c 'in' k" := (mbind (fun x => k) c)
  (at level 10, x pattern, c at level 200, k at level 200) : go_scope.
Notation "'guard' b 'in' k" := (if b then k else None)
  (at level 10, b at level 200, k at level 200) : go_scope.

(** [time.Parse("2006-01-02", s)]: year, month, day. *)
Definition parse_date (s : str) : option (Z * Z * Z) :=
  match s with
  | a :: b :: c :: d :: r =>
      guard is_digit a && is_digit b && is_digit c && is_digit d in
      let y := ((digit_val a * 10 + digit_val b) * 10 + digit_val c) * 10 + digit_val d in
      let* r1 := skip_byte "-"%byte r in
      let* (m, r2) := getnum r1 true in
      guard (1 <=? m) && (m <=? 12) in
      let* r3 := skip_byte "-"%byte r2 in
      let* (dd, r4) := getnum r3 true in
      guard bool_decide (r4 = []) in
      guard (1 <=? dd) && (dd <=? daysIn m y) in
      Some (y, m, dd)
  | _ => None
  end.

(** After the seconds [Parse] also takes a fraction the layout does not name: a
    period or a comma and digits. *)
Fixpoint drop_digits (s : str) : str :=
  match s with c :: r => if is_digit c then drop_digits r else s | [] => [] end.
Definition skip_fraction (s : str) : str :=
  match s with
  | c :: d :: r => if (bool_decide (c = "."%byte) || bool_decide (c = ","%byte)) && is_digit d
                   then drop_digits r else s
  | _ => s
  end.

(** [time.Parse("15:04:05", s)]: hour, minute, second (the fraction is dropped, as
    the caller reads only these fields). *)
Definition parse_clock (s : str) : option (Z * Z * Z) :=
  let* (hh, r1) := getnum s false in
  guard (hh <? 24) in
  let* r2 := skip_byte ":"%byte r1 in
  let* (mm, r3) := getnum r2 true in
  guard (mm <? 60) in
  let* r4 := skip_byte ":"%byte r3 in
  let* (ss, r5) := getnum r4 true in
  guard (ss <? 60) in
  guard bool_decide (skip_fraction r5 = []) in
  Some (hh, mm, ss).

Example civil_ex : civil_from_days 20683 = (2026, 8, 18) /\ days_from_civil 2026 8 18 = 20683.
Proof. vm_compute. done. Qed.
Example format_ex : format_seconds (utc (1760000000 * Second)) = "2025-10-09T08:53:20".
Proof. vm_compute. done. Qed.
Example clock_ex : parse_clock "8:00:00" = Some (8, 0, 0) /\ parse_clock "08:0:00" = None
  /\ parse_clock "08:00:00,5" = Some (8, 0, 0).
Proof. vm_compute. done. Qed.

(** ** Lemmas: the calendar *)

Lemma yoe_range doe : 0 <= doe < 146097 -> 0 <= yoe_of doe < 400.
Proof. unfold yoe_of. intros. lia. Qed.

(** The day of year, with the facts a leap day needs. *)
Lemma doy_range doe : 0 <= doe < 146097 ->
  let y := yoe_of doe + 1 in
  0 <= doy_of doe < 366 /\
  (doy_of doe = 365 -> y mod 4 = 0 /\ (y mod 100 <> 0 \/ y mod 400 = 0)).
Proof.
  intros H. pose proof (yoe_range doe H). unfold doy_of. unfold yoe_of in *.
  set (a := doe / 1460) in *. set (b := doe / 36524) in *. set (c := doe / 146096) in *.
  assert (c = 0 \/ c = 1) by lia.
  assert (b = 0 \/ b = 1 \/ b = 2 \/ b = 3 \/ b = 4) by lia.
  assert (0 <= doe - 1460 * a < 1460) by lia.
  assert (0 <= doe - 36524 * b < 36524) by lia.
  assert (0 <= doe - 146096 * c < 146096) by lia.
  clearbody a b c.
  set (y := (doe - a + b - c) / 365) in *.
  assert (0 <= doe - a + b - c - 365 * y < 365) by lia. clearbody y.
  assert (0 <= y - 4 * (y / 4) < 4) by lia.
  assert (0 <= y - 100 * (y / 100) < 100) by lia.
  assert (y / 100 = 0 \/ y / 100 = 1 \/ y / 100 = 2 \/ y / 100 = 3) by lia.
  split; [|intros Hd; split].
  - set (y4 := y / 4) in *. set (y1 := y / 100) in *. clearbody y4 y1. lia.
  - lia.
  - destruct (Z.eq_dec ((y + 1) mod 100) 0) as [E|E]; [right|by left].
    assert (Hy : y = 99 \/ y = 199 \/ y = 299 \/ y = 399) by lia. clear E.
    set (y4 := y / 4) in *. set (y1 := y / 100) in *.
    destruct Hy as [-> | [-> | [-> | ->]]]; subst y4 y1; try reflexivity; exfalso.
    + change (99 / 4) with 24 in *. change (99 / 100) with 0 in *. lia.
    + change (199 / 4) with 49 in *. change (199 / 100) with 1 in *. lia.
    + change (299 / 4) with 74 in *. change (299 / 100) with 2 in *. lia.
Qed.

Lemma doe_range z : let z' := z + 719468 in 0 <= z' - z' / 146097 * 146097 < 146097.
Proof. simpl. lia. Qed.

Lemma days_civil_roundtrip z :
  let '(y, m, d) := civil_from_days z in days_from_civil y m d = z.
Proof.
  unfold civil_from_days. cbv zeta. set (z' := z + 719468) in *. set (era := z' / 146097).
  pose proof (doe_range z) as Hdoe. cbv zeta in Hdoe. fold z' era in Hdoe.
  set (doe := z' - era * 146097) in *.
  pose proof (yoe_range doe Hdoe) as Hy. destruct (doy_range doe Hdoe) as [Hd _].
  assert (Ez : era * 146097 + doe - 719468 = z) by (unfold doe, z'; lia).
  clearbody era doe. set (mp := (5 * doy_of doe + 2) / 153).
  assert (Hmp : 0 <= mp <= 11) by (unfold mp; lia).
  assert (Em : forall y, (if (if mp <? 10 then mp + 3 else mp - 9) <=? 2 then
                  (if (if mp <? 10 then mp + 3 else mp - 9) <=? 2 then y + 1 else y) - 1
                else (if (if mp <? 10 then mp + 3 else mp - 9) <=? 2 then y + 1 else y)) = y).
  { intros y. destruct (_ <=? 2); lia. }
  assert (Emp : (if 2 <? (if mp <? 10 then mp + 3 else mp - 9)
                 then (if mp <? 10 then mp + 3 else mp - 9) - 3
                 else (if mp <? 10 then mp + 3 else mp - 9) + 9) = mp).
  { zcase; lia. }
  unfold days_from_civil. cbv zeta. rewrite Em, Emp.
  replace ((yoe_of doe + era * 400) / 400) with era by lia.
  replace (yoe_of doe + era * 400 - era * 400) with (yoe_of doe) by lia.
  unfold doy_of at 1. rewrite <- Ez. lia.
Qed.

Lemma isLeap_era y era : isLeap (y + era * 400) = isLeap y.
Proof.
  unfold isLeap. replace ((y + era * 400) mod 4) with (y mod 4) by lia.
  replace ((y + era * 400) mod 100) with (y mod 100) by lia.
  by replace ((y + era * 400) mod 400) with (y mod 400) by lia.
Qed.

(** Conversion from days always gives a date that exists. *)
Lemma civil_valid z : let '(y, m, d) := civil_from_days z in
  1 <= m <= 12 /\ 1 <= d <= daysIn m y.
Proof.
  unfold civil_from_days. cbv zeta. pose proof (doe_range z) as Hdoe. cbv zeta in Hdoe.
  set (era := (z + 719468) / 146097) in *. set (doe := z + 719468 - era * 146097) in *.
  destruct (doy_range doe Hdoe) as [Hd Hleap]. cbv zeta in Hleap.
  set (y := yoe_of doe) in *. set (doy := doy_of doe) in *. clearbody era doe y doy.
  set (mp := (5 * doy + 2) / 153).
  assert (Hmp : 153 * mp <= 5 * doy + 2 < 153 * (mp + 1)) by (unfold mp; lia).
  assert (H12 : 0 <= mp <= 11) by lia. clearbody mp.
  remember (doy - (153 * mp + 2) / 5 + 1) as d eqn:Ed.
  remember (y + era * 400) as Y0 eqn:EY0. remember (Y0 + 1) as Y1 eqn:EY1.
  assert (Hm : mp = 0 \/ mp = 1 \/ mp = 2 \/ mp = 3 \/ mp = 4 \/ mp = 5 \/ mp = 6 \/ mp = 7 \/
               mp = 8 \/ mp = 9 \/ mp = 10 \/ mp = 11) by lia.
  repeat destruct Hm as [Hm|Hm]; subst mp; lazy -[isLeap Z.le]; try (clear - Hd Hmp Ed; lia).
  replace Y1 with (y + 1 + era * 400) by lia. rewrite isLeap_era.
  destruct (isLeap (y + 1)) eqn:El; [lia|].
  destruct (Z.eq_dec doy 365) as [E|E]; [|lia]. destruct (Hleap E) as [H4 H100].
  unfold isLeap in El. apply Z.eqb_eq in H4. rewrite H4 in El. simpl in El.
  apply orb_false_iff in El as [E1 E2]. apply negb_false_iff in E1. bool_to_prop. lia.
Qed.

(** ** Lemmas: printed dates and clocks parse back *)

Lemma digit_val_digit d : 0 <= d < 10 -> digit_val (digit_byte d) = d.
Proof. intros. unfold digit_val. rewrite bval_digit_byte; lia. Qed.

Lemma appendInt_4 y : 0 <= y <= 9999 ->
  appendInt y 4 = [digit_byte (y / 1000); digit_byte (y / 100 mod 10);
                   digit_byte (y / 10 mod 10); digit_byte (y mod 10)].
Proof.
  intros Hy. unfold appendInt. rewrite Z.abs_eq by lia. rewrite (proj2 (Z.ltb_ge y 0)) by lia.
  rewrite FormatUint_step by lia. destruct (Z.ltb_spec y 10).
  { replace (y / 1000) with 0 by lia. replace (y / 100) with 0 by lia.
    replace (y / 10) with 0 by lia. by replace (y mod 10) with y by lia. }
  rewrite FormatUint_step by lia. destruct (Z.ltb_spec (y / 10) 10).
  { replace (y / 1000) with 0 by lia. replace (y / 100) with 0 by lia.
    by replace (y / 10 mod 10) with (y / 10) by lia. }
  rewrite FormatUint_step by lia. destruct (Z.ltb_spec (y / 10 / 10) 10).
  { replace (y / 1000) with 0 by lia. replace (y / 100 mod 10) with (y / 10 / 10) by lia. done. }
  rewrite FormatUint_step by lia. destruct (Z.ltb_spec (y / 10 / 10 / 10) 10); [|lia].
  replace (y / 1000) with (y / 10 / 10 / 10) by lia.
  by replace (y / 100) with (y / 10 / 10) by lia.
Qed.

Lemma getnum_pad2 n s fixed : 0 <= n < 100 -> getnum (pad2 n ++ s) fixed = Some (n, s).
Proof.
  intros Hn. unfold pad2. cbn [app getnum].
  rewrite !is_digit_digit_byte, !digit_val_digit by lia. do 2 f_equal. lia.
Qed.

Lemma skip_byte_cons c s : skip_byte c (c :: s) = Some s.
Proof. unfold skip_byte. by rewrite bool_decide_eq_true_2. Qed.

Lemma parse_date_format y m d : 0 <= y <= 9999 -> 1 <= m <= 12 -> 1 <= d <= daysIn m y ->
  parse_date (appendInt y 4 ++ "-" ++ pad2 m ++ "-" ++ pad2 d) = Some (y, m, d).
Proof.
  intros Hy Hm Hd. assert (d <= 31) by (unfold daysIn in Hd; repeat case_match; lia).
  rewrite appendInt_4 by done. unfold parse_date. cbn [app lit].
  rewrite !is_digit_digit_byte, !digit_val_digit by lia. cbn [andb].
  rewrite skip_byte_cons. cbn [mbind option_bind]. rewrite getnum_pad2 by lia. cbn [mbind option_bind].
  rewrite (proj2 (Z.leb_le 1 m)), (proj2 (Z.leb_le m 12)) by lia. cbn [andb].
  rewrite skip_byte_cons. cbn [mbind option_bind].
  rewrite <- (app_nil_r (pad2 d)), getnum_pad2 by lia. cbn [mbind option_bind].
  rewrite bool_decide_eq_true_2 by done.
  replace (((y / 1000 * 10 + y / 100 mod 10) * 10 + y / 10 mod 10) * 10 + y mod 10) with y by lia.
  rewrite (proj2 (Z.leb_le 1 d)), (proj2 (Z.leb_le d _)) by lia. done.
Qed.

Lemma parse_clock_format h m s : 0 <= h < 24 -> 0 <= m < 60 -> 0 <= s < 60 ->
  parse_clock (pad2 h ++ ":" ++ pad2 m ++ ":" ++ pad2 s) = Some (h, m, s).
Proof.
  intros Hh Hm Hs. unfold parse_clock. rewrite getnum_pad2 by lia. cbn [mbind option_bind].
  rewrite (proj2 (Z.ltb_lt _ _)) by lia. cbn [app lit]. rewrite skip_byte_cons. cbn [mbind option_bind].
  rewrite getnum_pad2 by lia. cbn [mbind option_bind].
  rewrite (proj2 (Z.ltb_lt _ _)) by lia. rewrite skip_byte_cons. cbn [mbind option_bind].
  rewrite <- (app_nil_r (pad2 s)), getnum_pad2 by lia. cbn [mbind option_bind].
  rewrite (proj2 (Z.ltb_lt _ _)) by lia. done.
Qed.

(** The calendar year of an instant. *)
Definition year_of (t : Time) : Z := let '(y, _, _) := civil_from_days (Unix t / 86400) in y.

(** Whole seconds survive printing and rebuilding the instant. *)
Lemma Date_civil t : let s := Unix t in let r := s mod 86400 in
  let '(y, m, d) := civil_from_days (s / 86400) in
  Date y m d (r / 3600) (r / 60 mod 60) (r mod 60) 0 = utc (s * Second).
Proof.
  cbv zeta. pose proof (days_civil_roundtrip (Unix t / 86400)) as H.
  destruct (civil_from_days (Unix t / 86400)) as [[y m] d]. unfold Date. rewrite H.
  f_equal. set (s := Unix t) in *. clearbody s. unfold Second. lia.
Qed.
