(* ===== verification/Protocol.v ===== *)
(** * Inbound protocol (internal/protocol/protocol.go)

    Message structures, the parser of client frames with its field checks, and the
    size and content validators. *)
From S2P Require Import Prelude GoLib JsonScan JsonGrammar Config GoTime.

(** ** Constants and structures *)

Definition ProtocolVersion : Z := 1.
Definition MaxNameBytes : Z := 128.
Definition MaxIdBytes : Z := 128.
Definition MaxHashBytes : Z := 4096.

Inductive ErrKind :=
| ErrInvalidMessage | ErrTextTooLarge | ErrFrameTooLarge | ErrEmptyText
| ErrRateLimited | ErrHelloTimeout | ErrServerBusy.

#[global] Instance ErrKind_eq_dec : EqDecision ErrKind.
Proof. solve_decision. Defined.

Record Error := mkError { Code : ErrKind; err_Message : str; ReferenceID : option str }.

Definition CodeName (e : Error) : str :=
  match Code e with
  | ErrTextTooLarge => "text_too_large"
  | ErrFrameTooLarge => "frame_too_large"
  | ErrEmptyText => "empty_text"
  | ErrRateLimited => "rate_limited"
  | ErrHelloTimeout => "hello_timeout"
  | ErrServerBusy => "server_busy"
  | ErrInvalidMessage => "invalid_message"
  end.

Definition invalid (message : str) (referenceID : option str) : Error :=
  mkError ErrInvalidMessage message referenceID.

Record ClipSnapshot := {
  snap_Payload : str; snap_Encrypted : bool; snap_Hash : str; LocalModifiedAtUtc : Time }.

Record ClientHello := {
  hello_ClientID : str; hello_ClientName : str; LastServerVersion : Z;
  Snapshot : option ClipSnapshot }.

Record ClientClip := {
  clip_ID : str; clip_Payload : str; clip_Encrypted : bool; clip_Hash : str }.

Record ClientPong := { ClientTimeUtc : Time }.

(** [Message]: the kind and the one pointer that kind sets. *)
Inductive Message :=
| KindHello (h : ClientHello) | KindClip (c : ClientClip) | KindPong (p : ClientPong).

Record LatestText := {
  Payload : str; Version : Z; Hash : str; Encrypted : bool;
  FromClientID : str; FromClientName : str; UpdatedAtUtc : Time }.

Definition LatestFromSnapshot (s : ClipSnapshot) (version : Z) (clientID clientName : str)
  : LatestText :=
  {| Payload := snap_Payload s; Version := version; Hash := snap_Hash s;
     Encrypted := snap_Encrypted s; FromClientID := clientID; FromClientName := clientName;
     UpdatedAtUtc := LocalModifiedAtUtc s |}.

(** ** Field access *)

Definition get_string (n : Node) (name : str) : option str :=
  match Get n name with Some (NString s) => Some s | _ => None end.
Definition get_bool (n : Node) (name : str) : option bool :=
  match Get n name with Some (NBool b) => Some b | _ => None end.

Definition getReferenceID (root : Node) : option str :=
  if IsObject root then get_string root "id" else None.

(** The first field name, in document order, that is unknown or repeated. *)
Fixpoint first_bad (known seen : list str) (ms : list (str * Node)) : option str :=
  match ms with
  | [] => None
  | (k, _) :: ms' =>
      if negb (bool_decide (k ∈ known)) || bool_decide (k ∈ seen) then Some k
      else first_bad known (k :: seen) ms'
  end.

(** [None] when every field is known and occurs once. *)
Definition hasUniqueKnownProperties (root : Node) (known : list str) : option str :=
  first_bad known [] (Members root).

Definition tryGetUint64 (root : Node) (name : str) : option Z :=
  match Get root name with
  | Some (NNumber raw) =>
      if HasPrefix raw "-" || ContainsAny raw ".eE" then None else ParseUint raw
  | _ => None
  end.

(** ** Time stamps *)

Definition fractionNanoseconds (timePart : str) (digits : nat) : Z :=
  match digits with
  | O => 0
  | _ => let dot := default O (IndexByte timePart "."%byte) in
         let frac := take digits (drop (S dot) timePart) in
         default 0 (ParseInt frac) * 10 ^ (9 - Z.of_nat digits)
  end.

Definition parseFlexibleUTC (text : str) : option Time :=
  let body := TrimSuffix text "Z" in
  let* tIndex := IndexByte body "T"%byte in
  let datePart := take tIndex body in
  let timePart := drop (S tIndex) body in
  let* (y, m, d) := parse_date datePart in
  let* fractionDigits :=
    match IndexByte timePart "."%byte with
    | Some dot => let n := (length timePart - dot - 1)%nat in
                  if (n <? 1)%nat || (7 <? n)%nat then None else Some n
    | None => Some O
    end in
  let* (hh, mm, ss) := parse_clock timePart in
  Some (Date y m d hh mm ss (fractionNanoseconds timePart fractionDigits)).

Definition ParseFlexibleTime (root : Node) (name : str) : option Time :=
  let* text := get_string root name in
  if HasSuffix text "Z" then parseFlexibleUTC text else None.

Definition isUTCZeroOffset (t : Time) : bool := zone_offset t =? 0.

(** ** Validators *)

Definition validateSnapshot (s : ClipSnapshot) (cfg : RuntimeConfig) : bool :=
  (0 <? len (snap_Payload s)) && (len (snap_Payload s) <=? MaxTextBytes (Limits cfg)) &&
  (len (snap_Hash s) <=? MaxHashBytes) && isUTCZeroOffset (LocalModifiedAtUtc s).

Definition ValidateHello (h : ClientHello) (cfg : RuntimeConfig) : bool :=
  (0 <? len (hello_ClientID h)) && (len (hello_ClientID h) <=? MaxNameBytes) &&
  (len (hello_ClientName h) <=? MaxNameBytes) &&
  match Snapshot h with None => true | Some s => validateSnapshot s cfg end.

Definition ValidateClip (c : ClientClip) (cfg : RuntimeConfig) : bool :=
  (0 <? len (clip_ID c)) && (len (clip_ID c) <=? MaxIdBytes) &&
  (0 <? len (clip_Payload c)) && (len (clip_Payload c) <=? MaxTextBytes (Limits cfg)) &&
  (0 <? len (clip_Hash c)) && (len (clip_Hash c) <=? MaxHashBytes).

Definition CheckFrameSize (frameLength : Z) (cfg : RuntimeConfig) : bool :=
  (0 <? frameLength) && (frameLength <=? MaxFrameBytes (Limits cfg)).

Definition CheckPayloadSize (payload : str) (cfg : RuntimeConfig) : bool :=
  len payload <=? MaxTextBytes (Limits cfg).

(** ** Parsers *)

(** [x := Get(name)] must be a non-empty string of at most [max] bytes. *)
Definition bounded_string (root : Node) (name : str) (max : Z) : option str :=
  let* s := get_string root name in
  if (max <? len s) || bool_decide (s = []) then None else Some s.

Definition or_fail {A} (o : option A) (e : Error) : result Error A :=
  match o with Some a => Ok a | None => Err e end.
Definition check (b : bool) (e : Error) : result Error unit :=
  if b then Ok tt else Err e.

Definition nonempty_string (root : Node) (name : str) : option str :=
  let* s := get_string root name in if bool_decide (s = []) then None else Some s.

Definition tryGetSnapshot (element : Node) (cfg : RuntimeConfig) : result Error ClipSnapshot :=
  let? payload := or_fail (nonempty_string element "payload")
    (invalid "snapshot.payload is required and must not be empty." None) in
  let? _ := check (len payload <=? MaxTextBytes (Limits cfg))
    (mkError ErrTextTooLarge "Text exceeds maxTextBytes." None) in
  let? encrypted := or_fail (get_bool element "encrypted")
    (invalid "snapshot.encrypted must be a boolean." None) in
  let? hash := or_fail (bounded_string element "hash" MaxHashBytes)
    (invalid "snapshot.hash is required." None) in
  let? modified := or_fail (ParseFlexibleTime element "localModifiedAtUtc")
    (invalid "snapshot.localModifiedAtUtc must be UTC RFC3339." None) in
  Ok {| snap_Payload := payload; snap_Encrypted := encrypted; snap_Hash := hash;
        LocalModifiedAtUtc := modified |}.

Definition finish_hello (h : ClientHello) (cfg : RuntimeConfig) : result Error Message :=
  if ValidateHello h cfg then Ok (KindHello h)
  else Err (invalid "hello validation failed." None).

(** [clientName]: empty unless a string within the limit is given. *)
Definition optional_name (root : Node) : str :=
  match get_string root "clientName" with
  | Some s => if len s <=? MaxNameBytes then s else []
  | None => []
  end.

Definition parseHello (root : Node) (cfg : RuntimeConfig) : result Error Message :=
  let? clientID := or_fail (bounded_string root "clientId" MaxNameBytes)
    (invalid "clientId must be 1-128 bytes." None) in
  let clientName := optional_name root in
  let? lastVersion := or_fail (tryGetUint64 root "lastServerVersion")
    (invalid "lastServerVersion must be a non-negative integer." None) in
  let hello snapshot := {| hello_ClientID := clientID; hello_ClientName := clientName;
                           LastServerVersion := lastVersion; Snapshot := snapshot |} in
  match Get root "snapshot" with
  | None => finish_hello (hello None) cfg
  | Some snapshotElement =>
      let? _ := check (IsObject snapshotElement || IsNull snapshotElement)
        (invalid "snapshot must be an object or null." None) in
      if IsObject snapshotElement then
        match hasUniqueKnownProperties snapshotElement
                ["payload"; "encrypted"; "hash"; "localModifiedAtUtc"] with
        | Some propertyName =>
            Err (invalid ("Unknown or duplicate field: " ++ propertyName ++ ".") None)
        | None => let? snapshot := tryGetSnapshot snapshotElement cfg in
                  finish_hello (hello (Some snapshot)) cfg
        end
      else finish_hello (hello None) cfg
  end.

Definition parseClip (root : Node) (cfg : RuntimeConfig) : result Error Message :=
  let? id := or_fail (bounded_string root "id" MaxIdBytes)
    (invalid "id must be 1-128 bytes." None) in
  let? payload := or_fail (nonempty_string root "payload")
    (mkError ErrEmptyText "payload must not be empty." (Some id)) in
  let? _ := check (len payload <=? MaxTextBytes (Limits cfg))
    (mkError ErrTextTooLarge "Text exceeds maxTextBytes." (Some id)) in
  let? encrypted := or_fail (get_bool root "encrypted")
    (invalid "encrypted must be a boolean." (Some id)) in
  let? hash := or_fail (bounded_string root "hash" MaxHashBytes)
    (invalid "hash is required." (Some id)) in
  let clip := {| clip_ID := id; clip_Payload := payload; clip_Encrypted := encrypted;
                 clip_Hash := hash |} in
  if ValidateClip clip cfg then Ok (KindClip clip)
  else Err (invalid "clip validation failed." (Some id)).

Definition parsePong (root : Node) : result Error Message :=
  let? clientTime := or_fail (ParseFlexibleTime root "clientTimeUtc")
    (invalid "clientTimeUtc must be UTC RFC3339." None) in
  Ok (KindPong {| ClientTimeUtc := clientTime |}).

Definition known_fields (messageType : str) : list str :=
  if bool_decide (messageType = "hello"%go)
  then ["type"; "clientId"; "clientName"; "lastServerVersion"; "snapshot"]
  else if bool_decide (messageType = "clip"%go)
  then ["type"; "id"; "payload"; "encrypted"; "hash"]
  else if bool_decide (messageType = "pong"%go) then ["type"; "clientTimeUtc"]
  else [].

Definition ParseClientMessage (frame : str) (cfg : RuntimeConfig) : result Error Message :=
  match Decode 3 frame with
  | Err e => Err (invalid ("Invalid JSON: " ++ scan_message e) None)
  | Ok root =>
    let? _ := check (IsObject root) (invalid "Root must be an object." None) in
    let? messageType := or_fail (get_string root "type")
      (invalid "Missing or invalid type." (getReferenceID root)) in
    match hasUniqueKnownProperties root (known_fields messageType) with
    | Some propertyName =>
        Err (invalid ("Unknown or duplicate field: " ++ propertyName ++ ".") (getReferenceID root))
    | None =>
        if bool_decide (messageType = "hello"%go) then parseHello root cfg
        else if bool_decide (messageType = "clip"%go) then parseClip root cfg
        else if bool_decide (messageType = "pong"%go) then parsePong root
        else Err (invalid "Unknown message type." (getReferenceID root))
    end
  end.

(** ** Lemmas: fields *)

Lemma or_fail_Ok {A} (o : option A) e a : or_fail o e = Ok a <-> o = Some a.
Proof. destruct o; simpl; naive_solver. Qed.
Lemma check_Ok b e u : check b e = Ok u <-> b = true.
Proof. destruct b, u; simpl; naive_solver. Qed.

(** Peel the monadic steps of a successful parser run in hypothesis [H]. *)
Ltac peel H :=
  repeat match type of H with
  | rbind (or_fail _ _) _ = Ok _ =>
      let a := fresh "a" in let H1 := fresh "H" in
      apply rbind_Ok in H as (a & H1 & H); apply or_fail_Ok in H1
  | rbind (check _ _) _ = Ok _ =>
      let u := fresh "u" in let H1 := fresh "H" in
      apply rbind_Ok in H as (u & H1 & H); apply check_Ok in H1
  end.

Lemma first_bad_None known seen ms : first_bad known seen ms = None <->
  NoDup (map fst ms) /\ (forall k, k ∈ map fst ms -> k ∈ known /\ k ∉ seen).
Proof.
  revert seen. induction ms as [|[k v] ms IH]; intros seen; simpl.
  { split; [intros _|done]. split; [constructor|]. intros k Hk. by apply elem_of_nil in Hk. }
  rewrite list.NoDup_cons. setoid_rewrite elem_of_cons.
  case_bool_decide as Hk; simpl; [|naive_solver].
  case_bool_decide as Hs; [naive_solver|]. rewrite IH. split.
  - intros [Hnd Hall]. repeat split; try done.
    + intros Hin. destruct (Hall _ Hin) as [_ Hn]. apply Hn. by left.
    + destruct H as [->|H]; [done|]. by destruct (Hall _ H).
    + destruct H as [->|H]; [done|]. destruct (Hall _ H) as [_ Hn]. intros ?. apply Hn. by right.
  - intros [[Hnin Hnd] Hall]. split; [done|]. intros k' Hk'. destruct (Hall k') as [? Hns]; [by right|].
    split; [done|]. rewrite elem_of_cons. intros [->|]; done.
Qed.

(** The check succeeds exactly when the field names are known and pairwise distinct. *)
Lemma hasUnique_None root known : hasUniqueKnownProperties root known = None <->
  NoDup (map fst (Members root)) /\ map fst (Members root) ⊆ known.
Proof.
  unfold hasUniqueKnownProperties. rewrite first_bad_None.
  split; intros [Hnd H]; (split; [done|]).
  - intros k Hk. by apply H.
  - intros k Hk. split; [by apply H|apply not_elem_of_nil].
Qed.

Lemma find_member_elem k ms v : find_member k ms = Some v -> (k, v) ∈ ms.
Proof.
  induction ms as [|[k' v'] ms IH]; simpl; [done|].
  case_bool_decide as E; [intros [= ->]; subst; constructor|]. intros H. constructor. auto.
Qed.

(** With distinct keys, look-up does not depend on the order of the members. *)
Lemma find_member_NoDup k ms v : NoDup (map fst ms) -> (k, v) ∈ ms -> find_member k ms = Some v.
Proof.
  induction ms as [|[k' v'] ms IH]; simpl; intros Hnd Hin; [by apply elem_of_nil in Hin|].
  apply list.NoDup_cons in Hnd as [Hk Hnd]. apply elem_of_cons in Hin as [[= -> ->]|Hin].
  - by rewrite bool_decide_eq_true_2.
  - rewrite bool_decide_eq_false_2; [auto|]. intros ->. apply Hk. rewrite list_elem_of_In.
    apply in_map_iff. exists (k, v). by rewrite <- list_elem_of_In.
Qed.

Lemma get_string_Some root k s : get_string root k = Some s <-> Get root k = Some (NString s).
Proof. unfold get_string. destruct (Get root k) as [[]|]; naive_solver. Qed.
Lemma get_bool_Some root k b : get_bool root k = Some b <-> Get root k = Some (NBool b).
Proof. unfold get_bool. destruct (Get root k) as [[]|]; naive_solver. Qed.

Lemma bounded_string_Some root k m s : bounded_string root k m = Some s <->
  Get root k = Some (NString s) /\ 0 < len s <= m.
Proof.
  unfold bounded_string. destruct (get_string root k) as [t|] eqn:E; simpl.
  - apply get_string_Some in E. destruct (Z.ltb_spec m (len t)); simpl.
    { split; [done|]. rewrite E. intros [[= ->] ?]. lia. }
    rewrite E. case_bool_decide as Hn.
    { subst t. split; [done|]. intros [[= <-] ?]. unfold len in *; simpl in *; lia. }
    split.
    + intros [= ->]. split; [done|]. split; [|lia]. pose proof (len_nonneg s).
      destruct (Z.eq_dec (len s) 0) as [Hz|]; [by apply len_zero in Hz|lia].
    + by intros [[= ->] _].
  - split; [done|]. intros [H _]. apply get_string_Some in H. congruence.
Qed.

Lemma nonempty_string_Some root k s : nonempty_string root k = Some s <->
  Get root k = Some (NString s) /\ 0 < len s.
Proof.
  assert (H : nonempty_string root k = Some s <-> bounded_string root k (len s) = Some s).
  { unfold nonempty_string, bounded_string. destruct (get_string root k) as [t|]; simpl; [|done].
    case_bool_decide; [by rewrite orb_true_r|]. rewrite orb_false_r.
    destruct (Z.ltb_spec (len s) (len t)); [|done]. split; [intros [= ->]; lia|done]. }
  rewrite H, bounded_string_Some. naive_solver lia.
Qed.

(** Numbers that read as an unsigned 64-bit integer. *)
Lemma tryGetUint64_Some root k v : tryGetUint64 root k = Some v ->
  in_uint64 v /\ exists raw, Get root k = Some (NNumber raw) /\ ParseUint raw = Some v.
Proof.
  unfold tryGetUint64. destruct (Get root k) as [[| | |raw| |]|]; try done.
  destruct (_ || _); [done|]. intros H. split; [by eapply ParseUint_range|eauto].
Qed.

(** ** Clip frames *)

(** The members of a clip message. *)
Definition clip_members (c : ClientClip) : list (str * Node) :=
  [("type"%go, NString "clip"); ("id"%go, NString (clip_ID c));
   ("payload"%go, NString (clip_Payload c)); ("encrypted"%go, NBool (clip_Encrypted c));
   ("hash"%go, NString (clip_Hash c))].

Lemma ValidateClip_spec c cfg : ValidateClip c cfg = true <->
  0 < len (clip_ID c) <= MaxIdBytes /\
  0 < len (clip_Payload c) <= MaxTextBytes (Limits cfg) /\
  0 < len (clip_Hash c) <= MaxHashBytes.
Proof.
  unfold ValidateClip. rewrite !andb_true_iff, !Z.ltb_lt, !Z.leb_le. naive_solver.
Qed.

Lemma parseClip_Ok root cfg m : parseClip root cfg = Ok m <-> exists c, m = KindClip c /\
  ValidateClip c cfg = true /\
  Get root "id" = Some (NString (clip_ID c)) /\ Get root "payload" = Some (NString (clip_Payload c)) /\
  Get root "encrypted" = Some (NBool (clip_Encrypted c)) /\ Get root "hash" = Some (NString (clip_Hash c)).
Proof.
  unfold parseClip. split.
  - intros H. peel H. destruct (ValidateClip _ _) eqn:HV; [|done]. injection H as <-.
    apply bounded_string_Some in H0 as [? _], H4 as [? _]. apply nonempty_string_Some in H1 as [? _].
    apply get_bool_Some in H3. eauto 10.
  - intros (c & -> & HV & Hid & Hp & He & Hh). pose proof HV as (?&?&?)%ValidateClip_spec.
    rewrite (proj2 (bounded_string_Some root "id" MaxIdBytes (clip_ID c))) by done. cbn [or_fail rbind].
    rewrite (proj2 (nonempty_string_Some root "payload" (clip_Payload c))) by (split; [done|lia]).
    cbn [or_fail rbind]. rewrite (proj2 (Z.leb_le _ _)) by lia. cbn [check rbind].
    rewrite (proj2 (get_bool_Some root "encrypted" (clip_Encrypted c))) by done. cbn [or_fail rbind].
    rewrite (proj2 (bounded_string_Some root "hash" MaxHashBytes (clip_Hash c))) by done.
    cbn [or_fail rbind]. replace {| clip_ID := clip_ID c; clip_Payload := clip_Payload c;
      clip_Encrypted := clip_Encrypted c; clip_Hash := clip_Hash c |} with c by (by destruct c).
    by rewrite HV.
Qed.

(** Members with distinct keys that contain a given distinct-keyed list and use no
    other key are a permutation of it. *)
Lemma members_Permutation ms ks : NoDup (map fst ms) -> NoDup (map fst ks) ->
  map fst ms ⊆ map fst ks -> (forall k v, (k, v) ∈ ks -> find_member k ms = Some v) -> ms ≡ₚ ks.
Proof.
  intros Hms Hks Hsub Hfind. symmetry. apply submseteq_length_Permutation.
  - apply NoDup_submseteq; [|intros [k v] Hin; apply find_member_elem; auto].
    apply (NoDup_fmap_1 fst). exact Hks.
  - rewrite <- (length_map fst ms), <- (length_map fst ks). apply submseteq_length.
    apply NoDup_submseteq; auto.
Qed.

(** The result of [ParseClientMessage] by the kind the frame names. *)
Lemma ParseClientMessage_Ok frame cfg m : ParseClientMessage frame cfg = Ok m <->
  exists ms, Decode 3 frame = Ok (NObject ms) /\ NoDup (map fst ms) /\
  ((find_member "type" ms = Some (NString "hello") /\ map fst ms ⊆ known_fields "hello" /\
    parseHello (NObject ms) cfg = Ok m) \/
   (find_member "type" ms = Some (NString "clip") /\ map fst ms ⊆ known_fields "clip" /\
    parseClip (NObject ms) cfg = Ok m) \/
   (find_member "type" ms = Some (NString "pong") /\ map fst ms ⊆ known_fields "pong" /\
    parsePong (NObject ms) = Ok m)).
Proof.
  unfold ParseClientMessage. split.
  - destruct (Decode 3 frame) as [root|]; [|done]. intros H. peel H.
    destruct root as [ms| | | | |]; try done. apply get_string_Some in H1.
    destruct (hasUniqueKnownProperties _ _) eqn:EU; [done|].
    apply hasUnique_None in EU as [Hnd Hsub]. exists ms. split; [done|]. split; [done|].
    case_bool_decide; [subst; auto|]. case_bool_decide; [subst; auto|].
    case_bool_decide; [subst; auto|done].
  - intros (ms & -> & Hnd & H). cbn [IsObject check rbind].
    assert (Hgo : forall t, find_member "type" ms = Some (NString t) -> map fst ms ⊆ known_fields t ->
      get_string (NObject ms) "type" = Some t /\ hasUniqueKnownProperties (NObject ms) (known_fields t) = None).
    { intros t Ht Hsub. split; [by apply get_string_Some|]. by apply hasUnique_None. }
    destruct H as [(Ht & Hs & Hp)|[(Ht & Hs & Hp)|(Ht & Hs & Hp)]];
      destruct (Hgo _ Ht Hs) as [-> Hu]; cbn [or_fail rbind]; rewrite Hu; exact Hp.
Qed.

(** The optional snapshot of a hello, as [parseHello] reads it. *)
Definition hello_snapshot (root : Node) (cfg : RuntimeConfig) (s : option ClipSnapshot) : Prop :=
  match Get root "snapshot" with
  | None => s = None
  | Some e =>
      (e = NNull /\ s = None) \/
      (exists ms sn, e = NObject ms /\ s = Some sn /\ NoDup (map fst ms) /\
        map fst ms ⊆ ["payload"; "encrypted"; "hash"; "localModifiedAtUtc"]%go /\
        tryGetSnapshot e cfg = Ok sn)
  end.

Lemma finish_hello_Ok h cfg m : finish_hello h cfg = Ok m <-> m = KindHello h /\ ValidateHello h cfg = true.
Proof. unfold finish_hello. destruct (ValidateHello h cfg); naive_solver. Qed.

Lemma parseHello_Ok root cfg m : parseHello root cfg = Ok m -> exists h, m = KindHello h /\
  ValidateHello h cfg = true /\ Get root "clientId" = Some (NString (hello_ClientID h)) /\
  tryGetUint64 root "lastServerVersion" = Some (LastServerVersion h) /\
  hello_snapshot root cfg (Snapshot h).
Proof.
  unfold parseHello, hello_snapshot. intros H. peel H.
  apply bounded_string_Some in H0 as [H0 _].
  destruct (Get root "snapshot") as [e|].
  - peel H. destruct e as [ms| | | | |]; try done; cbn [IsObject] in H.
    + destruct (hasUniqueKnownProperties _ _) eqn:EU; [done|].
      apply hasUnique_None in EU as [Hnd Hsub].
      apply rbind_Ok in H as (sn & Hs & H). apply finish_hello_Ok in H as [-> HV].
      eexists. split; [done|]. repeat split; try done. right. by exists ms, sn.
    + apply finish_hello_Ok in H as [-> HV]. eexists. split; [done|]. repeat split; try done. by left.
  - apply finish_hello_Ok in H as [-> HV]. eexists. split; [done|]. by repeat split.
Qed.

Lemma parseHello_kind root cfg m : parseHello root cfg = Ok m -> exists h, m = KindHello h.
Proof. intros (h & -> & _)%parseHello_Ok. eauto. Qed.

Lemma parsePong_kind root m : parsePong root = Ok m -> exists p, m = KindPong p.
Proof. unfold parsePong. intros H. peel H. simplify_eq. eauto. Qed.

(** A frame is accepted as a clip exactly when it is, in some field order, the
    object of a clip message whose fields pass the limits. *)
Lemma parse_clip_iff frame cfg c :
  ParseClientMessage frame cfg = Ok (KindClip c) <->
  ValidateClip c cfg = true /\ exists ms, Decode 3 frame = Ok (NObject ms) /\ ms ≡ₚ clip_members c.
Proof.
  rewrite ParseClientMessage_Ok. split.
  - intros (ms & Hdec & Hnd & [(_ & _ & H)|[(Ht & Hsub & H)|(_ & _ & H)]]).
    + by apply parseHello_kind in H as [? ?].
    + apply parseClip_Ok in H as (c' & [= <-] & HV & Hid & Hp & He & Hh). split; [done|].
      exists ms. split; [done|]. apply members_Permutation; try done.
      { simpl. repeat (apply list.NoDup_cons; split; [set_solver|]). constructor. }
      intros k v Hin. unfold clip_members in Hin. rewrite !elem_of_cons, elem_of_nil in Hin.
      destruct_or! Hin; simplify_eq; done.
    + by apply parsePong_kind in H as [? ?].
  - intros [HV (ms & Hdec & Hperm)]. exists ms. split; [done|].
    assert (Hkeys : map fst ms ≡ₚ known_fields "clip").
    { change (known_fields "clip") with (map fst (clip_members c)). by apply fmap_Permutation. }
    assert (Hnd : NoDup (map fst ms)).
    { rewrite Hkeys. vm_compute. repeat (apply list.NoDup_cons; split; [set_solver|]). constructor. }
    split; [done|]. right; left.
    assert (Hf : forall k v, (k, v) ∈ clip_members c -> find_member k ms = Some v).
    { intros k v Hin. apply find_member_NoDup; [done|]. by rewrite Hperm. }
    split; [apply Hf; unfold clip_members; set_solver|]. split; [by rewrite Hkeys|].
    apply parseClip_Ok. exists c. repeat split; try done; simpl;
      apply Hf; unfold clip_members; set_solver.
Qed.

(** ** Rejected frames *)

Lemma or_fail_Err {A} (o : option A) e e' : or_fail o e = Err e' <-> o = None /\ e = e'.
Proof. destruct o; simpl; naive_solver. Qed.
Lemma check_Err b e e' : check b e = Err e' <-> b = false /\ e = e'.
Proof. destruct b; simpl; naive_solver. Qed.

(** What the error of a rejected frame says: one of three codes, never the internal
    "validation failed" messages, and as reference only the frame's own [id]. *)
Definition reported (root : option Node) (e : Error) : Prop :=
  (Code e = ErrInvalidMessage \/ Code e = ErrTextTooLarge \/ Code e = ErrEmptyText) /\
  err_Message e <> "clip validation failed." /\ err_Message e <> "hello validation failed." /\
  (forall id, ReferenceID e = Some id ->
     exists n, root = Some n /\ Get n "id" = Some (NString id)).

Lemma reported_plain root k m :
  k = ErrInvalidMessage \/ k = ErrTextTooLarge \/ k = ErrEmptyText ->
  m <> "clip validation failed." -> m <> "hello validation failed." ->
  reported root (mkError k m None).
Proof. intros. by repeat split. Qed.

Lemma reported_ref n k m id :
  k = ErrInvalidMessage \/ k = ErrTextTooLarge \/ k = ErrEmptyText ->
  m <> "clip validation failed." -> m <> "hello validation failed." ->
  Get n "id" = Some (NString id) -> reported (Some n) (mkError k m (Some id)).
Proof. intros. repeat split; try done. simpl. intros ? [= <-]. eauto. Qed.

Lemma reported_root n m :
  m <> "clip validation failed." -> m <> "hello validation failed." ->
  reported (Some n) (invalid m (getReferenceID n)).
Proof.
  intros. repeat split; try done; [by left|]. simpl. unfold getReferenceID.
  destruct (IsObject n); [|done]. intros id Hid%get_string_Some. eauto.
Qed.

(** Follow a failing parser run: close the failing step, go on after it. *)
Ltac fail_step H tac :=
  repeat first
  [ match type of H with
    | rbind (or_fail _ _) _ = Err _ =>
        let a := fresh "a" in let H1 := fresh "H" in
        apply rbind_Err in H as [H|(a & H1 & H)];
          [apply or_fail_Err in H as [_ <-]; tac|apply or_fail_Ok in H1]
    | rbind (check _ _) _ = Err _ =>
        let a := fresh "a" in let H1 := fresh "H" in
        apply rbind_Err in H as [H|(a & H1 & H)];
          [apply check_Err in H as [_ <-]; tac|apply check_Ok in H1]
    end ].

Ltac report_plain := apply reported_plain; [auto|discriminate|discriminate].

Lemma parseClip_reported root cfg e : parseClip root cfg = Err e -> reported (Some root) e.
Proof.
  unfold parseClip. intros H.
  apply rbind_Err in H as [H|(id & Hid & H)]; [apply or_fail_Err in H as [_ <-]; report_plain|].
  apply or_fail_Ok, bounded_string_Some in Hid as [Hid ?].
  fail_step H ltac:(apply reported_ref; [auto|discriminate|discriminate|done]).
  destruct (ValidateClip _ _) eqn:HV; [done|]. exfalso.
  apply nonempty_string_Some in H1 as [_ ?]. apply bounded_string_Some in H4 as [_ ?].
  bool_to_prop. rewrite (proj2 (ValidateClip_spec _ _)) in HV by (simpl; unfold MaxIdBytes in *; lia). done.
Qed.

Lemma parseFlexibleUTC_offset text t : parseFlexibleUTC text = Some t -> isUTCZeroOffset t = true.
Proof.
  unfold parseFlexibleUTC. intros (i & _ & H)%bind_Some.
  apply bind_Some in H as ([[y m] d] & _ & H). apply bind_Some in H as (n & _ & H).
  apply bind_Some in H as ([[hh mm] ss] & _ & H). by injection H as <-.
Qed.

Lemma ParseFlexibleTime_offset root name t :
  ParseFlexibleTime root name = Some t -> isUTCZeroOffset t = true.
Proof.
  unfold ParseFlexibleTime. intros (text & _ & H)%bind_Some.
  destruct (HasSuffix text "Z"); [|done]. by eapply parseFlexibleUTC_offset.
Qed.

Lemma tryGetSnapshot_ok element cfg s : tryGetSnapshot element cfg = Ok s ->
  Get element "payload" = Some (NString (snap_Payload s)) /\
  Get element "encrypted" = Some (NBool (snap_Encrypted s)) /\
  Get element "hash" = Some (NString (snap_Hash s)) /\
  ParseFlexibleTime element "localModifiedAtUtc" = Some (LocalModifiedAtUtc s) /\
  validateSnapshot s cfg = true.
Proof.
  unfold tryGetSnapshot. intros H. peel H. injection H as <-. simpl.
  apply nonempty_string_Some in H0 as [? ?]. apply get_bool_Some in H2.
  apply bounded_string_Some in H3 as [? ?]. repeat split; try done.
  unfold validateSnapshot. simpl. rewrite !andb_true_iff, Z.ltb_lt, !Z.leb_le. bool_to_prop.
  repeat split; try lia. by eapply ParseFlexibleTime_offset.
Qed.

Lemma tryGetSnapshot_reported root element cfg e :
  tryGetSnapshot element cfg = Err e -> reported root e.
Proof. unfold tryGetSnapshot. intros H. fail_step H report_plain. done. Qed.

Lemma parseHello_reported root cfg e : parseHello root cfg = Err e -> reported (Some root) e.
Proof.
  unfold parseHello. intros H. fail_step H report_plain.
  apply bounded_string_Some in H0 as [_ Hid].
  assert (Hname : len (optional_name root) <= MaxNameBytes).
  { unfold optional_name. destruct (get_string root "clientName") as [t|]; [|done].
    destruct (Z.leb_spec (len t) MaxNameBytes); done. }
  assert (Hfin : forall v s e, (forall sn, s = Some sn -> validateSnapshot sn cfg = true) ->
    finish_hello {| hello_ClientID := a; hello_ClientName := optional_name root;
      LastServerVersion := v; Snapshot := s |} cfg = Err e -> reported (Some root) e).
  { intros v s e' Hs. unfold finish_hello, ValidateHello. simpl.
    rewrite (proj2 (Z.ltb_lt 0 (len a))), (proj2 (Z.leb_le (len a) _)),
      (proj2 (Z.leb_le (len (optional_name root)) _)) by lia. cbn [andb].
    destruct s as [sn|]; [|done]. by rewrite Hs. }
  destruct (Get root "snapshot") as [el|]; [|by apply (Hfin a0 None)].
  fail_step H report_plain. destruct (IsObject el); [|by apply (Hfin a0 None)].
  destruct (hasUniqueKnownProperties _ _); [injection H as <-; report_plain|].
  apply rbind_Err in H as [H|(sn & Hsn & H)]; [by eapply tryGetSnapshot_reported|].
  eapply (Hfin a0 (Some sn)), H. intros ? [= <-]. by apply tryGetSnapshot_ok in Hsn as (_&_&_&_&?).
Qed.

(** Every rejection by [ParseClientMessage] reports as promised. *)
Lemma ParseClientMessage_reported frame cfg e : ParseClientMessage frame cfg = Err e ->
  reported (match Decode 3 frame with Ok n => Some n | Err _ => None end) e.
Proof.
  unfold ParseClientMessage. destruct (Decode 3 frame) as [root|]; [|intros [= <-]; report_plain].
  intros H. fail_step H ltac:(first [report_plain|apply reported_root; discriminate]).
  destruct (hasUniqueKnownProperties _ _); [injection H as <-; apply reported_root; discriminate|].
  repeat case_bool_decide.
  - by eapply parseHello_reported.
  - by eapply parseClip_reported.
  - unfold parsePong in H. fail_step H report_plain. done.
  - injection H as <-. apply reported_root; discriminate.
Qed.

(** ** Time stamps read back *)

Lemma pad2_digits (c : byte) n s : is_digit c = false -> c ∉ s -> c ∉ pad2 n ++ s.
Proof.
  intros Hc Hs. unfold pad2. cbn [app].
  apply not_in_digits; [done|apply is_digit_digit_byte; lia|].
  apply not_in_digits; [done|apply is_digit_digit_byte; lia|done].
Qed.

Lemma not_in_sep (c d : byte) s : c <> d -> c ∉ s -> c ∉ d :: s.
Proof. rewrite not_elem_of_cons. done. Qed.

Lemma year4_digits (c : byte) y s : 0 <= y <= 9999 -> is_digit c = false -> c ∉ s -> c ∉ appendInt y 4 ++ s.
Proof.
  intros Hy Hc Hs. rewrite appendInt_4 by done. cbn [app].
  repeat (apply not_in_digits; [done|apply is_digit_digit_byte; lia|]). done.
Qed.

(** A time printed to the second parses back to its whole second. *)
Lemma parseFlexibleUTC_format t : 0 <= year_of t <= 9999 ->
  parseFlexibleUTC (format_seconds t ++ "Z") = Some (utc (Unix t * Second)).
Proof.
  intros Hy. unfold parseFlexibleUTC. cbv zeta. rewrite TrimSuffix_app.
  unfold format_seconds, year_of in *. cbv zeta in *.
  pose proof (Date_civil t) as HD. cbv zeta in HD.
  pose proof (civil_valid (Unix t / 86400)) as HV.
  destruct (civil_from_days (Unix t / 86400)) as [[y m] d]. destruct HV as [Hm Hd].
  set (s := Unix t) in *. set (r := s mod 86400) in *.
  assert (Hr : 0 <= r < 86400) by (unfold r; lia).
  set (dp := appendInt y 4 ++ "-" ++ pad2 m ++ "-" ++ pad2 d).
  set (tp := pad2 (r / 3600) ++ ":" ++ pad2 (r / 60 mod 60) ++ ":" ++ pad2 (r mod 60)).
  replace (appendInt y 4 ++ "-" ++ pad2 m ++ "-" ++ pad2 d ++ "T" ++ tp) with (dp ++ "T"%byte :: tp)
    by (unfold dp; rewrite <- !app_assoc; done).
  assert (HT : "T"%byte ∉ dp).
  { unfold dp. apply year4_digits; [done|done|]. apply not_in_sep; [done|].
    apply pad2_digits; [done|]. apply not_in_sep; [done|]. rewrite <- (app_nil_r (pad2 d)).
    apply pad2_digits; [done|apply not_elem_of_nil]. }
  assert (Hdot : "."%byte ∉ tp).
  { unfold tp. apply pad2_digits; [done|]. apply not_in_sep; [done|]. apply pad2_digits; [done|].
    apply not_in_sep; [done|]. rewrite <- (app_nil_r (pad2 (r mod 60))).
    apply pad2_digits; [done|apply not_elem_of_nil]. }
  rewrite IndexByte_app by done. cbn [mbind option_bind].
  rewrite take_app_length. replace (drop (S (length dp)) (dp ++ "T"%byte :: tp)) with tp
    by (by rewrite drop_app_ge, Nat.sub_succ_l, Nat.sub_diag by lia).
  unfold dp at 1. rewrite parse_date_format by done. cbn [mbind option_bind].
  rewrite IndexByte_None by done. cbn [mbind option_bind].
  assert (Hc : parse_clock tp = Some (r / 3600, r / 60 mod 60, r mod 60))
    by (apply parse_clock_format; lia).
  rewrite Hc. cbn [mbind option_bind fractionNanoseconds].
  by rewrite HD.
Qed.

(** A hello carries a 64-bit version. *)
Lemma parse_hello_version frame cfg h :
  ParseClientMessage frame cfg = Ok (KindHello h) -> in_uint64 (LastServerVersion h).
Proof.
  intros H. apply ParseClientMessage_Ok in H as (ms & _ & _ & [(_ & _ & H)|[(_ & _ & H)|(_ & _ & H)]]).
  - apply parseHello_Ok in H as (h' & [= <-] & _ & _ & Hv & _). by apply tryGetUint64_Some in Hv as [? _].
  - by apply parseClip_Ok in H as (? & ? & _).
  - by apply parsePong_kind in H as [? ?].
Qed.

(** ** Hello frames *)

Lemma digits_value_digits s : forall a v, digits_value s a = Some v -> forallb is_digit s = true.
Proof.
  induction s as [|c s IH]; intros a v; cbn; [done|]. destruct (is_digit c); [|done]. apply IH.
Qed.

Lemma tryGetUint64_iff root k v : tryGetUint64 root k = Some v <->
  exists raw, Get root k = Some (NNumber raw) /\ ParseUint raw = Some v.
Proof.
  split; [intros H; by apply tryGetUint64_Some in H as [_ H]|]. intros (raw & E & H). unfold tryGetUint64. rewrite E.
  cbv iota beta.
  assert (Hd : forallb is_digit raw = true).
  { unfold ParseUint in H. destruct raw as [|c raw]; [done|].
    destruct (digits_value _ _) as [w|] eqn:Ed; [|done]. by eapply digits_value_digits. }
  assert (Hc : ContainsAny raw ".eE" = false).
  { clear -Hd. induction raw as [|c raw IH]; [done|]. cbn in Hd |- *. apply andb_true_iff in Hd as [Hc Hd].
    apply orb_false_iff. split; [by destruct c|exact (IH Hd)]. }
  assert (Hp : HasPrefix raw "-" = false).
  { destruct raw as [|c raw]; [done|]. cbn in Hd. by destruct c. }
  by rewrite Hc, Hp.
Qed.

(** The members of a snapshot object; the time stamp is a text. *)
Definition snapshot_members (s : ClipSnapshot) (stamp : str) : list (str * Node) :=
  [("payload"%go, NString (snap_Payload s)); ("encrypted"%go, NBool (snap_Encrypted s));
   ("hash"%go, NString (snap_Hash s)); ("localModifiedAtUtc"%go, NString stamp)].

(** The snapshot is one the limits allow. *)
Definition snapshot_fits (s : ClipSnapshot) (cfg : RuntimeConfig) : Prop :=
  0 < len (snap_Payload s) <= MaxTextBytes (Limits cfg) /\ 0 < len (snap_Hash s) <= 4096.

Lemma ParseFlexibleTime_iff root k t : ParseFlexibleTime root k = Some t <->
  exists stamp, Get root k = Some (NString stamp) /\ HasSuffix stamp "Z" = true /\ parseFlexibleUTC stamp = Some t.
Proof.
  unfold ParseFlexibleTime. destruct (get_string root k) as [stamp|] eqn:E; cbn.
  - apply get_string_Some in E. rewrite E. split.
    + destruct (HasSuffix stamp "Z") eqn:Hz; [|done]. eauto.
    + intros (? & [= <-] & -> & ?). done.
  - split; [done|]. intros (stamp & H%get_string_Some & _). congruence.
Qed.

Lemma tryGetSnapshot_iff sms cfg s :
  (hasUniqueKnownProperties (NObject sms) ["payload"; "encrypted"; "hash"; "localModifiedAtUtc"]%go = None /\
   tryGetSnapshot (NObject sms) cfg = Ok s) <->
  exists stamp, sms ≡ₚ snapshot_members s stamp /\ HasSuffix stamp "Z" = true /\
    parseFlexibleUTC stamp = Some (LocalModifiedAtUtc s) /\ snapshot_fits s cfg.
Proof.
  assert (Hkeys : forall stamp, NoDup (map fst (snapshot_members s stamp))).
  { intros stamp. simpl. repeat (apply list.NoDup_cons; split; [set_solver|]). constructor. }
  split.
  - intros [[Hnd Hsub]%hasUnique_None H]. pose proof H as (Hp & He & Hh & Ht & HV)%tryGetSnapshot_ok.
    apply ParseFlexibleTime_iff in Ht as (stamp & Hs & Hz & Ht). exists stamp.
    unfold tryGetSnapshot in H. peel H. injection H as Hs'. apply bounded_string_Some in H3 as [_ Hb].
    apply nonempty_string_Some in H0 as [_ Hn]. bool_to_prop. split_and!; try done.
    + apply members_Permutation; try done. intros k v Hin. unfold snapshot_members in Hin.
      rewrite !elem_of_cons, elem_of_nil in Hin. destruct_or! Hin; simplify_eq; done.
    + rewrite <- Hs'. split; simpl; [lia|exact Hb].
  - intros (stamp & Hperm & Hz & Ht & Hp & Hh).
    assert (Hnd : NoDup (map fst sms)) by (rewrite (fmap_Permutation fst _ _ Hperm); apply Hkeys).
    assert (Hf : forall k v, (k, v) ∈ snapshot_members s stamp -> find_member k sms = Some v).
    { intros k v Hin. apply find_member_NoDup; [done|]. by rewrite Hperm. }
    split; [apply hasUnique_None; split; [done|]; by rewrite (fmap_Permutation fst _ _ Hperm)|].
    unfold tryGetSnapshot.
    rewrite (proj2 (nonempty_string_Some _ "payload" (snap_Payload s)))
      by (split; [apply Hf; unfold snapshot_members; set_solver|lia]).
    cbn [or_fail rbind]. rewrite (proj2 (Z.leb_le _ _)) by lia. cbn [check rbind].
    rewrite (proj2 (get_bool_Some _ "encrypted" (snap_Encrypted s)))
      by (apply Hf; unfold snapshot_members; set_solver).
    cbn [or_fail rbind]. rewrite (proj2 (bounded_string_Some _ "hash" MaxHashBytes (snap_Hash s)))
      by (split; [apply Hf; unfold snapshot_members; set_solver|unfold MaxHashBytes; lia]).
    cbn [or_fail rbind]. rewrite (proj2 (ParseFlexibleTime_iff _ "localModifiedAtUtc" (LocalModifiedAtUtc s)))
      by (exists stamp; split; [apply Hf; unfold snapshot_members; set_solver|done]).
    cbn [or_fail rbind]. by destruct s.
Qed.

(** What a hello's snapshot field says: absent and null are none, an object has exactly the four fields. *)
Definition snapshot_field (field : option Node) (cfg : RuntimeConfig) (s : option ClipSnapshot) : Prop :=
  match field with
  | None | Some NNull => s = None
  | Some (NObject sms) =>
      exists sn stamp, s = Some sn /\ sms ≡ₚ snapshot_members sn stamp /\ HasSuffix stamp "Z" = true /\
        parseFlexibleUTC stamp = Some (LocalModifiedAtUtc sn) /\ snapshot_fits sn cfg
  | Some _ => False
  end.

(** What a hello's name field says: a string within the limit is taken, anything else is the empty name. *)
Definition name_field (field : option Node) : str :=
  match field with Some (NString n) => if len n <=? 128 then n else [] | _ => [] end.

Lemma optional_name_field root : optional_name root = name_field (Get root "clientName").
Proof. unfold optional_name, get_string, name_field. by destruct (Get root "clientName") as [[]|]. Qed.

Lemma name_field_fits field : len (name_field field) <= 128.
Proof.
  unfold name_field. destruct field as [[| |n| | |]|]; try (unfold len; simpl; lia).
  destruct (Z.leb_spec (len n) 128); [done|unfold len; simpl; lia].
Qed.

Lemma hello_valid h cfg : 0 < len (hello_ClientID h) <= 128 -> len (hello_ClientName h) <= 128 ->
  (forall s, Snapshot h = Some s -> snapshot_fits s cfg /\ isUTCZeroOffset (LocalModifiedAtUtc s) = true) ->
  ValidateHello h cfg = true.
Proof.
  intros Hid Hn Hs. unfold ValidateHello, validateSnapshot, MaxNameBytes, MaxHashBytes. rewrite !andb_true_iff.
  split; [split; [split; [apply Z.ltb_lt|apply Z.leb_le]|apply Z.leb_le]; lia|].
  destruct (Snapshot h) as [s|]; [|done]. destruct (Hs s eq_refl) as [[? ?] ->].
  rewrite (proj2 (Z.ltb_lt _ _)), !(proj2 (Z.leb_le _ _)) by lia. done.
Qed.

Lemma parseHello_iff root cfg h : parseHello root cfg = Ok (KindHello h) <->
  Get root "clientId" = Some (NString (hello_ClientID h)) /\ 0 < len (hello_ClientID h) <= 128 /\
  hello_ClientName h = name_field (Get root "clientName") /\
  (exists raw, Get root "lastServerVersion" = Some (NNumber raw) /\ ParseUint raw = Some (LastServerVersion h)) /\
  snapshot_field (Get root "snapshot") cfg (Snapshot h).
Proof.
  split.
  - unfold parseHello, snapshot_field. intros H. peel H. apply bounded_string_Some in H0 as [Hid Hl].
    apply tryGetUint64_iff in H1. rewrite <- optional_name_field.
    destruct (Get root "snapshot") as [e|].
    + peel H. destruct e as [ms| | | | |]; try done; cbn [IsObject] in H.
      * destruct (hasUniqueKnownProperties _ _) eqn:EU; [done|].
        apply rbind_Ok in H as (sn & Hs & H). apply finish_hello_Ok in H as [[= ->] HV].
        split_and!; try done; try apply Hl. simpl.
        destruct (proj1 (tryGetSnapshot_iff ms cfg sn) (conj EU Hs)) as (stamp & ?). eauto.
      * apply finish_hello_Ok in H as [[= ->] HV]. split_and!; try done; apply Hl.
    + apply finish_hello_Ok in H as [[= ->] HV]. split_and!; try done; apply Hl.
  - intros (Hid & Hl & Hn & Hv & Hs). unfold parseHello. pose proof (name_field_fits (Get root "clientName")) as Hfit.
    rewrite (proj2 (bounded_string_Some root "clientId" MaxNameBytes (hello_ClientID h))) by done.
    cbn [or_fail rbind]. rewrite (proj2 (tryGetUint64_iff _ _ _) Hv). cbn [or_fail rbind].
    rewrite optional_name_field, <- Hn. unfold snapshot_field in Hs. rewrite <- Hn in Hfit.
    destruct (Get root "snapshot") as [[sms| | | | |]|]; try done; cbn [check IsObject IsNull orb rbind].
    + destruct Hs as (sn & stamp & Hs & Hrest).
      destruct (proj2 (tryGetSnapshot_iff sms cfg sn)) as [-> ->]; [by exists stamp|].
      cbn [rbind]. apply finish_hello_Ok. destruct h as [i n v o]; simpl in *. subst o. split; [done|].
      apply hello_valid; [done..|]. intros ? [= <-]. split; [apply Hrest|]. eapply parseFlexibleUTC_offset, Hrest.
    + apply finish_hello_Ok. destruct h as [i n v o]; simpl in *. subst o. split; [done|]. by apply hello_valid.
    + apply finish_hello_Ok. destruct h as [i n v o]; simpl in *. subst o. split; [done|]. by apply hello_valid.
Qed.

(** ** Properties *)

(** C21: A frame is accepted as a clip exactly when it is, in some field order, the JSON object of a clip
    message, nothing missing, repeated or unknown, whose fields are within the limits. *)
Theorem parse_clip_exact frame cfg c :
  ParseClientMessage frame cfg = Ok (KindClip c) <->
  ValidateClip c cfg = true /\ exists ms, Decode 3 frame = Ok (NObject ms) /\ ms ≡ₚ clip_members c.
Proof. apply parse_clip_iff. Qed.

(** C22: A frame is accepted as a hello exactly when it is an object with hello fields only, each at most once, whose type
    is hello, whose client id is a string of 1 to 128 bytes, whose last version is the literal of an unsigned 64-bit
    number, and whose snapshot is absent, null, or an object of exactly the four snapshot fields within the limits with a
    UTC time stamp. The answer carries that id, version and snapshot, and the client name if it is a
    string of at most 128 bytes; a name that is missing, too long or no string counts as the empty one. *)
Theorem parse_hello_exact frame cfg h :
  ParseClientMessage frame cfg = Ok (KindHello h) <->
  exists ms, Decode 3 frame = Ok (NObject ms) /\ NoDup (map fst ms) /\
    map fst ms ⊆ ["type"; "clientId"; "clientName"; "lastServerVersion"; "snapshot"]%go /\
    find_member "type" ms = Some (NString "hello") /\
    find_member "clientId" ms = Some (NString (hello_ClientID h)) /\ 0 < len (hello_ClientID h) <= 128 /\
    hello_ClientName h = name_field (find_member "clientName" ms) /\
    (exists raw, find_member "lastServerVersion" ms = Some (NNumber raw) /\ ParseUint raw = Some (LastServerVersion h)) /\
    snapshot_field (find_member "snapshot" ms) cfg (Snapshot h).
Proof.
  rewrite ParseClientMessage_Ok. split.
  - intros (ms & Hdec & Hnd & [(Ht & Hsub & H)|[(_ & _ & H)|(_ & _ & H)]]).
    + apply parseHello_iff in H. by exists ms.
    + by apply parseClip_Ok in H as (? & ? & _).
    + by apply parsePong_kind in H as [? ?].
  - intros (ms & Hdec & Hnd & Hsub & Ht & H). exists ms. split; [done|]. split; [done|]. left.
    split; [done|]. split; [done|]. by apply parseHello_iff.
Qed.

(** A hello with every field, and one with neither name nor snapshot. *)
Example hello_full :
  ParseClientMessage (jq "{`type`:`hello`,`clientId`:`c`,`clientName`:`PC`,`lastServerVersion`:128,`snapshot`:{`payload`:`aGk=`,`encrypted`:true,`hash`:`h`,`localModifiedAtUtc`:`1970-01-01T00:00:09Z`}}") Defaults =
  Ok (KindHello {| hello_ClientID := "c"; hello_ClientName := "PC"; LastServerVersion := 128;
    Snapshot := Some {| snap_Payload := "aGk="; snap_Encrypted := true; snap_Hash := "h"; LocalModifiedAtUtc := utc (9 * Second) |} |}).
Proof. vm_compute. reflexivity. Qed.
Example hello_bare :
  ParseClientMessage (jq "{`type`:`hello`,`clientId`:`c`,`lastServerVersion`:7}") Defaults =
  Ok (KindHello {| hello_ClientID := "c"; hello_ClientName := []; LastServerVersion := 7; Snapshot := None |}).
Proof. vm_compute. reflexivity. Qed.

(** Every rejection of a frame carries one of the three codes invalid_message, text_too_large and
    empty_text, never the messages of the final re-validation (which no frame reaches), and as reference
    only the id the frame itself has. *)
Theorem rejection_reported frame cfg e :
  ParseClientMessage frame cfg = Err e ->
  reported (match Decode 3 frame with Ok n => Some n | Err _ => None end) e.
Proof. apply ParseClientMessage_reported. Qed.

Lemma rejection_reported_witness :
  match ParseClientMessage "[]" Defaults with
  | Err e => reported (Some (NArray [])) e
  | Ok _ => False
  end.
Proof. apply (rejection_reported "[]" Defaults). vm_compute. reflexivity. Defined.
