(* ===== verification/Serialize.v ===== *)
(** * Outbound messages (internal/protocol/serialize.go)

    The hand-written marshalers and the string escaper, and what a JSON reader
    gets back from them. *)
From S2P Require Import Prelude GoLib JsonScan JsonGrammar Config GoTime Protocol.

(** ** String escaping *)

(** One UTF-16 unit as [\uxxxx], lower-case hexadecimal. *)
Definition writeHexUnit (unit : Z) : str :=
  "\u" ++ [hex_byte (Z.land (Z.shiftr unit 12) 15); hex_byte (Z.land (Z.shiftr unit 8) 15);
           hex_byte (Z.land (Z.shiftr unit 4) 15); hex_byte (Z.land unit 15)].

Definition writeASCIIUnit (c : Z) : str :=
  if c =? 34 then "\" ++ [x22]
  else if c =? 92 then "\\"
  else if c =? 8 then "\b"
  else if c =? 12 then "\f"
  else if c =? 10 then "\n"
  else if c =? 13 then "\r"
  else if c =? 9 then "\t"
  else if existsb (Z.eqb c) [38; 39; 43; 60; 62; 96; 127] then writeHexUnit c
  else if c <? 32 then writeHexUnit c
  else [byte_of c].

(** The loop body of [writeJSONString]; [utf16.EncodeRune] never answers [-1]. *)
Definition writeRune (r : Z) : str :=
  if r <? 128 then writeASCIIUnit r
  else if (r =? 8232) || (r =? 8233) then writeHexUnit r
  else let '(hi, lo) := EncodeRune16 r in
       if lo =? -1 then writeHexUnit hi else writeHexUnit hi ++ writeHexUnit lo.

Definition writeJSONString (s : str) : str := quoted (mjoin (writeRune <$> runes s)).

(** ** Marshalers *)

Definition utcSeconds (t : Time) : str := format_seconds t ++ "Z".

(** ["2006-01-02T15:04:05.0000000-07:00"] of a whole second in UTC. *)
Definition expiresAtUtcFormat (unixSeconds : Z) : str :=
  format_seconds (utc (unixSeconds * Second)) ++ ".0000000+00:00".

Definition marshalLatest (l : LatestText) : str :=
  jq "{`payload`:" ++ writeJSONString (Payload l) ++
  jq ",`version`:" ++ FormatUint (Version l) ++
  jq ",`hash`:" ++ writeJSONString (Hash l) ++
  jq ",`encrypted`:" ++ FormatBool (Encrypted l) ++
  jq ",`fromClientId`:" ++ writeJSONString (FromClientID l) ++
  jq ",`fromClientName`:" ++ writeJSONString (FromClientName l) ++
  jq ",`updatedAtUtc`:`" ++ utcSeconds (UpdatedAtUtc l) ++ jq "`}".

Definition MarshalWelcome (latest : option LatestText) : str :=
  jq "{`type`:`welcome`,`protocolVersion`:" ++ FormatInt ProtocolVersion ++
  match latest with Some l => jq ",`latest`:" ++ marshalLatest l | None => [] end ++ "}".

Definition MarshalClip (id : str) (l : LatestText) : str :=
  jq "{`type`:`clip`,`version`:" ++ FormatUint (Version l) ++
  jq ",`id`:" ++ writeJSONString id ++
  jq ",`payload`:" ++ writeJSONString (Payload l) ++
  jq ",`encrypted`:" ++ FormatBool (Encrypted l) ++
  jq ",`hash`:" ++ writeJSONString (Hash l) ++
  jq ",`fromClientId`:" ++ writeJSONString (FromClientID l) ++
  jq ",`fromClientName`:" ++ writeJSONString (FromClientName l) ++
  jq ",`updatedAtUtc`:`" ++ utcSeconds (UpdatedAtUtc l) ++ jq "`}".

Definition MarshalClipAck (id : str) (l : LatestText) : str :=
  jq "{`type`:`clip_ack`,`id`:" ++ writeJSONString id ++
  jq ",`version`:" ++ FormatUint (Version l) ++
  jq ",`updatedAtUtc`:`" ++ utcSeconds (UpdatedAtUtc l) ++ jq "`}".

Definition MarshalPing (now : Time) : str :=
  jq "{`type`:`ping`,`serverTimeUtc`:`" ++ utcSeconds now ++ jq "`}".

Definition MarshalBye (reason : str) : str :=
  jq "{`type`:`bye`,`reason`:" ++ writeJSONString reason ++ "}".

Definition MarshalError (e : Error) : str :=
  jq "{`type`:`error`,`code`:`" ++ CodeName e ++ jq "`,`message`:" ++
  writeJSONString (err_Message e) ++
  match ReferenceID e with
  | Some id => jq ",`referenceId`:" ++ writeJSONString id
  | None => []
  end ++ "}".

Definition MarshalLoginResponse (compactToken : str) (expiresAtUnix : Z) (cfg : RuntimeConfig)
  (needsRehash : bool) : str :=
  jq "{`token`:" ++ writeJSONString compactToken ++
  jq ",`expiresAtUtc`:`" ++ expiresAtUtcFormat expiresAtUnix ++
  jq "`,`protocolVersion`:" ++ FormatInt ProtocolVersion ++
  jq ",`maxTextBytes`:" ++ FormatInt (MaxTextBytes (Limits cfg)) ++
  jq ",`helloTimeoutSeconds`:" ++ FormatInt (HelloTimeoutSeconds (Limits cfg)) ++
  jq ",`heartbeatIntervalSeconds`:" ++ FormatInt (HeartbeatIntervalSeconds (Limits cfg)) ++
  jq ",`heartbeatTimeoutSeconds`:" ++ FormatInt (HeartbeatTimeoutSeconds (Limits cfg)) ++
  (if needsRehash then jq ",`needsRehash`:true" else []) ++ "}".

(** ** What a reader gets for a written string *)

(** The runes a reader decodes for one written rune: every non-ASCII rune of the
    basic plane except U+2028 and U+2029 comes back as two replacement runes. *)
Definition written_rune (r : Z) : list Z :=
  if (r <? 128) || (r =? 8232) || (r =? 8233) || (65536 <=? r) then [r]
  else [RuneError; RuneError].

Definition written (s : str) : str := runes_str (runes s ≫= written_rune).

(** ** Lemmas: the escaper writes grammar texts *)

Lemma hex_digit_hex_byte v : 0 <= v < 16 -> hex_digit (hex_byte v) = Some v.
Proof.
  intros H. assert (v = 0 \/ v = 1 \/ v = 2 \/ v = 3 \/ v = 4 \/ v = 5 \/ v = 6 \/ v = 7 \/ v = 8 \/
    v = 9 \/ v = 10 \/ v = 11 \/ v = 12 \/ v = 13 \/ v = 14 \/ v = 15) as Hv by lia.
  repeat destruct Hv as [->|Hv]; try reflexivity. by subst v.
Qed.

Lemma nibble v k : 0 <= k -> Z.land (Z.shiftr v k) 15 = v / 2 ^ k mod 16.
Proof. intros. rewrite Z.shiftr_div_pow2 by done. by rewrite (Z.land_ones _ 4). Qed.

Lemma writeHexUnit_hex4 v : 0 <= v < 65536 ->
  exists h, writeHexUnit v = "\u" ++ h /\ hex4 h = Some v.
Proof.
  intros Hv. unfold writeHexUnit. eexists. split; [reflexivity|].
  rewrite !nibble by lia. rewrite (Z.land_ones _ 4) by lia. unfold hex4.
  rewrite !hex_digit_hex_byte by (apply Z.mod_pos_bound; lia). f_equal.
  change (2 ^ 12) with 4096. change (2 ^ 8) with 256. change (2 ^ 4) with 16. lia.
Qed.

Lemma string_text_hexunit v s q : 0 <= v < 65536 -> IsSurrogate v = false ->
  string_text s q -> string_text (encode_rune v ++ s) (writeHexUnit v ++ q).
Proof.
  intros Hv Hs Hq. destruct (writeHexUnit_hex4 v Hv) as (h & -> & Hh).
  rewrite <- app_assoc. by apply ST_unit.
Qed.

Lemma string_text_ascii c s q : 0 <= c < 128 ->
  string_text s q -> string_text (encode_rune c ++ s) (writeASCIIUnit c ++ q).
Proof.
  intros Hc Hq. assert (E : encode_rune c = [byte_of c]) by (unfold encode_rune; by zcase).
  assert (Hhex : string_text (encode_rune c ++ s) (writeHexUnit c ++ q)).
  { apply string_text_hexunit; [lia| |done]. unfold IsSurrogate. zcase; done. }
  assert (Hraw : 32 <= c -> c <> 34 -> c <> 92 -> string_text (encode_rune c ++ s) ([byte_of c] ++ q)).
  { intros. rewrite <- E. apply ST_rune; try done. apply is_scalar_spec. lia. }
  unfold writeASCIIUnit.
  repeat match goal with
  | |- context [c =? ?n] => destruct (Z.eqb_spec c n) as [->|];
      [first [exact (ST_escape x22 _ s q eq_refl Hq) | exact (ST_escape x5c _ s q eq_refl Hq)
             |exact (ST_escape x62 _ s q eq_refl Hq) | exact (ST_escape x66 _ s q eq_refl Hq)
             |exact (ST_escape x6e _ s q eq_refl Hq) | exact (ST_escape x72 _ s q eq_refl Hq)
             |exact (ST_escape x74 _ s q eq_refl Hq)]|]
  end.
  destruct (existsb _ _); [exact Hhex|]. destruct (Z.ltb_spec c 32); [exact Hhex|]. by apply Hraw.
Qed.

Lemma EncodeRune16_astral r : 65536 <= r <= 1114111 ->
  let '(hi, lo) := EncodeRune16 r in
  0 <= hi < 65536 /\ 0 <= lo < 65536 /\ IsSurrogate hi = true /\ DecodeRune16 hi lo = r.
Proof.
  intros Hr. unfold EncodeRune16. rewrite (proj2 (Z.ltb_ge _ _)), (proj2 (Z.ltb_ge _ _)) by lia.
  cbn [orb]. set (a := (r - 65536) / 1024 mod 1024). set (b := (r - 65536) mod 1024).
  assert (0 <= a < 1024) by (unfold a; lia). assert (0 <= b < 1024) by (unfold b; lia).
  assert (Hab : r = a * 1024 + b + 65536) by (unfold a, b; lia). clearbody a b.
  unfold IsSurrogate, DecodeRune16. repeat split; try lia; zcase; lia.
Qed.

Lemma string_text_rune r s q : is_scalar r = true -> string_text s q ->
  string_text (runes_str (written_rune r) ++ s) (writeRune r ++ q).
Proof.
  intros Hr%is_scalar_spec Hq. unfold writeRune, written_rune.
  destruct (Z.ltb_spec r 128).
  { cbn [orb]. rewrite runes_str_cons, app_nil_r. apply string_text_ascii; [lia|done]. }
  cbn [orb]. destruct ((r =? 8232) || (r =? 8233)) eqn:E2.
  { cbn [orb]. rewrite runes_str_cons, app_nil_r. apply orb_true_iff in E2.
    destruct E2 as [E2|E2]; apply Z.eqb_eq in E2; subst r; by apply string_text_hexunit. }
  cbn [orb]. destruct (Z.leb_spec 65536 r).
  - pose proof (EncodeRune16_astral r ltac:(lia)) as H16.
    destruct (EncodeRune16 r) as [hi lo]. destruct H16 as (Hhi & Hlo & Hs & Hd).
    rewrite (proj2 (Z.eqb_neq lo (-1))) by lia. rewrite runes_str_cons, app_nil_r.
    destruct (writeHexUnit_hex4 hi Hhi) as (h1 & -> & H1).
    destruct (writeHexUnit_hex4 lo Hlo) as (h2 & -> & H2).
    rewrite <- Hd. rewrite <- !app_assoc. apply ST_pair; try done. rewrite Hd. unfold RuneError. lia.
  - unfold EncodeRune16. rewrite (proj2 (Z.ltb_lt _ _)) by lia. cbn [orb].
    change (RuneError =? -1) with false. cbn iota. rewrite <- app_assoc.
    change (runes_str [RuneError; RuneError] ++ s)
      with (encode_rune RuneError ++ encode_rune RuneError ++ s).
    apply string_text_hexunit; [unfold RuneError; lia|done|].
    apply string_text_hexunit; [unfold RuneError; lia|done|done].
Qed.

Lemma written_text s : string_text (written s) (mjoin (writeRune <$> runes s)).
Proof.
  unfold written. pose proof (runes_scalars s) as Hrs. induction Hrs as [|r rs Hr Hrs IH]; [constructor|].
  rewrite bind_cons, runes_str_app. by apply string_text_rune.
Qed.

(** The escaped form of any string denotes [written s]. *)
Lemma writeJSONString_text s : text (NString (written s)) (writeJSONString s).
Proof. apply T_string, written_text. Qed.

(** ** Output bytes are printable ASCII *)

Lemma hex_byte_ascii v : ascii_byte (hex_byte v) = true.
Proof.
  unfold hex_byte. destruct (nth_in_or_default (Z.to_nat v) hexDigits x00) as [H| ->]; [|done].
  revert H. generalize (nth (Z.to_nat v) hexDigits x00). intros b H.
  assert (Hall : forallb ascii_byte hexDigits = true) by reflexivity.
  rewrite forallb_forall in Hall. by apply Hall.
Qed.

Lemma writeHexUnit_ascii v : ascii (writeHexUnit v).
Proof. unfold writeHexUnit. cbn [lit app forallb]. by rewrite !hex_byte_ascii. Qed.

Lemma writeRune_ascii r : 0 <= r -> ascii (writeRune r).
Proof.
  intros Hr. unfold writeRune, writeASCIIUnit.
  repeat match goal with
  | |- context [if ?b then _ else _] => destruct b eqn:?; try reflexivity; try apply writeHexUnit_ascii
  end.
  - simpl. bool_to_prop. unfold ascii_byte. rewrite bval_byte_of by lia.
    by rewrite (proj2 (Z.ltb_lt _ _)).
  - destruct (EncodeRune16 r) as [hi lo].
    destruct (lo =? -1); auto using ascii_app, writeHexUnit_ascii.
Qed.

Lemma mjoin_ascii ss : Forall (fun s => ascii s) ss -> ascii (mjoin ss).
Proof. induction 1; [done|]. by apply ascii_app. Qed.

Lemma quoted_ascii s : ascii s -> ascii (quoted s).
Proof. intros H. change (quoted s) with ([x22] ++ s ++ [x22]). by repeat apply ascii_app. Qed.

Lemma writeJSONString_ascii s : ascii (writeJSONString s).
Proof.
  apply quoted_ascii, mjoin_ascii. pose proof (runes_scalars s) as H.
  induction H as [|r rs Hr Hrs IH]; constructor; [|done].
  apply writeRune_ascii. apply is_scalar_spec in Hr. lia.
Qed.

Lemma digit_plain d : 0 <= d < 10 -> plain_byte (digit_byte d) = true.
Proof.
  intros H. unfold digit_byte. assert (d = 0 \/ d = 1 \/ d = 2 \/ d = 3 \/ d = 4 \/ d = 5 \/ d = 6 \/
    d = 7 \/ d = 8 \/ d = 9) as Hd by lia. repeat destruct Hd as [->|Hd]; try reflexivity. by subst d.
Qed.

Lemma pad2_plain n : plain (pad2 n).
Proof. unfold pad2. cbn [forallb]. by rewrite !digit_plain by (apply Z.mod_pos_bound; lia). Qed.

Lemma appendInt_plain n w : plain (appendInt n w).
Proof.
  unfold appendInt. apply plain_app; [by destruct (n <? 0)|]. apply plain_app.
  - induction (w - length (FormatUint (Z.abs n)))%nat; [done|]. simpl. done.
  - apply FormatUint_plain. lia.
Qed.

#[export] Hint Resolve pad2_plain appendInt_plain : go.

Lemma format_seconds_plain t : plain (format_seconds t).
Proof.
  unfold format_seconds. destruct (civil_from_days (Unix t / 86400)) as [[y m] d].
  repeat (apply plain_app; auto with go).
Qed.

Lemma utcSeconds_plain t : plain (utcSeconds t).
Proof. apply plain_app; [apply format_seconds_plain|done]. Qed.

Lemma utcSeconds_text t : text (NString (utcSeconds t)) (quoted (utcSeconds t)).
Proof. apply plain_string_text, utcSeconds_plain. Qed.

(** ** The trees of the outbound messages *)

(** A string field carries what [writeJSONString] preserves of the string. *)
Definition NWritten (s : str) : Node := NString (written s).
Definition NTime (t : Time) : Node := NString (utcSeconds t).
Definition NUint (n : Z) : Node := NNumber (FormatUint n).
Definition NInt (n : Z) : Node := NNumber (FormatInt n).

Definition latest_node (l : LatestText) : Node :=
  NObject [("payload"%go, NWritten (Payload l)); ("version"%go, NUint (Version l));
           ("hash"%go, NWritten (Hash l)); ("encrypted"%go, NBool (Encrypted l));
           ("fromClientId"%go, NWritten (FromClientID l));
           ("fromClientName"%go, NWritten (FromClientName l));
           ("updatedAtUtc"%go, NTime (UpdatedAtUtc l))].

Definition clip_node (id : str) (l : LatestText) : Node :=
  NObject [("type"%go, NString "clip"); ("version"%go, NUint (Version l)); ("id"%go, NWritten id);
           ("payload"%go, NWritten (Payload l)); ("encrypted"%go, NBool (Encrypted l));
           ("hash"%go, NWritten (Hash l)); ("fromClientId"%go, NWritten (FromClientID l));
           ("fromClientName"%go, NWritten (FromClientName l));
           ("updatedAtUtc"%go, NTime (UpdatedAtUtc l))].

Definition clip_ack_node (id : str) (l : LatestText) : Node :=
  NObject [("type"%go, NString "clip_ack"); ("id"%go, NWritten id); ("version"%go, NUint (Version l));
           ("updatedAtUtc"%go, NTime (UpdatedAtUtc l))].

(** The [latest] key is absent when there is no latest text. *)
Definition welcome_node (latest : option LatestText) : Node :=
  NObject ([("type"%go, NString "welcome"); ("protocolVersion"%go, NInt ProtocolVersion)] ++
           match latest with Some l => [("latest"%go, latest_node l)] | None => [] end).

Definition error_node (e : Error) : Node :=
  NObject ([("type"%go, NString "error"); ("code"%go, NString (CodeName e));
            ("message"%go, NWritten (err_Message e))] ++
           match ReferenceID e with Some id => [("referenceId"%go, NWritten id)] | None => [] end).

Definition ping_node (t : Time) : Node :=
  NObject [("type"%go, NString "ping"); ("serverTimeUtc"%go, NTime t)].

Definition bye_node (reason : str) : Node :=
  NObject [("type"%go, NString "bye"); ("reason"%go, NWritten reason)].

(** [needsRehash] appears only when it is true. *)
Definition login_node (token : str) (expires : Z) (cfg : RuntimeConfig) (rehash : bool) : Node :=
  NObject ([("token"%go, NWritten token);
            ("expiresAtUtc"%go, NString (expiresAtUtcFormat expires));
            ("protocolVersion"%go, NInt ProtocolVersion);
            ("maxTextBytes"%go, NInt (MaxTextBytes (Limits cfg)));
            ("helloTimeoutSeconds"%go, NInt (HelloTimeoutSeconds (Limits cfg)));
            ("heartbeatIntervalSeconds"%go, NInt (HeartbeatIntervalSeconds (Limits cfg)));
            ("heartbeatTimeoutSeconds"%go, NInt (HeartbeatTimeoutSeconds (Limits cfg)))] ++
           if rehash then [("needsRehash"%go, NBool true)] else []).

(** Close the per-field goals of a compact object. *)
Ltac fields :=
  repeat match goal with
  | |- Forall2 _ [] [] => constructor
  | |- Forall2 _ (_ :: _) (_ :: _) => constructor; [split; [reflexivity|split; [reflexivity|]]|]
  end; unfold NWritten, NTime, NUint, NInt;
  auto using writeJSONString_text, utcSeconds_text, uint_text, bool_text, int_text, plain_string_text.

(** Read a marshaler's output as the compact object of the given value texts:
    the marshaler's constant pieces are exactly the keys and separators. *)
Ltac pieces :=
  repeat match goal with
  | |- context [writeJSONString ?s] => generalize (writeJSONString s); intros
  | |- context [utcSeconds ?t] => generalize (utcSeconds t); intros
  | |- context [expiresAtUtcFormat ?t] => generalize (expiresAtUtcFormat t); intros
  | |- context [FormatUint ?n] => generalize (FormatUint n); intros
  | |- context [FormatInt ?n] => generalize (FormatInt n); intros
  | |- context [FormatBool ?b] => generalize (FormatBool b); intros
  | |- context [marshalLatest ?l] => generalize (marshalLatest l); intros
  end;
  lazy -[app];
  repeat (rewrite <- ?app_assoc; cbn [app]); reflexivity.

Ltac compact kts :=
  eapply (compact_object_text _ kts); [discriminate|unfold field_texts; fields|].

Lemma marshalLatest_text l : 0 <= Version l -> text (latest_node l) (marshalLatest l).
Proof.
  intros Hv.
  compact [("payload"%go, writeJSONString (Payload l)); ("version"%go, FormatUint (Version l));
           ("hash"%go, writeJSONString (Hash l)); ("encrypted"%go, FormatBool (Encrypted l));
           ("fromClientId"%go, writeJSONString (FromClientID l));
           ("fromClientName"%go, writeJSONString (FromClientName l));
           ("updatedAtUtc"%go, quoted (utcSeconds (UpdatedAtUtc l)))].
  unfold marshalLatest. pieces.
Qed.

Lemma MarshalClip_text id l : 0 <= Version l -> text (clip_node id l) (MarshalClip id l).
Proof.
  intros Hv.
  compact [("type"%go, quoted "clip"); ("version"%go, FormatUint (Version l));
           ("id"%go, writeJSONString id); ("payload"%go, writeJSONString (Payload l));
           ("encrypted"%go, FormatBool (Encrypted l)); ("hash"%go, writeJSONString (Hash l));
           ("fromClientId"%go, writeJSONString (FromClientID l));
           ("fromClientName"%go, writeJSONString (FromClientName l));
           ("updatedAtUtc"%go, quoted (utcSeconds (UpdatedAtUtc l)))].
  unfold MarshalClip. pieces.
Qed.

Lemma MarshalClipAck_text id l : 0 <= Version l -> text (clip_ack_node id l) (MarshalClipAck id l).
Proof.
  intros Hv.
  compact [("type"%go, quoted "clip_ack"); ("id"%go, writeJSONString id);
           ("version"%go, FormatUint (Version l));
           ("updatedAtUtc"%go, quoted (utcSeconds (UpdatedAtUtc l)))].
  unfold MarshalClipAck. pieces.
Qed.

Lemma MarshalWelcome_text o : (forall l, o = Some l -> 0 <= Version l) ->
  text (welcome_node o) (MarshalWelcome o).
Proof.
  intros Hv. unfold MarshalWelcome, welcome_node. destruct o as [l|]; cbn [app].
  - pose proof (marshalLatest_text l (Hv l eq_refl)).
    compact [("type"%go, quoted "welcome"); ("protocolVersion"%go, FormatInt ProtocolVersion);
             ("latest"%go, marshalLatest l)]. pieces.
  - compact [("type"%go, quoted "welcome"); ("protocolVersion"%go, FormatInt ProtocolVersion)]. pieces.
Qed.

Lemma MarshalPing_text t : text (ping_node t) (MarshalPing t).
Proof.
  compact [("type"%go, quoted "ping"); ("serverTimeUtc"%go, quoted (utcSeconds t))].
  unfold MarshalPing. pieces.
Qed.

Lemma MarshalBye_text reason : text (bye_node reason) (MarshalBye reason).
Proof.
  compact [("type"%go, quoted "bye"); ("reason"%go, writeJSONString reason)].
  unfold MarshalBye. pieces.
Qed.

Lemma CodeName_plain e : plain (CodeName e).
Proof. unfold CodeName. by destruct (Code e). Qed.

Lemma MarshalError_text e : text (error_node e) (MarshalError e).
Proof.
  unfold MarshalError, error_node. pose proof (CodeName_plain e).
  destruct (ReferenceID e) as [id|]; cbn [app].
  - compact [("type"%go, quoted "error"); ("code"%go, quoted (CodeName e));
             ("message"%go, writeJSONString (err_Message e)); ("referenceId"%go, writeJSONString id)].
    generalize (CodeName e). intros. pieces.
  - compact [("type"%go, quoted "error"); ("code"%go, quoted (CodeName e));
             ("message"%go, writeJSONString (err_Message e))].
    generalize (CodeName e). intros. pieces.
Qed.

Lemma expiresAtUtcFormat_plain n : plain (expiresAtUtcFormat n).
Proof. apply plain_app; [apply format_seconds_plain|done]. Qed.

Lemma MarshalLoginResponse_text token expires cfg rehash :
  text (login_node token expires cfg rehash) (MarshalLoginResponse token expires cfg rehash).
Proof.
  pose proof (expiresAtUtcFormat_plain expires). unfold login_node, MarshalLoginResponse.
  set (head := [("token"%go, writeJSONString token);
           ("expiresAtUtc"%go, quoted (expiresAtUtcFormat expires));
           ("protocolVersion"%go, FormatInt ProtocolVersion);
           ("maxTextBytes"%go, FormatInt (MaxTextBytes (Limits cfg)));
           ("helloTimeoutSeconds"%go, FormatInt (HelloTimeoutSeconds (Limits cfg)));
           ("heartbeatIntervalSeconds"%go, FormatInt (HeartbeatIntervalSeconds (Limits cfg)));
           ("heartbeatTimeoutSeconds"%go, FormatInt (HeartbeatTimeoutSeconds (Limits cfg)))]).
  apply (compact_object_text _ (head ++ if rehash then [("needsRehash"%go, "true"%go)] else []));
    subst head; [discriminate| |].
  - destruct rehash; cbn [app]; unfold field_texts; fields.
  - destruct rehash; pieces.
Qed.

(** ** Faithfulness of the escaper *)

(** The runes the escaper preserves. *)
Definition kept_rune (r : Z) : bool :=
  (r <? 128) || (r =? 8232) || (r =? 8233) || (65536 <=? r) .

Lemma written_rune_scalar r : is_scalar r = true -> Forall (fun r => is_scalar r = true) (written_rune r).
Proof. intros H. unfold written_rune. destruct (_ || _); repeat constructor; done. Qed.

Lemma bind_written_scalars s : scalars (runes s ≫= written_rune).
Proof.
  pose proof (runes_scalars s) as H.
  induction H as [|r rs Hr Hrs IH]; [constructor|]. rewrite bind_cons. apply Forall_app.
  auto using written_rune_scalar.
Qed.

Lemma written_Valid s : Valid (written s) = true.
Proof. apply Valid_runes_str, bind_written_scalars. Qed.

Lemma runes_written s : runes (written s) = runes s ≫= written_rune.
Proof. apply runes_runes_str, bind_written_scalars. Qed.

Lemma bind_written_kept rs : forallb kept_rune rs = true -> rs ≫= written_rune = rs.
Proof.
  induction rs as [|r rs IH]; [done|]. cbn [forallb]. intros [Hr Hrs]%andb_true_iff.
  rewrite bind_cons, IH by done. unfold written_rune. unfold kept_rune in Hr. by rewrite Hr.
Qed.

Lemma bind_written_length rs :
  (length rs <= length (rs ≫= written_rune) /\
   (length (rs ≫= written_rune) = length rs -> forallb kept_rune rs = true))%nat.
Proof.
  induction rs as [|r rs [IH1 IH2]]; [done|]. rewrite bind_cons, length_app. cbn [forallb].
  unfold written_rune at 1 3. fold (kept_rune r). destruct (kept_rune r); cbn [length andb].
  - split; [lia|]. intros. apply IH2. lia.
  - split; lia.
Qed.

Lemma written_kept_iff s : written s = s <-> Valid s = true /\ forallb kept_rune (runes s) = true.
Proof.
  split.
  - intros E. split; [rewrite <- E; apply written_Valid|].
    apply bind_written_length. by rewrite <- runes_written, E.
  - intros [Hv Hk]. unfold written. rewrite bind_written_kept by done. by apply runes_str_runes.
Qed.

(** ASCII strings, the base64 and hexadecimal of the protocol among them, survive. *)
Lemma written_ascii s : ascii s -> written s = s.
Proof.
  intros H. apply written_kept_iff. split; [by apply Valid_ascii|].
  rewrite runes_ascii by done. apply forallb_forall. intros r Hr.
  apply list_elem_of_In, list_elem_of_fmap in Hr as (c & -> & Hc).
  rewrite forallb_forall in H. specialize (H c). rewrite <- list_elem_of_In in H.
  unfold kept_rune. apply H in Hc. unfold ascii_byte in Hc. by rewrite Hc.
Qed.

(** ** Whole messages *)

Lemma CodeName_ascii e : ascii (CodeName e).
Proof. apply plain_ascii, CodeName_plain. Qed.

Lemma FormatUint_ascii n : 0 <= n -> ascii (FormatUint n).
Proof. intros. by apply plain_ascii, FormatUint_plain. Qed.

Lemma FormatInt_ascii n : ascii (FormatInt n).
Proof. apply plain_ascii, FormatInt_plain. Qed.

Lemma FormatBool_ascii b : ascii (FormatBool b).
Proof. by destruct b. Qed.

Lemma utcSeconds_ascii t : ascii (utcSeconds t).
Proof. apply plain_ascii, utcSeconds_plain. Qed.

Lemma expiresAtUtcFormat_ascii t : ascii (expiresAtUtcFormat t).
Proof. apply plain_ascii, expiresAtUtcFormat_plain. Qed.

#[export] Hint Resolve CodeName_ascii FormatUint_ascii FormatInt_ascii FormatBool_ascii utcSeconds_ascii
  expiresAtUtcFormat_ascii writeJSONString_ascii : go.

(** Split a concatenation of pieces and close what the lemmas above close. *)
Ltac ascii_pieces :=
  repeat lazymatch goal with |- forallb _ (_ ++ _) = true => apply ascii_app end;
  first [reflexivity|solve [auto with go]|idtac].

Lemma marshalLatest_ascii l : 0 <= Version l -> ascii (marshalLatest l).
Proof. intros. unfold marshalLatest. ascii_pieces. Qed.

Lemma MarshalClip_ascii id l : 0 <= Version l -> ascii (MarshalClip id l).
Proof. intros. unfold MarshalClip. ascii_pieces. Qed.

Lemma MarshalClipAck_ascii id l : 0 <= Version l -> ascii (MarshalClipAck id l).
Proof. intros. unfold MarshalClipAck. ascii_pieces. Qed.

Lemma MarshalWelcome_ascii o : (forall l, o = Some l -> 0 <= Version l) -> ascii (MarshalWelcome o).
Proof.
  intros H. unfold MarshalWelcome. ascii_pieces. destruct o; [|done]. ascii_pieces.
  auto using marshalLatest_ascii.
Qed.

Lemma MarshalPing_ascii t : ascii (MarshalPing t).
Proof. unfold MarshalPing. ascii_pieces. Qed.

Lemma MarshalBye_ascii r : ascii (MarshalBye r).
Proof. unfold MarshalBye. ascii_pieces. Qed.

Lemma MarshalError_ascii e : ascii (MarshalError e).
Proof. unfold MarshalError. ascii_pieces. destruct (ReferenceID e); [|done]. ascii_pieces. Qed.

Lemma MarshalLoginResponse_ascii t x cfg b : ascii (MarshalLoginResponse t x cfg b).
Proof. unfold MarshalLoginResponse. ascii_pieces. by destruct b. Qed.

(** A written text is read back. *)
Lemma Decode_ascii maxDepth n s :
  text n s -> ascii s -> node_depth n <= maxDepth -> Decode maxDepth s = Ok n.
Proof. intros. apply Decode_text0; auto using Valid_ascii. Qed.

(** ** Properties *)

(** C30: Every session message the server writes (welcome, clip, clip_ack, ping, bye,
    error) is read back by a JSON reader as exactly the documented object: same keys in
    the same order, same numbers and booleans, each string as [written] leaves it.
    [latest] and [referenceId] are absent exactly when there is none. So is the login response, its limits as
    the configuration has them and [needsRehash] present exactly when it is true. *)
Theorem session_messages_read_back maxDepth id l o e t reason token expires cfg rehash :
  2 <= maxDepth -> 0 <= Version l -> (forall l', o = Some l' -> 0 <= Version l') ->
  Decode maxDepth (MarshalClip id l) = Ok (clip_node id l) /\
  Decode maxDepth (MarshalClipAck id l) = Ok (clip_ack_node id l) /\
  Decode maxDepth (MarshalWelcome o) = Ok (welcome_node o) /\
  Decode maxDepth (MarshalPing t) = Ok (ping_node t) /\
  Decode maxDepth (MarshalBye reason) = Ok (bye_node reason) /\
  Decode maxDepth (MarshalError e) = Ok (error_node e) /\
  Decode maxDepth (MarshalLoginResponse token expires cfg rehash) = Ok (login_node token expires cfg rehash).
Proof.
  intros Hd Hl Ho. repeat split; apply Decode_ascii;
    auto using MarshalClip_text, MarshalClip_ascii, MarshalClipAck_text, MarshalClipAck_ascii,
      MarshalWelcome_text, MarshalWelcome_ascii, MarshalPing_text, MarshalPing_ascii,
      MarshalBye_text, MarshalBye_ascii, MarshalError_text, MarshalError_ascii,
      MarshalLoginResponse_text, MarshalLoginResponse_ascii;
    try (simpl; lia).
  - destruct o; simpl; lia.
  - unfold error_node. destruct (ReferenceID e); simpl; lia.
  - unfold login_node. destruct rehash; simpl; lia.
Qed.

Definition sample_latest : LatestText :=
  {| Payload := "aGk="; Version := 7; Hash := "h"; Encrypted := true; FromClientID := "c1";
     FromClientName := "pc"; UpdatedAtUtc := utc (1700000000 * Second) |}.

Lemma session_messages_read_back_witness :
  Decode 8 (MarshalClip "x" sample_latest) = Ok (clip_node "x" sample_latest).
Proof.
  refine (proj1 (session_messages_read_back 8 "x" sample_latest None
    (mkError ErrRateLimited "m" None) (utc 0) "r" "t" 0 Defaults true _ _ _)); [lia|done|done].
Defined.

(** C40: The reader of an escaped string gets [written s]; that is the string itself if and
    only if it is valid UTF-8 whose runes are ASCII, U+2028, U+2029 or above U+FFFF. Every
    other rune comes back as two replacement characters. *)
Theorem escaper_faithful_iff maxDepth s :
  0 <= maxDepth ->
  Decode maxDepth (writeJSONString s) = Ok (NString (written s)) /\
  (written s = s <-> Valid s = true /\ forallb kept_rune (runes s) = true).
Proof.
  intros Hd. split; [|apply written_kept_iff].
  apply Decode_ascii; auto using writeJSONString_text, writeJSONString_ascii.
Qed.

Lemma escaper_faithful_iff_witness :
  Decode 0 (writeJSONString "a<b") = Ok (NString (written "a<b")).
Proof. refine (proj1 (escaper_faithful_iff 0 "a<b" _)). lia. Defined.

(** U+4E2D, a Chinese character, is read back as U+FFFD U+FFFD. *)
Example bmp_rune_lost :
  Decode 8 (writeJSONString (encode_rune 20013)) = Ok (NString (encode_rune 65533 ++ encode_rune 65533)).
Proof. vm_compute. reflexivity. Qed.
