(* ===== verification/Logic.v ===== *)
(** * Version arithmetic and the snapshot election (internal/core/logic.go) *)
From S2P Require Import Prelude GoLib GoTime Protocol.

(** A computation that may panic, with the panic's message. *)
Abbreviation panics A := (result str A).

Record Winner := {
  win_Snapshot : ClipSnapshot; win_Version : Z; win_ClientID : str; win_ClientName : str }.

(** The increment panics instead of wrapping. *)
Definition NextVersion (cur : Z) : panics Z :=
  if cur =? MaxUint64 then Err "Version overflow." else Ok (cur + 1).

(** The zero time keeps the old [UpdatedAtUtc]. *)
Definition WithVersion (latest : LatestText) (next : Z) (now : Time) : LatestText :=
  {| Payload := Payload latest; Version := next; Hash := Hash latest; Encrypted := Encrypted latest;
     FromClientID := FromClientID latest; FromClientName := FromClientName latest;
     UpdatedAtUtc := if negb (IsZero now) then now else UpdatedAtUtc latest |}.

(** ** The election *)

Definition candidate (hello : ClientHello) : option Winner :=
  if 0 <? LastServerVersion hello then
    match Snapshot hello with
    | Some s => Some {| win_Snapshot := s; win_Version := LastServerVersion hello;
                        win_ClientID := hello_ClientID hello; win_ClientName := hello_ClientName hello |}
    | None => None
    end
  else None.

(** The comparison given to [sort.SliceStable]: does [a] come before [b]? *)
Definition less (a b : Winner) : bool :=
  if negb (win_Version a =? win_Version b) then win_Version b <? win_Version a
  else
    let ta := LocalModifiedAtUtc (win_Snapshot a) in
    let tb := LocalModifiedAtUtc (win_Snapshot b) in
    if negb (Equal ta tb) then After ta tb
    else str_ltb (win_ClientID b) (win_ClientID a).

(** A stable insertion sort: the new element goes after the elements it does not precede. *)
Fixpoint insert_stable {A} (lt : A -> A -> bool) (x : A) (l : list A) : list A :=
  match l with
  | [] => [x]
  | y :: l' => if lt x y then x :: l else y :: insert_stable lt x l'
  end.

Definition SliceStable {A} (lt : A -> A -> bool) (l : list A) : list A :=
  foldl (fun acc x => insert_stable lt x acc) [] l.

Definition SelectSnapshotWinner (hellos : list ClientHello) : option Winner :=
  head (SliceStable less (omap candidate hellos)).

(** ** Reference definition: one pass keeping the first best candidate *)

Definition better (best x : Winner) : Winner := if less x best then x else best.

Definition first_best (l : list Winner) : option Winner :=
  match l with [] => None | a :: l' => Some (foldl better a l') end.

(** [w] is elected from [l]: it strictly beats every earlier candidate and no later
    candidate beats it. *)
Definition elected (w : Winner) (l : list Winner) : Prop :=
  exists before after, l = before ++ w :: after /\
    Forall (fun c => less w c = true) before /\ Forall (fun c => less c w = false) after.

(** ** Lemmas *)

Lemma str_ltb_irrefl a : str_ltb a a = false.
Proof. induction a as [|c a IH]; [done|]. simpl. by rewrite Z.ltb_irrefl. Qed.

(** Byte order is a strict weak order: a strict pair is separated by any third string. *)
Lemma str_ltb_cotrans a b c : str_ltb a b = true -> str_ltb a c = true \/ str_ltb c b = true.
Proof.
  revert b c. induction a as [|x a IH]; intros [|y b] [|z c]; simpl; auto; try done.
  destruct (Z.ltb_spec (bval x) (bval y)), (Z.ltb_spec (bval y) (bval x)),
    (Z.ltb_spec (bval x) (bval z)), (Z.ltb_spec (bval z) (bval x)),
    (Z.ltb_spec (bval z) (bval y)), (Z.ltb_spec (bval y) (bval z)); try lia; naive_solver.
Qed.

Lemma str_ltb_asym a b : str_ltb a b = true -> str_ltb b a = false.
Proof.
  revert b. induction a as [|x a IH]; intros [|y b]; simpl; try done.
  destruct (Z.ltb_spec (bval x) (bval y)), (Z.ltb_spec (bval y) (bval x)); try lia; naive_solver.
Qed.

Lemma str_ltb_total a b : str_ltb a b = false -> str_ltb b a = false -> a = b.
Proof.
  revert b. induction a as [|x a IH]; intros [|y b]; simpl; try done.
  destruct (Z.ltb_spec (bval x) (bval y)), (Z.ltb_spec (bval y) (bval x)); try done.
  intros. f_equal; [apply bval_inj; lia|by apply IH].
Qed.

(** Decide the version and time tests of [less]. *)
Ltac less_cases :=
  unfold less, Equal, After in *;
  repeat match goal with
  | |- context [?a =? ?b] => destruct (Z.eqb_spec a b)
  | H : context [?a =? ?b] |- _ => destruct (Z.eqb_spec a b)
  end; cbn [negb] in *; rewrite ?Z.ltb_lt, ?Z.ltb_ge in *.

Lemma less_irrefl a : less a a = false.
Proof. unfold less. rewrite Z.eqb_refl. unfold Equal. rewrite Z.eqb_refl. apply str_ltb_irrefl. Qed.

Lemma less_asym a b : less a b = true -> less b a = false.
Proof. intros H. less_cases; try lia. by apply str_ltb_asym. Qed.

Lemma less_cotrans a b c : less a b = true -> less a c = true \/ less c b = true.
Proof. intros H. less_cases; try lia. destruct (str_ltb_cotrans _ _ (win_ClientID c) H); auto. Qed.

Lemma less_trans a b c : less a b = true -> less b c = true -> less a c = true.
Proof.
  intros Hab Hbc. destruct (less_cotrans a b c Hab) as [|Hcb]; [done|].
  apply less_asym in Hcb. congruence.
Qed.

Lemma head_insert {A} (lt : A -> A -> bool) x y l :
  head (insert_stable lt x (y :: l)) = Some (if lt x y then x else y).
Proof. simpl. by destruct (lt x y). Qed.

Lemma head_SliceStable l : head (SliceStable less l) = first_best l.
Proof.
  destruct l as [|a l]; [done|]. unfold SliceStable. cbn [foldl insert_stable first_best].
  assert (H : forall acc best, head acc = Some best ->
    head (foldl (fun acc x => insert_stable less x acc) acc l) = Some (foldl better best l)).
  { induction l as [|x l IH]; intros acc best Ha; [done|]. cbn [foldl]. apply IH.
    destruct acc as [|y acc]; simplify_eq/=. by apply head_insert. }
  by apply H.
Qed.

Lemma first_best_elected a l : elected (foldl better a l) (a :: l).
Proof.
  induction l as [|x l IH] using rev_ind; [exists [], []; by repeat constructor|].
  rewrite foldl_app. cbn [foldl]. destruct IH as (l1 & l2 & E & H1 & H2).
  set (w := foldl better a l) in *. unfold better. destruct (less x w) eqn:Hx.
  - exists (a :: l), []. split; [done|]. split; [|constructor]. rewrite E. apply Forall_app. split.
    + eapply Forall_impl; [|exact H1]. simpl. eauto using less_trans.
    + constructor; [done|]. eapply Forall_impl; [|exact H2]. simpl. intros c Hc.
      destruct (less_cotrans x w c Hx); [done|congruence].
  - exists l1, (l2 ++ [x]). split; [by rewrite app_comm_cons, E, <- app_assoc|].
    split; [done|]. apply Forall_app. auto.
Qed.

Lemma elected_max w l : elected w l -> w ∈ l /\ forall c, c ∈ l -> less c w = false.
Proof.
  intros (l1 & l2 & -> & H1 & H2). split; [set_solver|]. intros c.
  rewrite elem_of_app, elem_of_cons. rewrite list.Forall_forall in H1, H2.
  intros [Hc|[->|Hc]]; [apply less_asym; auto|apply less_irrefl|auto].
Qed.

Lemma NextVersion_Ok cur v : in_uint64 cur -> NextVersion cur = Ok v -> v = cur + 1 /\ in_uint64 v.
Proof.
  unfold NextVersion, in_uint64. intros Hc H. destruct (Z.eqb_spec cur MaxUint64); simplify_eq. lia.
Qed.

(** ** The election, declaratively *)

(** The hello takes part with this snapshot. *)
Definition offers (hello : ClientHello) (s : ClipSnapshot) : Prop :=
  0 < LastServerVersion hello /\ Snapshot hello = Some s.

(** A higher version; then a later modification; then a client id that is greater byte by byte. *)
Definition outranks (a : ClientHello) (sa : ClipSnapshot) (b : ClientHello) (sb : ClipSnapshot) : Prop :=
  LastServerVersion b < LastServerVersion a \/
  (LastServerVersion b = LastServerVersion a /\
   (ns (LocalModifiedAtUtc sb) < ns (LocalModifiedAtUtc sa) \/
    (ns (LocalModifiedAtUtc sb) = ns (LocalModifiedAtUtc sa) /\
     str_ltb (hello_ClientID b) (hello_ClientID a) = true))).

Definition winner_of (hello : ClientHello) (s : ClipSnapshot) : Winner :=
  {| win_Snapshot := s; win_Version := LastServerVersion hello; win_ClientID := hello_ClientID hello;
     win_ClientName := hello_ClientName hello |}.

Lemma candidate_Some hello w : candidate hello = Some w <-> exists s, offers hello s /\ w = winner_of hello s.
Proof.
  unfold candidate, offers, winner_of. destruct (Z.ltb_spec 0 (LastServerVersion hello)).
  - destruct (Snapshot hello) as [s|]; naive_solver.
  - naive_solver lia.
Qed.

Lemma less_outranks a sa b sb : less (winner_of a sa) (winner_of b sb) = true <-> outranks a sa b sb.
Proof.
  unfold less, outranks, winner_of, Equal, After. cbn.
  destruct (Z.eqb_spec (LastServerVersion a) (LastServerVersion b)); cbn [negb]; [|rewrite Z.ltb_lt; lia].
  destruct (Z.eqb_spec (ns (LocalModifiedAtUtc sa)) (ns (LocalModifiedAtUtc sb))); cbn [negb];
    [|rewrite Z.ltb_lt; lia].
  intuition (lia || auto).
Qed.

Lemma omap_split {A B} (f : A -> option B) (l : list A) : forall l1 y l2, omap f l = l1 ++ y :: l2 ->
  exists k1 x k2, l = k1 ++ x :: k2 /\ omap f k1 = l1 /\ f x = Some y /\ omap f k2 = l2.
Proof.
  induction l as [|a l IH]; intros l1 y l2 H; [by destruct l1|]. cbn in H. destruct (f a) as [z|] eqn:Ea.
  - destruct l1 as [|z' l1]; injection H as -> H.
    + by exists [], a, l.
    + destruct (IH _ _ _ H) as (k1 & x & k2 & -> & <- & Ex & <-). exists (a :: k1), x, k2. cbn. by rewrite Ea.
  - destruct (IH _ _ _ H) as (k1 & x & k2 & -> & <- & Ex & <-). exists (a :: k1), x, k2. cbn. by rewrite Ea.
Qed.

(** ** Properties *)

(** C36: The snapshot election answers [None] exactly when no hello has both a positive last server version and a
    snapshot. Otherwise it answers the snapshot, version and names of one such hello: of the highest version,
    among these of the latest modification time, among these of the greatest client id, and among equals of the
    first to arrive. *)
Theorem winner_elected hellos :
  match SelectSnapshotWinner hellos with
  | None => forall hello s, hello ∈ hellos -> ~ offers hello s
  | Some w =>
      exists before hello s after, hellos = before ++ hello :: after /\ offers hello s /\
        w = {| win_Snapshot := s; win_Version := LastServerVersion hello; win_ClientID := hello_ClientID hello;
               win_ClientName := hello_ClientName hello |} /\
        (forall other so, other ∈ before -> offers other so -> outranks hello s other so) /\
        (forall other so, other ∈ after -> offers other so -> ~ outranks other so hello s)
  end.
Proof.
  assert (Hin : forall l other so, other ∈ l -> offers other so -> winner_of other so ∈ (omap candidate l : list Winner)).
  { intros l other so Ho Hs. apply list_elem_of_omap. exists other. split; [done|]. apply candidate_Some. eauto. }
  unfold SelectSnapshotWinner. rewrite head_SliceStable. destruct (omap candidate hellos) as [|a l] eqn:E.
  - intros hello s Hh Hs. specialize (Hin _ _ _ Hh Hs). rewrite E in Hin. by apply elem_of_nil in Hin.
  - cbn [first_best]. destruct (first_best_elected a l) as (l1 & l2 & El & H1 & H2). rewrite El in E.
    apply omap_split in E as (before & hello & after & -> & <- & Hc & <-).
    apply candidate_Some in Hc as (s & Hs & Hw). rewrite Hw in *. exists before, hello, s, after.
    split; [done|]. split; [done|]. split; [done|]. rewrite list.Forall_forall in H1, H2. split.
    + intros other so Ho Hs'. apply less_outranks. by apply H1, Hin.
    + intros other so Ho Hs' Hr. apply less_outranks in Hr. rewrite H2 in Hr; [done|by apply Hin].
Qed.
