(* ===== verification/Ring.v ===== *)
(** * The ring of seen clip ids (internal/core/ring.go)

    A map from id to the remembered result, and a circular array of the ids in
    insertion order that decides which id is evicted. The channel used as a lock
    makes each exported operation atomic, so an operation is a function of the
    state; a slice index out of range is a panic. *)
From S2P Require Import Prelude GoLib Protocol Logic.

(** A remembered result may be [nil] ([None]). *)
Record Ring := mkRing {
  entries : gmap str (option LatestText);
  insertionOrder : list str;
  nextInsertIndex : nat }.

Definition NewRing (capacity : Z) : panics Ring :=
  if capacity <=? 0 then Err "capacity must be positive"
  else Ok (mkRing ∅ (replicate (Z.to_nat capacity) []) 0).

Definition index_panic : str := "runtime error: index out of range".

Definition rememberInternal (r : Ring) (id : str) (latest : option LatestText) : panics Ring :=
  match insertionOrder r !! nextInsertIndex r with
  | None => Err index_panic
  | Some evictedID =>
      let kept := if negb (is_empty evictedID) && negb (streq evictedID id)
                  then delete evictedID (entries r) else entries r in
      Ok (mkRing (<[id := latest]> kept) (<[nextInsertIndex r := id]> (insertionOrder r))
            ((nextInsertIndex r + 1) mod length (insertionOrder r))%nat)
  end.

Definition TryDuplicate (r : Ring) (id : str) : panics (bool * Ring) :=
  match entries r !! id with
  | Some _ => Ok (true, r)
  | None => let? r' := rememberInternal r id None in Ok (false, r')
  end.

(** The value and the [ok] of the two-value map read. *)
Definition TryGet (r : Ring) (id : str) : option LatestText * bool :=
  match entries r !! id with Some l => (l, true) | None => (None, false) end.

Definition Remember (r : Ring) (id : str) (latest : option LatestText) : panics Ring :=
  rememberInternal r id latest.

Definition IsUnchangedDuplicate (r : Ring) (id payload hash : str) (encrypted : bool)
  : option LatestText * bool :=
  match entries r !! id with
  | None => (None, false)
  | Some remembered =>
      (remembered,
       match remembered with
       | None => false
       | Some l => streq (Payload l) payload && streq (Hash l) hash &&
                   Bool.eqb (Encrypted l) encrypted
       end)
  end.

(** ** Invariant *)

(** The array has the capacity's length, the index is inside it, and every id of the
    map is in the array (the empty id, never evicted, may not be). *)
Record ring_ok (capacity : nat) (r : Ring) : Prop := {
  ring_length : length (insertionOrder r) = capacity;
  ring_index : (nextInsertIndex r < capacity)%nat;
  ring_listed : forall id : str, id ∈ dom (entries r) -> id <> [] -> id ∈ insertionOrder r }.

Lemma NewRing_ok capacity r : NewRing capacity = Ok r -> 0 < capacity /\ ring_ok (Z.to_nat capacity) r.
Proof.
  unfold NewRing. destruct (Z.leb_spec capacity 0); intros; simplify_eq. split; [lia|].
  split; simpl; [apply length_replicate|lia|set_solver].
Qed.

(** Remembering never panics on a well-formed ring and keeps it well formed. *)
Lemma rememberInternal_ok capacity r id latest : ring_ok capacity r ->
  exists r', rememberInternal r id latest = Ok r' /\ ring_ok capacity r'.
Proof.
  intros [Hl Hi Hd]. unfold rememberInternal.
  destruct (lookup_lt_is_Some_2 (insertionOrder r) (nextInsertIndex r)) as [ev Hev]; [lia|].
  rewrite Hev. eexists. split; [reflexivity|]. split; simpl.
  - by rewrite length_insert.
  - rewrite Hl. apply Nat.mod_upper_bound. lia.
  - intros k Hk Hne. destruct (decide (k = id)) as [->|Hki].
    { apply list_elem_of_lookup. exists (nextInsertIndex r). apply list_lookup_insert_eq. lia. }
    assert (Hk' : k ∈ dom (entries r) /\ k <> ev).
    { destruct (is_empty_spec ev), (streq_spec ev id); simpl in Hk; set_solver. }
    destruct Hk' as [Hk1 Hk2]. specialize (Hd k Hk1 Hne).
    apply list_elem_of_lookup in Hd as [j Hj]. apply list_elem_of_lookup. exists j.
    rewrite list_lookup_insert_ne; [done|]. congruence.
Qed.

Lemma TryDuplicate_ok capacity r id : ring_ok capacity r ->
  exists b r', TryDuplicate r id = Ok (b, r') /\ ring_ok capacity r' /\ is_Some (entries r' !! id).
Proof.
  intros H. unfold TryDuplicate. destruct (entries r !! id) as [l|] eqn:E.
  { exists true, r. rewrite E. eauto. }
  destruct (rememberInternal_ok capacity r id None H) as (r' & Hr & Hok). rewrite Hr. cbn [rbind].
  exists false, r'. split; [done|]. split; [done|]. unfold rememberInternal in Hr.
  case_match; simplify_eq/=. rewrite lookup_insert_eq. eauto.
Qed.

Lemma size_list_to_set_le (l : list str) : (size (list_to_set l : gset str) <= length l)%nat.
Proof.
  induction l as [|x l IH]; [by rewrite list_to_set_nil, size_empty|].
  rewrite list_to_set_cons, size_union_alt, size_singleton. simpl.
  assert (H : list_to_set l ∖ {[x]} ⊆ (list_to_set l : gset str)) by set_solver.
  apply subseteq_size in H. lia.
Qed.

(** The map is bounded by the capacity, one more when the empty id was remembered. *)
Lemma ring_size capacity r : ring_ok capacity r ->
  (size (entries r) <= capacity + (if decide ([] ∈ dom (entries r)) then 1 else 0))%nat.
Proof.
  intros [Hl Hi Hd]. rewrite <- size_dom. set (X := dom (entries r)) in *.
  assert (HX : X ∖ {[ [] ]} ⊆ list_to_set (insertionOrder r)) by set_solver.
  apply subseteq_size in HX. pose proof (size_list_to_set_le (insertionOrder r)).
  case_decide as Hn.
  - assert (HU : X ⊆ X ∖ {[ [] ]} ∪ {[ [] ]}).
    { intros k Hk. destruct (decide (k = [])); set_solver. }
    apply subseteq_size in HU. rewrite size_union in HU by set_solver. rewrite size_singleton in HU. lia.
  - assert (X ∖ {[ [] ]} = X) as HE by set_solver. rewrite HE in HX. lia.
Qed.

(** Reading back what was just remembered. *)
Lemma Remember_get r id latest r' : Remember r id latest = Ok r' -> entries r' !! id = Some latest.
Proof.
  unfold Remember, rememberInternal. intros. case_match; simplify_eq/=. apply lookup_insert_eq.
Qed.

(** ** Retention *)

(** A run of remembered ids. *)
Fixpoint remember_all (r : Ring) (ops : list (str * option LatestText)) : panics Ring :=
  match ops with
  | [] => Ok r
  | (id, latest) :: ops' => let? r' := Remember r id latest in remember_all r' ops'
  end.

(** [id] was remembered [k] steps ago, in a slot of its own. *)
Record held (capacity : nat) (id : str) (v : option LatestText) (slot k : nat) (r : Ring) : Prop := {
  held_ok : ring_ok capacity r;
  held_entry : entries r !! id = Some v;
  held_unique : forall j, insertionOrder r !! j = Some id -> j = slot;
  held_slot : (slot < capacity)%nat;
  held_index : nextInsertIndex r = ((slot + k) mod capacity)%nat }.

Lemma mod_step a c : (0 < c -> (a mod c + 1) mod c = (a + 1) mod c)%nat.
Proof. intros. rewrite Nat.Div0.add_mod_idemp_l. done. Qed.

Lemma mod_other slot k c : (slot < c -> 0 < k < c -> (slot + k) mod c <> slot)%nat.
Proof.
  intros H1 H2. destruct (decide (slot + k < c)%nat).
  - rewrite Nat.mod_small by lia. lia.
  - replace (slot + k)%nat with (slot + k - c + 1 * c)%nat by lia.
    rewrite Nat.Div0.mod_add, Nat.mod_small by lia. lia.
Qed.

Lemma held_step capacity id v slot k r id' latest : held capacity id v slot k r ->
  (0 < k < capacity)%nat -> id' <> id ->
  exists r', Remember r id' latest = Ok r' /\ held capacity id v slot (k + 1) r'.
Proof.
  intros [Hok He Hu Hs Hi] Hk Hid.
  destruct (rememberInternal_ok capacity r id' latest Hok) as (r' & Hr & Hok').
  exists r'. split; [done|]. pose proof (mod_other slot k capacity Hs Hk) as Hne.
  unfold rememberInternal in Hr. destruct (insertionOrder r !! nextInsertIndex r) as [ev|] eqn:Hev;
    [|done]. simplify_eq/=. pose proof (ring_length _ _ Hok) as Hlen.
  assert (Hevid : ev <> id) by (intros ->; apply Hu in Hev; congruence).
  split; [done| | |done|]; simpl.
  - rewrite lookup_insert_ne by done. destruct (_ && _); [|done]. by rewrite lookup_delete_ne.
  - intros j Hj. destruct (decide (j = nextInsertIndex r)) as [->|].
    + rewrite list_lookup_insert_eq in Hj by (eapply lookup_lt_Some; eauto). congruence.
    + rewrite list_lookup_insert_ne in Hj by done. by apply Hu.
  - rewrite Hi, Hlen, mod_step by lia. f_equal. lia.
Qed.

Lemma held_run capacity id v slot ops : forall k r, held capacity id v slot k r ->
  (0 < k)%nat -> (k + length ops <= capacity)%nat -> Forall (fun op => op.1 <> id) ops ->
  exists r', remember_all r ops = Ok r' /\ ring_ok capacity r' /\ entries r' !! id = Some v.
Proof.
  induction ops as [|[id' l'] ops IH]; intros k r H Hk Hlen Hids; simpl in *.
  - exists r. split; [done|]. split; [apply H|apply H].
  - apply list.Forall_cons in Hids as [Hid Hids].
    destruct (held_step capacity id v slot k r id' l' H) as (r' & -> & H'); [lia|done|].
    cbn [rbind]. apply (IH (k + 1)%nat); [done|lia|lia|done].
Qed.

Lemma held_start capacity r id v r' : ring_ok capacity r -> id ∉ insertionOrder r ->
  Remember r id v = Ok r' -> held capacity id v (nextInsertIndex r) 1 r'.
Proof.
  intros Hok Hid Hr. pose proof (Remember_get _ _ _ _ Hr) as Hget.
  destruct (rememberInternal_ok capacity r id v Hok) as (r2 & Hr2 & Hok2).
  unfold Remember in Hr. rewrite Hr in Hr2. simplify_eq.
  unfold rememberInternal in Hr. case_match; simplify_eq/=. destruct Hok as [Hlen Hidx Hdom].
  split; simpl; [done|done| |done|by rewrite Hlen].
  intros j Hj. destruct (decide (j = nextInsertIndex r)); [done|].
  rewrite list_lookup_insert_ne in Hj by done. exfalso. apply Hid, list_elem_of_lookup. eauto.
Qed.

(** ** Properties *)

(** A ring of positive capacity never panics and never holds more ids than its
    capacity (ids being non-empty), however many ids are remembered. *)
Lemma ring_bounded capacity r0 ops :
  NewRing capacity = Ok r0 -> Forall (fun op => op.1 <> []) ops ->
  exists r, remember_all r0 ops = Ok r /\ Z.of_nat (size (entries r)) <= capacity.
Proof.
  intros H0 Hids. destruct (NewRing_ok capacity r0 H0) as [Hpos Hok].
  assert (Hno : [] ∉ dom (entries r0)) by (unfold NewRing in H0; case_match; simplify_eq/=; set_solver).
  clear H0. revert r0 Hok Hno. induction Hids as [|[id l] ops Hid Hids IH]; intros r Hok Hno.
  - exists r. split; [done|]. pose proof (ring_size _ _ Hok). case_decide; [done|]. lia.
  - destruct (rememberInternal_ok _ r id l Hok) as (r' & Hr & Hok'). cbn [remember_all].
    unfold Remember. rewrite Hr. cbn [rbind]. apply IH; [done|].
    unfold rememberInternal in Hr. case_match; simplify_eq/=. case_match; set_solver.
Qed.

(** An id that is not in the ring's array, once remembered with result [v], is still found
    with that result after any fewer than [capacity] later ids, and none of these calls panics:
    this is the window in which a retransmitted clip is recognised. *)
Theorem ring_retains capacity r id v ops :
  ring_ok capacity r -> id ∉ insertionOrder r -> (length ops < capacity)%nat ->
  Forall (fun op => op.1 <> id) ops ->
  exists r', remember_all r ((id, v) :: ops) = Ok r' /\ TryGet r' id = (v, true).
Proof.
  intros Hok Hid Hlen Hops. destruct (rememberInternal_ok capacity r id v Hok) as (r1 & Hr1 & _).
  cbn [remember_all]. unfold Remember at 1. rewrite Hr1. cbn [rbind].
  pose proof (held_start capacity r id v r1 Hok Hid Hr1) as Hheld.
  destruct (held_run capacity id v _ ops 1 r1 Hheld) as (r' & -> & _ & Hget); [lia|lia|done|].
  exists r'. split; [done|]. unfold TryGet. by rewrite Hget.
Qed.

Lemma ring_retains_witness :
  exists r', remember_all (mkRing ∅ [[]; []] 0) [("a", None); ("b", None)] = Ok r' /\
             TryGet r' "a" = (None, true).
Proof.
  apply (ring_retains 2).
  - split; [reflexivity|simpl; lia|]. simpl. set_solver.
  - apply (bool_decide_unpack _). vm_compute. exact I.
  - simpl; lia.
  - repeat constructor. discriminate.
Defined.

(** An id remembered twice keeps its first slot, so a later id evicts it early: one other
    id is enough in a ring of two. *)
Example remembered_twice_evicted_early :
  match remember_all (mkRing ∅ [[]; []] 0) [("a", None); ("a", None); ("b", None)] with
  | Ok r => TryGet r "a" = (None, false)
  | Err _ => False
  end.
Proof. vm_compute. reflexivity. Qed.
