(* ===== verification/Limiter.v ===== *)
(** * The login rate limiter (internal/core/limiter.go)

    One sliding one-minute window per address and per user name. The channel lock makes
    each exported operation atomic. *)
From S2P Require Import Prelude GoLib Config GoTime.

(** [windows]: key to the times consumed, oldest first. *)
Abbreviation Limiter := (gmap str (list Time)).

Definition NewLimiter : Limiter := ∅.

(** The loop that drops the leading times not after the cutoff. *)
Fixpoint drop_expired (cutoff : Time) (times : list Time) : list Time :=
  match times with
  | t :: times' => if negb (After t cutoff) then drop_expired cutoff times' else times
  | [] => []
  end.

(** Every window is trimmed and the empty ones are deleted; the iteration order of the Go
    map does not matter. *)
Definition removeExpiredLocked (l : Limiter) (cutoff : Time) : Limiter :=
  omap (fun times => match drop_expired cutoff times with [] => None | ts => Some ts end) l.

(** The part of [tryConsume] after the window [w] was found or created. *)
Definition consume_window (l : Limiter) (key : str) (w : list Time) (limit : Z) (now cutoff : Time)
  : bool * Limiter :=
  let w := drop_expired cutoff w in
  if limit <=? len w then (false, <[key := w]> l)
  else (true, <[key := w ++ [now]]> l).

Definition tryConsume (l : Limiter) (key : str) (limit : Z) (now : Time) (maxKeys : Z)
  (allowNewKey : bool) : bool * Limiter :=
  let cutoff := Add now (- Minute) in
  match l !! key with
  | Some w => consume_window l key w limit now cutoff
  | None =>
      if negb allowNewKey || (maxKeys <=? Z.of_nat (size l)) then
        let l' := removeExpiredLocked l cutoff in
        if maxKeys <=? Z.of_nat (size l') then (false, l')
        else consume_window l' key [] limit now cutoff
      else consume_window l key [] limit now cutoff
  end.

Definition ip_key (ip : str) : str := "ip:" ++ ip.
Definition user_key (username : str) : str := "user:" ++ username.

Definition TryConsumeLoginLimit (l : Limiter) (ip username : str) (now : Time) (cfg : RuntimeConfig)
  : bool * Limiter :=
  let l0 := removeExpiredLocked l (Add now (- Minute)) in
  let '(ipAllowed, l1) :=
    tryConsume l0 (ip_key ip) (LoginIpPerMinute (RateLimit cfg)) now (MaxKeys (RateLimit cfg)) true in
  if negb ipAllowed then (false, l1)
  else
    let '(userAllowed, l2) :=
      tryConsume l1 (user_key username) (LoginUserPerMinute (RateLimit cfg)) now
        (MaxKeys (RateLimit cfg)) true in
    (ipAllowed && userAllowed, l2).

Definition ResetUserWindow (l : Limiter) (username : str) : Limiter := delete (user_key username) l.

Definition GetWindowCount (l : Limiter) (key : str) : Z :=
  match l !! key with Some w => len w | None => 0 end.

Definition HasWindowKey (l : Limiter) (key : str) : bool := bool_decide (is_Some (l !! key)).

Definition RemoveExpiredForTest (l : Limiter) (cutoff : Time) : Limiter := removeExpiredLocked l cutoff.

Definition EnqueueForTest (l : Limiter) (key : str) (timestamp : Time) : Limiter :=
  <[key := default [] (l !! key) ++ [timestamp]]> l.

(** ** Runs *)

(** What a login endpoint does with the limiter. *)
Inductive LimiterEvent :=
| Attempt (ip username : str) (now : Time)
| Reset (username : str).

(** An attempt and its answer. *)
Record Answer := { ans_ip : str; ans_user : str; ans_time : Time; ans_admitted : bool }.

Fixpoint run (cfg : RuntimeConfig) (l : Limiter) (es : list LimiterEvent) : list Answer * Limiter :=
  match es with
  | [] => ([], l)
  | Attempt ip u now :: es' =>
      let '(ok, l1) := TryConsumeLoginLimit l ip u now cfg in
      let '(out, l2) := run cfg l1 es' in
      ({| ans_ip := ip; ans_user := u; ans_time := now; ans_admitted := ok |} :: out, l2)
  | Reset u :: es' => run cfg (ResetUserWindow l u) es'
  end.

(** The clock of the attempts does not go back. *)
Fixpoint clock_from (start : Z) (es : list LimiterEvent) : Prop :=
  match es with
  | [] => True
  | Attempt _ _ now :: es' => start <= ns now /\ clock_from (ns now) es'
  | Reset _ :: es' => clock_from start es'
  end.

(** The attempts of address [ip] admitted in the minute that ends at [t]. *)
Definition in_minute (t : Z) (now : Time) : bool := (t - Minute <? ns now) && (ns now <=? t).
Definition admitted_ip (ip : str) (t : Z) (a : Answer) : bool :=
  streq (ans_ip a) ip && ans_admitted a && in_minute t (ans_time a).

(** ** Lemmas: one key *)

(** [hist] are all the times consumed for a key, [w] those still in its window: the others
    had expired by [now], and no minute holds more than [limit] of them. *)
Record window_inv (limit now : Z) (hist w : list Time) : Prop := {
  wi_split : exists old, hist = old ++ w /\ Forall (fun t => ns t <= now - Minute) old;
  wi_past : Forall (fun t => ns t <= now) hist;
  wi_len : len w <= limit;
  wi_count : forall t, count (in_minute t) hist <= limit }.

Lemma drop_expired_suffix cutoff w :
  exists old, w = old ++ drop_expired cutoff w /\ Forall (fun t => ns t <= ns cutoff) old.
Proof.
  induction w as [|t w (old & Hw & Hold)]; [by exists []|]. simpl. unfold After.
  destruct (Z.ltb_spec (ns cutoff) (ns t)); simpl.
  - exists []. by split.
  - exists (t :: old). split; [by rewrite Hw at 1|by constructor].
Qed.

Lemma window_inv_empty limit now : 0 <= limit -> window_inv limit now [] [].
Proof. intros. split; [by exists []|constructor|done|done]. Qed.

(** Time passes, and expired times are dropped. *)
Lemma window_inv_drop limit now now' hist w : window_inv limit now hist w -> now <= ns now' ->
  window_inv limit (ns now') hist (drop_expired (Add now' (- Minute)) w).
Proof.
  intros [(old & Hh & Hold) Hp Hl Hc] Hnow.
  destruct (drop_expired_suffix (Add now' (- Minute)) w) as (old' & Hw & Hold').
  split; [| | |done].
  - exists (old ++ old'). rewrite <- app_assoc, <- Hw. split; [done|]. apply Forall_app. split.
    + eapply Forall_impl; [|exact Hold]. simpl. lia.
    + eapply Forall_impl; [|exact Hold']. unfold Add. simpl. lia.
  - eapply Forall_impl; [|exact Hp]. simpl. lia.
  - rewrite Hw, len_app in Hl. pose proof (len_nonneg old'). lia.
Qed.

(** A time is consumed. *)
Lemma window_inv_push limit now hist w : window_inv limit (ns now) hist w -> len w < limit ->
  window_inv limit (ns now) (hist ++ [now]) (w ++ [now]).
Proof.
  intros [(old & Hh & Hold) Hp Hl Hc] Hlt. split.
  - exists old. by rewrite Hh, app_assoc.
  - apply Forall_app. split; [done|]. repeat constructor. lia.
  - rewrite len_app, len_cons, len_nil. lia.
  - intros t. rewrite count_app. destruct (Z.le_gt_cases (ns now) t).
    + rewrite Hh, count_app, (count_zero _ old); last first.
      { eapply Forall_impl; [|exact Hold]. unfold in_minute. simpl. intros x Hx.
        apply andb_false_iff. left. apply Z.ltb_ge. lia. }
      pose proof (count_le_len (in_minute t) w). pose proof (count_le_len (in_minute t) [now]) as H1.
      rewrite len_cons, len_nil in H1. lia.
    + rewrite (count_zero _ [now]); [specialize (Hc t); lia|].
      repeat constructor. unfold in_minute. apply andb_false_iff. right. apply Z.leb_gt. lia.
Qed.

Lemma window_inv_later limit now now' hist w :
  window_inv limit now hist w -> now <= now' -> window_inv limit now' hist w.
Proof.
  intros [(old & Hh & Hold) Hp Hl Hc] Hn. split; [|by eapply Forall_impl; [|exact Hp]; simpl; lia|done|done].
  exists old. split; [done|]. eapply Forall_impl; [|exact Hold]. simpl. lia.
Qed.

(** ** Lemmas: the map of windows *)

Definition window_of (l : Limiter) (key : str) : list Time := default [] (l !! key).

Lemma removeExpired_window l cutoff key :
  window_of (removeExpiredLocked l cutoff) key = drop_expired cutoff (window_of l key).
Proof.
  unfold window_of, removeExpiredLocked. rewrite lookup_omap.
  destruct (l !! key) as [w|]; [|done]. simpl. by destruct (drop_expired cutoff w).
Qed.

Lemma removeExpired_size l cutoff : (size (removeExpiredLocked l cutoff) <= size l)%nat.
Proof.
  rewrite <- !size_dom. apply subseteq_size. unfold removeExpiredLocked. apply dom_omap_subseteq.
Qed.

Lemma window_of_insert l key w key' :
  window_of (<[key := w]> l) key' = if decide (key = key') then w else window_of l key'.
Proof.
  unfold window_of. case_decide as E; [subst; by rewrite lookup_insert_eq|by rewrite lookup_insert_ne].
Qed.

Lemma consume_window_size l key w limit now cutoff b l' :
  consume_window l key w limit now cutoff = (b, l') ->
  (size l' <= if decide (is_Some (l !! key)) then size l else S (size l))%nat.
Proof.
  unfold consume_window. intros H.
  assert (exists w', l' = <[key := w']> l) as [w' ->] by (case_match; simplify_eq; eauto).
  case_decide as E; [by rewrite map_size_insert_Some|].
  by rewrite map_size_insert_None by by apply eq_None_not_Some.
Qed.

Section One_key.
Context (L : Z) (K : str).

(** What one call of [tryConsume] on [key] adds to the history of [K]. *)
Definition consumed (b : bool) (key : str) (now : Time) : list Time :=
  if b && streq key K then [now] else [].

Lemma consume_window_inv l key limit now n0 hist b l' :
  (key = K -> limit = L) -> n0 <= ns now ->
  window_inv L n0 hist (window_of l K) ->
  consume_window l key (window_of l key) limit now (Add now (- Minute)) = (b, l') ->
  window_inv L (ns now) (hist ++ consumed b key now) (window_of l' K).
Proof.
  intros HL Hn Hinv H. unfold consume_window in H.
  destruct (Z.leb_spec limit (len (drop_expired (Add now (- Minute)) (window_of l key))));
    simplify_eq; rewrite window_of_insert; unfold consumed; cbn [andb].
  - rewrite app_nil_r. case_decide; subst.
    + by eapply window_inv_drop.
    + by eapply window_inv_later.
  - destruct (streq_spec key K) as [->|]; [rewrite decide_True by done|rewrite decide_False by done].
    + apply window_inv_push; [by eapply window_inv_drop|]. by rewrite <- HL.
    + rewrite app_nil_r. by eapply window_inv_later.
Qed.

Lemma tryConsume_inv l key limit now maxKeys allow n0 hist b l' :
  (key = K -> limit = L) -> n0 <= ns now ->
  window_inv L n0 hist (window_of l K) ->
  tryConsume l key limit now maxKeys allow = (b, l') ->
  window_inv L (ns now) (hist ++ consumed b key now) (window_of l' K).
Proof.
  intros HL Hn Hinv H. unfold tryConsume in H.
  set (l1 := removeExpiredLocked l (Add now (- Minute))) in *.
  assert (Hinv1 : window_inv L (ns now) hist (window_of l1 K)).
  { unfold l1. rewrite removeExpired_window. by eapply window_inv_drop. }
  destruct (l !! key) as [w|] eqn:E.
  - replace w with (window_of l key) in H by (unfold window_of; by rewrite E).
    by eapply consume_window_inv.
  - assert (Hw : window_of l key = []) by (unfold window_of; by rewrite E).
    assert (Hw1 : window_of l1 key = []) by (unfold l1; by rewrite removeExpired_window, Hw).
    destruct (_ || _); [destruct (maxKeys <=? Z.of_nat (size l1))|].
    + simplify_eq. unfold consumed. cbn [andb]. by rewrite app_nil_r.
    + rewrite <- Hw1 in H. eapply consume_window_inv; [done| |exact Hinv1|done]. lia.
    + rewrite <- Hw in H. by eapply consume_window_inv.
Qed.
End One_key.

Lemma tryConsume_size l key limit now maxKeys b l' :
  Z.of_nat (size l) <= maxKeys -> tryConsume l key limit now maxKeys true = (b, l') ->
  Z.of_nat (size l') <= maxKeys.
Proof.
  intros Hs. unfold tryConsume. cbn [negb orb].
  set (l1 := removeExpiredLocked l (Add now (- Minute))).
  assert (Hl1 : (size l1 <= size l)%nat) by apply removeExpired_size.
  destruct (l !! key) as [w|] eqn:E; [|destruct (Z.leb_spec maxKeys (Z.of_nat (size l)));
    [destruct (Z.leb_spec maxKeys (Z.of_nat (size l1)))|]].
  - intros H%consume_window_size. rewrite decide_True in H by eauto. lia.
  - intros. simplify_eq. lia.
  - intros H'%consume_window_size. case_decide; lia.
  - intros H'%consume_window_size. case_decide; lia.
Qed.

Lemma ip_user_keys ip u : ip_key ip <> user_key u.
Proof. discriminate. Qed.

Lemma ip_key_inj ip ip' : ip_key ip = ip_key ip' -> ip = ip'.
Proof. unfold ip_key, lit. simpl. congruence. Qed.

Lemma TryConsume_size l ip u now cfg b l' :
  Z.of_nat (size l) <= MaxKeys (RateLimit cfg) -> TryConsumeLoginLimit l ip u now cfg = (b, l') ->
  Z.of_nat (size l') <= MaxKeys (RateLimit cfg).
Proof.
  intros Hs. unfold TryConsumeLoginLimit.
  pose proof (removeExpired_size l (Add now (- Minute))) as H0.
  destruct (tryConsume _ (ip_key ip) _ _ _ _) as [ok l1] eqn:E1.
  apply tryConsume_size in E1; [|lia]. destruct ok; cbn [negb]; [|intros; by simplify_eq].
  destruct (tryConsume l1 _ _ _ _ _) as [ok2 l2] eqn:E2. apply tryConsume_size in E2; [|lia].
  intros. by simplify_eq.
Qed.

(** One attempt, seen from the window of address [ip]. *)
Lemma TryConsume_ip_inv cfg ip l ip' u now n0 hist b l' :
  n0 <= ns now -> window_inv (LoginIpPerMinute (RateLimit cfg)) n0 hist (window_of l (ip_key ip)) ->
  TryConsumeLoginLimit l ip' u now cfg = (b, l') ->
  exists ext, window_inv (LoginIpPerMinute (RateLimit cfg)) (ns now) (hist ++ ext) (window_of l' (ip_key ip)) /\
    (b = true -> ip' = ip -> ext = [now]).
Proof.
  intros Hn Hinv. unfold TryConsumeLoginLimit.
  set (l0 := removeExpiredLocked l _).
  assert (H0 : window_inv (LoginIpPerMinute (RateLimit cfg)) (ns now) hist (window_of l0 (ip_key ip))).
  { unfold l0. rewrite removeExpired_window. by eapply window_inv_drop. }
  destruct (tryConsume l0 (ip_key ip') _ _ _ _) as [ok l1] eqn:E1.
  eapply (tryConsume_inv (LoginIpPerMinute (RateLimit cfg)) (ip_key ip)) in E1;
    [|done|reflexivity|exact H0].
  destruct ok; cbn [negb]; [|intros; simplify_eq; eexists; split; [exact E1|done]].
  destruct (tryConsume l1 _ _ _ _ _) as [ok2 l2] eqn:E2.
  eapply (tryConsume_inv (LoginIpPerMinute (RateLimit cfg)) (ip_key ip)) in E2;
    [|intros H; by symmetry in H; apply ip_user_keys in H|reflexivity|exact E1].
  intros; simplify_eq. unfold consumed at 2 in E2.
  assert (streq (user_key u) (ip_key ip) = false) as Hne by reflexivity.
  rewrite Hne, andb_false_r, app_nil_r in E2. eexists. split; [exact E2|].
  intros _ ->. unfold consumed. by rewrite streq_refl.
Qed.

Lemma run_ip_count cfg ip t es : forall l n0 hist out l',
  clock_from n0 es ->
  window_inv (LoginIpPerMinute (RateLimit cfg)) n0 hist (window_of l (ip_key ip)) ->
  run cfg l es = (out, l') ->
  count (in_minute t) hist + count (admitted_ip ip t) out <= LoginIpPerMinute (RateLimit cfg).
Proof.
  induction es as [|[ip' u now|u] es IH]; intros l n0 hist out l' Hc Hinv Hrun; cbn [run clock_from] in *.
  - simplify_eq. cbn [count]. pose proof (wi_count _ _ _ _ Hinv t). lia.
  - destruct Hc as [Hn Hc]. destruct (TryConsumeLoginLimit l ip' u now cfg) as [b l1] eqn:E.
    destruct (run cfg l1 es) as [out1 l2] eqn:E1. simplify_eq.
    destruct (TryConsume_ip_inv cfg ip l ip' u now n0 hist b l1 Hn Hinv E) as (ext & Hinv1 & Hext).
    specialize (IH _ _ _ _ _ Hc Hinv1 E1). rewrite count_app in IH. cbn [count].
    pose proof (count_nonneg (in_minute t) ext). unfold admitted_ip at 1. simpl.
    destruct (streq_spec ip' ip), b; cbn [andb]; try lia.
    rewrite Hext in IH by done. cbn [count] in IH. destruct (in_minute t now); lia.
  - eapply IH; [exact Hc| |exact Hrun]. unfold window_of, ResetUserWindow.
    rewrite lookup_delete_ne; [exact Hinv|]. intros H. symmetry in H. by apply ip_user_keys in H.
Qed.

(** ** Properties *)

(** The limiter never holds more than [MaxKeys] windows, whatever is attempted. *)
Lemma run_size cfg es : forall l out l',
  Z.of_nat (size l) <= MaxKeys (RateLimit cfg) -> run cfg l es = (out, l') ->
  Z.of_nat (size l') <= MaxKeys (RateLimit cfg).
Proof.
  induction es as [|[ip u now|u] es IH]; intros l out l' Hs Hrun; cbn [run] in Hrun.
  - by simplify_eq.
  - destruct (TryConsumeLoginLimit l ip u now cfg) as [b l1] eqn:E.
    destruct (run cfg l1 es) as [out1 l2] eqn:E1. simplify_eq.
    eapply IH; [|exact E1]. by eapply TryConsume_size.
  - eapply IH; [|exact Hrun]. unfold ResetUserWindow.
    assert (size (delete (user_key u) l) <= size l)%nat; [|lia].
    rewrite <- !size_dom. apply subseteq_size. set_solver.
Qed.

(** C37: From an empty limiter, in any minute at most [LoginIpPerMinute] login attempts of one
    address are admitted, whatever the interleaving of attempts of all addresses and of window
    resets, as long as the clock does not go back; and the limiter never holds more than [MaxKeys] windows. *)
Theorem limiter_sliding_window cfg ip t es start out l' :
  0 <= LoginIpPerMinute (RateLimit cfg) -> 0 <= MaxKeys (RateLimit cfg) -> clock_from start es ->
  run cfg NewLimiter es = (out, l') ->
  count (admitted_ip ip t) out <= LoginIpPerMinute (RateLimit cfg) /\
  Z.of_nat (size l') <= MaxKeys (RateLimit cfg).
Proof.
  intros HL HM Hc Hrun. split; [|by eapply run_size; [|exact Hrun]].
  pose proof (run_ip_count cfg ip t es NewLimiter start [] out l' Hc) as H. cbn [count] in H.
  apply H; [|done]. apply window_inv_empty. done.
Qed.

Definition sample_attempts : list LimiterEvent :=
  replicate 12 (Attempt "10.0.0.1" "ann" (utc 0)).

Lemma limiter_sliding_window_witness :
  count (admitted_ip "10.0.0.1" 0) (run Defaults NewLimiter sample_attempts).1 <= 10 /\
  Z.of_nat (size (run Defaults NewLimiter sample_attempts).2) <= 10000.
Proof.
  apply (limiter_sliding_window Defaults "10.0.0.1" 0 sample_attempts 0 _
           (run Defaults NewLimiter sample_attempts).2); [done|done| |apply surjective_pairing].
  repeat split; simpl; lia.
Defined.
