(* ===== verification/Bucket.v ===== *)
(** * The clip token bucket (internal/core/bucket.go)

    Token counts are IEEE binary64 numbers, computed with the Standard Library's
    executable [SpecFloat] (round to nearest even, every operation rounded). *)
From Stdlib Require Import Floats.SpecFloat.
From S2P Require Import Prelude GoLib GoTime Logic.

(** ** Binary64 *)

Definition float64 (n : Z) : spec_float := binary_normalize 53 1024 n 0 false.
Definition fadd : spec_float -> spec_float -> spec_float := SFadd 53 1024.
Definition fsub : spec_float -> spec_float -> spec_float := SFsub 53 1024.
Definition fmul : spec_float -> spec_float -> spec_float := SFmul 53 1024.
Definition fdiv : spec_float -> spec_float -> spec_float := SFdiv 53 1024.

(** [math.Min]. *)
Definition Min (x y : spec_float) : spec_float :=
  match x, y with
  | S754_infinity true, _ | _, S754_infinity true => S754_infinity true
  | S754_nan, _ | _, S754_nan => S754_nan
  | S754_zero true, S754_zero _ => x
  | S754_zero false, S754_zero _ => y
  | _, _ => if SFltb x y then x else y
  end.

(** [time.Duration.Seconds]. *)
Definition Seconds (d : Z) : spec_float :=
  fadd (float64 (Z.quot d Second)) (fdiv (float64 (Z.rem d Second)) (float64 Second)).

(** ** The bucket *)

Record Bucket := mkBucket {
  tokens : spec_float; lastRefill : Time; bucket_capacity : Z; tokensPerSecond : spec_float }.

Definition NewBucket (burst : Z) (tokensPerSecond : spec_float) (now : Time) : panics Bucket :=
  if burst <=? 0 then Err "burst must be positive"
  else if SFleb tokensPerSecond (float64 0) then Err "tokensPerSecond must be positive"
  else Ok (mkBucket (float64 burst) now burst tokensPerSecond).

Definition Capacity (b : Bucket) : Z := bucket_capacity b.
Definition TokensPerSecond (b : Bucket) : spec_float := tokensPerSecond b.

(** The refilled token count at [now]. *)
Definition refill (b : Bucket) (now : Time) : spec_float :=
  Min (float64 (bucket_capacity b))
      (fadd (tokens b) (fmul (Seconds (Sub now (lastRefill b))) (tokensPerSecond b))).

Definition TryAcquire (b : Bucket) (now : Time) : bool * Bucket :=
  if Before now (lastRefill b) then (false, b)
  else
    let t := refill b now in
    if SFltb t (float64 1) then (false, mkBucket t now (bucket_capacity b) (tokensPerSecond b))
    else (true, mkBucket (fsub t (float64 1)) now (bucket_capacity b) (tokensPerSecond b)).

(** [n] calls at the same instant: the answers and the bucket left. *)
Fixpoint acquire_n (n : nat) (b : Bucket) (now : Time) : list bool * Bucket :=
  match n with
  | O => ([], b)
  | S n' => let '(ok, b1) := TryAcquire b now in
            let '(out, b2) := acquire_n n' b1 now in (ok :: out, b2)
  end.

(** ** Lemmas: integers are exact *)

Lemma digits2_log2 m : Z.pos (digits2_pos m) = Z.log2 (Z.pos m) + 1.
Proof.
  induction m as [m IH|m IH|]; cbn [digits2_pos]; [| |done]; rewrite Pos2Z.inj_succ, IH.
  - change (Z.pos m~1) with (2 * Z.pos m + 1). rewrite Z.log2_succ_double by lia. lia.
  - change (Z.pos m~0) with (2 * Z.pos m). rewrite Z.log2_double by lia. lia.
Qed.

Lemma iter_xO m d : Z.pos (Pos.iter xO m d) = Z.pos m * 2 ^ Z.pos d.
Proof.
  induction d as [|d IH] using Pos.peano_ind.
  - simpl. lia.
  - rewrite Pos.iter_succ, Pos2Z.inj_succ, Z.pow_succ_r by lia.
    change (Z.pos (Pos.iter xO m d)~0) with (2 * Z.pos (Pos.iter xO m d)). lia.
Qed.

Lemma iter_pos_shr p : forall n, 0 <= n ->
  SpecFloat.iter_pos shr_1 p (Build_shr_record (n * 2 ^ Z.pos p) false false) = Build_shr_record n false false.
Proof.
  assert (Hone : forall n, 0 <= n ->
    shr_1 (Build_shr_record (n * 2) false false) = Build_shr_record n false false).
  { intros [|q|q] H; try lia; [done|]. replace (Z.pos q * 2) with (Z.pos q~0) by lia. done. }
  induction p as [p IH|p IH|]; intros n Hn; cbn [SpecFloat.iter_pos].
  - replace (n * 2 ^ Z.pos p~1) with (n * 2 ^ Z.pos p * 2 ^ Z.pos p * 2).
    + rewrite Hone, IH, IH; try done; nia.
    + replace (Z.pos p~1) with (Z.pos p + Z.pos p + 1) by lia.
      rewrite !Z.pow_add_r by lia. lia.
  - replace (n * 2 ^ Z.pos p~0) with (n * 2 ^ Z.pos p * 2 ^ Z.pos p).
    + rewrite IH, IH; try done; nia.
    + replace (Z.pos p~0) with (Z.pos p + Z.pos p) by lia. rewrite !Z.pow_add_r by lia. lia.
  - by apply Hone.
Qed.

(** The significand and exponent of an integer of at most 53 bits. *)
Definition sig (n : Z) : positive := Z.to_pos (n * 2 ^ (52 - Z.log2 n)).

Lemma log2_53 n : 0 < n < 2 ^ 53 -> 0 <= Z.log2 n <= 52.
Proof.
  intros H. pose proof (Z.log2_nonneg n). pose proof (Z.log2_lt_pow2 n 53). lia.
Qed.

Lemma sig_pos n : 0 < n < 2 ^ 53 -> Z.pos (sig n) = n * 2 ^ (52 - Z.log2 n).
Proof. intros H. pose proof (log2_53 n H). unfold sig. rewrite Z2Pos.id; [done|]. nia. Qed.

Lemma sig_digits n : 0 < n < 2 ^ 53 -> Zdigits2 (Z.pos (sig n)) = 53.
Proof.
  intros H. pose proof (log2_53 n H). cbn [Zdigits2]. rewrite digits2_log2, sig_pos by done.
  rewrite Z.log2_mul_pow2 by lia. lia.
Qed.

Lemma shr_fexp_sig n e l : 0 < n < 2 ^ 53 -> -1074 <= e ->
  shr_fexp 53 1024 (Z.pos (sig n)) e l = (shr_record_of_loc (Z.pos (sig n)) l, e).
Proof.
  intros H He. unfold shr_fexp. rewrite sig_digits by done. unfold fexp, emin.
  replace (Z.max (53 + e - 53) (3 - 1024 - 53) - e) with 0 by lia. done.
Qed.

(** Rounding an exact multiple keeps the value. *)
Lemma round_aux_exact m e n : 0 < n < 2 ^ 53 -> Z.log2 n - 52 >= e -> -1074 <= e ->
  m = Z.pos (sig n) * 2 ^ (Z.log2 n - 52 - e) ->
  binary_round_aux 53 1024 false m e loc_Exact = S754_finite false (sig n) (Z.log2 n - 52).
Proof.
  intros H He Hmin Hm. pose proof (log2_53 n H) as Hlog. unfold binary_round_aux.
  assert (Hstep : shr_fexp 53 1024 m e loc_Exact =
    (Build_shr_record (Z.pos (sig n)) false false, Z.log2 n - 52)).
  { destruct (Z.eq_dec e (Z.log2 n - 52)) as [->|Hne].
    - rewrite Z.sub_diag, Z.mul_1_r in Hm. subst m. by rewrite shr_fexp_sig.
    - unfold shr_fexp. set (k := Z.log2 n - 52 - e) in *.
      assert (Hd : Zdigits2 m = 53 + k).
      { pose proof (sig_digits n H) as Hs. cbn [Zdigits2] in Hs. rewrite digits2_log2 in Hs.
        assert (0 < m) by (subst m; nia). destruct m as [|q|q]; try lia.
        cbn [Zdigits2]. rewrite digits2_log2, Hm, Z.log2_mul_pow2 by lia. lia. }
      rewrite Hd. unfold fexp, emin.
      replace (Z.max (53 + k + e - 53) (3 - 1024 - 53) - e) with k by lia.
      destruct k as [|p|p] eqn:Ek; try lia. unfold shr. cbn [shr_record_of_loc].
      rewrite Hm, iter_pos_shr by lia. f_equal. lia. }
  rewrite Hstep. cbn [shr_m loc_of_shr_record round_nearest_even].
  rewrite shr_fexp_sig by (done || lia). cbn [shr_record_of_loc shr_m].
  rewrite (proj2 (Z.leb_le _ _)) by lia. done.
Qed.

Lemma normalize_exact n k : 0 < n < 2 ^ 53 -> 0 <= k <= 52 ->
  binary_normalize 53 1024 (n * 2 ^ k) (- k) false = S754_finite false (sig n) (Z.log2 n - 52).
Proof.
  intros H Hk. pose proof (log2_53 n H) as Hlog.
  assert (Hpos : 0 < n * 2 ^ k) by nia. destruct (n * 2 ^ k) as [|m|m] eqn:Em; try lia.
  cbn [binary_normalize]. unfold binary_round, shl_align.
  assert (Hd : Z.pos (digits2_pos m) = Z.log2 n + 1 + k).
  { rewrite digits2_log2, <- Em, Z.log2_mul_pow2 by lia. lia. }
  rewrite Hd. unfold fexp, emin.
  replace (Z.max (Z.log2 n + 1 + k + - k - 53) (3 - 1024 - 53)) with (Z.log2 n - 52) by lia.
  destruct (Z.log2 n - 52 - - k) as [|p|p] eqn:E.
  - apply round_aux_exact; try lia. rewrite sig_pos by done. rewrite <- Em.
    replace (52 - Z.log2 n) with k by lia. replace (Z.log2 n - 52 - - k) with 0 by lia. lia.
  - apply round_aux_exact; try lia. rewrite sig_pos by done. rewrite <- Em, <- Z.mul_assoc, <- Z.pow_add_r by lia.
    do 2 f_equal. lia.
  - apply round_aux_exact; try lia. rewrite sig_pos by done. rewrite iter_xO, <- Em.
    rewrite <- !Z.mul_assoc, <- !Z.pow_add_r by lia. do 2 f_equal. lia.
Qed.

Lemma float64_exact n : 0 < n < 2 ^ 53 -> float64 n = S754_finite false (sig n) (Z.log2 n - 52).
Proof. intros H. rewrite <- (normalize_exact n 0) by lia. unfold float64. f_equal; lia. Qed.

Lemma float64_compare a b : 0 < a < 2 ^ 53 -> 0 < b < 2 ^ 53 ->
  SFcompare (float64 a) (float64 b) = Some (a ?= b).
Proof.
  intros Ha Hb. rewrite !float64_exact by done. cbn [SFcompare]. f_equal.
  pose proof (log2_53 a Ha). pose proof (log2_53 b Hb).
  destruct (Z.compare_spec (Z.log2 a - 52) (Z.log2 b - 52)) as [E|E|E].
  - change (Pos.compare (sig a) (sig b) = (a ?= b)). change (Z.pos (sig a) ?= Z.pos (sig b) = (a ?= b))%Z.
    rewrite !sig_pos by done. replace (Z.log2 b) with (Z.log2 a) by lia.
    rewrite (Z.mul_comm a), (Z.mul_comm b). symmetry. apply Zmult_compare_compat_l. lia.
  - symmetry. apply Z.compare_lt_iff. apply Z.log2_lt_cancel. lia.
  - symmetry. apply Z.compare_gt_iff. apply Z.log2_lt_cancel. lia.
Qed.

Lemma float64_ltb a b : 0 < a < 2 ^ 53 -> 0 < b < 2 ^ 53 -> SFltb (float64 a) (float64 b) = (a <? b).
Proof. intros. unfold SFltb. rewrite float64_compare by done. unfold Z.ltb. by destruct (a ?= b). Qed.

Lemma Min_float64 c k : 0 <= k <= c -> 0 < c < 2 ^ 53 -> Min (float64 c) (float64 k) = float64 k.
Proof.
  intros Hk Hc. pose proof (float64_exact c Hc) as Ec. destruct (Z.eq_dec k 0) as [->|].
  { rewrite Ec. done. }
  pose proof (float64_exact k ltac:(lia)) as Ek. pose proof (float64_ltb c k ltac:(lia) ltac:(lia)) as Hlt.
  rewrite Ec, Ek in *. unfold Min. rewrite Hlt. by rewrite (proj2 (Z.ltb_ge _ _)) by lia.
Qed.

(** One whole token is taken exactly. *)
Lemma fsub_one n : 1 <= n < 2 ^ 53 -> fsub (float64 n) (float64 1) = float64 (n - 1).
Proof.
  intros Hn. pose proof (log2_53 n ltac:(lia)) as Hlog.
  destruct (Z.eq_dec n 1) as [->|Hne]; [by vm_compute|].
  rewrite (float64_exact (n - 1)), <- (normalize_exact (n - 1) 52) by lia.
  rewrite (float64_exact n), (float64_exact 1) by lia. unfold fsub, SFsub.
  replace (Z.min (Z.log2 n - 52) (Z.log2 1 - 52)) with (- (52)) by (change (Z.log2 1) with 0; lia).
  cbn [cond_Zopp]. f_equal.
  change (Z.pos (shl_align (sig 1) (Z.log2 1 - 52) (- (52))).1) with (2 ^ 52).
  enough (E : Z.pos (shl_align (sig n) (Z.log2 n - 52) (- (52))).1 = n * 2 ^ 52) by (rewrite E; lia).
  unfold shl_align. destruct (- (52) - (Z.log2 n - 52)) as [|p|p] eqn:E; cbn [fst]; try lia.
  - rewrite sig_pos by lia. do 2 f_equal. lia.
  - rewrite iter_xO, sig_pos, <- Z.mul_assoc, <- Z.pow_add_r by lia. do 2 f_equal. lia.
Qed.

Lemma fadd_zero k s : 0 <= k < 2 ^ 53 -> s = false \/ 0 < k -> fadd (float64 k) (S754_zero s) = float64 k.
Proof.
  intros Hk Hs. destruct (Z.eq_dec k 0) as [->|]; [destruct Hs as [->|]; [done|lia]|].
  rewrite float64_exact by lia. done.
Qed.

(** No time passes: the refill leaves a whole number of tokens as it is. *)
Lemma refill_now c k now rate : 0 <= k <= c -> 0 < c < 2 ^ 53 -> 0 < rate < 2 ^ 53 ->
  refill (mkBucket (float64 k) now c (float64 rate)) now = float64 k.
Proof.
  intros Hk Hc Hr. unfold refill. cbn [bucket_capacity tokens lastRefill tokensPerSecond].
  replace (Sub now now) with 0 by (unfold Sub; rewrite Z.sub_diag; done).
  change (Seconds 0) with (S754_zero false). rewrite (float64_exact rate) by done.
  change (fmul (S754_zero false) _) with (S754_zero false).
  rewrite fadd_zero by (auto with lia). apply Min_float64; lia.
Qed.

Lemma TryAcquire_now c k now rate : 0 <= k <= c -> 0 < c < 2 ^ 53 -> 0 < rate < 2 ^ 53 ->
  TryAcquire (mkBucket (float64 k) now c (float64 rate)) now =
  if 0 <? k then (true, mkBucket (float64 (k - 1)) now c (float64 rate))
  else (false, mkBucket (float64 k) now c (float64 rate)).
Proof.
  intros Hk Hc Hr. unfold TryAcquire, Before. cbn [lastRefill]. rewrite Z.ltb_irrefl.
  rewrite refill_now by done. cbn [bucket_capacity tokensPerSecond].
  destruct (Z.ltb_spec 0 k).
  - rewrite float64_ltb by lia. rewrite (proj2 (Z.ltb_ge _ _)) by lia. by rewrite fsub_one by lia.
  - replace k with 0 by lia. done.
Qed.

Lemma acquire_n_now n : forall c k now rate, 0 <= k <= c -> 0 < c < 2 ^ 53 -> 0 < rate < 2 ^ 53 ->
  (acquire_n n (mkBucket (float64 k) now c (float64 rate)) now).1 =
  replicate (n `min` Z.to_nat k) true ++ replicate (n - Z.to_nat k) false.
Proof.
  induction n as [|n IH]; intros c k now rate Hk Hc Hr; [done|]. cbn [acquire_n].
  rewrite TryAcquire_now by done. destruct (Z.ltb_spec 0 k).
  - destruct (acquire_n n _ now) as [out b] eqn:E. cbn [fst].
    specialize (IH c (k - 1) now rate ltac:(lia) Hc Hr). rewrite E in IH. cbn [fst] in IH. rewrite IH.
    replace (Z.to_nat k) with (S (Z.to_nat (k - 1))) by lia. done.
  - destruct (acquire_n n _ now) as [out b] eqn:E. cbn [fst].
    specialize (IH c k now rate Hk Hc Hr). rewrite E in IH. cbn [fst] in IH. rewrite IH.
    replace (Z.to_nat k) with 0%nat by lia. rewrite Nat.min_0_r, Nat.sub_0_r. done.
Qed.

Lemma NewBucket_total burst rate now : 0 < burst -> 0 < rate < 2 ^ 53 ->
  exists b, NewBucket burst (float64 rate) now = Ok b.
Proof.
  intros Hb Hr. unfold NewBucket. rewrite (proj2 (Z.leb_gt _ _)) by done. rewrite (float64_exact rate) by done.
  by eexists.
Qed.

(** ** Properties *)

(** C38: A fresh bucket grants exactly [burst] of [n] calls made at one instant, the first
    ones, for every burst and rate below 2^53: the binary64 arithmetic loses no token. *)
Theorem bucket_burst_exact burst rate now b n :
  burst < 2 ^ 53 -> 0 < rate < 2 ^ 53 ->
  NewBucket burst (float64 rate) now = Ok b ->
  (acquire_n n b now).1 =
    replicate (n `min` Z.to_nat burst) true ++ replicate (n - Z.to_nat burst) false.
Proof.
  intros Hb Hr H. unfold NewBucket in H. destruct (Z.leb_spec burst 0); [done|].
  destruct (SFleb _ _); [done|]. simplify_eq. apply acquire_n_now; lia.
Qed.

Lemma bucket_burst_exact_witness :
  (acquire_n 4 (mkBucket (float64 2) (utc 0) 2 (float64 5)) (utc 0)).1 = [true; true; false; false].
Proof. apply (bucket_burst_exact 2 5); [lia|lia|reflexivity]. Defined.
