(* ===== verification/GoJson.v ===== *)
(** * Go's [encoding/json] as the server uses it: strings

    [json.Marshal] of a string, with the HTML-safe escaping it does by default. *)
From S2P Require Import Prelude GoLib JsonScan JsonGrammar Serialize.

(** One ASCII byte of a string. *)
Definition json_ascii (c : Z) : str :=
  if (c =? 34) || (c =? 92) then [x5c; byte_of c]
  else if c =? 8 then "\b"
  else if c =? 12 then "\f"
  else if c =? 10 then "\n"
  else if c =? 13 then "\r"
  else if c =? 9 then "\t"
  else if (c <? 32) || (c =? 38) || (c =? 60) || (c =? 62) then writeHexUnit c
  else [byte_of c].

(** One rune and the number of bytes it took: a bad byte is written as an escape,
    U+2028 and U+2029 too, other runes as they are. *)
Definition json_rune (r : Z) (n : nat) : str :=
  if r <? 128 then json_ascii r
  else if (r =? RuneError) && (n =? 1)%nat then "\ufffd"
  else if (r =? 8232) || (r =? 8233) then writeHexUnit r
  else encode_rune r.

Fixpoint json_string_aux (fuel : nat) (s : str) : str :=
  match fuel, s with
  | S f, _ :: _ => let '(r, n) := DecodeRune s in json_rune r n ++ json_string_aux f (drop n s)
  | _, _ => []
  end.

(** [json.Marshal(s)]; it has no error for a string. *)
Definition MarshalString (s : str) : str := quoted (json_string_aux (length s) s).

(** ** Reading it back *)

Lemma string_text_json_ascii c s q : 0 <= c < 128 -> string_text s q ->
  string_text (encode_rune c ++ s) (json_ascii c ++ q).
Proof.
  intros Hc Hq. assert (E : encode_rune c = [byte_of c]) by (unfold encode_rune; by zcase).
  assert (Hhex : string_text (encode_rune c ++ s) (writeHexUnit c ++ q)).
  { apply string_text_hexunit; [lia| |done]. unfold IsSurrogate. zcase; done. }
  unfold json_ascii. destruct ((c =? 34) || (c =? 92)) eqn:E1.
  { apply orb_true_iff in E1. rewrite !Z.eqb_eq in E1. destruct E1 as [-> | ->];
      [exact (ST_escape x22 _ s q eq_refl Hq)|exact (ST_escape x5c _ s q eq_refl Hq)]. }
  bool_to_prop.
  repeat match goal with
  | |- context [if c =? ?n then _ else _] => destruct (Z.eqb_spec c n) as [->|];
      [first [exact (ST_escape x62 _ s q eq_refl Hq) | exact (ST_escape x66 _ s q eq_refl Hq)
             |exact (ST_escape x6e _ s q eq_refl Hq) | exact (ST_escape x72 _ s q eq_refl Hq)
             |exact (ST_escape x74 _ s q eq_refl Hq)]|]
  end.
  destruct (_ || _) eqn:E2; [exact Hhex|]. bool_to_prop. rewrite <- E.
  apply ST_rune; try done. apply is_scalar_spec. lia.
Qed.

Lemma string_text_json_rune r s q : is_scalar r = true -> string_text s q ->
  string_text (encode_rune r ++ s) (json_rune r (length (encode_rune r)) ++ q).
Proof.
  intros Hr Hq. pose proof Hr as Hr'. apply is_scalar_spec in Hr'. unfold json_rune.
  destruct (Z.ltb_spec r 128); [by apply string_text_json_ascii; [lia|]|].
  destruct ((r =? RuneError) && _) eqn:E1.
  { bool_to_prop. subst r. done. }
  destruct ((r =? 8232) || (r =? 8233)) eqn:E2.
  { apply orb_true_iff in E2. rewrite !Z.eqb_eq in E2.
    apply string_text_hexunit; [lia| |done]. by destruct E2 as [-> | ->]. }
  apply ST_rune; [done|lia|lia|lia|done].
Qed.

Lemma json_string_cons r rs f : is_scalar r = true ->
  json_string_aux (S f) (encode_rune r ++ runes_str rs) =
  json_rune r (length (encode_rune r)) ++ json_string_aux f (runes_str rs).
Proof.
  intros Hr. pose proof (decode_encode r (runes_str rs) Hr) as Hd.
  pose proof (drop_encode r (runes_str rs)) as Hdrop.
  destruct (encode_rune_cons r (runes_str rs)) as (c & k & Ec). rewrite Ec in *.
  cbn [json_string_aux]. by rewrite Hd, Hdrop.
Qed.

Lemma json_rune_Valid r n : is_scalar r = true -> Valid (json_rune r n) = true.
Proof.
  intros Hr. apply is_scalar_spec in Hr as Hr'. unfold json_rune, json_ascii.
  destruct (Z.ltb_spec r 128).
  - repeat match goal with |- context [if ?b then _ else _] => destruct b end;
      apply Valid_ascii; cbn [forallb lit]; rewrite ?bval_byte_of by lia;
      try (rewrite (proj2 (Z.ltb_lt r 128)) by lia); try done; apply writeHexUnit_ascii.
  - repeat match goal with |- context [if ?b then _ else _] => destruct b end; try done;
      [apply Valid_ascii, writeHexUnit_ascii|by apply Valid_encode_rune].
Qed.

Lemma json_string_text rs : scalars rs -> forall fuel, (length (runes_str rs) <= fuel)%nat ->
  string_text (runes_str rs) (json_string_aux fuel (runes_str rs)) /\
  Valid (json_string_aux fuel (runes_str rs)) = true.
Proof.
  induction 1 as [|r rs Hr Hrs IH]; intros fuel Hf; [destruct fuel; split; (constructor || done)|].
  rewrite length_runes_str_cons in Hf. rewrite runes_str_cons. pose proof (length_encode_rune r) as Hlen.
  destruct fuel as [|f]; [lia|]. rewrite json_string_cons by done. destruct (IH f ltac:(lia)).
  split; [by apply string_text_json_rune|]. apply Valid_app; [by apply json_rune_Valid|done].
Qed.

(** A valid UTF-8 string survives [json.Marshal], and the output is valid UTF-8. *)
Lemma MarshalString_text s : Valid s = true -> text (NString s) (MarshalString s).
Proof.
  rewrite Valid_spec. intros (rs & Hrs & ->). apply T_string. by apply json_string_text.
Qed.

Lemma MarshalString_Valid s : Valid s = true -> Valid (MarshalString s) = true.
Proof.
  rewrite (Valid_spec s). intros (rs & Hrs & ->).
  change (Valid ([x22] ++ json_string_aux (length (runes_str rs)) (runes_str rs) ++ [x22]) = true).
  apply Valid_app; [done|]. apply Valid_app; [by apply json_string_text|done].
Qed.
