(* ===== verification/Users.v ===== *)
(** * The user file (internal/users/users.go)

    Strict reading through the project's own scanner, validation, and the indented
    text that [Save] writes. The file system is outside the model: [Load] takes what
    the read returned. *)
From S2P Require Import Prelude GoLib JsonScan JsonGrammar GoJson Protocol Serialize.

Record UserRecord := {
  Username : str; PasswordHash : str; TokenVersion : Z; Disabled : bool }.

Record UsersFile := { NextTokenVersion : Z; Users : list UserRecord }.

(** ** The password hash pattern *)

Definition is_b64 (c : byte) : bool :=
  ((65 <=? bval c) && (bval c <=? 90)) || ((97 <=? bval c) && (bval c <=? 122)) || is_digit c ||
  bool_decide (c = "+"%byte) || bool_decide (c = "/"%byte) || bool_decide (c = "="%byte).

(** The longest prefix of bytes in a class, non-empty, and the rest. *)
Fixpoint span (p : byte -> bool) (s : str) : str * str :=
  match s with
  | c :: s' => if p c then let '(a, b) := span p s' in (c :: a, b) else ([], s)
  | [] => ([], [])
  end.
Definition some_of (p : byte -> bool) (s : str) : option str :=
  match span p s with ([], _) => None | (_, r) => Some r end.
Definition strip (prefix s : str) : option str :=
  if HasPrefix s prefix then Some (drop (length prefix) s) else None.

(** [argon2HashRe]: no class contains the literal that follows it, so the greedy match
    is the only one. *)
Definition argon2HashRe (s : str) : bool :=
  match
    (s ← strip "$argon2id$v=" s; s ← some_of is_digit s;
     s ← strip "$m=" s; s ← some_of is_digit s;
     s ← strip ",t=" s; s ← some_of is_digit s;
     s ← strip ",p=" s; s ← some_of is_digit s;
     s ← strip "$" s; s ← some_of is_b64 s;
     s ← strip "$" s; some_of is_b64 s)
  with Some [] => true | _ => false end.

(** ** Validation *)

Fixpoint validate_users (next : Z) (seen : list str) (us : list UserRecord) : option str :=
  match us with
  | [] => None
  | u :: us' =>
      if blank (Username u) then Some "Usernames must be non-empty and unique."
      else if bool_decide (Username u ∈ seen) then Some "Usernames must be non-empty and unique."
      else if (TokenVersion u <=? 0) || (next <=? TokenVersion u) then
        Some "User tokenVersion must be positive and less than nextTokenVersion."
      else if negb (argon2HashRe (PasswordHash u)) then
        Some ("User " ++ Username u ++ " has an invalid Argon2id hash.")
      else validate_users next (Username u :: seen) us'
  end.

(** [None] when the file is valid. *)
Definition Validate (f : UsersFile) : option str :=
  if NextTokenVersion f <=? 0 then Some "nextTokenVersion must be a positive 64-bit integer."
  else validate_users (NextTokenVersion f) [] (Users f).

Definition BuildLookup (f : UsersFile) : gmap str UserRecord :=
  foldl (fun lookup u => <[Username u := u]> lookup) ∅ (Users f).

Definition Copy (source : UsersFile) : UsersFile :=
  {| NextTokenVersion := NextTokenVersion source; Users := [] ++ Users source |}.

(** ** Reading *)

Fixpoint unique_loop (known seen : list str) (ms : list (str * Node)) : bool :=
  match ms with
  | [] => true
  | (k, _) :: ms' =>
      if negb (bool_decide (k ∈ known)) then false
      else if bool_decide (k ∈ seen) then false
      else unique_loop known (k :: seen) ms'
  end.
Definition hasUniqueProperties (element : Node) (known : list str) : bool :=
  unique_loop known [] (Members element).

Definition shape_error : str := "users.json must contain nextTokenVersion and users.".
Definition entry_error : str :=
  "Each users.json entry must contain username, passwordHash, tokenVersion, and disabled.".

Definition user_fields : list str := ["username"; "passwordHash"; "tokenVersion"; "disabled"].

(** One entry: the checks of the first loop and the record of the second. *)
Definition load_user (e : Node) : result str UserRecord :=
  match e with
  | NObject _ =>
      if negb (hasUniqueProperties e user_fields) then Err entry_error
      else
        match Get e "username", Get e "passwordHash", Get e "tokenVersion", Get e "disabled" with
        | Some (NString u), Some (NString h), Some (NNumber v), Some (NBool d) =>
            match ParseInt v with
            | Some n => Ok {| Username := u; PasswordHash := h; TokenVersion := n; Disabled := d |}
            | None => Err entry_error
            end
        | _, _, _, _ => Err entry_error
        end
  | _ => Err entry_error
  end.

Fixpoint load_users (es : list Node) : result str (list UserRecord) :=
  match es with
  | [] => Ok []
  | e :: es' => let? u := load_user e in let? us := load_users es' in Ok (u :: us)
  end.

(** What reading the file gave. *)
Inductive FileRead := Absent | Unreadable (e : str) | Contents (raw : str).

Definition load_root (root : Node) : result str UsersFile :=
  match root with
  | NObject _ =>
      if negb (hasUniqueProperties root ["nextTokenVersion"; "users"]) then Err shape_error
      else
        match Get root "nextTokenVersion" with
        | Some (NNumber w) =>
            match ParseInt w with
            | None => Err shape_error
            | Some next =>
                match Get root "users" with
                | Some (NArray es) =>
                    let? us := load_users es in
                    let f := {| NextTokenVersion := next; Users := us |} in
                    match Validate f with Some e => Err e | None => Ok f end
                | _ => Err shape_error
                end
            end
        | _ => Err shape_error
        end
  | _ => Err shape_error
  end.

Definition Load (file : FileRead) : result str UsersFile :=
  match file with
  | Absent => Ok {| NextTokenVersion := 1; Users := [] |}
  | Unreadable e => Err e
  | Contents raw =>
      match Decode 4 raw with
      | Err e => Err (scan_message e)
      | Ok root => load_root root
      end
  end.

(** ** Writing *)

Definition nl : str := [x0a].

Definition user_text (u : UserRecord) : str :=
  "    {" ++ nl ++ jq "      `username`: " ++ MarshalString (Username u) ++
  "," ++ nl ++ jq "      `passwordHash`: " ++ MarshalString (PasswordHash u) ++
  "," ++ nl ++ jq "      `tokenVersion`: " ++ FormatInt (TokenVersion u) ++
  "," ++ nl ++ jq "      `disabled`: " ++ FormatBool (Disabled u) ++
  nl ++ "    }".

(** The loop over the users: a comma after every entry but the last. *)
Fixpoint users_text (us : list UserRecord) : str :=
  match us with
  | [] => []
  | [u] => user_text u ++ nl
  | u :: us' => user_text u ++ "," ++ nl ++ users_text us'
  end.

Definition marshalUsersFile (f : UsersFile) : str :=
  "{" ++ nl ++ jq "  `nextTokenVersion`: " ++ FormatInt (NextTokenVersion f) ++
  match Users f with
  | [] => "," ++ nl ++ jq "  `users`: []" ++ nl ++ "}"
  | us => "," ++ nl ++ jq "  `users`: [" ++ nl ++ users_text us ++ "  ]" ++ nl ++ "}"
  end.

(** The text [Save] puts in place, or its error. *)
Definition Save (f : UsersFile) : result str str :=
  match Validate f with Some e => Err e | None => Ok (marshalUsersFile f) end.

(** ** Validation, declaratively *)

Definition valid_user (next : Z) (u : UserRecord) : Prop :=
  blank (Username u) = false /\ 0 < TokenVersion u < next /\ argon2HashRe (PasswordHash u) = true.

Record valid_file (f : UsersFile) : Prop := {
  vf_next : 0 < NextTokenVersion f;
  vf_unique : NoDup (Username <$> Users f);
  vf_users : Forall (valid_user (NextTokenVersion f)) (Users f) }.

Lemma validate_users_None next us : forall seen, validate_users next seen us = None <->
  NoDup (Username <$> us) /\ (forall u, u ∈ us -> Username u ∉ seen) /\ Forall (valid_user next) us.
Proof.
  induction us as [|u us IH]; intros seen; cbn [validate_users].
  { split; [|done]. intros _. split; [constructor|]. split; [set_solver|constructor]. }
  rewrite fmap_cons, list.NoDup_cons, list.Forall_cons. unfold valid_user at 1.
  destruct (blank (Username u)) eqn:E1; [naive_solver|].
  case_bool_decide as E2. { split; [done|]. intros (_ & H & _). by destruct (H u); [constructor|]. }
  destruct (_ || _) eqn:E3.
  { split; [done|]. intros (_ & _ & (_ & Hr & _) & _). apply orb_true_iff in E3.
    rewrite !Z.leb_le in E3. lia. }
  bool_to_prop. destruct (argon2HashRe (PasswordHash u)); cbn [negb]; [|naive_solver].
  rewrite IH, list_elem_of_fmap. split.
  - intros (Hnd & Hseen & Hus). split; [split; [|done]|split; [|auto with lia]].
    + intros (u' & Hu & Hin). apply (Hseen u' Hin). rewrite Hu. constructor.
    + intros u' [->|Hin]%elem_of_cons; [done|]. specialize (Hseen u' Hin). set_solver.
  - intros ((Hnot & Hnd) & Hseen & _ & Hus). split; [done|]. split; [|done].
    intros u' Hin [Heq|Hin']%elem_of_cons; [|apply (Hseen u'); [by constructor|done]].
    apply Hnot. eauto.
Qed.

Lemma Validate_None f : Validate f = None <-> valid_file f.
Proof.
  unfold Validate. destruct (Z.leb_spec (NextTokenVersion f) 0).
  - split; [done|]. intros [H' _ _]. lia.
  - rewrite validate_users_None. split.
    + intros (? & ? & ?). by split.
    + intros [? ? ?]. split; [done|]. split; [set_solver|done].
Qed.

Lemma load_root_valid root f : load_root root = Ok f -> valid_file f.
Proof.
  intros H. unfold load_root in H. repeat (case_match; simplify_eq; try done).
  apply rbind_Ok in H as (us & _ & H). case_match eqn:E; simplify_eq. by apply Validate_None.
Qed.

(** ** Password hashes are ASCII *)

Lemma span_all p s : Forall (fun c => p c = true) (span p s).1 /\ s = (span p s).1 ++ (span p s).2.
Proof.
  induction s as [|c s IH]; [by simpl|]. simpl. destruct (p c) eqn:E; [|by simpl].
  destruct (span p s) as [a b]. simpl in *. destruct IH as [IH1 IH2]. split; [by constructor|by f_equal].
Qed.

(** A prefix of ASCII bytes followed by an ASCII rest. *)
Lemma some_of_ascii p s r : (forall c, p c = true -> ascii_byte c = true) ->
  some_of p s = Some r -> ascii r -> ascii s.
Proof.
  intros Hp H Hr. unfold some_of in H. pose proof (span_all p s) as [H1 H2].
  destruct (span p s) as [a b]. cbn [fst snd] in *. assert (b = r) as -> by (by destruct a; simplify_eq).
  rewrite H2. apply ascii_app; [|done]. clear -H1 Hp. induction H1; simpl; [done|]. by rewrite Hp.
Qed.

Lemma strip_ascii k s r : ascii k -> strip k s = Some r -> ascii r -> ascii s.
Proof.
  intros Hk H Hr. unfold strip in H. destruct (HasPrefix s k) eqn:E; simplify_eq.
  apply HasPrefix_drop in E. rewrite E. by apply ascii_app.
Qed.

Lemma digit_ascii c : is_digit c = true -> ascii_byte c = true.
Proof. unfold is_digit, ascii_byte. intros. bool_to_prop. apply Z.ltb_lt. lia. Qed.

Lemma b64_ascii c : is_b64 c = true -> ascii_byte c = true.
Proof. all_bytes c. Qed.

Lemma argon2HashRe_ascii s : argon2HashRe s = true -> ascii s.
Proof.
  unfold argon2HashRe. intros H.
  destruct (mbind _ _) as [r|] eqn:E; [|done]. destruct r; [|done]. clear H.
  repeat match goal with
  | H : mbind _ _ = Some _ |- _ => apply bind_Some in H as (? & ? & H)
  end.
  assert (Hnil : ascii ([] : str)) by done.
  repeat match goal with
  | H : some_of is_b64 _ = Some ?r, Hr : ascii ?r |- _ =>
      apply (some_of_ascii _ _ _ b64_ascii H) in Hr; clear H
  | H : some_of is_digit _ = Some ?r, Hr : ascii ?r |- _ =>
      apply (some_of_ascii _ _ _ digit_ascii H) in Hr; clear H
  | H : strip ?k _ = Some ?r, Hr : ascii ?r |- _ =>
      apply (strip_ascii k _ _ eq_refl H) in Hr; clear H
  end. done.
Qed.

(** ** The written text is read back *)

Definition user_node (u : UserRecord) : Node :=
  NObject [("username"%go, NString (Username u)); ("passwordHash"%go, NString (PasswordHash u));
           ("tokenVersion"%go, NNumber (FormatInt (TokenVersion u))); ("disabled"%go, NBool (Disabled u))].

Definition file_node (f : UsersFile) : Node :=
  NObject [("nextTokenVersion"%go, NNumber (FormatInt (NextTokenVersion f)));
           ("users"%go, NArray (user_node <$> Users f))].

(** Strings the text keeps: valid UTF-8. *)
Definition utf8_user (u : UserRecord) : Prop :=
  Valid (Username u) = true /\ Valid (PasswordHash u) = true.

(** The object of one user, without the indentation before it. *)
Definition user_object (u : UserRecord) : str := drop 4 (user_text u).

(** Close the goal that a constant template is the spaced object of its pieces. *)
Ltac spaced_pieces :=
  repeat match goal with
  | |- context [MarshalString ?s] => generalize (MarshalString s); intros
  | |- context [FormatInt ?n] => generalize (FormatInt n); intros
  | |- context [FormatUint ?n] => generalize (FormatUint n); intros
  | |- context [FormatBool ?b] => generalize (FormatBool b); intros
  end;
  lazy -[app]; repeat (rewrite <- ?app_assoc; cbn [app]); reflexivity.

Ltac spaced_fields :=
  repeat match goal with
  | |- Forall2 _ [] [] => constructor
  | |- Forall2 _ (_ :: _) (_ :: _) =>
      constructor; [split; [reflexivity|split; [reflexivity|split; [reflexivity|]]]|]
  end; auto using MarshalString_text, int_text, uint_text, bool_text.

Lemma user_object_text u : utf8_user u -> text (user_node u) (user_object u).
Proof.
  intros [Hu Hh]. set (w := nl ++ "      ").
  apply (spaced_object_text (nl ++ "    ") _
    [(w, "username"%go, MarshalString (Username u)); (w, "passwordHash"%go, MarshalString (PasswordHash u));
     (w, "tokenVersion"%go, FormatInt (TokenVersion u)); (w, "disabled"%go, FormatBool (Disabled u))]);
    [done|done| |].
  - spaced_fields.
  - unfold user_object, user_text. subst w. spaced_pieces.
Qed.

Lemma user_text_object u : user_text u = "    " ++ user_object u.
Proof. reflexivity. Qed.

(** The entries between the brackets of a non-empty array. *)
Lemma users_text_items us : us <> [] -> Forall utf8_user us ->
  items_text (user_node <$> us) (nl ++ users_text us ++ "  ").
Proof.
  intros Hne Hus. induction Hus as [|u us Hu Hus IH]; [done|].
  apply user_object_text in Hu. destruct us as [|u2 us].
  - cbn [users_text]. rewrite user_text_object, <- !app_assoc. rewrite app_assoc.
    apply (I_last (nl ++ "    ") _ _ (nl ++ "  ")); done.
  - cbn [users_text]. rewrite user_text_object, <- !app_assoc, app_assoc.
    apply (I_more (nl ++ "    ") _ _ [] _ (nl ++ users_text (u2 :: us) ++ "  ")); try done.
    by apply IH.
Qed.

Lemma marshalUsersFile_text f : Forall utf8_user (Users f) -> text (file_node f) (marshalUsersFile f).
Proof.
  intros Hus. set (w := nl ++ "  ").
  set (t := match Users f with [] => "[]"%go | us => "[" ++ nl ++ users_text us ++ "  ]" end).
  assert (Ht : text (NArray (user_node <$> Users f)) t).
  { subst t. destruct (Users f) as [|u us]; [by apply (T_empty_array [])|].
    pose proof (users_text_items (u :: us) ltac:(done) Hus) as H. apply T_array in H.
    by rewrite <- !app_assoc in H. }
  apply (spaced_object_text nl _ [(w, "nextTokenVersion"%go, FormatInt (NextTokenVersion f)); (w, "users"%go, t)]);
    [done|done|spaced_fields|].
  unfold marshalUsersFile. subst w t. destruct (Users f) as [|u us]; [spaced_pieces|].
  generalize (users_text (u :: us)). intros. spaced_pieces.
Qed.

(** Split a concatenation and close the valid UTF-8 pieces. *)
Ltac valid_pieces :=
  repeat lazymatch goal with |- Valid (_ ++ _) = true => apply Valid_app end;
  first [reflexivity
        |solve [auto using MarshalString_Valid, Valid_ascii, FormatInt_ascii, FormatBool_ascii]
        |idtac].

Lemma users_text_Valid us : Forall utf8_user us -> Valid (users_text us) = true.
Proof.
  assert (Hone : forall u, utf8_user u -> Valid (user_text u) = true).
  { intros u [Hu Hh]. unfold user_text. valid_pieces. }
  induction 1 as [|u us Hu Hus IH]; [done|]. cbn [users_text]. destruct us; valid_pieces; auto.
Qed.

Lemma marshalUsersFile_Valid f : Forall utf8_user (Users f) -> Valid (marshalUsersFile f) = true.
Proof.
  intros Hus%users_text_Valid. unfold marshalUsersFile. valid_pieces.
  destruct (Users f); [done|]. valid_pieces.
Qed.

Lemma file_node_depth f : node_depth (file_node f) <= 4.
Proof.
  unfold file_node. cbn [node_depth foldr].
  assert (H : foldr (fun v m => Z.max (node_depth v) m) 0 (user_node <$> Users f) <= 1).
  { induction (Users f) as [|u us IH]; [done|]. rewrite fmap_cons. cbn [foldr]. simpl node_depth. lia. }
  lia.
Qed.

(** The 64-bit fields of a record hold 64-bit integers. *)
Definition typed_file (f : UsersFile) : Prop :=
  in_int64 (NextTokenVersion f) /\ Forall (fun u => in_int64 (TokenVersion u)) (Users f).

Lemma load_user_node u : in_int64 (TokenVersion u) -> load_user (user_node u) = Ok u.
Proof.
  intros Hv. unfold load_user, user_node. cbn [hasUniqueProperties Members].
  change (negb _) with false. cbn iota. cbn [Get].
  change (find_member "username" _) with (Some (NString (Username u))).
  change (find_member "passwordHash" _) with (Some (NString (PasswordHash u))).
  change (find_member "tokenVersion" _) with (Some (NNumber (FormatInt (TokenVersion u)))).
  change (find_member "disabled" _) with (Some (NBool (Disabled u))).
  cbn iota. rewrite ParseInt_FormatInt by done. by destruct u.
Qed.

Lemma load_users_nodes us : Forall (fun u => in_int64 (TokenVersion u)) us ->
  load_users (user_node <$> us) = Ok us.
Proof.
  induction 1 as [|u us Hu Hus IH]; [done|]. rewrite fmap_cons. cbn [load_users].
  by rewrite load_user_node, IH.
Qed.

Lemma load_root_node f : valid_file f -> typed_file f -> load_root (file_node f) = Ok f.
Proof.
  intros Hf [Hn Hus]. unfold load_root, file_node. cbn [hasUniqueProperties Members].
  change (negb _) with false. cbn iota. cbn [Get].
  change (find_member "nextTokenVersion" _) with (Some (NNumber (FormatInt (NextTokenVersion f)))).
  change (find_member "users" _) with (Some (NArray (user_node <$> Users f))).
  cbn iota. rewrite ParseInt_FormatInt, load_users_nodes by done. cbn [rbind].
  replace {| NextTokenVersion := NextTokenVersion f; Users := Users f |} with f by (by destruct f).
  apply Validate_None in Hf. by rewrite Hf.
Qed.

Lemma valid_file_utf8 f : valid_file f -> Forall (fun u => Valid (Username u) = true) (Users f) ->
  Forall utf8_user (Users f).
Proof.
  intros [_ _ Hf] Hu. rewrite !list.Forall_forall in *. intros u Hin. split; [by apply Hu|].
  destruct (Hf u Hin) as (_ & _ & Hh). by apply Valid_ascii, argon2HashRe_ascii.
Qed.

(** ** What is read can be written again *)

(** A file that can be written and read back: valid, in range, with UTF-8 names. *)
Record storable_file (f : UsersFile) : Prop := {
  sf_valid : valid_file f;
  sf_typed : typed_file f;
  sf_utf8 : Forall (fun u => Valid (Username u) = true) (Users f) }.

Lemma wf_get n k v : wf_node n = true -> Get n k = Some v -> wf_node v = true.
Proof.
  destruct n as [ms| | | | |]; try done. cbn [wf_node Get]. intros Hwf H%find_member_elem.
  rewrite forallb_forall in Hwf. apply list_elem_of_In in H. specialize (Hwf _ H). simpl in Hwf.
  by apply andb_true_iff in Hwf as [_ ?].
Qed.

Lemma load_user_good e u : wf_node e = true -> load_user e = Ok u ->
  in_int64 (TokenVersion u) /\ Valid (Username u) = true.
Proof.
  intros Hwf H. destruct e; try done. cbn [load_user] in H. case_match; [done|].
  repeat (case_match; try done); simplify_eq. cbn. split; [by eapply ParseInt_range|].
  match goal with H : Get _ _ = Some (NString _) |- _ => by apply (wf_get _ _ _ Hwf) in H end.
Qed.

Lemma load_users_good es : forall us, forallb wf_node es = true -> load_users es = Ok us ->
  Forall (fun u => in_int64 (TokenVersion u) /\ Valid (Username u) = true) us.
Proof.
  induction es as [|e es IH]; intros us Hwf H; cbn [load_users] in H; [by simplify_eq|].
  cbn [forallb] in Hwf. apply andb_true_iff in Hwf as [He Hes].
  apply rbind_Ok in H as (u & Hu & H). apply rbind_Ok in H as (us' & Hus & [= <-]).
  constructor; [by eapply load_user_good|by apply IH].
Qed.

Lemma load_root_storable root f : wf_node root = true -> load_root root = Ok f -> storable_file f.
Proof.
  intros Hwf H. pose proof (load_root_valid _ _ H) as Hf.
  unfold load_root in H. repeat (case_match; try done).
  match goal with H : Get _ _ = Some (NArray _) |- _ => apply (wf_get _ _ _ Hwf) in H; cbn [wf_node] in H end.
  apply rbind_Ok in H as (us & Hus & H). case_match; simplify_eq.
  apply load_users_good in Hus; [|done]. apply list.Forall_and in Hus as [Hi Hv].
  split; [done|split; [by eapply ParseInt_range|done]|done].
Qed.

Lemma Load_storable file f : Load file = Ok f -> storable_file f.
Proof.
  destruct file as [|e|raw]; cbn [Load]; [intros [= <-]| done|].
  - split; [split; [done|constructor|constructor]|split; [done|constructor]|constructor].
  - pose proof (Decode_post 4 raw) as Hd. destruct (Decode 4 raw); [|done].
    intros H. eapply load_root_storable; [apply Hd|exact H].
Qed.

Lemma Load_marshal f : storable_file f -> Load (Contents (marshalUsersFile f)) = Ok f.
Proof.
  intros [Hf Ht Hu]. pose proof (valid_file_utf8 f Hf Hu) as H8. unfold Load.
  rewrite (Decode_text0 4 (file_node f)); auto using marshalUsersFile_text, marshalUsersFile_Valid,
    file_node_depth. by apply load_root_node.
Qed.

Lemma Save_Ok f text : Save f = Ok text <-> valid_file f /\ text = marshalUsersFile f.
Proof. unfold Save. rewrite <- Validate_None. destruct (Validate f); naive_solver. Qed.

(** ** Look-up *)

Lemma BuildLookup_spec f name u : NoDup (Username <$> Users f) ->
  BuildLookup f !! name = Some u <-> u ∈ Users f /\ Username u = name.
Proof.
  intros Hnd. unfold BuildLookup. rewrite (foldl_insert_lookup Username id) by done.
  rewrite lookup_empty. unfold id. naive_solver.
Qed.

(** ** Properties *)

(** C27: What [Save] writes, [Load] reads back as the same file, field for field, for every valid
    file whose user names are valid UTF-8: strict scanning, unique-key checks, 64-bit
    numerals, JSON escapes and validation all agree. *)
Theorem users_file_roundtrip f :
  valid_file f -> typed_file f -> Forall (fun u => Valid (Username u) = true) (Users f) ->
  exists raw, Save f = Ok raw /\ Load (Contents raw) = Ok f.
Proof.
  intros Hf Ht Hu. exists (marshalUsersFile f). split; [by apply Save_Ok|by apply Load_marshal].
Qed.

Definition sample_user : UserRecord :=
  {| Username := "ann"; TokenVersion := 2; Disabled := false;
     PasswordHash := "$argon2id$v=19$m=19456,t=2,p=1$c2FsdA==$aGFzaA==" |}.

Definition sample_users : UsersFile := {| NextTokenVersion := 3; Users := [sample_user] |}.

Lemma users_file_roundtrip_witness :
  exists raw, Save sample_users = Ok raw /\ Load (Contents raw) = Ok sample_users.
Proof.
  apply users_file_roundtrip.
  - apply Validate_None. reflexivity.
  - repeat constructor; discriminate.
  - repeat constructor.
Defined.

(** [Load] answers only valid files, with unique non-blank names, token versions in
    [1, nextTokenVersion) and well-formed password hashes, so the look-up table built
    from it maps a name to a record exactly when the file has that record. *)
Theorem loaded_users_lookup file f name u :
  Load file = Ok f ->
  valid_file f /\ (BuildLookup f !! name = Some u <-> u ∈ Users f /\ Username u = name).
Proof.
  intros H%Load_storable. split; [apply H|]. apply BuildLookup_spec, H.
Qed.

Lemma loaded_users_lookup_witness :
  valid_file sample_users /\
  (BuildLookup sample_users !! Username sample_user = Some sample_user <->
   sample_user ∈ Users sample_users /\ Username sample_user = Username sample_user).
Proof.
  apply (loaded_users_lookup (Contents (marshalUsersFile sample_users))). vm_compute. reflexivity.
Defined.

