(* ===== verification/Store.v ===== *)
(** * The version store (internal/state/store.go)

    The last version of each user in memory, the dirty flag, the file that holds
    them across restarts, and the interleavings of savers and flushers. *)
From S2P Require Import Prelude GoLib JsonScan JsonGrammar GoJson Serialize Logic Users.

Record stateEntry := { entry_Username : str; entry_Version : Z }.

Abbreviation Versions := (gmap str Z).

(** A missing key reads as zero. *)
Definition GetVersion (versions : Versions) (username : str) : Z := default 0 (versions !! username).

(** The update [SaveVersion] makes under the lock: never backwards. *)
Definition save_max (versions : Versions) (username : str) (version : Z) : Versions :=
  if GetVersion versions username <? version then <[username := version]> versions else versions.

(** ** The file *)

(** The entries of a flush, sorted by user name. *)
Definition flush_entries (versions : Versions) : list stateEntry :=
  SliceStable (fun a b => str_ltb (entry_Username a) (entry_Username b))
    ((fun '(u, v) => {| entry_Username := u; entry_Version := v |}) <$> map_to_list versions).

Definition entry_text (e : stateEntry) : str :=
  jq "    {`username`: " ++ MarshalString (entry_Username e) ++
  jq ", `version`: " ++ FormatUint (entry_Version e) ++ "}".

Fixpoint entries_text (es : list stateEntry) : str :=
  match es with
  | [] => []
  | [e] => entry_text e ++ nl
  | e :: es' => entry_text e ++ "," ++ nl ++ entries_text es'
  end.

(** The text [writeAtomic] puts in place of the file. *)
Definition state_text (es : list stateEntry) : str :=
  "{" ++ nl ++ jq "  `entries`: " ++
  match es with
  | [] => "[]" ++ nl ++ "}"
  | _ => "[" ++ nl ++ entries_text es ++ "  ]" ++ nl ++ "}"
  end.

Definition state_error (path : str) : str :=
  "Invalid runtime state file '" ++ path ++
  "': State file contains duplicate, empty, or zero versions.".

(** The checks of [load] on the decoded entries. *)
Fixpoint load_entries (path : str) (result : Versions) (es : list stateEntry)
  : Prelude.result str Versions :=
  match es with
  | [] => Ok result
  | e :: es' =>
      if blank (entry_Username e) || (entry_Version e =? 0) then Err (state_error path)
      else if bool_decide (is_Some (result !! entry_Username e)) then Err (state_error path)
      else load_entries path (<[entry_Username e := entry_Version e]> result) es'
  end.

Section File.
(** [json.Unmarshal] into a [stateFile]: its entries, or its error. *)
Context (Unmarshal : str -> result str (list stateEntry)).

Definition load (path : str) (file : FileRead) : result str Versions :=
  match file with
  | Absent => Ok ∅
  | Unreadable e => Err e
  | Contents raw =>
      match Unmarshal raw with
      | Err e => Err ("Invalid runtime state file '" ++ path ++ "': " ++ e)
      | Ok es => load_entries path ∅ es
      end
  end.
End File.

(** ** Interleavings

    [SaveVersion] updates the map in one critical section and sets the dirty flag
    after it; [Flush] clears the flag, then takes the write lock, snapshots the map in
    a critical section and replaces the file. Each of these is one step; any number of
    savers and flushers interleave. *)

Record world := {
  w_versions : Versions;
  w_dirty : bool;
  w_disk : Versions;              (** what the file holds *)
  w_savers : nat;                 (** savers between their two steps *)
  w_waiting : nat;                (** flushers that cleared the flag, before their snapshot *)
  w_writer : option Versions }.   (** the snapshot of the flusher that holds the write lock *)

Definition world_start (versions : Versions) : world :=
  {| w_versions := versions; w_dirty := false; w_disk := versions; w_savers := 0; w_waiting := 0;
     w_writer := None |}.

Inductive step : world -> world -> Prop :=
| save_update w u v :
    step w {| w_versions := save_max (w_versions w) u v; w_dirty := w_dirty w; w_disk := w_disk w;
              w_savers := S (w_savers w); w_waiting := w_waiting w; w_writer := w_writer w |}
| save_mark w n : w_savers w = S n ->
    step w {| w_versions := w_versions w; w_dirty := true; w_disk := w_disk w;
              w_savers := n; w_waiting := w_waiting w; w_writer := w_writer w |}
| flush_swap w : w_dirty w = true ->
    step w {| w_versions := w_versions w; w_dirty := false; w_disk := w_disk w;
              w_savers := w_savers w; w_waiting := S (w_waiting w); w_writer := w_writer w |}
| flush_snapshot w n : w_waiting w = S n -> w_writer w = None ->
    step w {| w_versions := w_versions w; w_dirty := w_dirty w; w_disk := w_disk w;
              w_savers := w_savers w; w_waiting := n; w_writer := Some (w_versions w) |}
| flush_written w snap : w_writer w = Some snap ->
    step w {| w_versions := w_versions w; w_dirty := w_dirty w; w_disk := snap;
              w_savers := w_savers w; w_waiting := w_waiting w; w_writer := None |}
| flush_failed w snap : w_writer w = Some snap ->
    step w {| w_versions := w_versions w; w_dirty := true; w_disk := w_disk w;
              w_savers := w_savers w; w_waiting := w_waiting w; w_writer := None |}.

Definition steps : world -> world -> Prop := rtc step.

(** No operation is under way. *)
Definition quiet (w : world) : Prop := w_savers w = 0%nat /\ w_waiting w = 0%nat /\ w_writer w = None.

(** ** Whole operations, run without interruption *)

Definition SaveVersion (w : world) (username : str) (version : Z) : world :=
  {| w_versions := save_max (w_versions w) username version; w_dirty := true; w_disk := w_disk w;
     w_savers := w_savers w; w_waiting := w_waiting w; w_writer := w_writer w |}.

(** [written]: did [writeAtomic] succeed? A failure sets the flag again. *)
Definition Flush (w : world) (written : bool) : bool * world :=
  if negb (w_dirty w) then (false, w)
  else if written then
    (true, {| w_versions := w_versions w; w_dirty := false; w_disk := w_versions w;
              w_savers := w_savers w; w_waiting := w_waiting w; w_writer := w_writer w |})
  else
    (false, {| w_versions := w_versions w; w_dirty := true; w_disk := w_disk w;
               w_savers := w_savers w; w_waiting := w_waiting w; w_writer := w_writer w |}).

(** ** Invariants *)

Definition below (a b : Versions) : Prop := forall u, GetVersion a u <= GetVersion b u.

#[global] Instance below_preorder : PreOrder below.
Proof. split; [intros a u; lia|]. intros a b c H1 H2 u. specialize (H1 u). specialize (H2 u). lia. Qed.

Lemma GetVersion_save m u v u' :
  GetVersion (save_max m u v) u' = if decide (u = u') then Z.max (GetVersion m u) v else GetVersion m u'.
Proof.
  unfold save_max. destruct (Z.ltb_spec (GetVersion m u) v); case_decide; subst; try lia;
    unfold GetVersion in *; rewrite ?lookup_insert_eq, ?lookup_insert_ne by done; simpl; lia.
Qed.

Lemma save_max_below m u v : below m (save_max m u v).
Proof. intros u'. rewrite GetVersion_save. case_decide; subst; lia. Qed.

(** The file is never ahead of memory, a snapshot lies between the two, and a clean
    store with nobody under way has its file up to date. *)
Record store_inv (w : world) : Prop := {
  si_disk : below (w_disk w) (w_versions w);
  si_snap : forall snap, w_writer w = Some snap -> below (w_disk w) snap /\ below snap (w_versions w);
  si_clean : w_dirty w = false -> w_savers w = 0%nat -> w_waiting w = 0%nat ->
             default (w_disk w) (w_writer w) = w_versions w }.

Lemma step_inv w w' : step w w' -> store_inv w -> store_inv w'.
Proof.
  intros Hs [Hd Hsn Hc]. destruct Hs as [w u v|w n Hn|w Hdirty|w n Hn Hw|w snap Hw|w snap Hw].
  - assert (below (w_versions w) (save_max (w_versions w) u v)) as Hb by apply save_max_below.
    split; simpl; [by etrans| |done]. intros snap Hw. destruct (Hsn _ Hw). split; [done|by etrans].
  - by split.
  - by split.
  - split; simpl; [done| |done]. intros snap [= <-]. by split.
  - destruct (Hsn _ Hw). split; simpl; [done|done|]. intros. rewrite Hw in Hc. by apply Hc.
  - by split.
Qed.

Lemma steps_inv w w' : steps w w' -> store_inv w -> store_inv w'.
Proof. induction 1; eauto using step_inv. Qed.

Lemma start_inv versions : store_inv (world_start versions).
Proof. by split. Qed.

Lemma step_mono w w' : store_inv w -> step w w' ->
  below (w_versions w) (w_versions w') /\ below (w_disk w) (w_disk w').
Proof.
  intros Hi Hs. destruct Hs as [w u v|w n Hn|w Hdirty|w n Hn Hw|w snap Hw|w snap Hw]; simpl;
    (split; [|try done]); try done.
  - apply save_max_below.
  - by apply (si_snap w Hi).
Qed.

Lemma steps_mono w w' : steps w w' -> store_inv w ->
  below (w_versions w) (w_versions w') /\ below (w_disk w) (w_disk w').
Proof.
  induction 1 as [w|w w1 w' Hs Hss IH]; intros Hi; [done|].
  destruct (step_mono w w1 Hi Hs). destruct IH; [by eapply step_inv|]. split; by etrans.
Qed.

(** The whole operations are runs of the small steps. *)
Lemma SaveVersion_steps w u v : steps w (SaveVersion w u v).
Proof.
  eapply rtc_l; [apply (save_update w u v)|]. eapply rtc_l; [by apply (save_mark _ (w_savers w))|].
  apply rtc_refl.
Qed.

Lemma Flush_steps w b : quiet w -> steps w (Flush w b).2.
Proof.
  intros (Hs & Hw & Hwr). unfold Flush. destruct (w_dirty w) eqn:Hd; cbn [negb]; [|apply rtc_refl].
  eapply rtc_l; [by apply flush_swap|]. eapply rtc_l; [by apply (flush_snapshot _ (w_waiting w))|].
  destruct w; simpl in *; subst. destruct b.
  - eapply rtc_l; [by eapply flush_written|]. apply rtc_refl.
  - eapply rtc_l; [by eapply flush_failed|]. apply rtc_refl.
Qed.

(** ** The file text is read back *)

Definition entry_node (e : stateEntry) : Node :=
  NObject [("username"%go, NString (entry_Username e)); ("version"%go, NNumber (FormatUint (entry_Version e)))].

Definition state_node (es : list stateEntry) : Node :=
  NObject [("entries"%go, NArray (entry_node <$> es))].

Definition good_entry (e : stateEntry) : Prop :=
  Valid (entry_Username e) = true /\ 0 <= entry_Version e.

Definition entry_object (e : stateEntry) : str := drop 4 (entry_text e).

Lemma entry_object_text e : good_entry e -> text (entry_node e) (entry_object e).
Proof.
  intros [Hu Hv].
  apply (spaced_object_text [] _ [([], "username"%go, MarshalString (entry_Username e));
    (" "%go, "version"%go, FormatUint (entry_Version e))]); [done|done|spaced_fields|].
  unfold entry_object, entry_text. spaced_pieces.
Qed.

Lemma entry_text_object e : entry_text e = "    " ++ entry_object e.
Proof. reflexivity. Qed.

Lemma entries_text_items es : es <> [] -> Forall good_entry es ->
  items_text (entry_node <$> es) (nl ++ entries_text es ++ "  ").
Proof.
  intros Hne Hes. induction Hes as [|e es He Hes IH]; [done|].
  apply entry_object_text in He. destruct es as [|e2 es]; cbn [entries_text];
    rewrite entry_text_object, <- !app_assoc, app_assoc.
  - by apply (I_last (nl ++ "    ") _ _ (nl ++ "  ")).
  - apply (I_more (nl ++ "    ") _ _ [] _ (nl ++ entries_text (e2 :: es) ++ "  ")); try done.
    by apply IH.
Qed.

Lemma state_text_text es : Forall good_entry es -> text (state_node es) (state_text es).
Proof.
  intros Hes.
  set (t := match es with [] => "[]"%go | _ => "[" ++ nl ++ entries_text es ++ "  ]" end).
  assert (Ht : text (NArray (entry_node <$> es)) t).
  { subst t. destruct es as [|e es]; [by apply (T_empty_array [])|].
    pose proof (entries_text_items (e :: es) ltac:(done) Hes) as H. apply T_array in H.
    by rewrite <- !app_assoc in H. }
  apply (spaced_object_text nl _ [(nl ++ "  ", "entries"%go, t)]); [done|done|spaced_fields|].
  unfold state_text. subst t. destruct es as [|e es]; [reflexivity|].
  generalize (entries_text (e :: es)). intros. spaced_pieces.
Qed.

Lemma state_text_Valid es : Forall good_entry es -> Valid (state_text es) = true.
Proof.
  intros Hes. assert (H : Valid (entries_text es) = true).
  { induction Hes as [|e es [Hu Hv] Hes IH]; [done|]. cbn [entries_text].
    assert (Valid (entry_text e) = true) by (unfold entry_text; valid_pieces; auto using Valid_ascii, FormatUint_ascii).
    destruct es; valid_pieces. }
  unfold state_text. destruct es; valid_pieces.
Qed.

(** ** Sorting keeps the entries *)

Lemma insert_stable_perm {A} (lt : A -> A -> bool) x l : insert_stable lt x l ≡ₚ x :: l.
Proof.
  induction l as [|y l IH]; simpl; [done|]. destruct (lt x y); [done|]. rewrite IH. constructor.
Qed.

Lemma SliceStable_perm {A} (lt : A -> A -> bool) l : SliceStable lt l ≡ₚ l.
Proof.
  unfold SliceStable. enough (H : forall acc, foldl (fun acc x => insert_stable lt x acc) acc l ≡ₚ acc ++ l).
  { by rewrite H. }
  induction l as [|x l IH]; intros acc; simpl; [by rewrite app_nil_r|].
  rewrite IH, insert_stable_perm. simpl. by rewrite Permutation_middle.
Qed.

(** A user name the files keep: not blank, and valid UTF-8. *)
Definition good_name (username : str) : Prop := blank username = false /\ Valid username = true.

(** A map whose entries all pass the checks of [load]. *)
Definition storable (m : Versions) : Prop := map_Forall (fun u v => good_name u /\ 0 < v) m.

Lemma load_entries_ok path es : forall acc,
  NoDup (entry_Username <$> es) ->
  Forall (fun e => blank (entry_Username e) = false /\ 0 < entry_Version e /\
                   acc !! entry_Username e = None) es ->
  load_entries path acc es =
  Ok (foldl (fun m e => <[entry_Username e := entry_Version e]> m) acc es).
Proof.
  induction es as [|e es IH]; intros acc Hnd Hes; [done|].
  rewrite fmap_cons in Hnd. apply list.NoDup_cons in Hnd as [Hn Hnd].
  apply list.Forall_cons in Hes as [(Hb & Hv & Ha) Hes]. cbn [load_entries foldl].
  rewrite Hb, (proj2 (Z.eqb_neq _ _)) by lia. cbn [orb].
  rewrite bool_decide_eq_false_2 by (rewrite Ha; by intros []). apply IH; [done|].
  rewrite !list.Forall_forall in *. intros e' He'. destruct (Hes e' He') as (? & ? & Ha').
  split; [done|]. split; [done|]. rewrite lookup_insert_ne; [done|]. intros Heq. apply Hn.
  rewrite Heq. by apply list_elem_of_fmap_2.
Qed.

Lemma flush_entries_elem m e : e ∈ flush_entries m <-> m !! entry_Username e = Some (entry_Version e).
Proof.
  unfold flush_entries. rewrite SliceStable_perm, list_elem_of_fmap. split.
  - intros ([u v] & -> & H). by apply elem_of_map_to_list in H.
  - intros H. exists (entry_Username e, entry_Version e). split; [by destruct e|].
    by apply elem_of_map_to_list.
Qed.

Lemma flush_entries_NoDup m : NoDup (entry_Username <$> flush_entries m).
Proof.
  unfold flush_entries. rewrite SliceStable_perm. rewrite <- list_fmap_compose.
  rewrite (list_fmap_ext _ fst); [apply NoDup_fst_map_to_list|]. by intros i [u v] _.
Qed.

Lemma load_flush path m : storable m -> load_entries path ∅ (flush_entries m) = Ok m.
Proof.
  intros Hm. rewrite load_entries_ok.
  - f_equal. apply map_eq. intros u. apply option_eq. intros v.
    rewrite (foldl_insert_lookup entry_Username entry_Version) by apply flush_entries_NoDup.
    rewrite lookup_empty. split.
    + intros [(e & He & <- & <-)|[_ ?]]; [|done]. by apply flush_entries_elem.
    + intros H. left. exists {| entry_Username := u; entry_Version := v |}. by rewrite flush_entries_elem.
  - apply flush_entries_NoDup.
  - apply list.Forall_forall. intros e He. apply flush_entries_elem in He. destruct (Hm _ _ He) as ([? ?] & ?).
    by rewrite lookup_empty.
Qed.

Lemma flush_entries_good m : storable m -> Forall good_entry (flush_entries m).
Proof.
  intros Hm. apply list.Forall_forall. intros e He. apply flush_entries_elem in He.
  destruct (Hm _ _ He) as ([_ ?] & ?). split; [done|lia].
Qed.

Lemma storable_save m u v : storable m -> good_name u -> storable (save_max m u v).
Proof.
  intros Hm Hu. unfold save_max. destruct (Z.ltb_spec (GetVersion m u) v) as [Hlt|]; [|done].
  apply map_Forall_insert_2; [|done]. split; [done|].
  assert (0 <= GetVersion m u); [|lia]. unfold GetVersion. destruct (m !! u) as [x|] eqn:E; simpl; [|lia].
  destruct (Hm _ _ E). lia.
Qed.

(** The users of a file have names the state file can hold. *)
Definition good_users (f : UsersFile) : Prop := Forall (fun u => good_name (Username u)) (Users f).

Lemma good_users_lookup f : good_users f -> map_Forall (fun name _ => good_name name) (BuildLookup f).
Proof.
  unfold good_users, BuildLookup. intros Hf.
  assert (Hm := map_Forall_empty (fun name (_ : UserRecord) => good_name name)).
  revert Hm. generalize (∅ : gmap str UserRecord). induction Hf as [|u us Hu Hus IH]; intros m Hm; [done|].
  cbn [foldl]. apply IH. by apply map_Forall_insert_2.
Qed.

Lemma Load_good_users file f : Load file = Ok f -> good_users f.
Proof.
  intros [[_ _ Hv] _ Hn]%Load_storable. unfold good_users. rewrite !list.Forall_forall in *.
  intros u Hin. split; [|by apply Hn]. by destruct (Hv u Hin).
Qed.

(** ** Decoders of the file *)

(** What the decoder of the state file promises, as [encoding/json] documents it for a [stateFile]: a decoded
    version fits 64 bits and a decoded name is UTF-8, and an object with an [entries] array of
    [username]/[version] objects decodes field by field. *)
Definition typed_entry (e : stateEntry) : Prop :=
  in_uint64 (entry_Version e) /\ Valid (entry_Username e) = true.

Class StateDecoder (Unmarshal : str -> result str (list stateEntry)) : Prop := {
  decoder_typed : forall s es, Unmarshal s = Ok es -> Forall typed_entry es;
  decoder_reads : forall es s, Forall typed_entry es -> text (state_node es) s -> Valid s = true ->
    Unmarshal s = Ok es }.

(** What loading gives and flushing takes. *)
Definition storable64 (m : Versions) : Prop := storable m /\ forall u, in_uint64 (GetVersion m u).

Lemma storable64_typed m : storable64 m -> Forall typed_entry (flush_entries m).
Proof.
  intros [Hs Hr]. apply list.Forall_forall. intros e He%flush_entries_elem. destruct (Hs _ _ He) as [[_ ?] _].
  split; [|done]. specialize (Hr (entry_Username e)). unfold GetVersion in Hr. by rewrite He in Hr.
Qed.

Lemma load_entries_storable path es : forall acc m, Forall typed_entry es -> storable64 acc ->
  load_entries path acc es = Ok m -> storable64 m.
Proof.
  induction es as [|e es IH]; intros acc m Hes Hacc; cbn [load_entries]; [by intros [= <-]|].
  apply list.Forall_cons in Hes as [[Hr Hv] Hes]. destruct (blank _ || _) eqn:E; [done|].
  apply orb_false_iff in E as [Hb Hz]. apply Z.eqb_neq in Hz. case_match; [done|]. intros Hl.
  apply IH in Hl; [done|done|]. destruct Hacc as [Hs Hu]. split.
  - apply map_Forall_insert_2; [|done]. split; [done|]. unfold in_uint64 in Hr. lia.
  - intros u. unfold GetVersion. destruct (decide (entry_Username e = u)) as [<-|];
      [by rewrite lookup_insert_eq|]. rewrite lookup_insert_ne by done. apply Hu.
Qed.

Lemma empty_storable64 : storable64 ∅.
Proof. split; [apply map_Forall_empty|]. intros u. unfold GetVersion. by rewrite lookup_empty. Qed.

Section Decoder.
Context (Unmarshal : str -> result str (list stateEntry)) `{!StateDecoder Unmarshal}.

Lemma load_storable path file m : load Unmarshal path file = Ok m -> storable64 m.
Proof.
  destruct file as [|e|raw]; cbn [load]; [intros [= <-]; apply empty_storable64|done|].
  destruct (Unmarshal raw) as [es|e] eqn:E; [|done]. apply load_entries_storable; [|apply empty_storable64].
  by apply decoder_typed in E.
Qed.

Lemma load_state_text path m : storable64 m ->
  load Unmarshal path (Contents (state_text (flush_entries m))) = Ok m.
Proof.
  intros Hm. pose proof (storable64_typed m Hm) as Ht. destruct Hm as [Hs _].
  pose proof (flush_entries_good m Hs) as Hg. unfold load.
  rewrite (decoder_reads (flush_entries m)) by auto using state_text_text, state_text_Valid.
  by apply load_flush.
Qed.
End Decoder.

(** A decoder that keeps the promises: the project's scanner followed by a strict
    reading of the tree. *)
Definition entry_of_node (n : Node) : option stateEntry :=
  match Get n "username", Get n "version" with
  | Some (NString u), Some (NNumber v) =>
      (fun x => {| entry_Username := u; entry_Version := x |}) <$> ParseUint v
  | _, _ => None
  end.

Definition strict_Unmarshal (s : str) : result str (list stateEntry) :=
  match Decode 10000 s with
  | Ok n => match Get n "entries" with
            | Some (NArray its) =>
                match mapM entry_of_node its with Some es => Ok es | None => Err "bad entry" end
            | _ => Err "bad shape"
            end
  | Err e => Err (scan_message e)
  end.

Lemma state_node_depth es : node_depth (state_node es) <= 10000.
Proof.
  unfold state_node. cbn [node_depth foldr].
  assert (H : foldr (fun v m => Z.max (node_depth v) m) 0 (entry_node <$> es) <= 1).
  { induction es as [|e es IH]; [done|]. rewrite fmap_cons. cbn [foldr]. simpl node_depth. lia. }
  lia.
Qed.

Lemma strict_Unmarshal_reads es s : Forall typed_entry es ->
  text (state_node es) s -> Valid s = true -> strict_Unmarshal s = Ok es.
Proof.
  intros Hes Ht Hv. unfold strict_Unmarshal.
  rewrite (Decode_text0 10000 (state_node es)) by auto using state_node_depth.
  change (Get (state_node es) "entries") with (Some (NArray (entry_node <$> es))). cbn iota.
  enough (mapM entry_of_node (entry_node <$> es) = Some es) as -> by done.
  clear -Hes. induction Hes as [|e es [He _] Hes IH]; [done|]. rewrite fmap_cons. cbn [mapM].
  assert (entry_of_node (entry_node e) = Some e) as ->.
  { unfold entry_of_node. change (Get (entry_node e) "username") with (Some (NString (entry_Username e))).
    change (Get (entry_node e) "version") with (Some (NNumber (FormatUint (entry_Version e)))).
    cbn iota. rewrite ParseUint_FormatUint by done. by destruct e. }
  simpl. by rewrite IH.
Qed.

Lemma entry_of_node_typed n e : wf_node n = true -> entry_of_node n = Some e -> typed_entry e.
Proof.
  intros Hwf H. unfold entry_of_node in H. repeat (case_match; try done). apply fmap_Some in H as (v & Hv & ->).
  split; [by eapply ParseUint_range|].
  match goal with H : Get _ _ = Some (NString _) |- _ => by apply (wf_get _ _ _ Hwf) in H end.
Qed.

#[export] Instance strict_decoder : StateDecoder strict_Unmarshal.
Proof.
  split; [|apply strict_Unmarshal_reads]. intros s es. unfold strict_Unmarshal.
  pose proof (Decode_post 10000 s) as Hd. destruct (Decode 10000 s) as [n|]; [|done]. destruct Hd as [Hwf _].
  destruct (Get n "entries") as [[]|] eqn:E; try done. apply (wf_get _ _ _ Hwf) in E. cbn [wf_node] in E.
  destruct (mapM entry_of_node _) as [es'|] eqn:Em; [|done]. intros [= <-]. apply mapM_Some_1 in Em.
  rewrite forallb_forall in E. apply list.Forall_forall. intros e He.
  apply list_elem_of_lookup_1 in He as [i Hi]. destruct (Forall2_lookup_r _ _ _ _ _ Em Hi) as (x & Hx & Hxe).
  eapply entry_of_node_typed; [|exact Hxe]. apply E, list_elem_of_In. by eapply list_elem_of_lookup_2.
Qed.

(** ** Properties *)

(** C11: In every interleaving of savers and flushers, writes failing or not, memory and file
    versions only grow, the file is never ahead of memory, and whenever nothing is under way
    and the dirty flag is clear the file holds exactly the versions in memory: no
    saved version is ever forgotten by the flush protocol. *)
Theorem store_no_lost_update versions w w' :
  steps (world_start versions) w -> steps w w' ->
  below (w_versions w) (w_versions w') /\ below (w_disk w) (w_disk w') /\
  below (w_disk w') (w_versions w') /\
  (quiet w' -> w_dirty w' = false -> w_disk w' = w_versions w').
Proof.
  intros H0 H1. pose proof (steps_inv _ _ H0 (start_inv versions)) as Hw.
  pose proof (steps_inv _ _ H1 Hw) as Hw'. destruct (steps_mono _ _ H1 Hw) as [Hv Hd].
  split; [done|]. split; [done|]. split; [apply Hw'|]. intros (Hs & Hwait & Hwr) Hdirty.
  pose proof (si_clean w' Hw' Hdirty Hs Hwait) as H. by rewrite Hwr in H.
Qed.

(** One saver and one flush that runs between the saver's two steps. *)
Definition sample_world : world :=
  {| w_versions := {[ ("ann" : str) := 2 ]}; w_dirty := true; w_disk := {[ ("ann" : str) := 2 ]};
     w_savers := 0; w_waiting := 0; w_writer := None |}.

Lemma store_no_lost_update_witness :
  below {[ ("ann" : str) := 1 ]} (w_versions sample_world) /\
  below {[ ("ann" : str) := 1 ]} (w_disk sample_world) /\
  below (w_disk sample_world) (w_versions sample_world) /\
  (quiet sample_world -> w_dirty sample_world = false -> w_disk sample_world = w_versions sample_world).
Proof.
  refine (store_no_lost_update {[ ("ann" : str) := 1 ]} (world_start {[ ("ann" : str) := 1 ]}) sample_world _ _);
    [apply rtc_refl|].
  eapply rtc_l; [apply (save_update _ "ann" 2)|]. eapply rtc_l; [by apply (save_mark _ 0)|].
  eapply rtc_l; [by apply flush_swap|]. eapply rtc_l; [apply (save_update _ "ann" 1)|].
  eapply rtc_l; [by apply (flush_snapshot _ 0)|]. eapply rtc_l; [by eapply flush_written|].
  eapply rtc_l; [by apply (save_mark _ 0)|]. apply rtc_refl.
Defined.

(** The flush of an orderly stop is durable: after any run of savers and flushers that came
    to rest, one [Flush] whose write succeeds leaves the flag clear and the file equal to
    memory, also when the flag was already clear and nothing was written. *)
Lemma final_flush_durable versions w :
  steps (world_start versions) w -> quiet w ->
  let w' := (Flush w true).2 in
  w_dirty w' = false /\ w_disk w' = w_versions w /\ w_versions w' = w_versions w.
Proof.
  intros H0 Hq. unfold Flush. destruct (w_dirty w) eqn:Hd; cbn [negb]; [done|]. simpl.
  split; [done|]. split; [|done]. pose proof (steps_inv _ _ H0 (start_inv versions)) as Hi.
  destruct Hq as (Hs & Hw & Hwr). pose proof (si_clean w Hi Hd Hs Hw) as H. by rewrite Hwr in H.
Qed.

(** The text a flush writes is read back by [load] as the same map, whatever JSON decoder
    keeps the promises of [StateDecoder]. *)
Theorem state_file_roundtrip Unmarshal path versions :
  StateDecoder Unmarshal -> storable versions -> (forall u, in_uint64 (GetVersion versions u)) ->
  load Unmarshal path (Contents (state_text (flush_entries versions))) = Ok versions.
Proof. intros Hd Hs Hr. by apply load_state_text. Qed.

Lemma state_file_roundtrip_witness :
  load strict_Unmarshal "s.json" (Contents (state_text (flush_entries {[ ("ann" : str) := 2 ]}))) =
  Ok {[ ("ann" : str) := 2 ]}.
Proof.
  apply state_file_roundtrip.
  - exact strict_decoder.
  - by apply map_Forall_singleton.
  - intros u. unfold GetVersion. destruct (decide (u = "ann"%go)) as [->|];
      [by rewrite lookup_singleton_eq|by rewrite lookup_singleton_ne].
Defined.
