(* ===== verification/Models.v ===== *)
(** * Connections and jobs (internal/models/context.go)

    The state bag of a connection. Its mutex makes each method atomic, so a method is
    a function of the bag. [sendCh] is the content of the bounded channel, oldest frame
    first; the context is the [cancelled] flag. *)
From S2P Require Import Prelude GoLib GoTime Config Protocol.

Inductive FrameType := FrameClose | FrameData.

Record Frame := { frame_Type : FrameType; frame_Payload : str }.

Record StateBag := mkBag {
  lastSeen : Time;
  lastPingAt : Time;
  closed : bool;
  helloTimeoutStarted : bool;
  pongAwaited : bool;
  helloReceived : bool;
  helloDeadline : Time;
  sendCh : list str;
  sendCap : Z;
  cancelled : bool;
  peerGone : bool }.

Definition NewStateBag (cfg : RuntimeConfig) (now : Time) : StateBag :=
  {| lastSeen := now; lastPingAt := now; closed := false; helloTimeoutStarted := false;
     pongAwaited := false; helloReceived := false;
     helloDeadline := Add now (duration (HelloTimeoutSeconds (Limits cfg)) Second);
     sendCh := []; sendCap := SendQueueCapacity (Limits cfg); cancelled := false; peerGone := false |}.

Definition SetLastSeen (t : Time) (s : StateBag) : StateBag :=
  mkBag t (lastPingAt s) (closed s) (helloTimeoutStarted s) (pongAwaited s) (helloReceived s)
    (helloDeadline s) (sendCh s) (sendCap s) (cancelled s) (peerGone s).

Definition SetLastPingAt (t : Time) (s : StateBag) : StateBag :=
  mkBag (lastSeen s) t (closed s) (helloTimeoutStarted s) (pongAwaited s) (helloReceived s)
    (helloDeadline s) (sendCh s) (sendCap s) (cancelled s) (peerGone s).

Definition set_pongAwaited (b : bool) (s : StateBag) : StateBag :=
  mkBag (lastSeen s) (lastPingAt s) (closed s) (helloTimeoutStarted s) b (helloReceived s)
    (helloDeadline s) (sendCh s) (sendCap s) (cancelled s) (peerGone s).

Definition MarkPingAwaitingPong (s : StateBag) : StateBag := set_pongAwaited true s.

Definition TryTakePongAwaiting (s : StateBag) : bool * StateBag :=
  if negb (pongAwaited s) then (false, s) else (true, set_pongAwaited false s).

Definition set_closed (s : StateBag) : StateBag :=
  mkBag (lastSeen s) (lastPingAt s) true (helloTimeoutStarted s) (pongAwaited s) (helloReceived s)
    (helloDeadline s) (sendCh s) (sendCap s) (cancelled s) (peerGone s).

(** The first caller gets [true]. *)
Definition MarkClosed (s : StateBag) : bool * StateBag :=
  if closed s then (false, s) else (true, set_closed s).

Definition TryStartHelloTimeout (s : StateBag) : bool * StateBag :=
  if helloTimeoutStarted s || closed s then (false, s)
  else (true, mkBag (lastSeen s) (lastPingAt s) (closed s) true (pongAwaited s) (helloReceived s)
                (helloDeadline s) (sendCh s) (sendCap s) (cancelled s) (peerGone s)).

Definition set_sendCh (q : list str) (s : StateBag) : StateBag :=
  mkBag (lastSeen s) (lastPingAt s) (closed s) (helloTimeoutStarted s) (pongAwaited s) (helloReceived s)
    (helloDeadline s) q (sendCap s) (cancelled s) (peerGone s).

(** A full channel refuses the frame; a channel has a positive capacity. *)
Definition TryEnqueueSend (payload : str) (s : StateBag) : bool * StateBag :=
  if len (sendCh s) <? sendCap s then (true, set_sendCh (sendCh s ++ [payload]) s) else (false, s).

(** What the send loop takes from the channel. *)
Definition ReceiveSend (s : StateBag) : option str * StateBag :=
  match sendCh s with [] => (None, s) | p :: q => (Some p, set_sendCh q s) end.

Definition Cancel (s : StateBag) : StateBag :=
  mkBag (lastSeen s) (lastPingAt s) (closed s) (helloTimeoutStarted s) (pongAwaited s) (helloReceived s)
    (helloDeadline s) (sendCh s) (sendCap s) true (peerGone s).

Definition SetHelloReceived (v : bool) (s : StateBag) : StateBag :=
  mkBag (lastSeen s) (lastPingAt s) (closed s) (helloTimeoutStarted s) (pongAwaited s) v
    (helloDeadline s) (sendCh s) (sendCap s) (cancelled s) (peerGone s).

Definition SignalPeerGone (s : StateBag) : StateBag :=
  mkBag (lastSeen s) (lastPingAt s) (closed s) (helloTimeoutStarted s) (pongAwaited s) (helloReceived s)
    (helloDeadline s) (sendCh s) (sendCap s) (cancelled s) true.

(** The idiom of every send of the hub: enqueue, or close and cancel when the queue is
    full. The flag tells whether the frame was queued. *)
Definition enqueue_or_close (payload : str) (s : StateBag) : bool * StateBag :=
  let '(queued, s1) := TryEnqueueSend payload s in
  if negb queued then
    let '(first, s2) := MarkClosed s1 in (queued, if first then Cancel s2 else s2)
  else (queued, s1).

Definition send_or_close (payload : str) (s : StateBag) : StateBag := (enqueue_or_close payload s).2.

(** ** Connections

    Connections and hubs are shared and compared by address: a location each. *)
Abbreviation loc := nat.

Record Connection := mkConnection {
  conn_ID : str; conn_Username : str; conn_ClientID : str; conn_ClientName : str;
  State : StateBag;
  conn_hub : option loc;       (** the hub it is attached to *)
  socket_closed : bool }.      (** the underlying connection was closed *)

Definition NewConnection (id username clientID clientName : str) (cfg : RuntimeConfig) (now : Time)
  : Connection :=
  mkConnection id username clientID clientName (NewStateBag cfg now) None false.

Definition with_State (f : StateBag -> StateBag) (c : Connection) : Connection :=
  mkConnection (conn_ID c) (conn_Username c) (conn_ClientID c) (conn_ClientName c) (f (State c))
    (conn_hub c) (socket_closed c).

(** Only the first hub sticks. *)
Definition AttachHub (h : loc) (c : Connection) : Connection :=
  mkConnection (conn_ID c) (conn_Username c) (conn_ClientID c) (conn_ClientName c) (State c)
    (match conn_hub c with None => Some h | Some h0 => Some h0 end) (socket_closed c).

Definition close_socket (c : Connection) : Connection :=
  mkConnection (conn_ID c) (conn_Username c) (conn_ClientID c) (conn_ClientName c) (State c)
    (conn_hub c) true.

Inductive RecoveryDecision := DecisionQueued | DecisionProcessNow | DecisionQueueFull.

Record RecoveryClip := { rc_Clip : ClientClip; rc_Connection : loc }.

Inductive UserJob :=
| ClipJob (Sender : loc) (Clip : ClientClip)
| HelloJob (connection : loc) (hello : ClientHello)
| PongJob (connection : loc) (pong : ClientPong)
| DisconnectJob (connection : loc) (reason : str).

(** ** Invariant of a bag *)

(** The send queue respects its capacity, and a closed connection is cancelled. *)
Record bag_ok (s : StateBag) : Prop := {
  bag_bounded : len (sendCh s) <= sendCap s;
  bag_cancelled : closed s = true -> cancelled s = true }.

Lemma NewStateBag_ok cfg now : 0 <= SendQueueCapacity (Limits cfg) -> bag_ok (NewStateBag cfg now).
Proof. by split. Qed.

Lemma send_or_close_ok p s : bag_ok s -> bag_ok (send_or_close p s).
Proof.
  intros [Hb Hc]. unfold send_or_close, enqueue_or_close, TryEnqueueSend, MarkClosed.
  destruct (Z.ltb_spec (len (sendCh s)) (sendCap s)); cbn [negb].
  - split; simpl; [|done]. rewrite len_app, len_cons, len_nil. lia.
  - destruct (closed s) eqn:E; split; simpl; auto.
Qed.

(** What a send does: the frame is the last of the queue, or the queue was full and the
    connection is closed. *)
Lemma send_or_close_spec p s :
  (len (sendCh s) < sendCap s /\ send_or_close p s = set_sendCh (sendCh s ++ [p]) s) \/
  (sendCap s <= len (sendCh s) /\ sendCh (send_or_close p s) = sendCh s /\
   closed (send_or_close p s) = true).
Proof.
  unfold send_or_close, enqueue_or_close, TryEnqueueSend, MarkClosed.
  destruct (Z.ltb_spec (len (sendCh s)) (sendCap s)); cbn [negb]; [by left|right].
  destruct (closed s) eqn:E; auto.
Qed.
