(* ===== verification/World.v ===== *)
(** * The server's shared state and its effects

    Hubs and connections live at locations and are compared by location, as the
    pointers of the sources are; the registry maps a user name to a hub. An operation is
    a state transformer that may panic; what it did before the panic stays. The log is
    the list of emitted records, oldest first. *)
From S2P Require Import Prelude GoLib GoTime Config Protocol Logic Ring Bucket Users Store Models.

Inductive LogValue := LStr (s : str) | LInt (n : Z) | LBool (b : bool).

(** Records of the structured log: security events with their fields, and messages. *)
Inductive LogEntry :=
| SecurityEvent (event : str) (fields : list (str * LogValue))
| LogInfo (msg : str) | LogWarn (msg : str) | LogError (msg exception : str).

(** ** Hubs (the struct of internal/hub/hub.go) *)

Record Hub := mkHub {
  h_username : str;
  processStart : Time;
  latest : option LatestText;
  version : Z;
  connections : list loc;
  snapshotCandidates : list ClientHello;
  snapshotBytes : Z;
  recoveryQueue : list RecoveryClip;
  recoveryWindowClosed : bool;
  clipBucket : Bucket;
  seenIDs : Ring;
  jobs : list UserJob;
  lastActivityNs : Z;
  userLoopRunning : bool }.

Definition set_latest (l : option LatestText) (v : Z) (h : Hub) : Hub :=
  mkHub (h_username h) (processStart h) l v (connections h) (snapshotCandidates h) (snapshotBytes h)
    (recoveryQueue h) (recoveryWindowClosed h) (clipBucket h) (seenIDs h) (jobs h) (lastActivityNs h)
    (userLoopRunning h).
Definition set_connections (cs : list loc) (h : Hub) : Hub :=
  mkHub (h_username h) (processStart h) (latest h) (version h) cs (snapshotCandidates h) (snapshotBytes h)
    (recoveryQueue h) (recoveryWindowClosed h) (clipBucket h) (seenIDs h) (jobs h) (lastActivityNs h)
    (userLoopRunning h).
Definition set_candidates (cs : list ClientHello) (n : Z) (h : Hub) : Hub :=
  mkHub (h_username h) (processStart h) (latest h) (version h) (connections h) cs n
    (recoveryQueue h) (recoveryWindowClosed h) (clipBucket h) (seenIDs h) (jobs h) (lastActivityNs h)
    (userLoopRunning h).
Definition set_recoveryQueue (q : list RecoveryClip) (h : Hub) : Hub :=
  mkHub (h_username h) (processStart h) (latest h) (version h) (connections h) (snapshotCandidates h)
    (snapshotBytes h) q (recoveryWindowClosed h) (clipBucket h) (seenIDs h) (jobs h) (lastActivityNs h)
    (userLoopRunning h).
Definition set_windowClosed (h : Hub) : Hub :=
  mkHub (h_username h) (processStart h) (latest h) (version h) (connections h) (snapshotCandidates h)
    (snapshotBytes h) (recoveryQueue h) true (clipBucket h) (seenIDs h) (jobs h) (lastActivityNs h)
    (userLoopRunning h).
Definition set_bucket (b : Bucket) (h : Hub) : Hub :=
  mkHub (h_username h) (processStart h) (latest h) (version h) (connections h) (snapshotCandidates h)
    (snapshotBytes h) (recoveryQueue h) (recoveryWindowClosed h) b (seenIDs h) (jobs h) (lastActivityNs h)
    (userLoopRunning h).
Definition set_seenIDs (r : Ring) (h : Hub) : Hub :=
  mkHub (h_username h) (processStart h) (latest h) (version h) (connections h) (snapshotCandidates h)
    (snapshotBytes h) (recoveryQueue h) (recoveryWindowClosed h) (clipBucket h) r (jobs h) (lastActivityNs h)
    (userLoopRunning h).
Definition set_jobs (js : list UserJob) (h : Hub) : Hub :=
  mkHub (h_username h) (processStart h) (latest h) (version h) (connections h) (snapshotCandidates h)
    (snapshotBytes h) (recoveryQueue h) (recoveryWindowClosed h) (clipBucket h) (seenIDs h) js (lastActivityNs h)
    (userLoopRunning h).
Definition set_activity (n : Z) (h : Hub) : Hub :=
  mkHub (h_username h) (processStart h) (latest h) (version h) (connections h) (snapshotCandidates h)
    (snapshotBytes h) (recoveryQueue h) (recoveryWindowClosed h) (clipBucket h) (seenIDs h) (jobs h) n
    (userLoopRunning h).
Definition set_running (b : bool) (h : Hub) : Hub :=
  mkHub (h_username h) (processStart h) (latest h) (version h) (connections h) (snapshotCandidates h)
    (snapshotBytes h) (recoveryQueue h) (recoveryWindowClosed h) (clipBucket h) (seenIDs h) (jobs h)
    (lastActivityNs h) b.

(** ** The world *)

Record World := mkWorld {
  cfg : RuntimeConfig;
  clk : Time;                         (** what the clock gives; [set_clk] moves it, and [nowUTC] reads it *)
  hubs : loc -> Hub;
  next_hub : loc;                     (** the next free hub location *)
  conns : loc -> Connection;
  registry : gmap str loc;
  pendingHellos : list loc;
  versions : Versions;                (** the version store's map and flag *)
  isDirty : bool;
  lookup_table : gmap str UserRecord;
  server_start : Time;
  logged : list LogEntry }.

Definition set_hubs (f : loc -> Hub) (w : World) : World :=
  mkWorld (cfg w) (clk w) f (next_hub w) (conns w) (registry w) (pendingHellos w) (versions w)
    (isDirty w) (lookup_table w) (server_start w) (logged w).
Definition set_next_hub (n : loc) (w : World) : World :=
  mkWorld (cfg w) (clk w) (hubs w) n (conns w) (registry w) (pendingHellos w) (versions w)
    (isDirty w) (lookup_table w) (server_start w) (logged w).
Definition set_conns (f : loc -> Connection) (w : World) : World :=
  mkWorld (cfg w) (clk w) (hubs w) (next_hub w) f (registry w) (pendingHellos w) (versions w)
    (isDirty w) (lookup_table w) (server_start w) (logged w).
Definition set_registry (r : gmap str loc) (w : World) : World :=
  mkWorld (cfg w) (clk w) (hubs w) (next_hub w) (conns w) r (pendingHellos w) (versions w)
    (isDirty w) (lookup_table w) (server_start w) (logged w).
Definition set_pending (p : list loc) (w : World) : World :=
  mkWorld (cfg w) (clk w) (hubs w) (next_hub w) (conns w) (registry w) p (versions w)
    (isDirty w) (lookup_table w) (server_start w) (logged w).
Definition set_store (v : Versions) (d : bool) (w : World) : World :=
  mkWorld (cfg w) (clk w) (hubs w) (next_hub w) (conns w) (registry w) (pendingHellos w) v
    d (lookup_table w) (server_start w) (logged w).
Definition set_lookup (t : gmap str UserRecord) (w : World) : World :=
  mkWorld (cfg w) (clk w) (hubs w) (next_hub w) (conns w) (registry w) (pendingHellos w) (versions w)
    (isDirty w) t (server_start w) (logged w).
Definition set_logged (l : list LogEntry) (w : World) : World :=
  mkWorld (cfg w) (clk w) (hubs w) (next_hub w) (conns w) (registry w) (pendingHellos w) (versions w)
    (isDirty w) (lookup_table w) (server_start w) l.

(** The clock is read by joins, leaves and idle checks; it moves between events, never inside one. *)
Definition set_clk (t : Time) (w : World) : World :=
  mkWorld (cfg w) t (hubs w) (next_hub w) (conns w) (registry w) (pendingHellos w) (versions w)
    (isDirty w) (lookup_table w) (server_start w) (logged w).

(** ** Effects *)

Definition M (A : Type) : Type := World -> panics A * World.

#[global] Instance M_ret : MRet M := fun A a w => (Ok a, w).
#[global] Instance M_bind : MBind M := fun A B k m w =>
  match m w with
  | (Ok a, w') => k a w'
  | (Err e, w') => (Err e, w')
  end.

Definition gets {A} (f : World -> A) : M A := fun w => (Ok (f w), w).
Definition modify (f : World -> World) : M unit := fun w => (Ok tt, f w).
Definition lift {A} (r : panics A) : M A := fun w => (r, w).

(** [time.Now().UTC()], as [nowUTC] of the registry, the hub and [clock.System] read it. *)
Definition nowUTC : M Time := gets clk.

Definition get_hub (h : loc) : M Hub := gets (fun w => hubs w h).
Definition get_conn (c : loc) : M Connection := gets (fun w => conns w c).
Definition modify_hub (h : loc) (f : Hub -> Hub) : M unit :=
  modify (fun w => set_hubs (<[h := f (hubs w h)]> (hubs w)) w).
Definition modify_conn (c : loc) (f : Connection -> Connection) : M unit :=
  modify (fun w => set_conns (<[c := f (conns w c)]> (conns w)) w).
Definition log (e : LogEntry) : M unit := modify (fun w => set_logged (logged w ++ [e]) w).

(** Call a method of the connection's state bag. *)
Definition bag_do {A} (c : loc) (f : StateBag -> A * StateBag) : M A := fun w =>
  let '(a, s) := f (State (conns w c)) in
  (Ok a, set_conns (<[c := with_State (fun _ => s) (conns w c)]> (conns w)) w).

(** [store.SaveVersion]. *)
Definition save_version (username : str) (v : Z) : M unit :=
  modify (fun w => set_store (save_max (versions w) username v) true w).

(** [store.Flush] run alone: the text that replaced the state file, if one did; [written]: did [writeAtomic]
    succeed? A failure leaves the flag set. *)
Definition store_flush (written : bool) : M (option str) := fun w =>
  if negb (isDirty w) then (Ok None, w)
  else if written then (Ok (Some (state_text (flush_entries (versions w)))), set_store (versions w) false w)
  else (Ok None, set_store (versions w) true w).

Fixpoint for_each {A} (l : list A) (f : A -> M unit) : M unit :=
  match l with
  | [] => mret tt
  | x :: l' => f x ;; for_each l' f
  end.

(** [defer]red [recover]: the handler gets the panic's message. *)
Definition try_recover (m : M unit) (handler : str -> M unit) : M unit := fun w =>
  match m w with
  | (Err e, w') => handler e w'
  | (Ok a, w') => (Ok a, w')
  end.

(** [strings.Join] with a comma. *)
Fixpoint join_comma (ss : list str) : str :=
  match ss with
  | [] => []
  | [s] => s
  | s :: ss' => s ++ "," ++ join_comma ss'
  end.
