(* ===== verification/Hub.v ===== *)
(** * The hub of a user (internal/hub/hub.go) and the registry (internal/hub/registry.go)

    Every method of the sources, in the state-and-panic monad of [World]. Each is one
    atomic operation here. *)
From S2P Require Import Prelude GoLib GoTime Config Protocol Serialize Logic Ring Bucket Users Store Models World.

(** ** What a hub asks of its server (internal/hub/coordinator.go) *)

Class Coordinator := {
  CancelConnection : loc -> str -> M unit;
  RebuildHub : loc -> M unit;
  RemoveEmptyHubAfterRecovery : loc -> M unit }.

(** ** Construction *)

Definition New (username : str) (cfg : RuntimeConfig) (processStart : Time) (initialVersion : Z)
  : panics Hub :=
  let? bucket := NewBucket (ClipBurst (RateLimit cfg)) (float64 (ClipTokensPerSecond (RateLimit cfg)))
                   processStart in
  let? ring := NewRing (SeenIdCapacity (Limits cfg)) in
  Ok {| h_username := username; processStart := processStart; latest := None; version := initialVersion;
        connections := []; snapshotCandidates := []; snapshotBytes := 0; recoveryQueue := [];
        recoveryWindowClosed := false; clipBucket := bucket; seenIDs := ring; jobs := [];
        lastActivityNs := UnixNano processStart; userLoopRunning := false |}.

(** ** Queries *)

Definition Latest (h : loc) : M (option LatestText) := gets (fun w => latest (hubs w h)).
Definition hub_Version (h : loc) : M Z := gets (fun w => version (hubs w h)).
Definition IsEmpty (h : loc) : M bool := gets (fun w => len (connections (hubs w h)) =? 0).
Definition Connections (h : loc) : M (list loc) := gets (fun w => connections (hubs w h)).
Definition LastActivityAt (h : loc) : M Time := gets (fun w => utc (lastActivityNs (hubs w h))).

(** The instant the recovery window ends. *)
Definition window_end (cfg : RuntimeConfig) (h : Hub) : Time :=
  Add (processStart h) (duration (SnapshotWindowSeconds (Limits cfg)) Second).

Definition IsRecoveryWindowOpen (h : loc) (now : Time) : M bool :=
  gets (fun w => negb (recoveryWindowClosed (hubs w h)) && Before now (window_end (cfg w) (hubs w h))).

Definition isRecoveryWindowClosed (h : loc) : M bool := gets (fun w => recoveryWindowClosed (hubs w h)).

Definition markActivity (h : loc) (now : Time) : M unit := modify_hub h (set_activity (UnixNano now)).
Definition MarkActivityForScan (h : loc) (now : Time) : M unit := markActivity h now.

(** ** Sends *)

Definition broadcastToConnection (c : loc) (payload : str) : M unit :=
  modify_conn c (with_State (send_or_close payload)).

Definition broadcastWelcome (h : loc) (now : Time) : M unit :=
  l ← Latest h;
  cs ← Connections h;
  for_each cs (fun c => broadcastToConnection c (MarshalWelcome l)).

Definition Broadcast (h : loc) (payload : str) : M unit :=
  cs ← Connections h;
  for_each cs (fun c =>
    conn ← get_conn c;
    if closed (State conn) then mret tt else broadcastToConnection c payload).

(** ** Jobs *)

Definition push (h : loc) (job : UserJob) : M unit := modify_hub h (fun hub => set_jobs (jobs hub ++ [job]) hub).

Definition pop (h : loc) : M (option UserJob) :=
  hub ← get_hub h;
  match jobs hub with
  | [] => mret None
  | job :: js => modify_hub h (set_jobs js) ;; mret (Some job)
  end.

Definition TryWriteJob (h : loc) (job : UserJob) : M bool := push h job ;; mret true.

(** ** Snapshots and the recovery window *)

Definition AcceptSnapshot (h : loc) (hello : ClientHello) : M unit :=
  hub ← get_hub h;
  if recoveryWindowClosed hub then mret tt
  else
    match Snapshot hello with
    | None => mret tt
    | Some s =>
        let bytes := len (snap_Payload s) in
        limit ← gets (fun w => SnapshotTotalBytes (Limits (cfg w)));
        if limit <? snapshotBytes hub + bytes then mret tt
        else modify_hub h (set_candidates (snapshotCandidates hub ++ [hello]) (snapshotBytes hub + bytes))
    end.

Definition ClassifyClip (h : loc) (clip : ClientClip) (c : loc) : M RecoveryDecision :=
  hub ← get_hub h;
  if recoveryWindowClosed hub then mret DecisionProcessNow
  else
    capacity ← gets (fun w => RecoveryClipQueueCapacity (Limits (cfg w)));
    if capacity <=? len (recoveryQueue hub) then mret DecisionQueueFull
    else
      modify_hub h (set_recoveryQueue (recoveryQueue hub ++ [{| rc_Clip := clip; rc_Connection := c |}])) ;;
      mret DecisionQueued.

(** ** Clips *)

(** The acknowledgement of a duplicate; the last case is for a ring entry without a result. *)
Definition ack_latest (duplicateLatest : option LatestText) (hub : Hub) (sender : Connection) (now : Time)
  : LatestText :=
  match duplicateLatest with
  | Some l => l
  | None =>
      match latest hub with
      | Some l => l
      | None => {| Payload := []; Version := version hub; Hash := []; Encrypted := false;
                   FromClientID := conn_ClientID sender; FromClientName := conn_ClientName sender;
                   UpdatedAtUtc := now |}
      end
  end.

Definition clip_latest (clip : ClientClip) (next : Z) (sender : Connection) (now : Time) : LatestText :=
  {| Payload := clip_Payload clip; Version := next; Hash := clip_Hash clip;
     Encrypted := clip_Encrypted clip; FromClientID := conn_ClientID sender;
     FromClientName := conn_ClientName sender; UpdatedAtUtc := now |}.

(** The broadcast loop: every connection but the sender's, with its entry for the log. *)
Fixpoint deliver (cs : list loc) (sender : loc) (bytes : str) : M (list str) :=
  match cs with
  | [] => mret []
  | c :: cs' =>
      if bool_decide (c = sender) then deliver cs' sender bytes
      else
        conn ← get_conn c;
        queued ← bag_do c (enqueue_or_close bytes);
        ds ← deliver cs' sender bytes;
        mret ((conn_ClientID conn ++ if (queued : bool) then ":queued" else ":full") :: ds)
  end.

(** The token bucket of the hub. *)
Definition try_acquire (h : loc) (now : Time) : M bool :=
  hub ← get_hub h;
  let '(ok, b) := TryAcquire (clipBucket hub) now in
  modify_hub h (set_bucket b) ;; mret ok.

Definition remember (h : loc) (id : str) (l : LatestText) : M unit :=
  hub ← get_hub h;
  r ← lift (Remember (seenIDs hub) id (Some l));
  modify_hub h (set_seenIDs r).

Definition reused_message (hub : Hub) (clip : ClientClip) (sender : Connection) : str :=
  "Replacing reused clip id. username=" ++ h_username hub ++ " clipId=" ++ clip_ID clip ++
  " clientId=" ++ conn_ClientID sender ++ " previousVersion=" ++ FormatUint (version hub).

Definition broadcast_message (hub : Hub) (next : Z) (clip : ClientClip) (deliveries : list str) : str :=
  "Clip broadcast. username=" ++ h_username hub ++ " version=" ++ FormatUint next ++ " clipId=" ++
  clip_ID clip ++ " recipients=[" ++ join_comma deliveries ++ "]".

Definition ApplyClip (h : loc) (clip : ClientClip) (sender : loc) (now : Time) : M unit :=
  hub ← get_hub h;
  s ← get_conn sender;
  let '(duplicateLatest, unchanged) :=
    IsUnchangedDuplicate (seenIDs hub) (clip_ID clip) (clip_Payload clip) (clip_Hash clip)
      (clip_Encrypted clip) in
  if (unchanged : bool) then
    broadcastToConnection sender (MarshalClipAck (clip_ID clip) (ack_latest duplicateLatest hub s now))
  else
    (if (TryGet (seenIDs hub) (clip_ID clip)).2 then log (LogWarn (reused_message hub clip s)) else mret tt) ;;
    allowed ← try_acquire h now;
    if negb allowed then
      log (SecurityEvent "reject" [("username", LStr (h_username hub)); ("code", LStr "rate_limited");
             ("bytes", LInt (len (clip_Payload clip)))]) ;;
      broadcastToConnection sender
        (MarshalError (mkError ErrRateLimited "Clip rate limited." (Some (clip_ID clip))))
    else
      next ← lift (NextVersion (version hub));
      save_version (h_username hub) next ;;
      let l := clip_latest clip next s now in
      modify_hub h (set_latest (Some l) next) ;;
      remember h (clip_ID clip) l ;;
      log (SecurityEvent "clip" [("username", LStr (h_username hub)); ("version", LInt next);
             ("clipId", LStr (clip_ID clip)); ("bytes", LInt (len (clip_Payload clip)));
             ("fromClientId", LStr (conn_ClientID s)); ("encrypted", LBool (clip_Encrypted clip))]) ;;
      cs ← Connections h;
      deliveries ← deliver cs sender (MarshalClip (clip_ID clip) l);
      log (LogInfo (broadcast_message hub next clip deliveries)) ;;
      broadcastToConnection sender (MarshalClipAck (clip_ID clip) l).

(** The state part of the restoration: the elected snapshot wins over a lower version, or
    over an equal one when there is no text yet. *)
Definition restore_snapshot (h : loc) (winner : Winner) : M unit :=
  hub ← get_hub h;
  if (version hub <? win_Version winner) ||
     ((win_Version winner =? version hub) && match latest hub with None => true | Some _ => false end)
  then
    (if version hub <? win_Version winner then save_version (h_username hub) (win_Version winner) else mret tt) ;;
    modify_hub h (set_latest (Some (LatestFromSnapshot (win_Snapshot winner) (win_Version winner)
                               (win_ClientID winner) (win_ClientName winner))) (win_Version winner))
  else mret tt.

(** One clip of the recovery queue; a connection closed meanwhile loses it. *)
Definition apply_recovery (h : loc) (now : Time) (rc : RecoveryClip) : M unit :=
  conn ← get_conn (rc_Connection rc);
  if closed (State conn) then mret tt else ApplyClip h (rc_Clip rc) (rc_Connection rc) now.

Section With_coordinator.
Context `{Coordinator}.

Definition CloseRecoveryWindow (h : loc) (now : Time) : M unit :=
  hub ← get_hub h;
  if recoveryWindowClosed hub then mret tt
  else
    modify_hub h set_windowClosed ;;
    match SelectSnapshotWinner (snapshotCandidates hub) with
    | Some winner => restore_snapshot h winner
    | None => mret tt
    end ;;
    modify_hub h (set_recoveryQueue []) ;;
    for_each (recoveryQueue hub) (apply_recovery h now) ;;
    broadcastWelcome h now ;;
    RemoveEmptyHubAfterRecovery h ;;
    markActivity h now.

Definition EnsureRecoveryWindowClosed (h : loc) (now : Time) : M unit :=
  hub ← get_hub h;
  stop ← gets (fun w => window_end (cfg w) hub);
  if negb (recoveryWindowClosed hub) && negb (Before now stop) then CloseRecoveryWindow h now else mret tt.

Definition AddConnection (h : loc) (c : loc) : M unit :=
  now ← nowUTC;
  modify_hub h (fun hub => set_connections (connections hub ++ [c]) hub) ;;
  markActivity h now ;;
  windowClosed ← isRecoveryWindowClosed h;
  if (windowClosed : bool) then
    l ← Latest h; broadcastToConnection c (MarshalWelcome l)
  else EnsureRecoveryWindowClosed h now.

Definition processJob (h : loc) (job : UserJob) (now : Time) : M unit :=
  match job with
  | ClipJob sender clip => ApplyClip h clip sender now
  | PongJob c _ => modify_conn c (with_State (SetLastSeen now))
  | HelloJob c hello =>
      modify_conn c (with_State (SetHelloReceived true)) ;;
      match Snapshot hello with Some _ => AcceptSnapshot h hello | None => mret tt end
  | DisconnectJob c reason => CancelConnection c reason
  end.

(** Drain the queue: what the user loop does between two waits. The loop itself never
    returns; [fuel] bounds the number of jobs. *)
Fixpoint drain (fuel : nat) (h : loc) (now : Time) : M unit :=
  match fuel with
  | O => mret tt
  | S f =>
      next ← pop h;
      match next with
      | None => mret tt
      | Some job => processJob h job now ;; drain f h now
      end
  end.

(** [true] when the caller has to start the user loop. *)
Definition StartIfIdle (h : loc) : M bool :=
  hub ← get_hub h;
  if userLoopRunning hub then mret false else modify_hub h (set_running true) ;; mret true.

(** The goroutine of the user loop over the jobs at hand: a panic is logged, the hub is
    rebuilt and the loop ends. *)
Definition user_loop (fuel : nat) (h : loc) (now : Time) : M unit :=
  try_recover (drain fuel h now) (fun e =>
    hub ← get_hub h;
    log (LogError ("User loop failed; rebuilding hub. username=" ++ h_username hub) e) ;;
    RebuildHub h ;;
    modify_hub h (set_running false)).
End With_coordinator.

(** ** Removal *)

Fixpoint remove_first (c : loc) (cs : list loc) : list loc :=
  match cs with
  | [] => []
  | x :: cs' => if bool_decide (x = c) then cs' else x :: remove_first c cs'
  end.

Definition RemoveConnection (h : loc) (c : loc) : M bool :=
  hub ← get_hub h;
  now ← nowUTC;
  let removed := bool_decide (c ∈ connections hub) in
  modify_hub h (set_connections (remove_first c (connections hub))) ;;
  (if removed then markActivity h now else mret tt) ;;
  mret removed.

(** ** The registry *)

(** The factory runs under the lock; a fresh hub gets a fresh location. *)
Definition GetOrAdd (username : str) (factory : str -> panics Hub) : M loc :=
  r ← gets registry;
  match r !! username with
  | Some h => mret h
  | None =>
      hub ← lift (factory username);
      h ← gets next_hub;
      modify (fun w => set_registry (<[username := h]> (registry w))
                        (set_next_hub (S h) (set_hubs (<[h := hub]> (hubs w)) w))) ;;
      mret h
  end.

Definition registry_TryGet (username : str) : M (option loc) := gets (fun w => registry w !! username).

(** Delete the mapping only while it still points to this hub. *)
Definition registry_Remove (h : loc) : M bool :=
  hub ← get_hub h;
  r ← gets registry;
  if bool_decide (r !! h_username hub = Some h) then
    modify (fun w => set_registry (delete (h_username hub) (registry w)) w) ;; mret true
  else mret false.

Definition RemoveIfEmpty (h : loc) (allowDuringRecovery : bool) : M unit :=
  empty ← IsEmpty h;
  now ← nowUTC;
  opened ← IsRecoveryWindowOpen h now;
  if negb empty then mret tt
  else if negb allowDuringRecovery && opened then mret tt
  else registry_Remove h ;; mret tt.

Definition All : M (list loc) := gets (fun w => (map_to_list (registry w)).*2).
