(* ===== verification/Sync.v ===== *)
(** * The sync server (internal/sync/server.go)

    The coordinator the hubs call back, heart beats, hub creation and shut-down. A hello timeout is its parts:
    [closeAfterHelloTimeout] takes whether the two writes succeeded, and the goroutine and its sleep take no step.
    A shut-down is two parts, around its wait for the byes to leave: [Shutdown_bye] and [Shutdown_close], which ends with
    the flush of the store; anything may come in between. *)
From S2P Require Import Prelude GoLib GoTime Config Protocol Serialize Logic Ring Bucket Users Store Models World Hub.

(** ** Construction *)

(** What a location holds before a hub is allocated there; the program never looks at one. *)
Definition blank_hub (c : RuntimeConfig) (start : Time) : Hub :=
  {| h_username := "unallocated"; processStart := start; latest := None; version := 0; connections := [];
     snapshotCandidates := []; snapshotBytes := 0; recoveryQueue := []; recoveryWindowClosed := false;
     clipBucket := mkBucket (float64 0) start 0 (float64 0);
     seenIDs := mkRing ∅ (replicate (Z.to_nat (SeenIdCapacity (Limits c))) []) 0; jobs := [];
     lastActivityNs := UnixNano start; userLoopRunning := false |}.

(** The server at start: the users of the file, the loaded versions, no hub. *)
Definition server_New (c : RuntimeConfig) (f : Users.UsersFile) (loaded : Versions) (now : Time) : World :=
  {| cfg := c; clk := now; hubs := fun _ => blank_hub c now; next_hub := 0;
     conns := fun _ => NewConnection [] [] [] [] c now; registry := ∅; pendingHellos := [];
     versions := loaded; isDirty := false; lookup_table := BuildLookup f; server_start := now; logged := [] |}.

(** ** Pending hellos *)

Definition RegisterPendingHello (c : loc) : M unit :=
  modify (fun w => set_pending (pendingHellos w ++ [c]) w).

Definition UnregisterPendingHello (c : loc) : M unit :=
  modify (fun w => set_pending (remove_first c (pendingHellos w)) w).

(** ** Closing connections *)

Definition disconnect_event (c : Connection) (reason : str) : LogEntry :=
  SecurityEvent "disconnect" [("username", LStr (conn_Username c)); ("clientId", LStr (conn_ClientID c));
    ("connectionId", LStr (conn_ID c)); ("reason", LStr reason)].

Definition server_CancelConnection (c : loc) (reason : str) : M unit :=
  UnregisterPendingHello c ;;
  first ← bag_do c MarkClosed;
  if negb first then mret tt
  else
    modify_conn c (with_State Cancel) ;;
    modify_conn c close_socket ;;
    conn ← get_conn c;
    match conn_hub conn with
    | None => mret tt
    | Some h => RemoveConnection h c ;; log (disconnect_event conn reason)
    end.

(** The reason is ignored and nothing is logged. *)
Definition EnqueueImmediateClose (c : loc) (reason : str) : M unit :=
  first ← bag_do c MarkClosed;
  if negb first then mret tt
  else
    modify_conn c (with_State Cancel) ;;
    modify_conn c close_socket ;;
    conn ← get_conn c;
    match conn_hub conn with
    | None => mret tt
    | Some h => RemoveConnection h c ;; mret tt
    end.

(** ** Hubs *)

Definition server_RemoveEmptyHubAfterRecovery (h : loc) : M unit := RemoveIfEmpty h true.

Definition server_RebuildHub (h : loc) : M unit :=
  removed ← registry_Remove h;
  if negb removed then mret tt
  else
    cs ← Connections h;
    for_each cs (fun c => server_CancelConnection c "user_loop_failed") ;;
    RemoveIfEmpty h true.

#[export] Instance server_Coordinator : Coordinator := {
  CancelConnection := server_CancelConnection;
  RebuildHub := server_RebuildHub;
  RemoveEmptyHubAfterRecovery := server_RemoveEmptyHubAfterRecovery }.

(** The flag tells whether the user loop was started by this call. *)
Definition GetOrCreateHub (username : str) : M (loc * bool) :=
  initialVersion ← gets (fun w => GetVersion (versions w) username);
  c ← gets cfg;
  start ← gets server_start;
  h ← GetOrAdd username (fun name => New name c start initialVersion);
  started ← StartIfIdle h;
  mret (h, started).

Definition ReplaceUserLookup (f : UsersFile) : M unit := modify (set_lookup (BuildLookup f)).

(** ** Hello timeouts *)

(** What [closeAfterHelloTimeout] does: the error frame is written directly; when it or the
    close frame fails the socket is aborted; the connection is cancelled in any case. *)
Definition closeAfterHelloTimeout (c : loc) (errorWritten closeWritten : bool) : M unit :=
  conn ← get_conn c;
  (if closed (State conn) then mret tt
   else if negb errorWritten then EnqueueImmediateClose c "server_busy"
   else if negb closeWritten then EnqueueImmediateClose c "server_busy"
   else mret tt) ;;
  server_CancelConnection c "hello_timeout".

(** [true] when the closing goroutine is started. *)
Definition enqueueHelloTimeout (c : loc) : M bool :=
  started ← bag_do c TryStartHelloTimeout;
  if negb started then mret false
  else UnregisterPendingHello c ;; mret true.

(** ** Heart beats *)

(** One connection of the scan; [true] when it timed out. *)
Definition scan_connection (h : loc) (now : Time) (pingInterval timeout : Z) (pingBytes : str) (c : loc)
  : M bool :=
  conn ← get_conn c;
  let s := State conn in
  if negb (helloReceived s) && negb (Before now (helloDeadline s)) then mret true
  else
    (if helloReceived s && (pingInterval <=? Sub now (lastPingAt s)) then
       modify_conn c (with_State (SetLastPingAt now)) ;;
       modify_conn c (with_State MarkPingAwaitingPong) ;;
       broadcastToConnection c pingBytes
     else mret tt) ;;
    MarkActivityForScan h now ;;
    mret (timeout <=? Sub now (lastSeen s)).

Fixpoint scan_connections (h : loc) (now : Time) (pingInterval timeout : Z) (pingBytes : str) (cs : list loc)
  : M (list loc) :=
  match cs with
  | [] => mret []
  | c :: cs' =>
      out ← scan_connection h now pingInterval timeout pingBytes c;
      rest ← scan_connections h now pingInterval timeout pingBytes cs';
      mret (if (out : bool) then c :: rest else rest)
  end.

(** A timed-out connection: hello timeout before the hello, heart-beat timeout after. *)
Definition expire (c : loc) : M unit :=
  conn ← get_conn c;
  if negb (helloReceived (State conn)) then enqueueHelloTimeout c ;; mret tt
  else server_CancelConnection c "heartbeat_timeout".

Definition scan_hub (now : Time) (h : loc) : M unit :=
  c ← gets cfg;
  cs ← Connections h;
  timedOut ← scan_connections h now (duration (HeartbeatIntervalSeconds (Limits c)) Second)
               (duration (HeartbeatTimeoutSeconds (Limits c)) Second) (MarshalPing now) (rev cs);
  for_each timedOut expire ;;
  empty ← IsEmpty h;
  last ← LastActivityAt h;
  if (empty : bool) && (10 * Minute <=? Sub now last) then RemoveIfEmpty h false else mret tt.

Definition ScanHeartbeats (now : Time) : M unit :=
  all ← All;
  for_each all (scan_hub now) ;;
  pending ← gets pendingHellos;
  heap ← gets conns;
  let expired := filter (fun c => helloReceived (State (heap c)) = false /\
                                  Before now (helloDeadline (State (heap c))) = false) pending in
  for_each expired (fun c => enqueueHelloTimeout c ;; mret tt).

(** ** Shut-down *)

(** The bye round: the connections that got it. *)
Fixpoint send_bye (cs : list loc) (bye : str) : M (list loc) :=
  match cs with
  | [] => mret []
  | c :: cs' =>
      conn ← get_conn c;
      if closed (State conn) then send_bye cs' bye
      else
        queued ← bag_do c (TryEnqueueSend bye);
        rest ← send_bye cs' bye;
        mret (if (queued : bool) then c :: rest else rest)
  end.

Definition all_connections : M (list loc) :=
  gets (fun w => (map_to_list (registry w)).*2 ≫= (fun h => connections (hubs w h))).

Definition cancel_hub (h : loc) : M unit :=
  cs ← Connections h;
  for_each cs (fun c => server_CancelConnection c "server_shutdown").

(** [Shutdown] up to its waits, for the peers' close frames and the drain: the connections that got the bye. *)
Definition Shutdown_bye : M (list loc) :=
  cs ← all_connections;
  send_bye cs (MarshalBye "server_shutdown").

(** [Shutdown] after its waits: every connection of every hub is cancelled and the store is flushed; the text
    written to the state file. *)
Definition Shutdown_close (written : bool) : M (option str) :=
  all ← All;
  for_each all cancel_hub ;;
  store_flush written.

(** [Shutdown] when nothing else runs during the waits. *)
Definition Shutdown (written : bool) : M (list loc * option str) :=
  told ← Shutdown_bye;
  text ← Shutdown_close written;
  mret (told, text).
