(* ===== verification/HubSpec.v ===== *)
(** * Correctness of the hub

    The invariant of the shared state, that every hub operation keeps it and only moves
    versions forward, and what each outcome of [ApplyClip] does. *)
From S2P Require Import Prelude GoLib GoTime Config Protocol Serialize Logic Ring Bucket Users Store Models World Hub.

#[local] Arguments Remember : simpl never.
#[local] Arguments NextVersion : simpl never.
#[local] Arguments TryAcquire : simpl never.
#[local] Arguments TryGet : simpl never.
#[local] Arguments clip_latest : simpl never.
#[local] Arguments MarshalClip : simpl never.
#[local] Arguments MarshalClipAck : simpl never.
#[local] Arguments MarshalError : simpl never.

(** ** Invariant *)

Definition payload_bytes (hello : ClientHello) : Z :=
  match Snapshot hello with Some s => len (snap_Payload s) | None => 0 end.

Definition total_bytes (hs : list ClientHello) : Z := foldr (fun h n => payload_bytes h + n) 0 hs.

(** A hello job carries a 64-bit version. *)
Definition job_ok (job : UserJob) : Prop :=
  match job with HelloJob _ hello => in_uint64 (LastServerVersion hello) | _ => True end.

(** The invariant of one hub: its text carries its version, the ring is well formed, a
    connection is listed once, the snapshot budget and the recovery queue respect
    the configuration, and the version store is not behind. *)
Record hub_ok (c : RuntimeConfig) (vs : Versions) (h : Hub) : Prop := {
  ok_latest : forall l, latest h = Some l -> Version l = version h;
  ok_version : in_uint64 (version h);
  ok_ring : ring_ok (Z.to_nat (SeenIdCapacity (Limits c))) (seenIDs h);
  ok_conns : NoDup (connections h);
  ok_bytes : snapshotBytes h = total_bytes (snapshotCandidates h);
  ok_budget : snapshotBytes h <= SnapshotTotalBytes (Limits c);
  ok_candidates : Forall (fun hello => in_uint64 (LastServerVersion hello)) (snapshotCandidates h);
  ok_queue : len (recoveryQueue h) <= RecoveryClipQueueCapacity (Limits c);
  ok_jobs : Forall job_ok (jobs h);
  ok_stored : version h <= GetVersion vs (h_username h) }.

(** Locations not yet allocated hold an empty hub. Every user the server knows has a name
    its files can hold, so what the store holds can be written and read back. *)
Record world_ok (w : World) : Prop := {
  w_hubs : forall h, hub_ok (cfg w) (versions w) (hubs w h);
  w_stored : forall u, in_uint64 (GetVersion (versions w) u);
  w_bags : forall c, bag_ok (State (conns w c));
  w_registered : forall name h, registry w !! name = Some h ->
                   (h < next_hub w)%nat /\ h_username (hubs w h) = name;
  w_names : forall h, good_name (h_username (hubs w h));
  w_storable : storable (versions w);
  w_users : map_Forall (fun u _ => good_name u) (lookup_table w);
  w_send_capacity : 0 <= SendQueueCapacity (Limits (cfg w)) }.

(** ** Progress: what only moves forward *)

Record hub_grows (h h' : Hub) : Prop := {
  g_version : version h <= version h';
  g_name : h_username h' = h_username h;
  g_start : processStart h' = processStart h;
  g_window : recoveryWindowClosed h = true -> recoveryWindowClosed h' = true }.

Record grows (w w' : World) : Prop := {
  g_cfg : cfg w' = cfg w;
  g_next : (next_hub w <= next_hub w')%nat;
  g_hubs : forall h, (h < next_hub w)%nat -> hub_grows (hubs w h) (hubs w' h);
  g_store : below (versions w) (versions w');
  g_dirty : isDirty w' = true \/ (isDirty w' = isDirty w /\ versions w' = versions w) }.

#[global] Instance hub_grows_preorder : PreOrder hub_grows.
Proof.
  split; [intros h; split; auto; lia|].
  intros h1 h2 h3 [A1 A2 A3 A4] [B1 B2 B3 B4]. split; [lia|congruence|congruence|auto].
Qed.

#[global] Instance grows_preorder : PreOrder grows.
Proof.
  split; [intros w; split; auto; reflexivity|].
  intros w1 w2 w3 [A1 A2 A3 A4 A5] [B1 B2 B3 B4 B5]. split; [congruence|lia| |by etrans|].
  - intros h Hh. etrans; [by apply A3|]. apply B3. lia.
  - destruct B5 as [?|[-> ->]]; [by left|done].
Qed.

(** What a flush keeps too, which clears the flag. *)
Record advances (w w' : World) : Prop := {
  a_cfg : cfg w' = cfg w;
  a_next : (next_hub w <= next_hub w')%nat;
  a_hubs : forall h, (h < next_hub w)%nat -> hub_grows (hubs w h) (hubs w' h);
  a_store : below (versions w) (versions w') }.

#[global] Instance advances_preorder : PreOrder advances.
Proof.
  split; [intros w; split; auto; reflexivity|].
  intros w1 w2 w3 [A1 A2 A3 A4] [B1 B2 B3 B4]. split; [congruence|lia| |by etrans].
  intros h Hh. etrans; [by apply A3|]. apply B3. lia.
Qed.

Lemma grows_advances w w' : grows w w' -> advances w w'.
Proof. intros [H1 H2 H3 H4 _]. by split. Qed.

(** An operation is safe when it keeps the invariant and only moves forward, whether it
    returns or panics. *)
Definition safe_at {A} (m : M A) (w : World) : Prop :=
  world_ok w -> world_ok (m w).2 /\ grows w (m w).2.
Definition safe {A} (m : M A) : Prop := forall w, safe_at m w.

Lemma safe_ret {A} (a : A) : safe (mret a).
Proof. intros w H. by split. Qed.

Lemma safe_gets {A} (f : World -> A) : safe (gets f).
Proof. intros w H. by split. Qed.

Lemma safe_lift {A} (r : panics A) : safe (lift r).
Proof. intros w H. by split. Qed.

Lemma safe_at_bind {A B} (m : M A) (k : A -> M B) w : safe_at m w ->
  (forall a w', m w = (Ok a, w') -> safe_at (k a) w') -> safe_at (m ≫= k) w.
Proof.
  intros Hm Hk Hw. unfold mbind, M_bind. destruct (Hm Hw) as [H1 H2].
  destruct (m w) as [[a|e] w1]; simpl in *; [|done].
  destruct (Hk a w1 eq_refl H1) as [H3 H4]. split; [done|by etrans].
Qed.

Lemma safe_bind {A B} (m : M A) (k : A -> M B) : safe m -> (forall a, safe (k a)) -> safe (m ≫= k).
Proof. intros Hm Hk w. apply safe_at_bind; [apply Hm|intros; apply Hk]. Qed.

Lemma safe_for_each {A} (l : list A) (f : A -> M unit) : (forall x, safe (f x)) -> safe (for_each l f).
Proof.
  intros Hf. induction l as [|x l IH]; cbn [for_each]; [apply safe_ret|]. by apply safe_bind.
Qed.

Lemma safe_try_recover (m : M unit) handler : safe m -> (forall e, safe (handler e)) -> safe (try_recover m handler).
Proof.
  intros Hm Hh w Hw. unfold try_recover. destruct (Hm w Hw) as [H1 H2].
  destruct (m w) as [[a|e] w1]; simpl in *; [done|]. destruct (Hh e w1 H1). split; [done|by etrans].
Qed.

Lemma safe_if {A} (b : bool) (m1 m2 : M A) : safe m1 -> safe m2 -> safe (if b then m1 else m2).
Proof. by destruct b. Qed.

(** ** Updates of one field of the world *)

Lemma insert_eq {A} (f : loc -> A) k (v : A) : <[k := v]> f k = v.
Proof. apply fn_lookup_insert. Qed.

Lemma insert_ne {A} (f : loc -> A) k k' (v : A) : k <> k' -> <[k := v]> f k' = f k'.
Proof. apply fn_lookup_insert_ne. Qed.

Lemma world_ok_conns f w : world_ok w -> (forall c, bag_ok (State (f c))) -> world_ok (set_conns f w).
Proof. intros [H1 H2 H3 H4 H5 H6 H7 H8] Hf. by split. Qed.

Lemma world_ok_conn c f w : world_ok w -> bag_ok (State (f (conns w c))) ->
  world_ok (set_conns (<[c := f (conns w c)]> (conns w)) w).
Proof.
  intros Hw Hf. apply world_ok_conns; [done|]. intros c'. destruct (decide (c = c')) as [<-|Hne].
  - by rewrite insert_eq.
  - rewrite insert_ne by done. apply Hw.
Qed.

Lemma grows_conns f w : grows w (set_conns f w).
Proof. split; simpl; auto; intros; reflexivity. Qed.

Lemma safe_modify_conn c f : (forall conn, bag_ok (State conn) -> bag_ok (State (f conn))) ->
  safe (modify_conn c f).
Proof.
  intros Hf w Hw. simpl. split; [|apply grows_conns]. apply world_ok_conn; [done|]. apply Hf, Hw.
Qed.

Lemma safe_bag_do {A} c (f : StateBag -> A * StateBag) : (forall s, bag_ok s -> bag_ok (f s).2) ->
  safe (bag_do c f).
Proof.
  intros Hf w Hw. unfold bag_do. specialize (Hf (State (conns w c)) (w_bags w Hw c)).
  destruct (f (State (conns w c))) as [a s]. simpl in *. split; [|apply grows_conns].
  by apply (world_ok_conn c (with_State (fun _ => s))).
Qed.

Lemma safe_log e : safe (log e).
Proof. intros w [H1 H2 H3 H4 H5 H6 H7 H8]. split; [by split|]. split; simpl; auto; intros; reflexivity. Qed.

Lemma safe_pending p : safe (modify (fun w => set_pending (p w) w)).
Proof. intros w [H1 H2 H3 H4 H5 H6 H7 H8]. split; [by split|]. split; simpl; auto; intros; reflexivity. Qed.

Lemma safe_clk t : safe (modify (set_clk t)).
Proof. intros w [H1 H2 H3 H4 H5 H6 H7 H8]. split; [by split|]. split; simpl; auto; intros; reflexivity. Qed.

Lemma world_ok_flag w d : world_ok w -> world_ok (set_store (versions w) d w).
Proof. intros [H1 H2 H3 H4 H5 H6 H7 H8]. by split. Qed.

Lemma store_flush_ok b w : world_ok w -> world_ok (store_flush b w).2 /\ advances w (store_flush b w).2.
Proof.
  intros Hw. unfold store_flush. destruct (isDirty w), b; cbn [negb snd];
    (split; [try apply world_ok_flag; exact Hw|split; simpl; auto; intros; reflexivity]).
Qed.

(** Replace a hub by one that is well formed and not behind it. *)
Lemma world_ok_hub h hub' w : world_ok w ->
  hub_ok (cfg w) (versions w) hub' /\ hub_grows (hubs w h) hub' ->
  world_ok (set_hubs (<[h := hub']> (hubs w)) w) /\ grows w (set_hubs (<[h := hub']> (hubs w)) w).
Proof.
  intros [H1 H2 H3 H4 H5 H6 H7 H8] [Hok Hg]. split; split; simpl; try done.
  - intros h'. destruct (decide (h = h')) as [<-|]; [by rewrite insert_eq|]. by rewrite insert_ne.
  - intros name h' Hr. destruct (H4 name h' Hr) as [Hlt Hn]. split; [done|].
    destruct (decide (h = h')) as [<-|]; [|by rewrite insert_ne].
    rewrite insert_eq. by rewrite (g_name _ _ Hg).
  - intros h'. destruct (decide (h = h')) as [<-|]; [|by rewrite insert_ne].
    rewrite insert_eq, (g_name _ _ Hg). apply H5.
  - intros h' Hlt. destruct (decide (h = h')) as [<-|]; [by rewrite insert_eq|].
    rewrite insert_ne by done. reflexivity.
  - by right.
Qed.

Lemma hub_ok_below c vs vs' h : below vs vs' -> hub_ok c vs h -> hub_ok c vs' h.
Proof. intros Hb [? ? ? ? ? ? ? ? ? ?]. split; try done. specialize (Hb (h_username h)). lia. Qed.

Lemma save_max_range m u v : (forall u, in_uint64 (GetVersion m u)) -> in_uint64 v ->
  forall u', in_uint64 (GetVersion (save_max m u v) u').
Proof.
  intros Hm Hv u'. rewrite GetVersion_save. case_decide; [|done]. specialize (Hm u).
  unfold in_uint64 in *. lia.
Qed.

Lemma world_ok_store u v w : world_ok w -> in_uint64 v -> good_name u ->
  world_ok (set_store (save_max (versions w) u v) true w) /\
  grows w (set_store (save_max (versions w) u v) true w).
Proof.
  intros [H1 H2 H3 H4 H5 H6 H7 H8] Hv Hu. pose proof (save_max_below (versions w) u v) as Hb.
  split; split; simpl; try done.
  - intros h. by eapply hub_ok_below.
  - by apply save_max_range.
  - by apply storable_save.
  - by left.
Qed.

(** An update of a hub that keeps it well formed wherever it is applied. *)
Definition hub_safe (f : Hub -> Hub) : Prop :=
  forall c vs hub, hub_ok c vs hub -> hub_ok c vs (f hub) /\ hub_grows hub (f hub).

Lemma safe_modify_hub h f : hub_safe f -> safe (modify_hub h f).
Proof. intros Hf w Hw. apply world_ok_hub; [done|]. apply Hf, Hw. Qed.

(** Close the invariant's fields that an update does not touch. *)
Ltac hub_frame :=
  intros c0 vs0 hub0 [? ? ? ? ? ? ? ? ? ?]; split; split; simpl in *; try done; try lia.

Lemma set_activity_safe n : hub_safe (set_activity n).
Proof. hub_frame. Qed.
Lemma set_windowClosed_safe : hub_safe set_windowClosed.
Proof. hub_frame. Qed.
Lemma set_bucket_safe b : hub_safe (set_bucket b).
Proof. hub_frame. Qed.
Lemma set_running_safe b : hub_safe (set_running b).
Proof. hub_frame. Qed.

Lemma push_safe job : job_ok job -> hub_safe (fun hub => set_jobs (jobs hub ++ [job]) hub).
Proof. intros Hj. hub_frame. apply Forall_app. auto. Qed.

#[export] Hint Resolve safe_ret safe_gets safe_lift safe_log safe_pending safe_modify_conn safe_modify_hub
  safe_for_each safe_if set_activity_safe set_windowClosed_safe set_bucket_safe set_running_safe : go.

(** ** The simple operations *)

Lemma markActivity_safe h now : safe (markActivity h now).
Proof. unfold markActivity. auto with go. Qed.

Lemma broadcastToConnection_safe c p : safe (broadcastToConnection c p).
Proof. apply safe_modify_conn. intros conn Hc. by apply send_or_close_ok. Qed.

#[export] Hint Resolve markActivity_safe broadcastToConnection_safe : go.

Lemma broadcastWelcome_safe h now : safe (broadcastWelcome h now).
Proof. unfold broadcastWelcome. repeat (apply safe_bind; [apply safe_gets|intros]). auto with go. Qed.

Lemma Broadcast_safe h p : safe (Broadcast h p).
Proof.
  unfold Broadcast. apply safe_bind; [apply safe_gets|intros cs]. apply safe_for_each. intros c.
  apply safe_bind; [apply safe_gets|]. auto with go.
Qed.

Lemma TryWriteJob_safe h job : job_ok job -> safe (TryWriteJob h job).
Proof.
  intros Hj. apply safe_bind; [|intros; apply safe_ret]. apply safe_modify_hub. by apply push_safe.
Qed.

Lemma total_bytes_app a b : total_bytes (a ++ b) = total_bytes a + total_bytes b.
Proof. induction a as [|x a IH]; simpl; lia. Qed.

Lemma AcceptSnapshot_safe h hello : in_uint64 (LastServerVersion hello) -> safe (AcceptSnapshot h hello).
Proof.
  intros Hv w Hw. unfold AcceptSnapshot, get_hub, gets, mbind, M_bind.
  destruct (recoveryWindowClosed (hubs w h)); [by split|].
  destruct (Snapshot hello) as [s|] eqn:Es; [|by split].
  destruct (Z.ltb_spec (SnapshotTotalBytes (Limits (cfg w))) (snapshotBytes (hubs w h) + len (snap_Payload s)));
    [by split|].
  apply world_ok_hub; [done|]. destruct (w_hubs w Hw h) as [? ? ? ? Hb ? ? ? ? ?].
  split; [|by split]. split; simpl; try done.
  - rewrite total_bytes_app, Hb. simpl. unfold payload_bytes. rewrite Es. lia.
  - apply Forall_app. auto.
Qed.

Lemma ClassifyClip_safe h clip c : safe (ClassifyClip h clip c).
Proof.
  intros w Hw. unfold ClassifyClip, get_hub, gets, mbind, M_bind.
  destruct (recoveryWindowClosed (hubs w h)); [by split|].
  destruct (Z.leb_spec (RecoveryClipQueueCapacity (Limits (cfg w))) (len (recoveryQueue (hubs w h))));
    [by split|].
  apply world_ok_hub; [done|]. destruct (w_hubs w Hw h).
  split; [|by split]. split; simpl; try done. rewrite len_app, len_cons, len_nil. lia.
Qed.

(** ** The broadcast loop *)

(** The heap after the loop: every listed connection but the sender's got the frame. *)
Definition delivered (cs : list loc) (sender : loc) (bytes : str) (heap : loc -> Connection)
  : loc -> Connection :=
  foldl (fun heap c => if bool_decide (c = sender) then heap
                       else <[c := with_State (send_or_close bytes) (heap c)]> heap) heap cs.

Lemma delivered_cons c cs sender bytes heap :
  delivered (c :: cs) sender bytes heap =
  delivered cs sender bytes (if bool_decide (c = sender) then heap
                             else <[c := with_State (send_or_close bytes) (heap c)]> heap).
Proof. reflexivity. Qed.

Lemma deliver_eq cs sender bytes : forall w, exists ds,
  deliver cs sender bytes w = (Ok ds, set_conns (delivered cs sender bytes (conns w)) w).
Proof.
  induction cs as [|c cs IH]; intros w; [exists []; by destruct w|].
  cbn [deliver delivered foldl]. destruct (bool_decide (c = sender)) eqn:E; [apply IH|].
  unfold get_conn, gets, bag_do, mbind, M_bind.
  change (with_State (send_or_close bytes) (conns w c))
    with (with_State (fun _ => (enqueue_or_close bytes (State (conns w c))).2) (conns w c)).
  destruct (enqueue_or_close bytes (State (conns w c))) as [q s]. cbn [snd].
  destruct (IH (set_conns (<[c := with_State (fun _ => s) (conns w c)]> (conns w)) w)) as [ds ->].
  eexists. reflexivity.
Qed.

#[local] Arguments deliver : simpl never.

Lemma delivered_lookup cs sender bytes : forall heap c, NoDup cs ->
  delivered cs sender bytes heap c =
  if decide (c ∈ cs /\ c <> sender) then with_State (send_or_close bytes) (heap c) else heap c.
Proof.
  induction cs as [|x cs IH]; intros heap c Hnd.
  - rewrite decide_False; [done|]. set_solver.
  - apply list.NoDup_cons in Hnd as [Hx Hnd]. rewrite delivered_cons.
    case_bool_decide as E; rewrite IH by done.
    + apply decide_ext. set_solver.
    + destruct (decide (x = c)) as [<-|Hne].
      * rewrite insert_eq. rewrite decide_False by tauto. rewrite decide_True by set_solver. done.
      * rewrite insert_ne by done. apply decide_ext. set_solver.
Qed.

Lemma delivered_ok cs sender bytes : forall heap, (forall c, bag_ok (State (heap c))) ->
  forall c, bag_ok (State (delivered cs sender bytes heap c)).
Proof.
  induction cs as [|x cs IH]; intros heap Hh; cbn [delivered foldl]; [done|].
  apply IH. case_bool_decide; [done|]. intros c. destruct (decide (x = c)) as [<-|Hne].
  - rewrite insert_eq. by apply send_or_close_ok.
  - by rewrite insert_ne.
Qed.

(** ** Footprints *)

(** [w'] is [w] with hub [h] replaced, another connection heap and another version store; the
    log aside, nothing else differs. *)
Record same_but (w w' : World) (h : loc) (hub' : Hub) (heap' : loc -> Connection) (vs : Versions) (d : bool)
  : Prop := {
  sb_hub : hubs w' h = hub';
  sb_others : forall h', h' <> h -> hubs w' h' = hubs w h';
  sb_conns : conns w' = heap';
  sb_versions : versions w' = vs;
  sb_dirty : isDirty w' = d;
  sb_registry : registry w' = registry w;
  sb_pending : pendingHellos w' = pendingHellos w;
  sb_cfg : cfg w' = cfg w;
  sb_next : next_hub w' = next_hub w;
  sb_lookup : lookup_table w' = lookup_table w }.

Lemma same_but_ok w w' h hub' heap' vs d : same_but w w' h hub' heap' vs d -> world_ok w ->
  (forall c, bag_ok (State (heap' c))) -> below (versions w) vs -> (forall u, in_uint64 (GetVersion vs u)) ->
  storable vs -> d = true \/ (d = isDirty w /\ vs = versions w) ->
  hub_ok (cfg w) vs hub' /\ hub_grows (hubs w h) hub' ->
  world_ok w' /\ grows w w'.
Proof.
  intros [E1 E2 E3 E4 E5 E6 E7 E8 E9 E10] [H1 H2 H3 H4 H5 H6 H7 H8] Hb Hvs Hr Hst Hdirty [Hok Hg].
  split; split; rewrite ?E4, ?E5, ?E6, ?E8, ?E9, ?E10; try done.
  - intros h'. destruct (decide (h' = h)) as [->|Hne]; [by rewrite E1|].
    rewrite E2 by done. by eapply hub_ok_below.
  - intros c. by rewrite E3.
  - intros name h' Hreg. destruct (H4 name h' Hreg) as [Hlt Hn]. split; [done|].
    destruct (decide (h' = h)) as [->|Hne]; [|by rewrite E2].
    rewrite E1. by rewrite (g_name _ _ Hg).
  - intros h'. destruct (decide (h' = h)) as [->|Hne]; [|by rewrite E2].
    rewrite E1, (g_name _ _ Hg). apply H5.
  - intros h' Hlt. destruct (decide (h' = h)) as [->|Hne]; [by rewrite E1|].
    rewrite E2 by done. reflexivity.
Qed.

(** ** The outcomes of [ApplyClip] *)

Section Apply.
Context (w : World) (h : loc) (clip : ClientClip) (sender : loc) (now : Time).
Let hub := hubs w h.
Let conn := conns w sender.
Let dup := IsUnchangedDuplicate (seenIDs hub) (clip_ID clip) (clip_Payload clip) (clip_Hash clip)
             (clip_Encrypted clip).

(** The frame goes to the sender alone. *)
Definition sent_to (c : loc) (bytes : str) (heap : loc -> Connection) : loc -> Connection :=
  <[c := with_State (send_or_close bytes) (heap c)]> heap.

Lemma ApplyClip_duplicate : dup.2 = true ->
  ApplyClip h clip sender now w =
  (Ok tt, set_conns (sent_to sender (MarshalClipAck (clip_ID clip) (ack_latest dup.1 hub conn now)) (conns w)) w).
Proof.
  intros Hd. unfold ApplyClip, get_hub, get_conn, gets, mbind, M_bind.
  fold hub. fold conn. fold dup. destruct dup as [d b]. simpl in Hd. by subst b.
Qed.

Lemma ApplyClip_limited b : dup.2 = false -> TryAcquire (clipBucket hub) now = (false, b) ->
  exists w', ApplyClip h clip sender now w = (Ok tt, w') /\
    same_but w w' h (set_bucket b hub)
      (sent_to sender (MarshalError (mkError ErrRateLimited "Clip rate limited." (Some (clip_ID clip)))) (conns w))
      (versions w) (isDirty w).
Proof.
  intros Hd Hb. unfold ApplyClip, try_acquire, get_hub, get_conn, gets, mbind, M_bind.
  fold hub. fold conn. fold dup. destruct dup as [d u]. simpl in Hd. subst u. cbn iota.
  destruct (TryGet _ _).2; simpl; fold hub; rewrite Hb; simpl;
    (eexists; split; [reflexivity|]; split; simpl; try done;
     [apply insert_eq|intros; by apply insert_ne]).
Qed.

Lemma ApplyClip_overflow b : dup.2 = false -> TryAcquire (clipBucket hub) now = (true, b) ->
  version hub = MaxUint64 ->
  exists w', ApplyClip h clip sender now w = (Err "Version overflow.", w') /\
    same_but w w' h (set_bucket b hub) (conns w) (versions w) (isDirty w).
Proof.
  intros Hd Hb Hv. unfold ApplyClip, try_acquire, get_hub, get_conn, gets, lift, mbind, M_bind.
  fold hub. fold conn. fold dup. destruct dup as [d u]. simpl in Hd. subst u. cbn iota.
  unfold NextVersion. rewrite Hv, Z.eqb_refl.
  destruct (TryGet _ _).2; simpl; fold hub; rewrite Hb; simpl;
    (eexists; split; [reflexivity|]; split; simpl; try done;
     [apply insert_eq|intros; by apply insert_ne]).
Qed.

(** The text an accepted clip becomes, and the frames sent for it. *)
Let next := version hub + 1.
Let text := clip_latest clip next conn now.

Lemma ApplyClip_accepted b r : dup.2 = false -> TryAcquire (clipBucket hub) now = (true, b) ->
  version hub <> MaxUint64 -> Remember (seenIDs hub) (clip_ID clip) (Some text) = Ok r ->
  exists w', ApplyClip h clip sender now w = (Ok tt, w') /\
    same_but w w' h (set_seenIDs r (set_latest (Some text) next (set_bucket b hub)))
      (sent_to sender (MarshalClipAck (clip_ID clip) text)
        (delivered (connections hub) sender (MarshalClip (clip_ID clip) text) (conns w)))
      (save_max (versions w) (h_username hub) next) true.
Proof.
  intros Hd Hb Hv Hr.
  unfold ApplyClip, try_acquire, remember, save_version, Connections, get_hub, get_conn, gets, lift, mbind, M_bind.
  fold hub. fold conn. fold dup. destruct dup as [d u]. simpl in Hd. subst u. cbn iota.
  assert (Hn : NextVersion (version hub) = Ok next).
  { unfold NextVersion. by rewrite (proj2 (Z.eqb_neq _ _)). }
  destruct (TryGet _ _).2; simpl; fold hub; rewrite Hb; cbn [negb]; simpl; rewrite Hn; simpl;
    rewrite !insert_eq; simpl; fold hub; fold text; rewrite Hr; simpl; rewrite !insert_eq; simpl.
  all: match goal with |- context [deliver ?cs ?s ?b ?w0] => destruct (deliver_eq cs s b w0) as [ds Hds]; rewrite Hds end.
  all: simpl; eexists; split; [reflexivity|]; split; simpl; try done.
  all: try (by rewrite !insert_eq). all: intros h' Hne; by rewrite !insert_ne.
Qed.
End Apply.

Lemma sent_to_ok c bytes heap : (forall c, bag_ok (State (heap c))) ->
  forall c', bag_ok (State (sent_to c bytes heap c')).
Proof.
  intros Hh c'. unfold sent_to. destruct (decide (c = c')) as [<-|Hne].
  - rewrite insert_eq. by apply send_or_close_ok.
  - by rewrite insert_ne.
Qed.

(** An accepted clip keeps the hub's invariant and moves its version by one. *)
Lemma accepted_hub_ok c vs hub b r text : hub_ok c vs hub -> version hub <> MaxUint64 ->
  Version text = version hub + 1 -> ring_ok (Z.to_nat (SeenIdCapacity (Limits c))) r ->
  let hub' := set_seenIDs r (set_latest (Some text) (version hub + 1) (set_bucket b hub)) in
  hub_ok c (save_max vs (h_username hub) (version hub + 1)) hub' /\ hub_grows hub hub'.
Proof.
  intros [? [? ?] ? ? ? ? ? ? ? ?] Hv Ht Hr. split; split; simpl; try done; try lia.
  - intros l [= <-]. done.
  - unfold in_uint64. lia.
  - rewrite GetVersion_save, decide_True by done. lia.
Qed.

(** The ring of a well-formed hub takes any id. *)
Lemma ring_remembers c vs hub id l : hub_ok c vs hub ->
  exists r, Remember (seenIDs hub) id l = Ok r /\ ring_ok (Z.to_nat (SeenIdCapacity (Limits c))) r.
Proof. intros H. apply rememberInternal_ok, (ok_ring _ _ _ H). Qed.

Lemma next_range v : in_uint64 v -> v <> MaxUint64 -> in_uint64 (v + 1).
Proof. unfold in_uint64. lia. Qed.

Lemma ApplyClip_safe h clip sender now : safe (ApplyClip h clip sender now).
Proof.
  intros w Hw. pose proof (w_bags w Hw) as Hbags. pose proof (w_hubs w Hw h) as Hok.
  pose proof (w_stored w Hw) as Hst. pose proof (w_storable w Hw) as Hkeys.
  destruct (IsUnchangedDuplicate (seenIDs (hubs w h)) (clip_ID clip) (clip_Payload clip) (clip_Hash clip)
    (clip_Encrypted clip)).2 eqn:Hdup.
  { rewrite ApplyClip_duplicate by done. split; [|apply grows_conns].
    apply world_ok_conns; [done|]. by apply sent_to_ok. }
  destruct (TryAcquire (clipBucket (hubs w h)) now) as [[] b] eqn:Hb.
  2:{ destruct (ApplyClip_limited w h clip sender now b Hdup Hb) as (w' & -> & Hs).
      eapply same_but_ok; [exact Hs|done|by apply sent_to_ok|reflexivity|done|done|by right|by apply set_bucket_safe]. }
  destruct (Z.eq_dec (version (hubs w h)) MaxUint64) as [Hv|Hv].
  { destruct (ApplyClip_overflow w h clip sender now b Hdup Hb Hv) as (w' & -> & Hs).
    eapply same_but_ok; [exact Hs|done|done|reflexivity|done|done|by right|by apply set_bucket_safe]. }
  destruct (ring_remembers _ _ _ (clip_ID clip)
    (Some (clip_latest clip (version (hubs w h) + 1) (conns w sender) now)) Hok) as (r & Hr & Hring).
  destruct (ApplyClip_accepted w h clip sender now b r Hdup Hb Hv Hr) as (w' & -> & Hs).
  eapply same_but_ok; [exact Hs|done|by apply sent_to_ok, delivered_ok|apply save_max_below| | |by left|].
  - apply save_max_range; [done|]. apply next_range; [apply Hok|done].
  - apply storable_save; [done|apply Hw].
  - by apply accepted_hub_ok.
Qed.

(** ** The recovery window *)

Lemma set_recoveryQueue_nil_safe : hub_safe (set_recoveryQueue []).
Proof. hub_frame. rewrite len_nil. pose proof (len_nonneg (recoveryQueue hub0)). lia. Qed.

Lemma restored_hub_ok c vs hub t v : hub_ok c vs hub -> Version t = v -> version hub <= v ->
  in_uint64 v -> v <= GetVersion vs (h_username hub) ->
  hub_ok c vs (set_latest (Some t) v hub) /\ hub_grows hub (set_latest (Some t) v hub).
Proof.
  intros [? ? ? ? ? ? ? ? ? ?] Ht Hle Hv Hs. split; split; simpl; try done. by intros l [= <-].
Qed.

Lemma restore_snapshot_safe h winner : in_uint64 (win_Version winner) -> safe (restore_snapshot h winner).
Proof.
  intros Hv w Hw. unfold restore_snapshot, get_hub, gets, mbind, M_bind.
  destruct (_ || _) eqn:Hc; [|by split].
  destruct (Z.ltb_spec (version (hubs w h)) (win_Version winner)) as [Hlt|Hge].
  - destruct (world_ok_store (h_username (hubs w h)) (win_Version winner) w Hw Hv (w_names w Hw h)) as [Hw1 Hg1].
    unfold save_version, modify_hub, modify, set_hubs. simpl.
    edestruct world_ok_hub as [H1 H2]; [exact Hw1| |split; [exact H1|etrans; [exact Hg1|exact H2]]].
    apply restored_hub_ok; try done; try (simpl; lia); [by apply Hw1|]. simpl.
    rewrite GetVersion_save, decide_True by done. lia.
  - apply world_ok_hub; [done|]. pose proof (w_hubs w Hw h) as Hok.
    cbn [orb] in Hc. bool_to_prop. apply restored_hub_ok; try done; try lia.
    pose proof (ok_stored _ _ _ Hok). lia.
Qed.

(** The elected version is a 64-bit one, like those of all candidates. *)
Lemma winner_range hellos w : Forall (fun hello => in_uint64 (LastServerVersion hello)) hellos ->
  SelectSnapshotWinner hellos = Some w -> in_uint64 (win_Version w).
Proof.
  intros Hh Hs. unfold SelectSnapshotWinner in Hs. rewrite head_SliceStable in Hs.
  assert (Hin : w ∈ omap candidate hellos).
  { destruct (omap candidate hellos) as [|a l]; simplify_eq/=. apply elected_max, first_best_elected. }
  apply list_elem_of_omap in Hin as (hello & Hin & Hc). rewrite list.Forall_forall in Hh.
  specialize (Hh hello Hin). unfold candidate in Hc. repeat case_match; simplify_eq. done.
Qed.

Lemma apply_recovery_safe h now rc : safe (apply_recovery h now rc).
Proof.
  unfold apply_recovery. apply safe_bind; [apply safe_gets|intros conn].
  apply safe_if; [apply safe_ret|apply ApplyClip_safe].
Qed.

(** What a hub relies on: its coordinator keeps the shared state well formed. *)
Class SafeCoordinator `{Coordinator} : Prop := {
  CancelConnection_safe c reason : safe (CancelConnection c reason);
  RebuildHub_safe h : safe (RebuildHub h);
  RemoveEmptyHub_safe h : safe (RemoveEmptyHubAfterRecovery h);
  RemoveEmptyHub_frame h w : exists r, RemoveEmptyHubAfterRecovery h w = (Ok tt, set_registry r w) }.

#[export] Hint Resolve CancelConnection_safe RebuildHub_safe RemoveEmptyHub_safe ApplyClip_safe
  apply_recovery_safe broadcastWelcome_safe set_recoveryQueue_nil_safe : go.

Section Coordinated.
Context `{SafeCoordinator}.

Lemma CloseRecoveryWindow_safe h now : safe (CloseRecoveryWindow h now).
Proof.
  intros w. unfold CloseRecoveryWindow. apply safe_at_bind; [apply safe_gets|].
  intros hub w0 [= <- <-]. destruct (recoveryWindowClosed (hubs w h)); [apply safe_ret|].
  apply safe_at_bind; [apply safe_modify_hub; auto with go|]. intros [] w1 E1; inversion E1; subst w1; clear E1.
  apply safe_at_bind.
  - destruct (SelectSnapshotWinner (snapshotCandidates (hubs w h))) as [winner|] eqn:Hs; [|apply safe_ret].
    intros Hw1. apply restore_snapshot_safe; [|done].
    apply (winner_range (snapshotCandidates (hubs w h))); [|done].
    pose proof (w_hubs _ Hw1 h) as Hok. simpl in Hok. rewrite insert_eq in Hok. apply Hok.
  - intros _ w2 _. repeat (apply safe_bind; [auto with go|intros _]). auto with go.
Qed.

Lemma EnsureRecoveryWindowClosed_safe h now : safe (EnsureRecoveryWindowClosed h now).
Proof.
  unfold EnsureRecoveryWindowClosed. do 2 (apply safe_bind; [apply safe_gets|intros]).
  apply safe_if; [apply CloseRecoveryWindow_safe|apply safe_ret].
Qed.

Lemma AddConnection_safe h c w : c ∉ connections (hubs w h) -> safe_at (AddConnection h c) w.
Proof.
  intros Hc. unfold AddConnection. apply safe_at_bind; [apply safe_gets|]. intros now w0 [= <- <-].
  apply safe_at_bind.
  - intros Hw. apply world_ok_hub; [done|]. destruct (w_hubs w Hw h).
    split; split; simpl; try done. apply list.NoDup_app. split; [done|].
    split; [set_solver|apply NoDup_singleton].
  - intros _ w1 _. apply safe_bind; [auto with go|intros _]. apply safe_bind; [apply safe_gets|intros b].
    apply safe_if; [|apply EnsureRecoveryWindowClosed_safe].
    apply safe_bind; [apply safe_gets|auto with go].
Qed.

Lemma processJob_safe h job now : job_ok job -> safe (processJob h job now).
Proof.
  intros Hj. destruct job as [c clip|c hello|c pong|c reason]; cbn [processJob].
  - apply ApplyClip_safe.
  - apply safe_bind; [apply safe_modify_conn; by intros conn [? ?]|]. intros _.
    destruct (Snapshot hello); [|apply safe_ret]. by apply AcceptSnapshot_safe.
  - apply safe_modify_conn. by intros conn [? ?].
  - apply CancelConnection_safe.
Qed.

Lemma pop_eq h w job js : jobs (hubs w h) = job :: js ->
  pop h w = (Ok (Some job), set_hubs (<[h := set_jobs js (hubs w h)]> (hubs w)) w).
Proof. intros Ej. unfold pop, get_hub, gets, mbind, M_bind. by rewrite Ej. Qed.

Lemma drain_safe fuel h now : safe (drain fuel h now).
Proof.
  induction fuel as [|f IH]; cbn [drain]; [apply safe_ret|]. intros w Hw.
  destruct (jobs (hubs w h)) as [|job js] eqn:Ej.
  { unfold pop, get_hub, gets, mbind, M_bind. rewrite Ej. by split. }
  pose proof (ok_jobs _ _ _ (w_hubs w Hw h)) as Hj. rewrite Ej in Hj.
  apply list.Forall_cons in Hj as [Hj Hjs]. revert Hw. apply safe_at_bind.
  - intros Hw. rewrite (pop_eq h w job js Ej). apply world_ok_hub; [done|].
    destruct (w_hubs w Hw h). split; split; simpl; done.
  - intros a w1. rewrite (pop_eq h w job js Ej). intros [= <- <-].
    apply safe_at_bind; [by apply processJob_safe|intros; apply IH].
Qed.

(** The goroutine of the user loop, panics included. *)
Lemma user_loop_safe fuel h now : safe (user_loop fuel h now).
Proof.
  apply safe_try_recover; [apply drain_safe|]. intros e. apply safe_bind; [apply safe_gets|intros hub].
  repeat (apply safe_bind; [auto with go|intros _]). auto with go.
Qed.
End Coordinated.

(** ** What an accepted clip does *)

Lemma sent_to_eq c bytes heap : sent_to c bytes heap c = with_State (send_or_close bytes) (heap c).
Proof. apply insert_eq. Qed.

Lemma sent_to_ne c bytes heap c' : c' <> c -> sent_to c bytes heap c' = heap c'.
Proof. intros. by apply insert_ne. Qed.

(** The conditions under which a clip is accepted. *)
Record accepts (w : World) (h : loc) (clip : ClientClip) (now : Time) : Prop := {
  acc_ok : world_ok w;
  acc_new : (IsUnchangedDuplicate (seenIDs (hubs w h)) (clip_ID clip) (clip_Payload clip) (clip_Hash clip)
               (clip_Encrypted clip)).2 = false;
  acc_rate : (TryAcquire (clipBucket (hubs w h)) now).1 = true;
  acc_version : version (hubs w h) <> MaxUint64 }.

(** The text it becomes. *)
Definition accepted_text (w : World) (h : loc) (clip : ClientClip) (sender : loc) (now : Time) : LatestText :=
  clip_latest clip (version (hubs w h) + 1) (conns w sender) now.

Lemma ApplyClip_accepts w h clip sender now : accepts w h clip now ->
  let hub := hubs w h in let text := accepted_text w h clip sender now in
  exists b r w', ApplyClip h clip sender now w = (Ok tt, w') /\
    Remember (seenIDs hub) (clip_ID clip) (Some text) = Ok r /\
    same_but w w' h (set_seenIDs r (set_latest (Some text) (version hub + 1) (set_bucket b hub)))
      (sent_to sender (MarshalClipAck (clip_ID clip) text)
        (delivered (connections hub) sender (MarshalClip (clip_ID clip) text) (conns w)))
      (save_max (versions w) (h_username hub) (version hub + 1)) true.
Proof.
  intros [Hw Hd Hb Hv] hub text. destruct (TryAcquire (clipBucket (hubs w h)) now) as [ok b] eqn:Eb.
  simpl in Hb. subst ok.
  destruct (ring_remembers _ _ _ (clip_ID clip) (Some text) (w_hubs w Hw h)) as (r & Hr & _).
  destruct (ApplyClip_accepted w h clip sender now b r Hd Eb Hv Hr) as (w' & E & Hs).
  exists b, r, w'. done.
Qed.

(** The ring after any [ApplyClip]: as it was, or with this clip's id remembered. *)
Lemma ApplyClip_ring h clip sender now w w' : world_ok w -> ApplyClip h clip sender now w = (Ok tt, w') ->
  seenIDs (hubs w' h) = seenIDs (hubs w h) \/
  exists l, Remember (seenIDs (hubs w h)) (clip_ID clip) l = Ok (seenIDs (hubs w' h)).
Proof.
  intros Hw E.
  destruct (IsUnchangedDuplicate (seenIDs (hubs w h)) (clip_ID clip) (clip_Payload clip) (clip_Hash clip)
    (clip_Encrypted clip)).2 eqn:Hdup.
  { rewrite ApplyClip_duplicate in E by done. simplify_eq. by left. }
  destruct (TryAcquire (clipBucket (hubs w h)) now) as [[] b] eqn:Hb.
  2:{ destruct (ApplyClip_limited w h clip sender now b Hdup Hb) as (w1 & E1 & Hs).
      rewrite E1 in E. simplify_eq. left. by rewrite (sb_hub _ _ _ _ _ _ _ Hs). }
  destruct (Z.eq_dec (version (hubs w h)) MaxUint64) as [Hv|Hv].
  { destruct (ApplyClip_overflow w h clip sender now b Hdup Hb Hv) as (w1 & E1 & Hs).
    rewrite E1 in E. done. }
  destruct (ApplyClip_accepts w h clip sender now) as (b' & r & w1 & E1 & Hr & Hs).
  { split; [done|done|by rewrite Hb|done]. }
  rewrite E1 in E. simplify_eq. right. rewrite (sb_hub _ _ _ _ _ _ _ Hs). eauto.
Qed.

(** A run of submissions to one hub. *)
Definition apply_all (h : loc) (subs : list (ClientClip * loc * Time)) : M unit :=
  for_each subs (fun '(clip, c, t) => ApplyClip h clip c t).

Lemma apply_all_held capacity id v slot h subs : forall k w w',
  world_ok w -> held capacity id v slot k (seenIDs (hubs w h)) -> (0 < k)%nat ->
  (k + length subs <= capacity)%nat -> Forall (fun sub => clip_ID sub.1.1 <> id) subs ->
  apply_all h subs w = (Ok tt, w') ->
  entries (seenIDs (hubs w' h)) !! id = Some v.
Proof.
  induction subs as [|[[clip c] t] subs IH]; intros k w w' Hw Hh Hk Hlen Hids E.
  { cbv in E. simplify_eq. apply Hh. }
  apply list.Forall_cons in Hids as [Hid Hids]. simpl in Hid, Hlen.
  unfold apply_all in E. cbn [for_each] in E. unfold mbind, M_bind in E.
  destruct (ApplyClip h clip c t w) as [[[]|e] w1] eqn:E1; [|done].
  destruct (ApplyClip_safe h clip c t w Hw) as [Hw1 _]. rewrite E1 in Hw1.
  destruct (ApplyClip_ring h clip c t w w1 Hw E1) as [Er|[l Hr]].
  - apply (IH k w1 w' Hw1); [by rewrite Er|done|lia|done|done].
  - destruct (held_step capacity id v slot k _ (clip_ID clip) l Hh) as (r' & Hr' & Hh'); [lia|done|].
    rewrite Hr in Hr'. injection Hr' as <-. apply (IH (k + 1)%nat w1 w' Hw1); [done|lia|lia|done|done].
Qed.

(** ** The welcome round *)

Definition sent_to_all (cs : list loc) (bytes : str) (heap : loc -> Connection) : loc -> Connection :=
  foldl (fun heap c => sent_to c bytes heap) heap cs.

Lemma for_each_send cs bytes : forall w,
  for_each cs (fun c => broadcastToConnection c bytes) w = (Ok tt, set_conns (sent_to_all cs bytes (conns w)) w).
Proof.
  induction cs as [|c cs IH]; intros w; [by destruct w|]. cbn [for_each]. unfold mbind, M_bind.
  cbn [broadcastToConnection modify_conn modify]. rewrite IH. reflexivity.
Qed.

Lemma sent_to_all_lookup cs bytes : forall heap c, NoDup cs ->
  sent_to_all cs bytes heap c = if decide (c ∈ cs) then with_State (send_or_close bytes) (heap c) else heap c.
Proof.
  induction cs as [|x cs IH]; intros heap c Hnd; cbn [sent_to_all foldl].
  - rewrite decide_False; [done|set_solver].
  - apply list.NoDup_cons in Hnd as [Hx Hnd].
    change (foldl _ (sent_to x bytes heap) cs) with (sent_to_all cs bytes (sent_to x bytes heap)).
    rewrite IH by done. destruct (decide (c = x)) as [->|Hne].
    + rewrite decide_False by done. rewrite sent_to_eq. by rewrite decide_True by set_solver.
    + rewrite sent_to_ne by done. apply decide_ext. set_solver.
Qed.

(** ** The outcome of the recovery window *)

(** The version and text the hub has once the snapshots are judged. *)
Definition restored (hub : Hub) : Z * option LatestText :=
  match SelectSnapshotWinner (snapshotCandidates hub) with
  | Some win =>
      if (version hub <? win_Version win) ||
         ((win_Version win =? version hub) && match latest hub with None => true | Some _ => false end)
      then (win_Version win, Some (LatestFromSnapshot (win_Snapshot win) (win_Version win) (win_ClientID win)
                                     (win_ClientName win)))
      else (version hub, latest hub)
  | None => (version hub, latest hub)
  end.

Lemma restored_ge hub : version hub <= (restored hub).1.
Proof.
  unfold restored. destruct (SelectSnapshotWinner _) as [win|]; [|simpl; lia].
  destruct (Z.ltb_spec (version hub) (win_Version win)); simpl; [lia|].
  destruct (Z.eqb_spec (win_Version win) (version hub)); simpl; [|lia].
  destruct (latest hub); simpl; lia.
Qed.

(** The judged hub is as before but for its version and text. *)
Lemma restore_eq w h hub :
  hubs w h = hub ->
  exists w', match SelectSnapshotWinner (snapshotCandidates hub) with
             | Some winner => restore_snapshot h winner
             | None => mret tt
             end w = (Ok tt, w') /\
    hubs w' h = set_latest (restored hub).2 (restored hub).1 hub /\
    conns w' = conns w /\ cfg w' = cfg w.
Proof.
  intros <-. unfold restored.
  destruct (SelectSnapshotWinner (snapshotCandidates (hubs w h))) as [win|];
    [|exists w; by destruct (hubs w h)].
  unfold restore_snapshot, get_hub, gets, mbind, M_bind.
  destruct (_ || _); [|exists w; by destruct (hubs w h)].
  destruct (version (hubs w h) <? win_Version win); simpl;
    (eexists; split; [reflexivity|]; split; [apply insert_eq|done]).
Qed.

(** ** A concrete server: user ann's hub with two connections *)

Definition sample_hub : Hub :=
  {| h_username := "ann"; processStart := utc 0; latest := None; version := 4; connections := [0; 1]%nat;
     snapshotCandidates := []; snapshotBytes := 0; recoveryQueue := []; recoveryWindowClosed := false;
     clipBucket := mkBucket (float64 10) (utc 0) 10 (float64 2);
     seenIDs := mkRing ∅ (replicate 64 []) 0; jobs := []; lastActivityNs := 0; userLoopRunning := true |}.

Definition sample_world : World :=
  {| cfg := Defaults; clk := utc 0; hubs := fun _ => sample_hub; next_hub := 1;
     conns := fun _ => AttachHub 0 (NewConnection "x1" "ann" "pc1" "PC" Defaults (utc 0));
     registry := {[ ("ann" : str) := 0%nat ]}; pendingHellos := []; versions := {[ ("ann" : str) := 4 ]};
     isDirty := false; lookup_table := ∅; server_start := utc 0; logged := [] |}.

Definition sample_clip : ClientClip :=
  {| clip_ID := "k1"; clip_Payload := "aGk="; clip_Encrypted := true; clip_Hash := "h1" |}.

Lemma sample_world_ok : world_ok sample_world.
Proof.
  split.
  - intros h. split; simpl; try done.
    + split; [reflexivity|simpl; lia|simpl; set_solver].
    + repeat constructor; set_solver.
  - intros u. unfold GetVersion. simpl versions. destruct (decide (u = "ann"%go)) as [->|Hne].
    + by rewrite lookup_singleton_eq.
    + by rewrite lookup_singleton_ne.
  - intros c. by split.
  - intros name h Hr. simpl in Hr. apply lookup_singleton_Some in Hr as [<- <-]. split; [simpl; lia|done].
  - by intros h.
  - by apply map_Forall_singleton.
  - apply map_Forall_empty.
  - done.
Qed.

Lemma sample_accepts : accepts sample_world 0 sample_clip (utc 0).
Proof. split; [exact sample_world_ok|reflexivity|vm_compute; reflexivity|discriminate]. Qed.

(** ** Properties *)

(** C2: An accepted clip makes exactly the next version: it becomes the hub's latest text under
    version + 1, that version is saved in the store, every other connection of the hub gets the
    one broadcast frame (or is closed if its queue is full), the sender gets only the
    acknowledgement, and no other connection, hub or registration changes. *)
Theorem clip_accepted w h clip sender now :
  accepts w h clip now ->
  let hub := hubs w h in let text := accepted_text w h clip sender now in
  exists w', ApplyClip h clip sender now w = (Ok tt, w') /\
    version (hubs w' h) = version hub + 1 /\ latest (hubs w' h) = Some text /\
    GetVersion (versions w') (h_username hub) = Z.max (GetVersion (versions w) (h_username hub)) (version hub + 1) /\
    isDirty w' = true /\
    (forall c, c ∈ connections hub -> c <> sender ->
       State (conns w' c) = send_or_close (MarshalClip (clip_ID clip) text) (State (conns w c))) /\
    State (conns w' sender) = send_or_close (MarshalClipAck (clip_ID clip) text) (State (conns w sender)) /\
    (forall c, c ∉ connections hub -> c <> sender -> conns w' c = conns w c) /\
    (forall h', h' <> h -> hubs w' h' = hubs w h') /\ registry w' = registry w.
Proof.
  intros Hacc hub text.
  destruct (ApplyClip_accepts w h clip sender now Hacc) as (b & r & w' & E & _ & Hs).
  pose proof (ok_conns _ _ _ (w_hubs w (acc_ok _ _ _ _ Hacc) h)) as Hnd.
  destruct Hs as [S1 S2 S3 S4 S5 S6 _ _ _ _]. exists w'. split; [done|].
  rewrite S1. do 2 (split; [done|]). split; [by rewrite S4, GetVersion_save, decide_True by done|].
  split; [done|]. split; [|split; [|split; [|done]]].
  - intros c Hc Hne. rewrite S3, sent_to_ne, delivered_lookup by done. by rewrite decide_True.
  - rewrite S3, sent_to_eq, delivered_lookup by done. rewrite decide_False by tauto. done.
  - intros c Hc Hne. rewrite S3, sent_to_ne, delivered_lookup by done. rewrite decide_False by tauto. done.
Qed.

Lemma clip_accepted_witness :
  exists w', ApplyClip 0 sample_clip 1 (utc 0) sample_world = (Ok tt, w') /\ version (hubs w' 0) = 5.
Proof.
  destruct (clip_accepted sample_world 0 sample_clip 1 (utc 0) sample_accepts) as (w' & E & Hv & _).
  exists w'. split; [exact E|exact Hv].
Defined.

(** C3: A retransmitted clip is idempotent: once a clip with a fresh id was accepted, then after
    fewer than [SeenIdCapacity] further submissions with other ids, submitting it again, from any
    connection, changes nothing but that connection's queue, which gets the acknowledgement of the
    original version. *)
Theorem clip_retransmit_idempotent w h clip sender now subs w1 sender2 now2 :
  accepts w h clip now -> clip_ID clip ∉ insertionOrder (seenIDs (hubs w h)) ->
  Forall (fun sub => clip_ID sub.1.1 <> clip_ID clip) subs ->
  len subs < SeenIdCapacity (Limits (cfg w)) ->
  apply_all h ((clip, sender, now) :: subs) w = (Ok tt, w1) ->
  ApplyClip h clip sender2 now2 w1 =
    (Ok tt, set_conns (sent_to sender2 (MarshalClipAck (clip_ID clip) (accepted_text w h clip sender now))
                        (conns w1)) w1).
Proof.
  intros Hacc Hid Hids Hlen E. pose proof (acc_ok _ _ _ _ Hacc) as Hw.
  destruct (ApplyClip_accepts w h clip sender now Hacc) as (b & r & w0 & E0 & Hr & Hs).
  destruct (ApplyClip_safe h clip sender now w Hw) as [Hw0 _]. rewrite E0 in Hw0.
  unfold apply_all in E. cbn [for_each] in E. unfold mbind, M_bind in E. rewrite E0 in E.
  pose proof (held_start _ _ _ _ _ (ok_ring _ _ _ (w_hubs w Hw h)) Hid Hr) as Hh.
  unfold len in Hlen.
  assert (Hget : entries (seenIDs (hubs w1 h)) !! clip_ID clip = Some (Some (accepted_text w h clip sender now))).
  { apply (apply_all_held (Z.to_nat (SeenIdCapacity (Limits (cfg w)))) _ _ (nextInsertIndex (seenIDs (hubs w h))) h subs 1 w0 w1 Hw0);
      [|lia| |exact Hids|exact E].
    - rewrite (sb_hub _ _ _ _ _ _ _ Hs). exact Hh.
    - lia. }
  assert (Hdup : IsUnchangedDuplicate (seenIDs (hubs w1 h)) (clip_ID clip) (clip_Payload clip) (clip_Hash clip)
    (clip_Encrypted clip) = (Some (accepted_text w h clip sender now), true)).
  { unfold IsUnchangedDuplicate. rewrite Hget. unfold accepted_text, clip_latest. simpl.
    rewrite !streq_refl. by rewrite eqb_reflx. }
  rewrite ApplyClip_duplicate; rewrite Hdup; done.
Qed.

Lemma clip_retransmit_idempotent_witness :
  let w1 := (apply_all 0 [(sample_clip, 1%nat, utc 0)] sample_world).2 in
  ApplyClip 0 sample_clip 0 (utc 1) w1 =
    (Ok tt, set_conns (sent_to 0 (MarshalClipAck "k1" (accepted_text sample_world 0 sample_clip 1 (utc 0)))
                        (conns w1)) w1).
Proof.
  apply (clip_retransmit_idempotent sample_world 0 sample_clip 1 (utc 0) []).
  - exact sample_accepts.
  - intros H. apply (elem_of_replicate_inv _ 64 _) in H. discriminate.
  - constructor.
  - reflexivity.
  - rewrite (surjective_pairing (apply_all 0 [(sample_clip, 1%nat, utc 0)] sample_world)) at 1.
    f_equal.
Defined.

(** A clip over the rate is refused without side effects: no version is used, nothing is stored,
    remembered or broadcast; the sender alone gets a [rate_limited] error that names the clip. *)
Theorem clip_rate_limited w h clip sender now :
  (IsUnchangedDuplicate (seenIDs (hubs w h)) (clip_ID clip) (clip_Payload clip) (clip_Hash clip)
     (clip_Encrypted clip)).2 = false ->
  (TryAcquire (clipBucket (hubs w h)) now).1 = false ->
  exists w', ApplyClip h clip sender now w = (Ok tt, w') /\
    version (hubs w' h) = version (hubs w h) /\ latest (hubs w' h) = latest (hubs w h) /\
    seenIDs (hubs w' h) = seenIDs (hubs w h) /\ versions w' = versions w /\
    State (conns w' sender) =
      send_or_close (MarshalError (mkError ErrRateLimited "Clip rate limited." (Some (clip_ID clip))))
        (State (conns w sender)) /\
    (forall c, c <> sender -> conns w' c = conns w c).
Proof.
  intros Hd Hb. destruct (TryAcquire (clipBucket (hubs w h)) now) as [ok b] eqn:Eb. simpl in Hb. subst ok.
  destruct (ApplyClip_limited w h clip sender now b Hd Eb) as (w' & E & [S1 S2 S3 S4 S5 S6 _ _ _ _]).
  exists w'. split; [done|]. rewrite S1. do 3 (split; [done|]). split; [done|]. split.
  - by rewrite S3, sent_to_eq.
  - intros c Hc. by rewrite S3, sent_to_ne.
Qed.

(** The bucket of the sample hub, emptied. *)
Definition dry_world : World :=
  set_hubs (fun _ => set_bucket (mkBucket (float64 0) (utc 0) 10 (float64 2)) sample_hub) sample_world.

Lemma clip_rate_limited_witness :
  exists w', ApplyClip 0 sample_clip 1 (utc 0) dry_world = (Ok tt, w') /\ version (hubs w' 0) = 4.
Proof.
  destruct (clip_rate_limited dry_world 0 sample_clip 1 (utc 0)) as (w' & E & Hv & _);
    [reflexivity|vm_compute; reflexivity|].
  exists w'. split; [exact E|exact Hv].
Defined.
