(* ===== verification/SyncSpec.v ===== *)
(** * Correctness of the sync server

    The server discharges what the hubs ask of their coordinator, every event of the
    server keeps the shared invariant, and the ways a connection ends. *)
From S2P Require Import Prelude GoLib GoTime Config Protocol Serialize Logic Ring Bucket Users Store Models World Hub HubSpec Sync.

(** ** Removal *)

Lemma remove_first_elem c x cs : x ∈ remove_first c cs -> x ∈ cs.
Proof.
  induction cs as [|y cs IH]; simpl; [done|]. case_bool_decide; set_solver.
Qed.

Lemma remove_first_NoDup c cs : NoDup cs -> NoDup (remove_first c cs) /\ c ∉ remove_first c cs.
Proof.
  induction 1 as [|y cs Hy Hnd [IH1 IH2]]; simpl; [split; [constructor|set_solver]|].
  case_bool_decide; subst; [done|]. split; [|set_solver].
  apply list.NoDup_cons. split; [|done]. intros Hin%remove_first_elem. done.
Qed.

Lemma remove_first_other c c' cs : c' <> c -> c' ∈ remove_first c cs <-> c' ∈ cs.
Proof.
  intros Hne. induction cs as [|y cs IH]; simpl; [done|]. case_bool_decide; subst; set_solver.
Qed.

Lemma RemoveConnection_safe h c : safe (RemoveConnection h c).
Proof.
  intros w. unfold RemoveConnection. apply safe_at_bind; [apply safe_gets|]. intros hub w0 [= <- <-].
  apply safe_at_bind; [apply safe_gets|]. intros now w0 [= <- <-]. apply safe_at_bind.
  - intros Hw. apply world_ok_hub; [done|]. destruct (w_hubs w Hw h). split; split; simpl; try done.
    by apply remove_first_NoDup.
  - intros _ w1 _. apply safe_bind; [|intros; apply safe_ret]. apply safe_if; auto with go.
Qed.

Lemma safe_registry_delete name : safe (modify (fun w => set_registry (delete name (registry w)) w)).
Proof.
  intros w [H1 H2 H3 H4 H5 H6 H7 H8]. split; split; simpl; auto; try (intros; reflexivity).
  intros n h Hr. apply H4. by apply lookup_delete_Some in Hr as [_ Hr].
Qed.

Lemma registry_Remove_safe h : safe (registry_Remove h).
Proof.
  unfold registry_Remove. do 2 (apply safe_bind; [apply safe_gets|intros]). apply safe_if; [|apply safe_ret].
  apply safe_bind; [apply safe_registry_delete|intros; apply safe_ret].
Qed.

Lemma RemoveIfEmpty_safe h b : safe (RemoveIfEmpty h b).
Proof.
  unfold RemoveIfEmpty. do 3 (apply safe_bind; [apply safe_gets|intros]).
  apply safe_if; [apply safe_ret|]. apply safe_if; [apply safe_ret|].
  apply safe_bind; [apply registry_Remove_safe|intros; apply safe_ret].
Qed.

Lemma registry_Remove_frame h w : exists b r, registry_Remove h w = (Ok b, set_registry r w).
Proof.
  unfold registry_Remove, get_hub, gets, mbind, M_bind. case_bool_decide.
  - by eexists true, _.
  - exists false, (registry w). by destruct w.
Qed.

Lemma RemoveIfEmpty_frame h b w : exists r, RemoveIfEmpty h b w = (Ok tt, set_registry r w).
Proof.
  unfold RemoveIfEmpty, nowUTC, IsEmpty, IsRecoveryWindowOpen, gets, mbind, M_bind.
  assert (Hid : (mret tt : M unit) w = (Ok tt, set_registry (registry w) w)) by by destruct w.
  destruct (negb (len _ =? 0)); [eauto|]. destruct (negb b && _); [eauto|].
  destruct (registry_Remove_frame h w) as (x & r & ->). by exists r.
Qed.

(** ** Closing *)

(** Marking a connection closed and cancelling it leaves its bag well formed. *)
Lemma safe_close c (k : M unit) : safe k ->
  safe (first ← bag_do c MarkClosed; if negb first then mret tt else modify_conn c (with_State Cancel) ;; k).
Proof.
  intros Hk w Hw. unfold bag_do, mbind, M_bind, MarkClosed. destruct (closed (State (conns w c))) eqn:Ec; simpl.
  - split; [|apply grows_conns]. apply (world_ok_conn c (with_State (fun _ => State (conns w c)))); [done|].
    apply Hw.
  - match goal with |- world_ok (k ?w2).2 /\ _ => set (w' := w2) end.
    assert (Hw' : world_ok w').
    { apply (world_ok_conns _ w Hw). intros c'. destruct (decide (c = c')) as [<-|Hne].
      - rewrite !insert_eq. destruct (w_bags w Hw c). by split.
      - rewrite !insert_ne by done. apply Hw. }
    destruct (Hk w' Hw') as [H1 H2]. split; [done|]. etrans; [|exact H2]. apply (grows_conns _ w).
Qed.

Lemma safe_close_socket c : safe (modify_conn c close_socket).
Proof. apply safe_modify_conn. by intros conn [? ?]. Qed.

Lemma safe_leave_hub c (k : Connection -> loc -> M unit) : (forall conn h, safe (k conn h)) ->
  safe (modify_conn c close_socket ;; conn ← get_conn c;
        match conn_hub conn with None => mret tt | Some h => RemoveConnection h c ;; k conn h end).
Proof.
  intros Hk. apply safe_bind; [apply safe_close_socket|intros _]. apply safe_bind; [apply safe_gets|intros conn].
  destruct (conn_hub conn); [|apply safe_ret]. apply safe_bind; [apply RemoveConnection_safe|intros; apply Hk].
Qed.

Lemma server_CancelConnection_safe c reason : safe (server_CancelConnection c reason).
Proof.
  unfold server_CancelConnection. apply safe_bind; [apply safe_pending|intros _]. apply safe_close.
  apply (safe_leave_hub c (fun conn _ => log (disconnect_event conn reason))). auto with go.
Qed.

Lemma EnqueueImmediateClose_safe c reason : safe (EnqueueImmediateClose c reason).
Proof.
  unfold EnqueueImmediateClose. apply safe_close. apply (safe_leave_hub c (fun _ _ => mret tt)). auto with go.
Qed.

Lemma server_RebuildHub_safe h : safe (server_RebuildHub h).
Proof.
  unfold server_RebuildHub. apply safe_bind; [apply registry_Remove_safe|intros removed].
  apply safe_if; [apply safe_ret|]. apply safe_bind; [apply safe_gets|intros cs].
  apply safe_bind; [apply safe_for_each; intros; apply server_CancelConnection_safe|intros _].
  apply RemoveIfEmpty_safe.
Qed.

(** The server is a coordinator the hubs can rely on. *)
#[export] Instance server_SafeCoordinator : SafeCoordinator.
Proof.
  split.
  - apply server_CancelConnection_safe.
  - apply server_RebuildHub_safe.
  - intros h. exact (RemoveIfEmpty_safe h true).
  - intros h w. exact (RemoveIfEmpty_frame h true w).
Qed.

(** ** Heart beats and hello timeouts *)

Lemma enqueueHelloTimeout_safe c : safe (enqueueHelloTimeout c).
Proof.
  unfold enqueueHelloTimeout. apply safe_bind.
  - apply safe_bag_do. intros s [? ?]. unfold TryStartHelloTimeout. by destruct (_ || _).
  - intros b. apply safe_if; [apply safe_ret|].
    apply safe_bind; [apply safe_pending|intros; apply safe_ret].
Qed.

Lemma closeAfterHelloTimeout_safe c b1 b2 : safe (closeAfterHelloTimeout c b1 b2).
Proof.
  unfold closeAfterHelloTimeout. apply safe_bind; [apply safe_gets|intros conn].
  apply safe_bind; [|intros _; apply server_CancelConnection_safe].
  repeat apply safe_if; auto using EnqueueImmediateClose_safe with go.
Qed.

Lemma scan_connection_safe h now i t p c : safe (scan_connection h now i t p c).
Proof.
  unfold scan_connection. apply safe_bind; [apply safe_gets|intros conn]. cbv zeta.
  apply safe_if; [apply safe_ret|]. apply safe_bind.
  - apply safe_if; [|apply safe_ret].
    do 2 (apply safe_bind; [apply safe_modify_conn; by intros ? [? ?]|intros _]). auto with go.
  - intros _. apply safe_bind; [apply markActivity_safe|intros; apply safe_ret].
Qed.

Lemma scan_hub_safe now h : safe (scan_hub now h).
Proof.
  unfold scan_hub. do 2 (apply safe_bind; [apply safe_gets|intros]). apply safe_bind.
  { generalize (rev a0). intros cs. induction cs as [|c cs IH]; cbn [scan_connections]; [apply safe_ret|].
    apply safe_bind; [apply scan_connection_safe|intros]. apply safe_bind; [done|intros; apply safe_ret]. }
  intros timedOut. apply safe_bind.
  { apply safe_for_each. intros c. unfold expire. apply safe_bind; [apply safe_gets|intros conn].
    apply safe_if; [|apply server_CancelConnection_safe].
    apply safe_bind; [apply enqueueHelloTimeout_safe|intros; apply safe_ret]. }
  intros _. do 2 (apply safe_bind; [apply safe_gets|intros]).
  apply safe_if; [apply RemoveIfEmpty_safe|apply safe_ret].
Qed.

Lemma ScanHeartbeats_safe now : safe (ScanHeartbeats now).
Proof.
  unfold ScanHeartbeats. apply safe_bind; [apply safe_gets|intros all].
  apply safe_bind; [apply safe_for_each; intros; apply scan_hub_safe|intros _].
  do 2 (apply safe_bind; [apply safe_gets|intros]). apply safe_for_each. intros c.
  apply safe_bind; [apply enqueueHelloTimeout_safe|intros; apply safe_ret].
Qed.

(** ** Hub creation and shut-down *)

Lemma total_bytes_nonneg hs : 0 <= total_bytes hs.
Proof.
  induction hs as [|x hs IH]; simpl; [lia|]. unfold payload_bytes at 1.
  destruct (Snapshot x) as [s|]; [|lia]. pose proof (len_nonneg (snap_Payload s)). lia.
Qed.

(** A fresh hub starts at the stored version and is well formed. *)
Lemma New_ok name c start vs hub : (forall u, in_uint64 (GetVersion vs u)) ->
  0 <= SnapshotTotalBytes (Limits c) -> 0 <= RecoveryClipQueueCapacity (Limits c) ->
  New name c start (GetVersion vs name) = Ok hub -> hub_ok c vs hub /\ h_username hub = name.
Proof.
  intros Hvs Hb Hq H. unfold New in H. apply rbind_Ok in H as (b & _ & H).
  apply rbind_Ok in H as (r & Hr & H). apply NewRing_ok in Hr as [_ Hr]. simplify_eq.
  split; [|done]. split; simpl; try done; try constructor; lia.
Qed.

Lemma GetOrCreateHub_safe username : good_name username -> safe (GetOrCreateHub username).
Proof.
  intros Hname w. unfold GetOrCreateHub. do 3 (apply safe_at_bind; [apply safe_gets|]; intros ? ? [= <- <-]).
  apply safe_at_bind; [|intros h w1 _; apply safe_bind; [|intros; apply safe_ret];
    unfold StartIfIdle; apply safe_bind; [apply safe_gets|intros hub];
    apply safe_if; [apply safe_ret|]; apply safe_bind; [auto with go|intros; apply safe_ret]].
  intros Hw. unfold GetOrAdd, gets, lift, mbind, M_bind.
  destruct (registry w !! username) as [h|]; [by split|].
  destruct (New username (cfg w) (server_start w) (GetVersion (versions w) username)) as [hub|e] eqn:E;
    [|by split].
  destruct Hw as [H1 H2 H3 H4 H5 H6 H7 H8]. pose proof (H1 0%nat) as H0.
  pose proof (total_bytes_nonneg (snapshotCandidates (hubs w 0))). pose proof (len_nonneg (recoveryQueue (hubs w 0))).
  destruct H0 as [_ _ _ _ B1 B2 _ B3 _ _].
  destruct (New_ok username (cfg w) (server_start w) (versions w) hub) as [Hok Hhub]; [done|lia|lia|done|].
  split; split; simpl; try done.
  - intros h. destruct (decide (next_hub w = h)) as [<-|]; [by rewrite insert_eq|by rewrite insert_ne].
  - intros name h Hr. destruct (decide (username = name)) as [<-|Hne].
    + rewrite lookup_insert_eq in Hr. simplify_eq. rewrite insert_eq. split; [lia|done].
    + rewrite lookup_insert_ne in Hr by done. destruct (H4 name h Hr). split; [lia|].
      rewrite insert_ne by lia. done.
  - intros h. destruct (decide (next_hub w = h)) as [<-|]; [by rewrite insert_eq, Hhub|by rewrite insert_ne].
  - lia.
  - intros h Hlt. rewrite insert_ne by lia. reflexivity.
  - by right.
Qed.

Lemma TryEnqueueSend_ok p s : bag_ok s -> bag_ok (TryEnqueueSend p s).2.
Proof.
  intros [Hb Hc]. unfold TryEnqueueSend. destruct (Z.ltb_spec (len (sendCh s)) (sendCap s)); split; simpl; auto.
  rewrite len_app, len_cons, len_nil. lia.
Qed.

Lemma ReceiveSend_ok s : bag_ok s -> bag_ok (ReceiveSend s).2.
Proof.
  intros [Hb Hc]. unfold ReceiveSend. destruct (sendCh s) as [|p q] eqn:E; split; simpl; auto.
  - by rewrite E.
  - rewrite len_cons in Hb. lia.
Qed.

Lemma Shutdown_bye_safe : safe Shutdown_bye.
Proof.
  unfold Shutdown_bye. apply safe_bind; [apply safe_gets|intros cs].
  induction cs as [|c cs IH]; cbn [send_bye]; [apply safe_ret|].
  apply safe_bind; [apply safe_gets|intros conn]. apply safe_if; [done|].
  apply safe_bind; [apply safe_bag_do; intros; by apply TryEnqueueSend_ok|intros q].
  apply safe_bind; [done|intros; apply safe_ret].
Qed.

Lemma cancel_hubs_safe hs : safe (for_each hs cancel_hub).
Proof.
  apply safe_for_each. intros h. apply safe_bind; [apply safe_gets|intros cs'].
  apply safe_for_each. intros c. apply server_CancelConnection_safe.
Qed.

(** The cancelling round, then the flush of what it left. *)
Lemma Shutdown_close_eq b w : exists w1, world_ok w -> world_ok w1 /\ grows w w1 /\
  (Shutdown_close b w = store_flush b w1 \/ exists e, Shutdown_close b w = (Err e, w1)).
Proof.
  unfold Shutdown_close, All, gets, mbind, M_bind.
  set (hs := (map_to_list (registry w)).*2). exists (for_each hs cancel_hub w).2. intros Hw.
  destruct (cancel_hubs_safe hs w Hw) as [H1 H2]. destruct (for_each hs cancel_hub w) as [[[]|e] w1]; eauto.
Qed.

Lemma Shutdown_close_ok b w : world_ok w -> world_ok (Shutdown_close b w).2 /\ advances w (Shutdown_close b w).2.
Proof.
  intros Hw. destruct (Shutdown_close_eq b w) as (w1 & H). destruct (H Hw) as (Hw1 & Hg & [-> | (e & ->)]).
  - destruct (store_flush_ok b w1 Hw1) as [Hw2 Ha]. split; [done|]. etrans; [by apply grows_advances|done].
  - split; [done|]. by apply grows_advances.
Qed.

Lemma ReplaceUserLookup_safe f : good_users f -> safe (ReplaceUserLookup f).
Proof.
  intros Hf w [H1 H2 H3 H4 H5 H6 H7 H8]. split; [split; simpl; try done; by apply good_users_lookup|].
  split; simpl; auto; intros; reflexivity.
Qed.

(** ** Runs of the server *)

(** What the rest of the program does with the server, each as one atomic event: between two events the clock
    may be moved and other goroutines run, inside one they do not. *)
Inductive ServerEvent :=
| EvClock (now : Time)                           (* time passes, or the clock is set *)
| EvHub (username : str)                         (* a hello finds or creates the user's hub *)
| EvNew (c : loc) (id username clientID clientName : str) (now : Time)   (* a connection is made *)
| EvAttach (h c : loc)                           (* it is attached to its hub *)
| EvConnect (h c : loc)                          (* it joins the hub *)
| EvJob (h : loc) (job : UserJob)                (* a job is queued *)
| EvClassify (h : loc) (clip : ClientClip) (c : loc)
| EvLoop (fuel : nat) (h : loc) (now : Time)     (* the user loop runs *)
| EvWindow (h : loc) (now : Time)                (* the scanner or a reader checks the window *)
| EvScan (now : Time)                            (* the heart-beat scan *)
| EvCancel (c : loc) (reason : str)
| EvAbort (c : loc) (reason : str)
| EvHelloTimeout (c : loc) (errorWritten closeWritten : bool)
| EvPending (c : loc)
| EvReceive (c : loc)                            (* the send loop takes a frame *)
| EvReload (f : Users.UsersFile)
| EvFlush (written : bool)                       (* the store's flush loop *)
| EvBye                                          (* the shut-down, before and after its waits *)
| EvClose (written : bool).

Definition exec (e : ServerEvent) : M unit :=
  match e with
  | EvClock t => modify (set_clk t)
  | EvHub u => GetOrCreateHub u ;; mret tt
  | EvNew c id u clientID clientName now =>
      config ← gets cfg; modify_conn c (fun _ => NewConnection id u clientID clientName config now)
  | EvAttach h c => modify_conn c (AttachHub h)
  | EvConnect h c => AddConnection h c
  | EvJob h job => TryWriteJob h job ;; mret tt
  | EvClassify h clip c => ClassifyClip h clip c ;; mret tt
  | EvLoop fuel h now => user_loop fuel h now
  | EvWindow h now => EnsureRecoveryWindowClosed h now
  | EvScan now => ScanHeartbeats now
  | EvCancel c reason => server_CancelConnection c reason
  | EvAbort c reason => EnqueueImmediateClose c reason
  | EvHelloTimeout c b1 b2 => closeAfterHelloTimeout c b1 b2
  | EvPending c => RegisterPendingHello c
  | EvReceive c => bag_do c ReceiveSend ;; mret tt
  | EvReload f => ReplaceUserLookup f
  | EvFlush b => store_flush b ;; mret tt
  | EvBye => Shutdown_bye ;; mret tt
  | EvClose b => Shutdown_close b ;; mret tt
  end.

(** A new connection is no hub's yet and joins a hub once, the versions of queued hellos are 64-bit, and the
    users have names the files can hold. *)
Definition event_ok (w : World) (e : ServerEvent) : Prop :=
  match e with
  | EvHub u => good_name u
  | EvReload f => good_users f
  | EvNew c _ _ _ _ _ => forall h, c ∉ connections (hubs w h)
  | EvConnect h c => c ∉ connections (hubs w h)
  | EvJob _ job => job_ok job
  | _ => True
  end.

Inductive reach (w0 : World) : World -> Prop :=
| reach_start : reach w0 w0
| reach_step w e : reach w0 w -> event_ok w e -> reach w0 (exec e w).2.

(** The events, for concrete runs. *)
Fixpoint events_ok (w : World) (es : list ServerEvent) : Prop :=
  match es with [] => True | e :: es' => event_ok w e /\ events_ok (exec e w).2 es' end.
Definition exec_all (es : list ServerEvent) (w : World) : World := foldl (fun w e => (exec e w).2) w es.

Lemma reach_all es : forall w0 w, reach w0 w -> events_ok w es -> reach w0 (exec_all es w).
Proof.
  induction es as [|e es IH]; intros w0 w Hr He; [done|]. destruct He as [He Hes].
  apply (IH w0 (exec e w).2); [by constructor|done].
Qed.

Lemma safe_NewConnection c id u clientID clientName now : safe (
  config ← gets cfg; modify_conn c (fun _ => NewConnection id u clientID clientName config now)).
Proof.
  intros w Hw. revert Hw. apply safe_at_bind; [apply safe_gets|]. intros config w1 [= <- <-] Hw.
  apply safe_modify_conn; [|done]. intros _ _. apply NewStateBag_ok, Hw.
Qed.

Lemma then_ret {A} (m : M A) w : ((m ;; mret tt) w).2 = (m w).2.
Proof. unfold mbind, M_bind. by destruct (m w) as [[a|e] w']. Qed.

Lemma exec_ok e w : event_ok w e -> world_ok w -> world_ok (exec e w).2 /\ advances w (exec e w).2.
Proof.
  intros He Hw.
  assert (Hsafe : forall m : M unit, safe_at m w -> world_ok (m w).2 /\ advances w (m w).2).
  { intros m Hm. destruct (Hm Hw). split; [done|by apply grows_advances]. }
  assert (Hthen : forall A (m : M A), safe m -> safe_at (m ;; mret tt) w).
  { intros A m Hm. apply safe_bind; [done|intros; apply safe_ret]. }
  destruct e; cbn [exec event_ok] in *;
    try (rewrite then_ret; by first [apply store_flush_ok|apply Shutdown_close_ok]); apply Hsafe.
  - apply safe_clk.
  - by apply Hthen, GetOrCreateHub_safe.
  - apply safe_NewConnection.
  - apply safe_modify_conn. by intros conn [? ?].
  - by apply AddConnection_safe.
  - by apply Hthen, TryWriteJob_safe.
  - apply Hthen, ClassifyClip_safe.
  - apply user_loop_safe.
  - apply EnsureRecoveryWindowClosed_safe.
  - apply ScanHeartbeats_safe.
  - apply server_CancelConnection_safe.
  - apply EnqueueImmediateClose_safe.
  - apply closeAfterHelloTimeout_safe.
  - apply safe_pending.
  - apply Hthen, safe_bag_do, ReceiveSend_ok.
  - by apply ReplaceUserLookup_safe.
  - apply Hthen, Shutdown_bye_safe.
Qed.

Lemma reach_ok w0 w : reach w0 w -> world_ok w0 -> world_ok w /\ advances w0 w.
Proof.
  induction 1 as [|w e Hr IH He]; intros H0; [done|]. destruct (IH H0) as [Hw Hg].
  destruct (exec_ok e w He Hw). split; [done|by etrans].
Qed.

Lemma server_New_ok c f loaded now : Config.validated c -> good_users f -> storable loaded ->
  (forall u, in_uint64 (GetVersion loaded u)) -> world_ok (server_New c f loaded now).
Proof.
  intros Hc Hf Hs Hl. destruct (v_queues _ Hc) as (Q1 & Q2 & _). destruct (v_snapshot _ Hc) as (_ & S2 & S3).
  split; simpl; [|done| |done|done|done|by apply good_users_lookup|lia].
  - intros h. assert (Hring : ring_ok (Z.to_nat (SeenIdCapacity (Limits c)))
      (mkRing ∅ (replicate (Z.to_nat (SeenIdCapacity (Limits c))) []) 0)).
    { split; simpl; [apply length_replicate|lia|set_solver]. }
    split; simpl; try done; try lia; [constructor|rewrite len_nil; lia|apply Hl].
  - intros _. apply NewStateBag_ok. lia.
Qed.

(** ** Ends of a connection *)

Lemma RemoveConnection_eq h c w : exists w', RemoveConnection h c w = (Ok (bool_decide (c ∈ connections (hubs w h))), w') /\
  connections (hubs w' h) = remove_first c (connections (hubs w h)) /\
  (forall h', h' <> h -> hubs w' h' = hubs w h') /\ conns w' = conns w /\ logged w' = logged w.
Proof.
  unfold RemoveConnection, nowUTC, get_hub, gets, mbind, M_bind. simpl.
  destruct (bool_decide _); simpl; (eexists; split; [reflexivity|]; split;
    [simpl; by rewrite !insert_eq|split; [intros; simpl; by rewrite !insert_ne|done]]).
Qed.

(** The connection [c] of hub [h] is closed, its socket too, and the hub lists it no more; nobody else is touched. *)
Record left_hub (w w' : World) (c h : loc) : Prop := {
  lh_closed : closed (State (conns w' c)) = true;
  lh_cancelled : cancelled (State (conns w' c)) = true;
  lh_socket : socket_closed (conns w' c) = true;
  lh_out : c ∉ connections (hubs w' h);
  lh_stay : forall c', c' <> c -> c' ∈ connections (hubs w' h) <-> c' ∈ connections (hubs w h);
  lh_hubs : forall h', h' <> h -> hubs w' h' = hubs w h';
  lh_conns : forall c', c' <> c -> conns w' c' = conns w c' }.

(** Nothing a client or a reader of the log can notice. *)
Record unnoticed (w w' : World) : Prop := {
  nn_hubs : hubs w' = hubs w;
  nn_conns : forall c, conns w' c = conns w c;
  nn_registry : registry w' = registry w;
  nn_log : logged w' = logged w }.

(** The leave after the closing. *)
Lemma leave_hub w w1 c h : world_ok w -> hubs w1 = hubs w -> logged w1 = logged w ->
  closed (State (conns w1 c)) = true -> cancelled (State (conns w1 c)) = true -> socket_closed (conns w1 c) = true ->
  (forall c', c' <> c -> conns w1 c' = conns w c') ->
  exists b w', RemoveConnection h c w1 = (Ok b, w') /\ left_hub w w' c h /\ logged w' = logged w.
Proof.
  intros Hw Hh Hl H1 H2 H3 H4. destruct (RemoveConnection_eq h c w1) as (w' & E & Hcs & Hhs & Hconns & Hlog).
  eexists _, w'. split; [exact E|]. rewrite Hlog, Hl. split; [|done]. rewrite Hh in Hcs, Hhs.
  split; rewrite ?Hcs, ?Hconns; try done; [by apply remove_first_NoDup, (w_hubs _ Hw h)|intros; by apply remove_first_other].
Qed.

Lemma cancel_open w c h reason :
  world_ok w -> closed (State (conns w c)) = false -> conn_hub (conns w c) = Some h ->
  exists w', server_CancelConnection c reason w = (Ok tt, w') /\ left_hub w w' c h /\
    logged w' = logged w ++ [disconnect_event (conns w c) reason].
Proof.
  intros Hw Hc Hh. unfold server_CancelConnection, UnregisterPendingHello, bag_do, get_conn, gets, mbind, M_bind, MarkClosed.
  simpl. rewrite Hc. simpl. rewrite !insert_eq. simpl. rewrite Hh.
  match goal with |- context [RemoveConnection h c ?w1] =>
    destruct (leave_hub w w1 c h) as (b & w' & -> & [L1 L2 L3 L4 L5 L6 L7] & Hl) end;
    simpl; rewrite ?insert_eq; try done; [intros; by rewrite !insert_ne|].
  eexists. split; [reflexivity|]. split; [by split|]. simpl. by rewrite Hl.
Qed.

Lemma abort_open w c h reason :
  world_ok w -> closed (State (conns w c)) = false -> conn_hub (conns w c) = Some h ->
  exists w', EnqueueImmediateClose c reason w = (Ok tt, w') /\ left_hub w w' c h /\ logged w' = logged w.
Proof.
  intros Hw Hc Hh. unfold EnqueueImmediateClose, bag_do, get_conn, gets, mbind, M_bind, MarkClosed.
  simpl. rewrite Hc. simpl. rewrite !insert_eq. simpl. rewrite Hh.
  match goal with |- context [RemoveConnection h c ?w1] =>
    destruct (leave_hub w w1 c h) as (b & w' & -> & Hl) end;
    simpl; rewrite ?insert_eq; try done; [intros; by rewrite !insert_ne|].
  by eexists.
Qed.

Lemma end_closed w c reason : closed (State (conns w c)) = true ->
  unnoticed w (server_CancelConnection c reason w).2 /\ unnoticed w (EnqueueImmediateClose c reason w).2.
Proof.
  intros Hc. unfold server_CancelConnection, EnqueueImmediateClose, UnregisterPendingHello, bag_do, mbind, M_bind, MarkClosed.
  simpl. rewrite Hc. simpl. split; split; try done; intros c'; simpl;
    (destruct (decide (c = c')) as [<-|]; [rewrite insert_eq; by destruct (conns w c)|by rewrite insert_ne]).
Qed.

(** ** Properties *)

(** C1: In every state the server reaches from a validated configuration and loaded users and versions, by any
    sequence of its events, each run without interruption (the clock moving in between; hellos, connections made,
    attached, joining, cancelled and aborted; jobs, user loops with their panics, window checks, scans, timeouts,
    reloads, flushes and the shut-down), the shared invariant holds: each hub's text carries the
    hub's version, the version store is not behind any hub, the duplicate ring is well formed, the
    snapshot budget, the recovery queues and all send queues respect their limits, a connection is
    listed once, a closed connection is cancelled, and the stored versions can be written to the state file.
    Of its callers it needs only that a new connection is in no hub yet and joins a hub once, that hellos carry 64-bit
    versions, and that user names are ones the users file can hold. *)
Theorem server_invariant c f loaded now w :
  Config.validated c -> good_users f -> storable loaded -> (forall u, in_uint64 (GetVersion loaded u)) ->
  reach (server_New c f loaded now) w -> world_ok w.
Proof. intros Hc Hf Hs Hl Hr. apply (reach_ok _ _ Hr). by apply server_New_ok. Qed.

(** A configuration that passes validation. *)
Definition sample_cfg : RuntimeConfig :=
  {| Server := Server Defaults; Auth := Auth Defaults; Limits := Limits Defaults;
     RateLimit := RateLimit Defaults; Files := Files Defaults;
     TokenSecret := Some (replicate 32 "k"%byte) |}.

Lemma sample_cfg_validated : Config.validated sample_cfg.
Proof. apply Validate_validated. vm_compute. reflexivity. Qed.

(** A hub made during the recovery window, a connection that joins it after the window, which closes it, and leaves. *)
Definition late_join : list ServerEvent :=
  [EvHub "ann"; EvClock (utc (9 * Second)); EvNew 0 "x1" "ann" "pc1" "PC" (utc (9 * Second)); EvAttach 0 0;
   EvConnect 0 0].

Lemma server_invariant_witness :
  let w := exec_all late_join (server_New sample_cfg sample_users ∅ (utc 0)) in
  let w' := exec_all [EvCancel 0 "bye"] w in
  (recoveryWindowClosed (hubs w 0) = true /\ connections (hubs w 0) = [0%nat] /\ len (sendCh (State (conns w 0))) = 1) /\
  (world_ok w' /\ connections (hubs w' 0) = [] /\ len (logged w') = 1).
Proof.
  split; [vm_compute; repeat split|]. split; [|vm_compute; repeat split].
  apply (server_invariant sample_cfg sample_users ∅ (utc 0)).
  - exact sample_cfg_validated.
  - by repeat constructor.
  - apply map_Forall_empty.
  - intros u. unfold GetVersion. by rewrite lookup_empty.
  - apply reach_all; [|by split]. apply reach_all; [apply reach_start|]. split; [done|]. split; [done|].
    split; [|split; [done|split; [|done]]].
    + intros [|h]; [assert (E : forall x : list loc, x = [] -> 0%nat ∉ x) by (intros x ->; apply not_elem_of_nil)|].
      * apply E. vm_compute. reflexivity.
      * intros Hin. vm_compute in Hin. inversion Hin.
    + intros Hin. vm_compute in Hin. inversion Hin.
Defined.

(** C4: Versions never go back while events do not interrupt one another: whatever events come between two moments of
    a run, each run as a whole, the version of every hub and every stored version is at least what it was, and a closed
    recovery window stays closed. (When a clip of the replay comes between the sections of a clip of the user loop
    a hub's version can fall: [replay_repeats_versions] of [HubConc].) *)
Theorem versions_monotone w w' h u :
  world_ok w -> reach w w' -> (h < next_hub w)%nat ->
  version (hubs w h) <= version (hubs w' h) /\
  GetVersion (versions w) u <= GetVersion (versions w') u /\
  (recoveryWindowClosed (hubs w h) = true -> recoveryWindowClosed (hubs w' h) = true).
Proof.
  intros Hw Hr Hh. destruct (reach_ok _ _ Hr Hw) as [_ [_ _ Hg Hs]].
  destruct (Hg h Hh). split; [done|]. split; [apply Hs|done].
Qed.

Lemma versions_monotone_witness :
  version (hubs sample_world 0) <= version (hubs (exec (EvWindow 0 (utc (9 * Second))) sample_world).2 0) /\
  GetVersion (versions sample_world) "ann" <=
    GetVersion (versions (exec (EvWindow 0 (utc (9 * Second))) sample_world).2) "ann" /\
  (recoveryWindowClosed (hubs sample_world 0) = true ->
   recoveryWindowClosed (hubs (exec (EvWindow 0 (utc (9 * Second))) sample_world).2 0) = true).
Proof.
  apply (versions_monotone sample_world).
  - exact sample_world_ok.
  - apply reach_step; [apply reach_start|exact I].
  - simpl. lia.
Defined.

(** C33: The three ends of a connection of a hub. Cancelling an open one closes it and its socket, takes it out of
    its hub and logs exactly one disconnect event, with the reason; aborting it does the same but logs nothing. A
    send to a full queue closes and cancels it and does neither: its hub keeps it, its socket stays as it was and no event
    is logged, and as it is closed, no later cancellation or abort changes that or anything else. *)
Theorem connection_ends w c h reason bytes :
  world_ok w -> conn_hub (conns w c) = Some h -> closed (State (conns w c)) = false ->
  (exists w', server_CancelConnection c reason w = (Ok tt, w') /\ left_hub w w' c h /\
     logged w' = logged w ++ [disconnect_event (conns w c) reason]) /\
  (exists w', EnqueueImmediateClose c reason w = (Ok tt, w') /\ left_hub w w' c h /\ logged w' = logged w) /\
  (sendCap (State (conns w c)) <= len (sendCh (State (conns w c))) ->
   exists w1, broadcastToConnection c bytes w = (Ok tt, w1) /\
     closed (State (conns w1 c)) = true /\ cancelled (State (conns w1 c)) = true /\
     socket_closed (conns w1 c) = socket_closed (conns w c) /\ hubs w1 = hubs w /\ logged w1 = logged w /\
     unnoticed w1 (server_CancelConnection c reason w1).2 /\ unnoticed w1 (EnqueueImmediateClose c reason w1).2).
Proof.
  intros Hw Hh Hc. split; [by apply cancel_open|]. split; [by apply abort_open|]. intros Hfull.
  assert (Hs : closed (send_or_close bytes (State (conns w c))) = true /\
               cancelled (send_or_close bytes (State (conns w c))) = true).
  { unfold send_or_close, enqueue_or_close, TryEnqueueSend, MarkClosed.
    rewrite (proj2 (Z.ltb_ge _ _)) by done. simpl. by rewrite Hc. }
  eexists. split; [reflexivity|]. simpl. rewrite insert_eq. simpl. do 2 (split; [apply Hs|]). do 3 (split; [done|]).
  apply end_closed. simpl. rewrite insert_eq. apply Hs.
Qed.

(** The sample server when the queues are full. *)
Definition full_world : World :=
  set_conns (fun _ => with_State (set_sendCh (replicate 16 "f"%go)) (conns sample_world 0)) sample_world.

Lemma full_world_ok : world_ok full_world.
Proof. apply world_ok_conns; [exact sample_world_ok|]. intros c. split; [vm_compute; discriminate|done]. Qed.

Lemma connection_ends_witness :
  exists w1, broadcastToConnection 0 "x" full_world = (Ok tt, w1) /\ closed (State (conns w1 0)) = true /\
    hubs w1 = hubs full_world /\ unnoticed w1 (server_CancelConnection 0 "heartbeat_timeout" w1).2.
Proof.
  destruct (connection_ends full_world 0 0 "heartbeat_timeout" "x" full_world_ok eq_refl eq_refl) as (_ & _ & H).
  destruct H as (w1 & E & H1 & _ & _ & H2 & _ & H3 & _); [vm_compute; discriminate|].
  exists w1. split; [exact E|]. split; [exact H1|]. split; [exact H2|exact H3].
Defined.
