(* ===== verification/ScanSpec.v ===== *)
(** * What a heart-beat scan does to a hub

    [Sync.scan_hub] on a hub all of whose connections said hello: which of them are pinged, which are ended, which
    stay, and what is logged. *)
From S2P Require Import Prelude GoLib GoTime Config Protocol Serialize Logic Ring Bucket Users Store Models World.
From S2P Require Import Hub HubSpec Sync SyncSpec.

#[local] Arguments MarshalPing : simpl never.
#[local] Arguments Sub : simpl never.

(** ** The effect on one connection *)

(** A ping when the interval has passed; a full queue closes the connection instead. *)
Definition pinged (now : Time) (interval : Z) (s : StateBag) : StateBag :=
  if interval <=? Sub now (lastPingAt s)
  then send_or_close (MarshalPing now) (MarkPingAwaitingPong (SetLastPingAt now s)) else s.

Definition silent (now : Time) (timeout : Z) (s : StateBag) : bool := timeout <=? Sub now (lastSeen s).

(** A cancelled connection. *)
Definition ended (conn : Connection) : Connection := close_socket (with_State Cancel (with_State set_closed conn)).

Lemma send_or_close_frame p s : lastSeen (send_or_close p s) = lastSeen s /\
  helloReceived (send_or_close p s) = helloReceived s.
Proof.
  unfold send_or_close, enqueue_or_close, TryEnqueueSend, MarkClosed.
  destruct (_ <? _); cbn [negb]; [done|]. by destruct (closed s) eqn:E.
Qed.

Lemma pinged_frame now i s : lastSeen (pinged now i s) = lastSeen s /\ helloReceived (pinged now i s) = helloReceived s.
Proof. unfold pinged. destruct (_ <=? _); [|done].
  exact (send_or_close_frame _ (MarkPingAwaitingPong (SetLastPingAt now s))). Qed.

Lemma with_State_id conn : with_State (fun s => s) conn = conn.
Proof. by destruct conn. Qed.

Lemma with_State_comp f g conn : with_State f (with_State g conn) = with_State (fun s => f (g s)) conn.
Proof. done. Qed.

(** ** The frame of a scan *)

(** Nothing but connections and the hub's times changes. *)
Record same_lists (w w' : World) : Prop := {
  sl_connections : forall h, connections (hubs w' h) = connections (hubs w h);
  sl_logged : logged w' = logged w }.

#[global] Instance same_lists_preorder : PreOrder same_lists.
Proof.
  split; [by split|]. intros a b c [H1 H2] [H3 H4]. split; [|congruence]. intros h. by rewrite H3.
Qed.

Lemma same_lists_conns f w : same_lists w (set_conns f w).
Proof. by split. Qed.

Lemma activity_lists h n w w1 : same_lists w w1 ->
  same_lists w (set_hubs (<[h := set_activity n (hubs w1 h)]> (hubs w1)) w1).
Proof.
  intros Hw. etrans; [exact Hw|]. split; [|done]. intros h'. simpl.
  destruct (decide (h = h')) as [<-|]; [by rewrite insert_eq|by rewrite insert_ne].
Qed.

Lemma scan_connection_spec h now i t c w : helloReceived (State (conns w c)) = true ->
  exists w', scan_connection h now i t (MarshalPing now) c w = (Ok (silent now t (State (conns w c))), w') /\
    same_lists w w' /\ conns w' c = with_State (pinged now i) (conns w c) /\
    forall c', c' <> c -> conns w' c' = conns w c'.
Proof.
  intros Hh. unfold scan_connection, get_conn, gets, mbind, M_bind. rewrite Hh. cbn [negb andb].
  unfold pinged. destruct (i <=? Sub now (lastPingAt (State (conns w c)))) eqn:E;
    (eexists; split; [reflexivity|]; split; [apply activity_lists; by split|]); simpl; rewrite ?insert_eq.
  - split; [unfold with_State; simpl; by rewrite E|]. intros c' Hne. by rewrite !insert_ne.
  - split; [unfold with_State; rewrite E; by destruct (conns w c)|done].
Qed.

(** The loop over the connections: each is pinged, the silent ones are collected. *)
Lemma scan_connections_spec h now i t cs : forall w, NoDup cs ->
  Forall (fun c => helloReceived (State (conns w c)) = true) cs ->
  exists w', scan_connections h now i t (MarshalPing now) cs w =
    (Ok (filter (fun c => silent now t (State (conns w c)) = true) cs), w') /\
    same_lists w w' /\ (forall c, c ∈ cs -> conns w' c = with_State (pinged now i) (conns w c)) /\
    forall c, c ∉ cs -> conns w' c = conns w c.
Proof.
  induction cs as [|c cs IH]; intros w Hnd Hh; cbn [scan_connections].
  { exists w. split; [done|]. split; [reflexivity|]. split; [set_solver|done]. }
  apply list.NoDup_cons in Hnd as [Hc Hnd]. apply list.Forall_cons in Hh as [Hh1 Hh].
  destruct (scan_connection_spec h now i t c w Hh1) as (w1 & E1 & L1 & C1 & F1).
  assert (Heq : forall c', c' ∈ cs -> conns w1 c' = conns w c') by (intros c' Hc'; apply F1; by intros ->).
  destruct (IH w1 Hnd) as (w2 & E2 & L2 & C2 & F2).
  { rewrite list.Forall_forall in *. intros c' Hc'. rewrite Heq by done. by apply Hh. }
  exists w2. split; [|split; [by etrans|split]].
  - unfold mbind, M_bind in *. rewrite E1, E2, filter_cons.
    rewrite (filter_agree _ (fun c => silent now t (State (conns w c)) = true)).
    + by destruct (silent now t (State (conns w c))).
    + intros c' Hc'. by rewrite Heq.
  - intros c' [->|Hc']%elem_of_cons; [by rewrite F2|]. by rewrite C2, Heq.
  - intros c' Hn. rewrite F2, F1; set_solver.
Qed.

(** ** Ending the silent ones *)

Lemma remove_first_filter c cs : NoDup cs -> remove_first c cs = filter (fun x => x <> c) cs.
Proof.
  induction cs as [|x cs IH]; [done|]. intros [Hx Hnd]%list.NoDup_cons. cbn [remove_first]. rewrite filter_cons.
  destruct (decide (x = c)) as [->|Hne].
  - rewrite bool_decide_eq_true_2 by done. rewrite decide_False by (by intros ?).
    symmetry. apply filter_keeps_all. by intros x Hx' ->.
  - rewrite bool_decide_eq_false_2 by done. rewrite decide_True by done. f_equal. by apply IH.
Qed.

Definition heartbeat_lost : str := "heartbeat_timeout".

(** A connection that is not yet closed. *)
Definition live (w : World) (c : loc) : Prop := closed (State (conns w c)) = false.

#[export] Instance live_dec w c : Decision (live w c).
Proof. unfold live. apply _. Defined.

Lemma expire_spec h c w : helloReceived (State (conns w c)) = true -> conn_hub (conns w c) = Some h ->
  NoDup (connections (hubs w h)) ->
  exists w', expire c w = (Ok tt, w') /\ (forall c', c' <> c -> conns w' c' = conns w c') /\
    if closed (State (conns w c)) then same_lists w w' /\ conns w' c = conns w c
    else connections (hubs w' h) = filter (fun x => x <> c) (connections (hubs w h)) /\
         logged w' = logged w ++ [disconnect_event (conns w c) heartbeat_lost] /\
         conns w' c = ended (conns w c).
Proof.
  intros Hr Hh Hnd. unfold expire, get_conn, gets, mbind, M_bind. rewrite Hr. cbn [negb].
  unfold server_CancelConnection, UnregisterPendingHello, bag_do, get_conn, gets, mbind, M_bind, MarkClosed. simpl.
  destruct (closed (State (conns w c))) eqn:Ec; simpl.
  - eexists. split; [reflexivity|]. simpl. split; [intros c' Hne; by rewrite insert_ne|]. split; [by split|].
    rewrite insert_eq. by destruct (conns w c).
  - rewrite !insert_eq. simpl. rewrite Hh.
    match goal with |- context [RemoveConnection h c ?w1] =>
      destruct (RemoveConnection_eq h c w1) as (w' & -> & Hcs & _ & Hconns & Hlog) end.
    eexists. split; [reflexivity|]. simpl. rewrite Hconns, Hcs, Hlog. simpl.
    split; [intros c' Hne; by rewrite !insert_ne|]. split; [by apply remove_first_filter|].
    rewrite !insert_eq. done.
Qed.

(** Ending a list of connections: the closed ones among them stay as they are. *)
Lemma expire_all h ts : forall w, NoDup ts -> NoDup (connections (hubs w h)) ->
  Forall (fun c => helloReceived (State (conns w c)) = true /\ conn_hub (conns w c) = Some h) ts ->
  exists w', for_each ts expire w = (Ok tt, w') /\
    connections (hubs w' h) = filter (fun c => ~ (c ∈ ts /\ live w c)) (connections (hubs w h)) /\
    logged w' = logged w ++ ((fun c => disconnect_event (conns w c) heartbeat_lost) <$> filter (live w) ts) /\
    (forall c, c ∈ ts -> conns w' c = if closed (State (conns w c)) then conns w c else ended (conns w c)) /\
    forall c, c ∉ ts -> conns w' c = conns w c.
Proof.
  induction ts as [|c ts IH]; intros w Hnd Hcs Hts; cbn [for_each].
  { exists w. split; [done|]. rewrite filter_keeps_all by (intros x _ [? _]; set_solver). rewrite app_nil_r.
    split_and!; try done. set_solver. }
  apply list.NoDup_cons in Hnd as [Hc Hnd]. apply list.Forall_cons in Hts as [[Hr Hh] Hts].
  destruct (expire_spec h c w Hr Hh Hcs) as (w1 & E1 & F1 & S1).
  assert (Heq : forall c', c' ∈ ts -> conns w1 c' = conns w c') by (intros c' Hc'; apply F1; by intros ->).
  assert (Hcs1 : connections (hubs w1 h) = filter (fun x => ~ (x = c /\ live w c)) (connections (hubs w h)) /\
    logged w1 = logged w ++ (if closed (State (conns w c)) then [] else [disconnect_event (conns w c) heartbeat_lost]) /\
    conns w1 c = if closed (State (conns w c)) then conns w c else ended (conns w c)).
  { destruct (closed (State (conns w c))) eqn:Ec; [destruct S1 as [[S1 S2] S3]|destruct S1 as (S1 & S2 & S3)].
    - rewrite S1, app_nil_r. split; [|done]. symmetry. apply filter_keeps_all. intros x _ [_ Hl]. unfold live in Hl.
      congruence.
    - split; [|done]. rewrite S1. apply filter_agree. intros x _. unfold live. rewrite Ec. tauto. }
  destruct Hcs1 as (C1 & L1 & E1c).
  destruct (IH w1 Hnd) as (w2 & E2 & C2 & L2 & S2 & F2).
  { rewrite C1. by apply list.NoDup_filter. }
  { rewrite list.Forall_forall in *. intros c' Hc'. rewrite Heq by done. by apply Hts. }
  exists w2. unfold mbind, M_bind. rewrite E1. split; [exact E2|]. split_and!.
  - rewrite C2, C1, list_filter_filter. apply filter_agree. intros x _. rewrite elem_of_cons.
    unfold live. split; [intros [H1 H2] [[->|Hx] Hl]; [tauto|]; apply H1; by rewrite Heq|].
    intros H. split; [intros [Hx Hl]; apply H; rewrite Heq in Hl by done; tauto|]. intros [-> Hl]. tauto.
  - rewrite L2, L1, <- app_assoc. f_equal. rewrite filter_cons.
    assert (Hf : filter (live w1) ts = filter (live w) ts).
    { apply filter_agree. intros x Hx. unfold live. by rewrite Heq. }
    rewrite Hf. assert (Hm : ((fun c => disconnect_event (conns w1 c) heartbeat_lost) <$> filter (live w) ts) =
      ((fun c => disconnect_event (conns w c) heartbeat_lost) <$> filter (live w) ts)).
    { apply list_fmap_ext. intros i x Hx. apply list_elem_of_lookup_2, list_elem_of_filter in Hx as [_ Hx]. by rewrite Heq. }
    rewrite Hm. destruct (closed (State (conns w c))) eqn:Ec.
    + by rewrite decide_False by (unfold live; congruence).
    + by rewrite decide_True by done.
  - intros x [->|Hx]%elem_of_cons; [by rewrite F2|]. by rewrite S2, Heq.
  - intros x Hx. rewrite F2, F1; set_solver.
Qed.

(** ** The scan of a hub *)

(** The connections a scan ends: silent for the whole timeout, and still open once the ping is sent. *)
Definition lost (w : World) (now : Time) (c : loc) : Prop :=
  let l := Limits (cfg w) in
  let s := State (conns w c) in
  silent now (duration (HeartbeatTimeoutSeconds l) Second) s = true /\
  closed (pinged now (duration (HeartbeatIntervalSeconds l) Second) s) = false.

#[export] Instance lost_dec w now c : Decision (lost w now c).
Proof. unfold lost. apply _. Defined.

Definition scanned (w : World) (now : Time) (c : loc) : Connection :=
  with_State (pinged now (duration (HeartbeatIntervalSeconds (Limits (cfg w))) Second)) (conns w c).

Lemma maybe_remove h (b : bool) w : exists r, (if b then RemoveIfEmpty h false else mret tt) w = (Ok tt, set_registry r w).
Proof. destruct b; [apply RemoveIfEmpty_frame|]. exists (registry w). by destruct w. Qed.

(** ** Properties *)

(** C32: A heart-beat scan does exactly what it should to a hub whose connections said hello: each one whose ping
    interval has passed is sent a ping (or is closed when its queue is full) and the others are left alone; each
    one silent for the whole timeout and still open is closed and cancelled with its socket, taken out of the
    hub and logged once as a heart-beat timeout; everyone else stays, and no connection of another hub is touched. *)
Theorem heartbeat_scan_exact w now h :
  world_ok w ->
  Forall (fun c => helloReceived (State (conns w c)) = true /\ conn_hub (conns w c) = Some h) (connections (hubs w h)) ->
  exists w', scan_hub now h w = (Ok tt, w') /\
    connections (hubs w' h) = filter (fun c => ~ lost w now c) (connections (hubs w h)) /\
    (forall c, c ∈ connections (hubs w h) ->
       conns w' c = if decide (lost w now c) then ended (scanned w now c) else scanned w now c) /\
    (forall c, c ∉ connections (hubs w h) -> conns w' c = conns w c) /\
    logged w' = logged w ++ ((fun c => disconnect_event (conns w c) heartbeat_lost) <$>
                               filter (lost w now) (rev (connections (hubs w h)))).
Proof.
  intros Hw Hall. set (cs := connections (hubs w h)) in *. pose proof (ok_conns _ _ _ (w_hubs w Hw h)) as Hnd.
  fold cs in Hnd. set (i := duration (HeartbeatIntervalSeconds (Limits (cfg w))) Second).
  set (t := duration (HeartbeatTimeoutSeconds (Limits (cfg w))) Second).
  unfold scan_hub, Connections, IsEmpty, LastActivityAt, gets, mbind, M_bind. fold cs i t.
  assert (Hp : rev cs ≡ₚ cs) by (symmetry; apply Permutation_rev).
  destruct (scan_connections_spec h now i t (rev cs) w) as (w1 & E1 & L1 & C1 & F1).
  { by rewrite Hp. }
  { rewrite Hp. eapply list.Forall_impl; [exact Hall|]. by intros c [? _]. }
  rewrite E1. clear E1. set (ts := filter _ (rev cs)).
  assert (Hcs1 : connections (hubs w1 h) = cs) by apply (sl_connections _ _ L1).
  assert (Hts : forall c, c ∈ ts <-> c ∈ cs /\ silent now t (State (conns w c)) = true).
  { intros c. unfold ts. rewrite list_elem_of_filter, Hp. tauto. }
  assert (Hs1 : forall c, c ∈ cs -> conns w1 c = scanned w now c) by (intros c Hc; apply C1; by rewrite Hp).
  destruct (expire_all h ts w1) as (w2 & E2 & C2 & L2 & S2 & F2).
  { apply list.NoDup_filter. by rewrite Hp. }
  { by rewrite Hcs1. }
  { apply list.Forall_forall. intros c [Hc _]%Hts. rewrite Hs1 by done. rewrite list.Forall_forall in Hall.
    destruct (Hall c Hc). split; [|done]. simpl. by rewrite (proj2 (pinged_frame _ _ _)). }
  assert (Hlost : forall c, c ∈ cs -> (c ∈ ts /\ live w1 c) <-> lost w now c).
  { intros c Hc. rewrite Hts. unfold live, lost. rewrite Hs1 by done. tauto. }
  rewrite E2. clear E2. cbv beta iota zeta.
  match goal with |- context [if ?b then RemoveIfEmpty h false else _] => destruct (maybe_remove h b w2) as [r Hr] end.
  exists (set_registry r w2). split; [exact Hr|].
  simpl. split_and!.
  - rewrite C2, Hcs1. apply filter_agree. intros c Hc. by rewrite Hlost.
  - intros c Hc. destruct (decide (c ∈ ts)) as [Ht|Ht].
    + rewrite S2, Hs1 by done. destruct (closed (State (scanned w now c))) eqn:E.
      * rewrite decide_False; [done|]. intros [_ Hcl]. change (closed (State (scanned w now c)) = false) in Hcl.
        congruence.
      * rewrite decide_True; [done|]. apply Hlost; [done|]. split; [done|]. unfold live. by rewrite Hs1.
    + rewrite F2, Hs1 by done. rewrite decide_False; [done|]. intros H. apply Hlost in H as [? _]; done.
  - intros c Hc. rewrite F2, F1; [done|by rewrite Hp|]. rewrite Hts. tauto.
  - rewrite L2, (sl_logged _ _ L1). f_equal.
    assert (Hf : filter (live w1) ts = filter (lost w now) (rev cs)).
    { unfold ts. rewrite list_filter_filter. apply filter_agree. intros c Hc. rewrite Hp in Hc.
      rewrite <- Hlost by done. rewrite Hts. tauto. }
    rewrite Hf. apply list_fmap_ext. intros k c Hk%list_elem_of_lookup_2.
    apply list_elem_of_filter in Hk as [_ Hk]. rewrite Hp in Hk. by rewrite Hs1.
Qed.

(** Two connections that said hello; the first was seen a second before the scan, the second 100 seconds before. *)
Definition two_connections : World :=
  set_conns (fun c => with_State (fun s => SetHelloReceived true (if bool_decide (c = 1%nat) then SetLastSeen (utc (99 * Second)) s else s))
                        (conns sample_world c)) sample_world.

Lemma two_connections_ok : world_ok two_connections.
Proof. apply world_ok_conns; [exact sample_world_ok|]. intros c. simpl. destruct (bool_decide (c = 1%nat)); by split.
  Qed.

Lemma heartbeat_scan_exact_witness :
  exists w', scan_hub (utc (100 * Second)) 0 two_connections = (Ok tt, w') /\ connections (hubs w' 0%nat) = [1%nat] /\
    length (logged w') = 1%nat.
Proof.
  destruct (heartbeat_scan_exact two_connections (utc (100 * Second)) 0 two_connections_ok) as (w' & E & C & _ & _ & L).
  - repeat constructor.
  - exists w'. split; [exact E|]. rewrite C, L. split; vm_compute; reflexivity.
Defined.
