(* ===== verification/RecoverySpec.v ===== *)
(** * The end of the recovery window with clips in its queue

    [Hub.CloseRecoveryWindow] in full: the snapshots are judged, the clips that waited are applied one after the other on
    top of the outcome, and every connection is welcomed with the last text. The reference is [replay], a pure function
    of the hub and the connections that says of each waiting clip what becomes of it. *)
From S2P Require Import Prelude GoLib GoTime Config Protocol Serialize Logic Ring Bucket Users Store Models World.
From S2P Require Import Hub HubSpec Sync SyncSpec.

#[local] Arguments MarshalWelcome : simpl never.
#[local] Arguments MarshalClipAck : simpl never.

(** ** The reference *)

(** What becomes of a waiting clip, and why. *)
Inductive verdict :=
| Gone                       (** its connection is closed *)
| Duplicate (ack : LatestText)   (** its id is remembered with the same content *)
| RateLimited                (** the bucket has no token *)
| Accepted (text : LatestText).

Definition judge (now : Time) (rc : RecoveryClip) (hub : Hub) (heap : loc -> Connection) : verdict :=
  let clip := rc_Clip rc in
  let conn := heap (rc_Connection rc) in
  let '(known, unchanged) :=
    IsUnchangedDuplicate (seenIDs hub) (clip_ID clip) (clip_Payload clip) (clip_Hash clip) (clip_Encrypted clip) in
  if closed (State conn) then Gone
  else if (unchanged : bool) then Duplicate (ack_latest known hub conn now)
  else if (TryAcquire (clipBucket hub) now).1 then Accepted (clip_latest clip (version hub + 1) conn now)
  else RateLimited.

(** The ring with one id more. *)
Definition remembered (id : str) (text : LatestText) (hub : Hub) : Ring :=
  match Remember (seenIDs hub) id (Some text) with Ok r => r | Err _ => seenIDs hub end.

(** The hub after the verdict: an accepted clip is its text under the next version, is remembered and costs a token. *)
Definition hub_after (now : Time) (rc : RecoveryClip) (v : verdict) (hub : Hub) : Hub :=
  let b := (TryAcquire (clipBucket hub) now).2 in
  match v with
  | Gone | Duplicate _ => hub
  | RateLimited => set_bucket b hub
  | Accepted text =>
      set_seenIDs (remembered (clip_ID (rc_Clip rc)) text hub) (set_latest (Some text) (Version text) (set_bucket b hub))
  end.

(** The connections after the verdict: the sender is answered, and an accepted clip goes to all others. *)
Definition heap_after (rc : RecoveryClip) (v : verdict) (hub : Hub) (heap : loc -> Connection) : loc -> Connection :=
  let id := clip_ID (rc_Clip rc) in
  let sender := rc_Connection rc in
  match v with
  | Gone => heap
  | Duplicate ack => sent_to sender (MarshalClipAck id ack) heap
  | RateLimited => sent_to sender (MarshalError (mkError ErrRateLimited "Clip rate limited." (Some id))) heap
  | Accepted text =>
      sent_to sender (MarshalClipAck id text) (delivered (connections hub) sender (MarshalClip id text) heap)
  end.

Record replayed := mkReplayed { verdicts : list verdict; end_hub : Hub; end_heap : loc -> Connection }.

(** The queue in its order, each clip judged on what the ones before it left. *)
Fixpoint replay (now : Time) (q : list RecoveryClip) (hub : Hub) (heap : loc -> Connection) : replayed :=
  match q with
  | [] => mkReplayed [] hub heap
  | rc :: q' =>
      let v := judge now rc hub heap in
      let r := replay now q' (hub_after now rc v hub) (heap_after rc v hub heap) in
      mkReplayed (v :: verdicts r) (end_hub r) (end_heap r)
  end.

(** The hub when the snapshots are judged, with no clip waiting any more. *)
Definition judged_hub (hub : Hub) : Hub :=
  set_recoveryQueue [] (set_latest (restored hub).2 (restored hub).1 (set_windowClosed hub)).

(** The texts of the accepted clips. *)
Definition accepted (vs : list verdict) : list LatestText :=
  omap (fun v => match v with Accepted text => Some text | _ => None end) vs.

(** ** The reference numbers the accepted clips *)

Lemma judge_version now rc hub heap text : judge now rc hub heap = Accepted text -> Version text = version hub + 1.
Proof. unfold judge. repeat case_match; try done. by intros [= <-]. Qed.

Lemma replay_numbers now q : forall hub heap, let r := replay now q hub heap in
  Version <$> accepted (verdicts r) = seqZ (version hub + 1) (version (end_hub r) - version hub) /\
  version hub <= version (end_hub r) <= version hub + len q /\
  latest (end_hub r) = match list.last (accepted (verdicts r)) with Some text => Some text | None => latest hub end.
Proof.
  induction q as [|rc q IH]; intros hub heap; cbn [replay verdicts end_hub accepted omap list_omap].
  { rewrite Z.sub_diag. split; [done|]. split; [unfold len; simpl; lia|done]. }
  rewrite len_cons.
  destruct (IH (hub_after now rc (judge now rc hub heap) hub) (heap_after rc (judge now rc hub heap) hub heap))
    as (IH1 & IH2 & IH3).
  destruct (judge now rc hub heap) as [| | |text] eqn:Ev; cbn [hub_after version latest set_bucket] in *;
    try (split; [exact IH1|split; [lia|exact IH3]]).
  pose proof (judge_version _ _ _ _ _ Ev) as Ht. cbn [set_seenIDs set_latest version latest] in IH1, IH2, IH3.
  split; [|split; [lia|]].
  - etrans; [|symmetry; apply seqZ_cons; lia]. apply (f_equal2 cons); [exact Ht|].
    etrans; [exact IH1|]. f_equal; lia.
  - etrans; [exact IH3|].
    match goal with |- context [list.last (text :: ?l)] => rewrite (list.last_cons text l) end.
    unfold accepted. by destruct (list.last _).
Qed.

(** The clips change neither who is connected nor the window. *)
Lemma replay_frame now q : forall hub heap, let r := replay now q hub heap in
  recoveryWindowClosed (end_hub r) = recoveryWindowClosed hub /\ recoveryQueue (end_hub r) = recoveryQueue hub /\
  connections (end_hub r) = connections hub.
Proof.
  induction q as [|rc q IH]; intros hub heap; [done|]. cbn [replay end_hub].
  set (v := judge now rc hub heap).
  destruct (IH (hub_after now rc v hub) (heap_after rc v hub heap)) as (-> & -> & ->).
  by destruct v.
Qed.

(** ** The code follows the reference *)

Lemma judge_closed now rc hub heap : closed (State (heap (rc_Connection rc))) = true -> judge now rc hub heap = Gone.
Proof. intros H. unfold judge. rewrite H. by destruct (IsUnchangedDuplicate _ _ _ _ _). Qed.

(** The store covers the hub: at its own version, or above from before. *)
Definition stored_at (h : loc) (w w' : World) : Prop :=
  h_username (hubs w' h) = h_username (hubs w h) /\
  GetVersion (versions w') (h_username (hubs w h)) =
    Z.max (GetVersion (versions w) (h_username (hubs w h))) (version (hubs w' h)).

Lemma apply_recovery_exact h now rc w : world_ok w -> version (hubs w h) < MaxUint64 ->
  let v := judge now rc (hubs w h) (conns w) in
  exists w', apply_recovery h now rc w = (Ok tt, w') /\ stored_at h w w' /\
    hubs w' h = hub_after now rc v (hubs w h) /\ conns w' = heap_after rc v (hubs w h) (conns w).
Proof.
  intros Hw Hv. pose proof (ok_stored _ _ _ (w_hubs w Hw h)) as Hst.
  unfold apply_recovery, get_conn, gets, mbind, M_bind. unfold stored_at.
  destruct (closed _) eqn:Ec; [rewrite judge_closed by done; exists w; split_and!; try done; lia|].
  unfold judge. rewrite Ec. set (clip := rc_Clip rc). set (c := rc_Connection rc).
  destruct (IsUnchangedDuplicate (seenIDs (hubs w h)) (clip_ID clip) (clip_Payload clip) (clip_Hash clip)
    (clip_Encrypted clip)) as [known unchanged] eqn:Hd.
  destruct unchanged.
  { rewrite ApplyClip_duplicate by (by rewrite Hd). rewrite Hd. eexists. split_and!; try done. simpl. lia. }
  destruct (TryAcquire (clipBucket (hubs w h)) now) as [[] b] eqn:Hb; cbn [fst].
  2:{ destruct (ApplyClip_limited w h clip c now b) as (w' & -> & Hs); [by rewrite Hd|done|]. exists w'.
      destruct Hs as [S1 _ S3 S4 _ _ _ _ _ _]. rewrite S1, S3, S4. cbn [hub_after heap_after]. rewrite Hb.
      split_and!; try done. simpl. lia. }
  destruct (ring_remembers _ _ _ (clip_ID clip)
    (Some (clip_latest clip (version (hubs w h) + 1) (conns w c) now)) (w_hubs w Hw h)) as (r & Hr & _).
  destruct (ApplyClip_accepted w h clip c now b r) as (w' & -> & Hs); try done; [by rewrite Hd|lia|]. exists w'.
  destruct Hs as [S1 _ S3 S4 _ _ _ _ _ _]. rewrite S1, S3, S4. cbn [hub_after heap_after].
  unfold remembered. fold clip. rewrite Hr, Hb. split_and!; try done. simpl. by rewrite GetVersion_save, decide_True.
Qed.

Lemma queue_exact h now q : forall w, world_ok w -> version (hubs w h) + len q <= MaxUint64 ->
  let r := replay now q (hubs w h) (conns w) in
  exists w', for_each q (apply_recovery h now) w = (Ok tt, w') /\ stored_at h w w' /\
    hubs w' h = end_hub r /\ conns w' = end_heap r.
Proof.
  induction q as [|rc q IH]; intros w Hw Hv; cbn [for_each replay end_hub end_heap].
  { pose proof (ok_stored _ _ _ (w_hubs w Hw h)). exists w. split; [done|]. split; [split; [done|lia]|done]. }
  rewrite len_cons in Hv. pose proof (len_nonneg q).
  destruct (apply_recovery_exact h now rc w Hw) as (w1 & E1 & [N1 V1] & H1 & C1); [lia|].
  assert (Hw1 : world_ok w1).
  { pose proof (apply_recovery_safe h now rc w Hw) as [Hs _]. by rewrite E1 in Hs. }
  pose proof (replay_numbers now [rc] (hubs w h) (conns w)) as (_ & Hle & _). cbn [replay end_hub] in Hle.
  rewrite <- H1 in Hle. change (len [rc]) with 1 in Hle.
  destruct (IH w1 Hw1) as (w2 & E2 & [N2 V2] & H2 & C2); [lia|].
  pose proof (replay_numbers now q (hubs w1 h) (conns w1)) as (_ & Hle2 & _). rewrite <- H2 in Hle2.
  exists w2. unfold mbind, M_bind. rewrite E1, E2, H2, C2, H1, C1. split; [done|]. split; [|done].
  split; [congruence|]. rewrite N1 in V2. lia.
Qed.

(** The election saves the version it moves the hub to. *)
Lemma restore_stored w h hub w' : hubs w h = hub -> version hub <= GetVersion (versions w) (h_username hub) ->
  match SelectSnapshotWinner (snapshotCandidates hub) with
  | Some winner => restore_snapshot h winner
  | None => mret tt
  end w = (Ok tt, w') ->
  GetVersion (versions w') (h_username hub) = Z.max (GetVersion (versions w) (h_username hub)) (restored hub).1.
Proof.
  intros <- Hst. unfold restored. destruct (SelectSnapshotWinner _) as [win|]; [|intros [= <-]; simpl; lia].
  unfold restore_snapshot, get_hub, gets, mbind, M_bind.
  destruct (_ || _) eqn:E; [|intros [= <-]; simpl; lia]. apply orb_true_iff in E.
  destruct (Z.ltb_spec (version (hubs w h)) (win_Version win)); intros [= <-]; simpl.
  - by rewrite GetVersion_save, decide_True.
  - destruct E as [E|E]; bool_to_prop; lia.
Qed.

(** ** The whole window *)

Section Window.
Context `{SafeCoordinator}.

(** Judging the snapshots keeps the invariant. *)
Lemma judged_ok w h hub : world_ok w -> hubs w h = hub ->
  world_ok (match SelectSnapshotWinner (snapshotCandidates hub) with
            | Some winner => restore_snapshot h winner
            | None => mret tt
            end w).2.
Proof.
  intros Hw <-. destruct (SelectSnapshotWinner _) as [win|] eqn:E; [|done].
  apply restore_snapshot_safe; [|done]. eapply winner_range; [|exact E]. apply (w_hubs w Hw h).
Qed.

Lemma CloseRecoveryWindow_full w h now :
  world_ok w -> recoveryWindowClosed (hubs w h) = false ->
  (restored (hubs w h)).1 + len (recoveryQueue (hubs w h)) <= MaxUint64 ->
  let hub := hubs w h in
  let r := replay now (recoveryQueue hub) (judged_hub hub) (conns w) in
  exists w', CloseRecoveryWindow h now w = (Ok tt, w') /\
    hubs w' h = set_activity (UnixNano now) (end_hub r) /\
    conns w' = sent_to_all (connections (end_hub r)) (MarshalWelcome (latest (end_hub r))) (end_heap r) /\
    stored_at h w w'.
Proof.
  intros Hw Ho Hlen hub r. pose proof (ok_conns _ _ _ (w_hubs w Hw h)) as Hnd.
  unfold CloseRecoveryWindow, get_hub, gets, mbind, M_bind. fold hub in Ho. fold hub. rewrite Ho.
  cbn [modify_hub modify].
  set (w1 := set_hubs (<[h := set_windowClosed (hubs w h)]> (hubs w)) w).
  assert (Hw1 : world_ok w1) by (apply (safe_modify_hub h _ set_windowClosed_safe w Hw)).
  pose proof (judged_ok w1 h (set_windowClosed hub) Hw1 (insert_eq _ _ _)) as Hw2.
  destruct (restore_eq w1 h (set_windowClosed hub) (insert_eq _ _ _)) as (w2 & E2 & Hh2 & Hc2 & _).
  pose proof (restore_stored w1 h (set_windowClosed hub) w2 (insert_eq _ _ _)
    (ok_stored _ _ _ (w_hubs w Hw h)) E2) as Hs2.
  rewrite E2 in Hw2. cbn [snd] in Hw2. cbn [snapshotCandidates set_windowClosed] in E2. rewrite E2.
  set (w3 := set_hubs (<[h := set_recoveryQueue [] (hubs w2 h)]> (hubs w2)) w2).
  assert (Hw3 : world_ok w3) by (apply (safe_modify_hub h _ set_recoveryQueue_nil_safe w2 Hw2)).
  assert (Hh3 : hubs w3 h = judged_hub hub) by (unfold w3; simpl; by rewrite insert_eq, Hh2).
  assert (Hc3 : conns w3 = conns w) by exact Hc2.
  destruct (queue_exact h now (recoveryQueue hub) w3 Hw3) as (w4 & E4 & [N4 V4] & H4 & C4); [by rewrite Hh3|].
  rewrite E4. rewrite Hh3 in N4, V4, H4, C4. rewrite Hc3 in H4, C4. fold r in H4, C4.
  assert (HV : GetVersion (versions w4) (h_username hub) =
    Z.max (GetVersion (versions w) (h_username hub)) (version (end_hub r))).
  { change (h_username (judged_hub hub)) with (h_username hub) in V4. rewrite V4, <- H4.
    change (versions w3) with (versions w2). change (h_username (set_windowClosed hub)) with (h_username hub) in Hs2.
    rewrite Hs2. change (versions w1) with (versions w).
    pose proof (replay_numbers now (recoveryQueue hub) (judged_hub hub) (conns w)) as (_ & Hle & _).
    fold r in Hle. rewrite <- H4 in Hle. change (version (judged_hub hub)) with (restored hub).1 in Hle.
    change (restored (set_windowClosed hub)) with (restored hub). lia. }
  rewrite H4 in N4. unfold broadcastWelcome, Latest, Connections, gets, mbind, M_bind. cbn iota.
  rewrite for_each_send.
  match goal with |- context [RemoveEmptyHubAfterRecovery h ?w5] =>
    destruct (RemoveEmptyHub_frame h w5) as [reg ->] end.
  eexists. split; [reflexivity|]. unfold stored_at. simpl. rewrite !insert_eq, H4, C4. split; [done|]. split; [done|].
  split; [exact N4|exact HV].
Qed.
End Window.

(** ** Properties *)

(** C7: Closing the recovery window is exact. The best snapshot is adopted when it is newer than the hub (or as new, with
    no text yet). Then the waiting clips are judged one after the other, in their order, each on the state the earlier
    ones left: a clip is skipped only if its connection is closed, acknowledged as a duplicate only if the
    ring remembers it unchanged, refused only without a token, and otherwise it is accepted: it is sent to everybody
    else and acknowledged. The accepted ones get the versions after the adopted one without a gap and the last is the
    hub's text. The hub ends as that replay leaves it, the window closed and its queue empty; the store
    covers the new version; and every connection of the hub is sent one welcome with exactly the final text, after
    all the frames of the replay. *)
Theorem recovery_exact w h now :
  world_ok w -> recoveryWindowClosed (hubs w h) = false ->
  (restored (hubs w h)).1 + len (recoveryQueue (hubs w h)) <= MaxUint64 ->
  let hub := hubs w h in
  let r := replay now (recoveryQueue hub) (judged_hub hub) (conns w) in
  let texts := accepted (verdicts r) in
  exists w', CloseRecoveryWindow h now w = (Ok tt, w') /\
    hubs w' h = set_activity (UnixNano now) (end_hub r) /\
    recoveryWindowClosed (hubs w' h) = true /\ recoveryQueue (hubs w' h) = [] /\
    connections (hubs w' h) = connections hub /\
    Version <$> texts = seqZ ((restored hub).1 + 1) (version (hubs w' h) - (restored hub).1) /\
    latest (hubs w' h) = match list.last texts with Some text => Some text | None => (restored hub).2 end /\
    GetVersion (versions w') (h_username hub) = Z.max (GetVersion (versions w) (h_username hub)) (version (hubs w' h)) /\
    forall c, conns w' c =
      if decide (c ∈ connections hub)
      then with_State (send_or_close (MarshalWelcome (latest (hubs w' h)))) (end_heap r c)
      else end_heap r c.
Proof.
  intros Hw Ho Hl hub r texts. destruct (CloseRecoveryWindow_full w h now Hw Ho Hl) as (w' & E & Hh & Hc & _ & Hs).
  fold hub in Hh, Hc, Hs. fold r in Hh, Hc. exists w'. split; [exact E|]. split; [exact Hh|].
  destruct (replay_frame now (recoveryQueue hub) (judged_hub hub) (conns w)) as (F1 & F2 & F3). fold r in F1, F2, F3.
  destruct (replay_numbers now (recoveryQueue hub) (judged_hub hub) (conns w)) as (N1 & _ & N3). fold r in N1, N3.
  rewrite Hc, Hh in *. cbn [set_activity version latest connections recoveryWindowClosed recoveryQueue] in *.
  split_and!; try done. intros c. rewrite F3, sent_to_all_lookup by apply (w_hubs w Hw h). done.
Qed.

(** The sample server with three clips waiting: the second retransmits the first, the third has new content. *)
Definition waiting_world : World :=
  let wait id c := {| rc_Clip := {| clip_ID := id; clip_Payload := "aGk="; clip_Encrypted := true; clip_Hash := "h1" |};
                      rc_Connection := c |} in
  set_hubs (<[0%nat := set_recoveryQueue [wait "k1"%go 1%nat; wait "k1"%go 0%nat; wait "k2"%go 0%nat] (hubs sample_world 0)]>
              (hubs sample_world)) sample_world.

Lemma waiting_world_ok : world_ok waiting_world.
Proof.
  apply world_ok_hub; [exact sample_world_ok|]. destruct (w_hubs sample_world sample_world_ok 0).
  split; split; simpl in *; try done.
Qed.

Lemma recovery_exact_witness :
  let r := replay (utc (9 * Second)) (recoveryQueue (hubs waiting_world 0)) (judged_hub (hubs waiting_world 0)) (conns waiting_world) in
  Version <$> accepted (verdicts r) = [5; 6] /\ len (verdicts r) = 3 /\
  exists w', CloseRecoveryWindow 0 (utc (9 * Second)) waiting_world = (Ok tt, w') /\
    recoveryWindowClosed (hubs w' 0) = true /\ hubs w' 0%nat = set_activity (9 * Second) (end_hub r).
Proof.
  split; [vm_compute; reflexivity|]. split; [vm_compute; reflexivity|].
  destruct (recovery_exact waiting_world 0 (utc (9 * Second)) waiting_world_ok) as
    (w' & E & Hh & Hc & _); [reflexivity|vm_compute; discriminate|].
  exists w'. split; [exact E|]. split; [exact Hc|exact Hh].
Defined.
