(* ===== verification/JobQueue.v ===== *)
(** * The job queue and its user loop (internal/hub/hub.go)

    How jobs reach the user loop: the unbounded queue with its condition variable, the loop
    that sleeps on it, and the goroutine that [StartIfIdle] launches, ends and launches
    again. Pushers and goroutines interleave at their critical sections. [Wait] puts the
    goroutine on the list of sleepers in the section that found the queue empty, and
    [Signal] takes one sleeper off the list. What a job does is the business of [Hub]; here
    it ends or it panics. *)
From S2P Require Import Prelude GoLib Models.

(** ** State *)

(** A goroutine of [StartIfIdle]. *)
Inductive worker :=
| Launched                 (** before the compare-and-swap of [RunUserLoop] *)
| Checking                 (** in [wait], about to look at the queue *)
| Asleep                   (** in [notEmpty.Wait] *)
| Busy (job : UserJob)     (** processing; [pop] comes next *)
| Refused                  (** the compare-and-swap failed *)
| Panicked.                (** a job panicked; the handler runs *)

Record loop_state := mkLoop {
  items : list UserJob;
  unsignalled : nat;       (** pushers between the append and [Signal] *)
  running : bool;          (** [userLoopRunning] *)
  readerActive : bool;
  workers : list worker;
  arrived : list UserJob;  (** history: every job pushed, oldest first *)
  taken : list UserJob }.  (** history: every job the loop took *)

(** [newJobQueue], and no goroutine yet. *)
Definition newJobQueue : loop_state := mkLoop [] 0 false false [] [] [].

(** ** Steps *)

(** [Signal] wakes the first sleeper. *)
Fixpoint wake (ws : list worker) : list worker :=
  match ws with
  | [] => []
  | Asleep :: ws' => Checking :: ws'
  | w :: ws' => w :: wake ws'
  end.

Inductive event :=
| JStart                   (** [StartIfIdle] *)
| JAppend (job : UserJob)  (** the locked part of [push] *)
| JSignal                  (** the rest of [push] *)
| JWork (i : nat)          (** the next section of a goroutine *)
| JPanic (i : nat).        (** the job it processes panics *)

(** A goroutine takes the head of the queue, or goes to [idle]. *)
Definition take_job (s : loop_state) (i : nat) (idle : worker) : loop_state :=
  match items s with
  | [] => mkLoop [] (unsignalled s) (running s) (readerActive s) (<[i := idle]> (workers s)) (arrived s) (taken s)
  | job :: js =>
      mkLoop js (unsignalled s) (running s) (readerActive s) (<[i := Busy job]> (workers s)) (arrived s)
        (taken s ++ [job])
  end.

(** The section of [RunUserLoop] or of its launcher that goroutine [i] is at. *)
Definition work (s : loop_state) (i : nat) : option loop_state :=
  match workers s !! i with
  | Some Launched =>
      Some (if readerActive s
            then mkLoop (items s) (unsignalled s) (running s) true (<[i := Refused]> (workers s)) (arrived s) (taken s)
            else mkLoop (items s) (unsignalled s) (running s) true (<[i := Checking]> (workers s)) (arrived s) (taken s))
  | Some Checking => Some (take_job s i Asleep)
  | Some (Busy _) => Some (take_job s i Checking)
  | Some Refused | Some Panicked =>
      Some (mkLoop (items s) (unsignalled s) false (readerActive s) (delete i (workers s)) (arrived s) (taken s))
  | Some Asleep | None => None
  end.

Definition happen (e : event) (s : loop_state) : option loop_state :=
  match e with
  | JStart =>
      Some (if running s then s
            else mkLoop (items s) (unsignalled s) true (readerActive s) (workers s ++ [Launched]) (arrived s) (taken s))
  | JAppend job =>
      Some (mkLoop (items s ++ [job]) (S (unsignalled s)) (running s) (readerActive s) (workers s) (arrived s ++ [job])
              (taken s))
  | JSignal =>
      match unsignalled s with
      | O => None
      | S n => Some (mkLoop (items s) n (running s) (readerActive s) (wake (workers s)) (arrived s) (taken s))
      end
  | JWork i => work s i
  | JPanic i =>
      match workers s !! i with
      | Some (Busy _) =>
          Some (mkLoop (items s) (unsignalled s) (running s) false (<[i := Panicked]> (workers s)) (arrived s) (taken s))
      | _ => None
      end
  end.

Definition lstep (s s' : loop_state) : Prop := exists e, happen e s = Some s'.

(** Steps that finish what was begun: no new job, no new goroutine, no panic. *)
Definition settling (e : event) : bool := match e with JSignal | JWork _ => true | _ => false end.
Definition sstep (s s' : loop_state) : Prop := exists e, settling e = true /\ happen e s = Some s'.

(** ** One goroutine *)

(** The goroutine holds the reader flag. *)
Definition reading (w : worker) : bool := match w with Checking | Asleep | Busy _ => true | _ => false end.

(** At most one goroutine, in step with the two flags; what arrived is what was taken and
    what is queued; and a sleeper with jobs in the queue is about to be woken. *)
Record loop_ok (s : loop_state) : Prop := {
  lo_workers : match workers s with
               | [] => running s = false /\ readerActive s = false
               | [w] => running s = true /\ readerActive s = reading w /\ w <> Refused
               | _ => False
               end;
  lo_jobs : arrived s = taken s ++ items s;
  lo_wake : workers s = [Asleep] -> items s <> [] -> (0 < unsignalled s)%nat }.

Lemma newJobQueue_ok : loop_ok newJobQueue.
Proof. by split. Qed.

Lemma take_job_ok s idle w : loop_ok s -> workers s = [w] -> reading w = true -> idle = Asleep \/ idle = Checking ->
  loop_ok (take_job s 0 idle).
Proof.
  intros [Hw Hj _] Ew Hr Hi. rewrite Ew in Hw. destruct Hw as (H1 & H2 & _).
  unfold take_job. destruct (items s) as [|job js] eqn:Ei; split; cbn; rewrite ?Ew; cbn; try done.
  - rewrite H2, Hr. by destruct Hi as [-> | ->].
  - split; [done|]. by rewrite H2, Hr.
  - by rewrite Hj, <- app_assoc.
Qed.

Lemma happen_ok e s s' : happen e s = Some s' -> loop_ok s -> loop_ok s'.
Proof.
  intros H Hs. pose proof Hs as [Hw Hj Hk]. destruct e as [|job| |i|i]; cbn in H.
  - destruct (running s) eqn:Er; injection H as <-; [done|].
    destruct (workers s) as [|w [|]] eqn:Ew; [|naive_solver..].
    destruct Hw as [_ Ha]. by split; cbn.
  - injection H as <-. split; cbn; [done|by rewrite Hj, app_assoc|lia].
  - destruct (unsignalled s) as [|n]; [done|]. injection H as <-.
    destruct (workers s) as [|w [|]] eqn:Ew; [..|done]; (split; cbn; [|done|]); try done.
    all: destruct w; naive_solver.
  - unfold work in H. destruct (workers s) as [|w [|]] eqn:Ew; [by rewrite lookup_nil in H| |done].
    destruct i as [|i]; [|done]. cbn in H. destruct Hw as (H1 & H2 & H3).
    destruct w; cbn in H2; simplify_eq.
    + rewrite H2. by split; cbn.
    + apply (take_job_ok s Asleep Checking); auto.
    + apply (take_job_ok s Checking (Busy job)); auto.
    + by split; cbn.
  - destruct (workers s) as [|w [|]] eqn:Ew; [by rewrite lookup_nil in H| |done].
    destruct i as [|i]; [|done]. cbn in H. destruct w; simplify_eq. destruct Hw as (H1 & _ & _). by split; cbn.
Qed.

Lemma reachable_ok s : rtc lstep newJobQueue s -> loop_ok s.
Proof.
  intros Hr. remember newJobQueue as s0 eqn:E. assert (H0 : loop_ok s0) by (subst; exact newJobQueue_ok). clear E.
  induction Hr as [|s1 s2 s3 [e He] _ IH]; [done|]. apply IH. by eapply happen_ok.
Qed.

(** ** Nothing is left behind *)

(** A goroutine that has not panicked. *)
Definition alive (s : loop_state) : Prop := exists w, workers s = [w] /\ w <> Panicked.

(** What is left to do before the loop sleeps. *)
Definition weight (w : worker) : nat :=
  match w with Launched => 3 | Busy _ => 2 | Checking | Refused | Panicked => 1 | Asleep => 0 end.
Definition todo (s : loop_state) : nat :=
  2 * length (items s) + 2 * unsignalled s + list_sum (weight <$> workers s).

Lemma take_job_todo s idle w : workers s = [w] -> (weight idle < weight w)%nat -> (1 <= weight w)%nat ->
  (todo (take_job s 0 idle) < todo s)%nat.
Proof.
  intros Ew Hi Hw. unfold take_job, todo. destruct (items s); cbn; rewrite Ew; cbn; lia.
Qed.

(** A settling step makes progress, and adds no job. *)
Lemma sstep_progress s s' : sstep s s' -> loop_ok s -> alive s ->
  (todo s' < todo s)%nat /\ loop_ok s' /\ alive s' /\ arrived s' = arrived s.
Proof.
  intros (e & He & H) Hs (w & Ew & Hp). pose proof (happen_ok _ _ _ H Hs) as Hs'.
  destruct Hs as [Hw _ _]. rewrite Ew in Hw. destruct Hw as (_ & H2 & H3).
  destruct e as [|job| |i|i]; try done; cbn in H.
  - destruct (unsignalled s) as [|n] eqn:En; [done|]. injection H as <-.
    split; [unfold todo; cbn; rewrite Ew, En; destruct w; cbn; lia|]. split; [done|]. split; [|done].
    exists (match w with Asleep => Checking | _ => w end). cbn. rewrite Ew. by destruct w.
  - unfold work in H. rewrite Ew in H. destruct i as [|i]; [|done]. cbn in H. destruct w; simplify_eq; cbn in H2.
    + rewrite H2 in *. split; [unfold todo; cbn; rewrite Ew; cbn; lia|]. split; [done|].
      split; [|done]. by eexists.
    + split; [apply (take_job_todo s Asleep Checking); cbn; auto; lia|]. split; [done|].
      unfold alive, take_job. destruct (items s); cbn; rewrite Ew; (split; [by eexists|done]).
    + split; [apply (take_job_todo s Checking (Busy job)); cbn; auto; lia|]. split; [done|].
      unfold alive, take_job. destruct (items s); cbn; rewrite Ew; (split; [by eexists|done]).
Qed.

(** A state with nothing to settle. *)
Lemma settled_empty s : loop_ok s -> alive s -> (forall s', ~ sstep s s') ->
  workers s = [Asleep] /\ items s = [] /\ taken s = arrived s.
Proof.
  intros [Hw Hj Hk] (w & Ew & Hp) Hn. rewrite Ew in Hw.
  assert (Ew' : w = Asleep).
  { destruct Hw as (_ & _ & H3). destruct w; try done;
      (exfalso; eapply Hn; exists (JWork 0); split; [done|]; cbn; unfold work; rewrite Ew; reflexivity). }
  subst w. destruct (decide (items s = [])) as [E|E]; [by rewrite Hj, E, app_nil_r|].
  exfalso. specialize (Hk Ew E). destruct (unsignalled s) eqn:En; [lia|].
  eapply Hn. exists JSignal. split; [done|]. cbn. by rewrite En.
Qed.

Lemma settling_run n s s' : nsteps sstep n s s' -> loop_ok s -> alive s ->
  (n + todo s' <= todo s)%nat /\ loop_ok s' /\ alive s' /\ arrived s' = arrived s.
Proof.
  induction 1 as [|n s1 s2 s3 H1 _ IH]; intros Hs Ha; [auto with lia|].
  destruct (sstep_progress _ _ H1 Hs Ha) as (H2 & H3 & H4 & H5). destruct (IH H3 H4) as (H6 & H7 & H8 & H9).
  split; [lia|]. split; [done|]. split; [done|congruence].
Qed.

(** ** Properties *)

(** The user loop is single, takes the jobs in order, and never sleeps over a job for which no signal is on its way. *)
Lemma single_loop_in_order s : rtc lstep newJobQueue s ->
  (length (workers s) <= 1)%nat /\ (Refused ∉ workers s) /\ (running s = true <-> workers s <> []) /\
  arrived s = taken s ++ items s /\
  (Asleep ∈ workers s -> unsignalled s = 0%nat -> items s = []).
Proof.
  intros Hr. destruct (reachable_ok s Hr) as [Hw Hj Hk].
  destruct (workers s) as [|w [|]] eqn:Ew; [| |done].
  - split; [cbn; lia|]. split; [set_solver|]. split; [destruct Hw; split; congruence|]. split; [done|set_solver].
  - destruct Hw as (H1 & H2 & H3). split; [cbn; lia|]. split; [set_solver|]. split; [by rewrite H1|]. split; [done|].
    intros Hin%list_elem_of_singleton Hu. subst w. destruct (items s) eqn:Ei; [done|]. exfalso.
    assert (0 < unsignalled s)%nat by (by apply Hk). lia.
Qed.

(** The states of a schedule. *)
Fixpoint happen_all (es : list event) (s : loop_state) : option loop_state :=
  match es with
  | [] => Some s
  | e :: es' => match happen e s with Some s' => happen_all es' s' | None => None end
  end.

Lemma happen_all_steps es : forall s s', happen_all es s = Some s' -> rtc lstep s s'.
Proof.
  induction es as [|e es IH]; intros s s' H; cbn in H; [by simplify_eq|].
  destruct (happen e s) as [s1|] eqn:E; [|done]. eapply rtc_l; [by exists e|auto].
Qed.

(** C10: Every job reaches the one user loop, in order. Whatever the interleaving of [StartIfIdle], pushes, the
    loop's own sections and panics: there is at most one goroutine and its compare-and-swap never fails; jobs are
    taken in the order they were pushed, each once; the loop never sleeps over a job for which no signal is on its
    way. And from any such state with a live goroutine, if no job is pushed, no goroutine is launched and no job
    panics any more, the loop and the pending signals take at most [todo] further steps, and when none of them can
    step the loop sleeps over an empty queue and has taken every job that ever arrived. *)
Theorem every_job_taken s : rtc lstep newJobQueue s ->
  (length (workers s) <= 1)%nat /\ (Refused ∉ workers s) /\
  arrived s = taken s ++ items s /\
  (Asleep ∈ workers s -> unsignalled s = 0%nat -> items s = []) /\
  (alive s ->
   (forall n s', nsteps sstep n s s' -> (n <= todo s)%nat) /\
   (forall s', rtc sstep s s' -> (forall s2, ~ sstep s' s2) ->
      workers s' = [Asleep] /\ items s' = [] /\ taken s' = arrived s)).
Proof.
  intros Hr. destruct (single_loop_in_order s Hr) as (H1 & H2 & _ & H3 & H4).
  split; [done|]. split; [done|]. split; [done|]. split; [done|].
  intros Ha. pose proof (reachable_ok s Hr) as Hs. split.
  - intros n s' Hn. destruct (settling_run n s s' Hn Hs Ha). lia.
  - intros s' Hq Hn. apply rtc_nsteps in Hq as [n Hq]. destruct (settling_run n s s' Hq Hs Ha) as (_ & H5 & H6 & <-).
    by apply settled_empty.
Qed.

(** A goroutine is launched, sleeps, and two jobs are pushed; both signals are pending. *)
Definition sample_job (reason : str) : UserJob := DisconnectJob 0 reason.
Definition sample_events : list event :=
  [JStart; JWork 0; JWork 0; JAppend (sample_job "a"); JAppend (sample_job "b")].
Definition sample_loop : loop_state := default newJobQueue (happen_all sample_events newJobQueue).
Definition sample_end : loop_state :=
  default newJobQueue (happen_all [JSignal; JSignal; JWork 0; JWork 0; JWork 0; JWork 0] sample_loop).

Lemma sample_loop_run : rtc lstep newJobQueue sample_loop.
Proof. by apply (happen_all_steps sample_events). Qed.

Lemma every_job_taken_witness :
  workers sample_end = [Asleep] /\ taken sample_end = [sample_job "a"; sample_job "b"].
Proof.
  destruct (every_job_taken sample_loop sample_loop_run) as (_ & _ & _ & _ & Ha).
  destruct Ha as [_ H]; [by exists Asleep|]. destruct (H sample_end) as (H1 & _ & H3); [| |by split].
  - do 6 (eapply rtc_l; [first [by exists JSignal|by exists (JWork 0)]|]). reflexivity.
  - intros s2 (e & He & H2). by destruct e as [|job| |[|i]|i].
Defined.
