(* ===== verification/ClipSteps.v ===== *)
(** * The critical sections of [ApplyClip] (internal/hub/hub.go)

    [ApplyClip] holds no lock of its own: it takes the locks of the duplicate ring, the
    bucket, the hub's state, the store and the connection list one after another, and other
    goroutines run in between. [clip_step] is one such section; [pc] says where the call is
    and what it has read so far. Run without interruption the sections are [Hub.ApplyClip]
    ([run_ApplyClip]), so the interleavings of [HubConc] are those of the same code. A send
    and the closing of the connection when its queue is full are one section. *)
From S2P Require Import Prelude GoLib GoTime Config Protocol Serialize Logic Ring Bucket Users Store Models World Hub HubSpec.

#[local] Arguments Remember : simpl never.
#[local] Arguments NextVersion : simpl never.
#[local] Arguments TryAcquire : simpl never.
#[local] Arguments TryGet : simpl never.
#[local] Arguments MarshalClip : simpl never.
#[local] Arguments MarshalClipAck : simpl never.
#[local] Arguments MarshalError : simpl never.
#[local] Arguments clip_latest : simpl never.
#[local] Arguments reused_message : simpl never.
#[local] Arguments broadcast_message : simpl never.

(** Where a call of [ApplyClip] is. *)
Inductive pc :=
| PCheck                                  (** the duplicate check *)
| PDupLatest | PDupVersion                (** [h.Latest()], [h.Version()] of an entry without a result *)
| PDupSend (ack : LatestText)
| PGet                                    (** [seenIDs.TryGet] *)
| PWarn                                   (** the warning about a reused id, with [h.Version()] *)
| PAcquire                                (** the token bucket *)
| PReject | PRejectSend
| PRead                                   (** [next := NextVersion(h.Version())] *)
| PSave (next : Z)                        (** [store.SaveVersion] *)
| PSet (next : Z)                         (** version and latest, under [stateMu] *)
| PRemember (l : LatestText)
| PLog (l : LatestText)
| PConnections (l : LatestText)
| PDeliver (l : LatestText) (cs : list loc) (deliveries : list str)
| PLogSent (l : LatestText) (deliveries : list str)
| PAck (l : LatestText)
| PDone.

(** One turn of the broadcast loop. *)
Definition deliver_one (c sender : loc) (bytes : str) (deliveries : list str) : M (list str) :=
  if bool_decide (c = sender) then mret deliveries
  else
    conn ← get_conn c;
    queued ← bag_do c (enqueue_or_close bytes);
    mret (deliveries ++ [conn_ClientID conn ++ if (queued : bool) then ":queued" else ":full"]).

Section Steps.
Context (h : loc) (clip : ClientClip) (sender : loc) (now : Time).

Definition clip_step (p : pc) : M pc :=
  match p with
  | PCheck =>
      hub ← get_hub h;
      let '(duplicateLatest, unchanged) :=
        IsUnchangedDuplicate (seenIDs hub) (clip_ID clip) (clip_Payload clip) (clip_Hash clip)
          (clip_Encrypted clip) in
      mret (if (unchanged : bool) then
              match duplicateLatest with Some l => PDupSend l | None => PDupLatest end
            else PGet)
  | PDupLatest =>
      l ← Latest h;
      mret (match l with Some l => PDupSend l | None => PDupVersion end)
  | PDupVersion =>
      v ← hub_Version h;
      s ← get_conn sender;
      mret (PDupSend {| Payload := []; Version := v; Hash := []; Encrypted := false;
                        FromClientID := conn_ClientID s; FromClientName := conn_ClientName s;
                        UpdatedAtUtc := now |})
  | PDupSend ack => broadcastToConnection sender (MarshalClipAck (clip_ID clip) ack) ;; mret PDone
  | PGet =>
      hub ← get_hub h;
      mret (if (TryGet (seenIDs hub) (clip_ID clip)).2 then PWarn else PAcquire)
  | PWarn =>
      hub ← get_hub h;
      s ← get_conn sender;
      log (LogWarn (reused_message hub clip s)) ;; mret PAcquire
  | PAcquire =>
      allowed ← try_acquire h now;
      mret (if (allowed : bool) then PRead else PReject)
  | PReject =>
      hub ← get_hub h;
      log (SecurityEvent "reject" [("username", LStr (h_username hub)); ("code", LStr "rate_limited");
             ("bytes", LInt (len (clip_Payload clip)))]) ;;
      mret PRejectSend
  | PRejectSend =>
      broadcastToConnection sender
        (MarshalError (mkError ErrRateLimited "Clip rate limited." (Some (clip_ID clip)))) ;;
      mret PDone
  | PRead =>
      v ← hub_Version h;
      next ← lift (NextVersion v);
      mret (PSave next)
  | PSave next =>
      hub ← get_hub h;
      save_version (h_username hub) next ;; mret (PSet next)
  | PSet next =>
      s ← get_conn sender;
      modify_hub h (set_latest (Some (clip_latest clip next s now)) next) ;;
      mret (PRemember (clip_latest clip next s now))
  | PRemember l => remember h (clip_ID clip) l ;; mret (PLog l)
  | PLog l =>
      hub ← get_hub h;
      s ← get_conn sender;
      log (SecurityEvent "clip" [("username", LStr (h_username hub)); ("version", LInt (Version l));
             ("clipId", LStr (clip_ID clip)); ("bytes", LInt (len (clip_Payload clip)));
             ("fromClientId", LStr (conn_ClientID s)); ("encrypted", LBool (clip_Encrypted clip))]) ;;
      mret (PConnections l)
  | PConnections l => cs ← Connections h; mret (PDeliver l cs [])
  | PDeliver l [] ds => mret (PLogSent l ds)
  | PDeliver l (c :: cs) ds =>
      ds' ← deliver_one c sender (MarshalClip (clip_ID clip) l) ds;
      mret (PDeliver l cs ds')
  | PLogSent l ds =>
      hub ← get_hub h;
      log (LogInfo (broadcast_message hub (Version l) clip ds)) ;; mret (PAck l)
  | PAck l => broadcastToConnection sender (MarshalClipAck (clip_ID clip) l) ;; mret PDone
  | PDone => mret PDone
  end.

(** [n] sections in a row. *)
Fixpoint run (n : nat) (p : pc) : M pc :=
  match n with
  | O => mret p
  | S n => q ← clip_step p; run n q
  end.
End Steps.

(** ** Without interruption *)

Section Run.
Context (h : loc) (clip : ClientClip) (sender : loc) (now : Time).
#[local] Abbreviation steps := (run h clip sender now).

Lemma run_done n w : steps n PDone w = (Ok PDone, w).
Proof. induction n; [done|exact IHn]. Qed.

Lemma run_S n p w q w' : clip_step h clip sender now p w = (Ok q, w') -> steps (S n) p w = steps n q w'.
Proof. intros E. cbn [run]. unfold mbind, M_bind. by rewrite E. Qed.

Lemma run_Err n p w e w' : clip_step h clip sender now p w = (Err e, w') -> steps (S n) p w = (Err e, w').
Proof. intros E. cbn [run]. unfold mbind, M_bind. by rewrite E. Qed.

Lemma run_step n p w : steps (S n) p w = (clip_step h clip sender now p ≫= steps n) w.
Proof. reflexivity. Qed.

#[local] Arguments run : simpl never.

(** Run the next section on both sides of the comparison. *)
Ltac section_ :=
  rewrite run_step; cbn [clip_step];
  unfold Latest, hub_Version, Connections, remember, save_version, try_acquire, get_hub, get_conn, gets, lift,
    mbind, M_bind; cbn.

(** The broadcast loop, turn by turn, is [deliver]. *)
Lemma run_deliver l cs : forall n ds w,
  steps (length cs + n) (PDeliver l cs ds) w =
  (ds' ← deliver cs sender (MarshalClip (clip_ID clip) l); steps n (PDeliver l [] (ds ++ ds'))) w.
Proof.
  induction cs as [|c cs IH]; intros n ds w; [unfold mbind, M_bind; cbn; by rewrite app_nil_r|].
  cbn [length Nat.add deliver].
  unfold mbind, M_bind. destruct (bool_decide (c = sender)) eqn:E.
  - rewrite (run_S _ _ w (PDeliver l cs ds) w); [exact (IH n ds w)|].
    unfold clip_step, deliver_one. by rewrite E.
  - unfold get_conn, gets, bag_do. rewrite run_step. cbn [clip_step]. unfold deliver_one. rewrite E.
    unfold get_conn, gets, bag_do, mbind, M_bind. destruct (enqueue_or_close _ _) as [queued s]. cbn.
    rewrite IH. unfold mbind, M_bind. destruct (deliver _ _ _ _) as [[ds'|e] w']; [|done]. simpl.
    by rewrite <- app_assoc.
Qed.

#[local] Arguments deliver : simpl never.

(** The tail of an accepted clip, from the broadcast on. *)
Lemma run_broadcast l cs n w :
  steps (length cs + (3 + n)) (PDeliver l cs []) w =
  (ds ← deliver cs sender (MarshalClip (clip_ID clip) l);
   hub ← get_hub h;
   log (LogInfo (broadcast_message hub (Version l) clip ds)) ;;
   broadcastToConnection sender (MarshalClipAck (clip_ID clip) l) ;; mret PDone) w.
Proof.
  rewrite run_deliver. unfold mbind, M_bind. destruct (deliver _ _ _ _) as [[ds|e] w1]; [|done].
  cbn [Nat.add]. do 3 section_. by rewrite run_done.
Qed.

(** The sections of a call, one after another, are [Hub.ApplyClip]. *)
Lemma run_ApplyClip n w :
  steps (13 + length (connections (hubs w h)) + n) PCheck w = (ApplyClip h clip sender now ;; mret PDone) w.
Proof.
  unfold ApplyClip, try_acquire, remember, save_version, get_hub, get_conn, gets, lift, mbind, M_bind.
  cbn [Nat.add]. section_.
  destruct (IsUnchangedDuplicate _ _ _ _ _) as [d [|]] eqn:Ed.
  - unfold ack_latest. destruct d as [l|]; cbn.
    { section_. by rewrite run_done. }
    section_. destruct (latest (hubs w h)); section_; [by rewrite run_done|].
    section_. by rewrite run_done.
  - cbn. section_. destruct (TryGet (seenIDs (hubs w h)) (clip_ID clip)).2; cbn; [section_|].
    all: section_; destruct (TryAcquire (clipBucket (hubs w h)) now) as [[|] b]; cbn.
    2,4: do 2 section_; by rewrite run_done, insert_eq.
    all: section_; rewrite insert_eq; cbn.
    all: destruct (NextVersion _) as [next|e]; cbn; [|reflexivity].
    all: do 2 (section_; rewrite ?insert_eq; cbn); section_; rewrite !insert_eq; cbn.
    all: destruct (Remember _ _ _) as [r|e]; cbn; [|reflexivity].
    all: do 2 (section_; rewrite ?insert_eq; cbn).
    all: match goal with |- context [steps ?k (PDeliver _ ?cs [])] =>
           replace k with (length cs + (3 + (k - 3 - length cs)))%nat by lia end.
    all: change (Version (clip_latest clip next (conns w sender) now)) with next.
    all: rewrite run_broadcast; unfold get_hub, gets, mbind, M_bind; cbn.
    all: match goal with |- context [deliver ?cs ?s ?b ?w0] => destruct (deliver_eq cs s b w0) as [ds Hds]; rewrite Hds end.
    all: cbn; rewrite ?insert_eq. all: reflexivity.
Qed.
End Run.
