(* ===== verification/HubConc.v ===== *)
(** * A hub under concurrency (internal/hub/hub.go)

    The goroutines that work on one hub: the readers, which classify a clip and push what is
    to be processed now; the user loop, which applies the pushed clips; and the goroutine
    that closes the recovery window, which replays the clips that waited. Each runs its
    critical sections ([ClipSteps] for a clip) in any interleaving with the others and with
    everything else the server does to the hub ([untouched]). A history of what was
    submitted, pushed, applied and numbered runs along. A panic ends the modelled run. *)
From S2P Require Import Prelude GoLib GoTime Config Protocol Serialize Logic Ring Bucket Users Store Models World Hub.
From S2P Require Import HubSpec ClipSteps Sync.

(** ** State *)

(** A call of [ApplyClip] under way. *)
Record task := mkTask { t_sender : loc; t_clip : ClientClip; t_now : Time; t_pc : pc }.

(** [CloseRecoveryWindow]: not called, replaying the clips it took, done with them. *)
Inductive closer := Waiting | Replaying (now : Time) (current : option task) (todo : list RecoveryClip) | Closed.

Abbreviation submission := (loc * ClientClip)%type.

Record conc := mkConc {
  world : World;
  user_task : option task;         (** what the user loop applies *)
  window : closer;
  holding : list submission;       (** classified [ProcessNow] by a reader that has not pushed yet *)
  queued : list submission;        (** history: answered [Queued], oldest first *)
  direct : list submission;        (** answered [ProcessNow] *)
  pushed : list submission;        (** pushed to the job queue *)
  applied : list submission;       (** applied by the user loop *)
  replayed : list (submission * bool);   (** done by the replay; [false] if its connection was closed *)
  handed : list Z }.               (** the versions given to clips *)

Definition start (w : World) : conc := mkConc w None Waiting [] [] [] [] [] [] [].

(** ** Steps *)

(** What closing the window does under [snapshotMu]; the clips that waited are its result. *)
Definition close_section (h : loc) : M (list RecoveryClip) :=
  hub ← get_hub h;
  modify_hub h set_windowClosed ;;
  match SelectSnapshotWinner (snapshotCandidates hub) with
  | Some winner => restore_snapshot h winner
  | None => mret tt
  end ;;
  modify_hub h (set_recoveryQueue []) ;;
  mret (recoveryQueue hub).

Definition run_task (h : loc) (t : task) : M task :=
  p ← clip_step h (t_clip t) (t_sender t) (t_now t) (t_pc t);
  mret (mkTask (t_sender t) (t_clip t) (t_now t) p).

(** The version a section gives to the clip. *)
Definition numbers (t : task) : list Z := match t_pc t with PSet next => [next] | _ => [] end.

Definition finished (t : task) : bool := match t_pc t with PDone => true | _ => false end.

Definition submitted (t : task) : submission := (t_sender t, t_clip t).

Inductive label :=
| LClassify (c : loc) (clip : ClientClip)   (** a reader asks [ClassifyClip] *)
| LPush (i : nat)                           (** the [i]th waiting reader pushes its job *)
| LPop (now : Time)                         (** the user loop takes a clip *)
| LUser                                     (** a section of the user loop's clip *)
| LClose (now : Time)                       (** the window is closed *)
| LNext                                     (** the replay turns to the next clip *)
| LReplay                                   (** a section of the replayed clip *)
| LFinish.                                  (** the replay is over *)

Definition act (h : loc) (l : label) (s : conc) : option conc :=
  let '(mkConc w ut win hold qd dir psd app rep num) := s in
  match l with
  | LClassify c clip =>
      match ClassifyClip h clip c w with
      | (Ok DecisionProcessNow, w') => Some (mkConc w' ut win (hold ++ [(c, clip)]) qd (dir ++ [(c, clip)]) psd app rep num)
      | (Ok DecisionQueued, w') => Some (mkConc w' ut win hold (qd ++ [(c, clip)]) dir psd app rep num)
      | (Ok DecisionQueueFull, w') => Some (mkConc w' ut win hold qd dir psd app rep num)
      | (Err _, _) => None
      end
  | LPush i =>
      match hold !! i with
      | Some (c, clip) =>
          match TryWriteJob h (ClipJob c clip) w with
          | (Ok _, w') => Some (mkConc w' ut win (delete i hold) qd dir (psd ++ [(c, clip)]) app rep num)
          | (Err _, _) => None
          end
      | None => None
      end
  | LPop now =>
      match ut, pop h w with
      | None, (Ok (Some (ClipJob c clip)), w') =>
          Some (mkConc w' (Some (mkTask c clip now PCheck)) win hold qd dir psd app rep num)
      | _, _ => None
      end
  | LUser =>
      match ut with
      | Some t =>
          match run_task h t w with
          | (Ok t', w') =>
              Some (if finished t' then mkConc w' None win hold qd dir psd (app ++ [submitted t']) rep (num ++ numbers t)
                    else mkConc w' (Some t') win hold qd dir psd app rep (num ++ numbers t))
          | (Err _, _) => None
          end
      | None => None
      end
  | LClose now =>
      match win, recoveryWindowClosed (hubs w h), close_section h w with
      | Waiting, false, (Ok q, w') => Some (mkConc w' ut (Replaying now None q) hold qd dir psd app rep num)
      | _, _, _ => None
      end
  | LNext =>
      match win with
      | Replaying now None (rc :: todo) =>
          let c := rc_Connection rc in
          Some (if closed (State (conns w c))
                then mkConc w ut (Replaying now None todo) hold qd dir psd app (rep ++ [((c, rc_Clip rc), false)]) num
                else mkConc w ut (Replaying now (Some (mkTask c (rc_Clip rc) now PCheck)) todo) hold qd dir psd app rep num)
      | _ => None
      end
  | LReplay =>
      match win with
      | Replaying now (Some t) todo =>
          match run_task h t w with
          | (Ok t', w') =>
              Some (if finished t'
                    then mkConc w' ut (Replaying now None todo) hold qd dir psd app (rep ++ [(submitted t', true)]) (num ++ numbers t)
                    else mkConc w' ut (Replaying now (Some t') todo) hold qd dir psd app rep (num ++ numbers t))
          | (Err _, _) => None
          end
      | _ => None
      end
  | LFinish =>
      match win with
      | Replaying now None [] => Some (mkConc w ut Closed hold qd dir psd app rep num)
      | _ => None
      end
  end.

(** The clips among the jobs. *)
Definition clip_of (job : UserJob) : list submission := match job with ClipJob c clip => [(c, clip)] | _ => [] end.
Definition clip_jobs (js : list UserJob) : list submission := js ≫= clip_of.

(** What any other code may do meanwhile. *)
Record untouched (h : loc) (w w' : World) : Prop := {
  un_name : h_username (hubs w' h) = h_username (hubs w h);
  un_version : version (hubs w' h) = version (hubs w h);
  un_latest : latest (hubs w' h) = latest (hubs w h);
  un_window : recoveryWindowClosed (hubs w' h) = recoveryWindowClosed (hubs w h);
  un_queue : recoveryQueue (hubs w' h) = recoveryQueue (hubs w h);
  un_clips : clip_jobs (jobs (hubs w' h)) = clip_jobs (jobs (hubs w h));
  un_store : GetVersion (versions w) (h_username (hubs w h)) <= GetVersion (versions w') (h_username (hubs w h)) }.

Inductive cstep (h : loc) : conc -> conc -> Prop :=
| cs_act l s s' : act h l s = Some s' -> cstep h s s'
| cs_other s w' : untouched h (world s) w' ->
    cstep h s (mkConc w' (user_task s) (window s) (holding s) (queued s) (direct s) (pushed s) (applied s)
                 (replayed s) (handed s)).

(** A run of labels, for concrete schedules. *)
Fixpoint exec (h : loc) (ls : list label) (s : conc) : option conc :=
  match ls with
  | [] => Some s
  | l :: ls' => match act h l s with Some s' => exec h ls' s' | None => None end
  end.

Lemma exec_steps h ls : forall s s', exec h ls s = Some s' -> rtc (cstep h) s s'.
Proof.
  induction ls as [|l ls IH]; intros s s' H; simpl in H; [by simplify_eq|].
  destruct (act h l s) as [s1|] eqn:E; [|done]. eapply rtc_l; [by eapply cs_act|auto].
Qed.

(** ** The section that closes the window is the head of [CloseRecoveryWindow] *)

Lemma CloseRecoveryWindow_sections h now w : recoveryWindowClosed (hubs w h) = false ->
  CloseRecoveryWindow h now w =
  (waiting ← close_section h;
   for_each waiting (apply_recovery h now) ;;
   broadcastWelcome h now ;;
   RemoveEmptyHubAfterRecovery h ;;
   markActivity h now) w.
Proof.
  intros Hw. unfold CloseRecoveryWindow, close_section, get_hub, gets, mbind, M_bind. rewrite Hw.
  destruct (modify_hub h set_windowClosed w) as [[?|?] ?]; [|done].
  set (restore := match SelectSnapshotWinner _ with Some _ => _ | None => _ end).
  destruct (restore _) as [[?|?] ?]; [|done].
  by destruct (modify_hub h (set_recoveryQueue []) _) as [[?|?] ?].
Qed.

(** ** What leaves the clip state of a hub alone *)

(** Nothing of what the clips of the hub depend on changes. *)
Record calm (h : loc) (w w' : World) : Prop := {
  ca_name : h_username (hubs w' h) = h_username (hubs w h);
  ca_version : version (hubs w' h) = version (hubs w h);
  ca_latest : latest (hubs w' h) = latest (hubs w h);
  ca_window : recoveryWindowClosed (hubs w' h) = recoveryWindowClosed (hubs w h);
  ca_queue : recoveryQueue (hubs w' h) = recoveryQueue (hubs w h);
  ca_clips : clip_jobs (jobs (hubs w' h)) = clip_jobs (jobs (hubs w h));
  ca_store : versions w' = versions w }.

#[global] Instance calm_preorder h : PreOrder (calm h).
Proof. split; [by split|]. intros w1 w2 w3 [] []. split; congruence. Qed.

Lemma calm_untouched h w w' : calm h w w' -> untouched h w w'.
Proof. intros []. split; try done. rewrite ca_store0. lia. Qed.

Definition calmly {A} (h : loc) (m : M A) : Prop := forall w, calm h w (m w).2.

Lemma calmly_ret {A} h (a : A) : calmly h (mret a).
Proof. done. Qed.

Lemma calmly_gets {A} h (f : World -> A) : calmly h (gets f).
Proof. done. Qed.

Lemma calmly_lift {A} h (r : panics A) : calmly h (lift r).
Proof. done. Qed.

Lemma calmly_bind {A B} h (m : M A) (k : A -> M B) :
  calmly h m -> (forall a, calmly h (k a)) -> calmly h (m ≫= k).
Proof.
  intros Hm Hk w. unfold mbind, M_bind. specialize (Hm w). destruct (m w) as [[a|e] w1]; [|done].
  etrans; [exact Hm|apply Hk].
Qed.

Lemma calmly_for_each {A} h (l : list A) (f : A -> M unit) : (forall x, calmly h (f x)) -> calmly h (for_each l f).
Proof. intros Hf. induction l as [|x l IH]; [done|]. by apply calmly_bind. Qed.

Lemma calmly_if {A} h (b : bool) (m1 m2 : M A) : calmly h m1 -> calmly h m2 -> calmly h (if b then m1 else m2).
Proof. by destruct b. Qed.

Lemma calmly_modify_conn h c f : calmly h (modify_conn c f).
Proof. by intros w. Qed.

Lemma calmly_bag_do {A} h c (f : StateBag -> A * StateBag) : calmly h (bag_do c f).
Proof. intros w. unfold bag_do. by destruct (f _). Qed.

Lemma calmly_log h e : calmly h (log e).
Proof. by intros w. Qed.

Lemma calmly_pending h f : calmly h (modify (fun w => set_pending (f w) w)).
Proof. by intros w. Qed.

(** A change of one hub that keeps its clip state; it may be the hub of another user. *)
Definition calm_change (f : Hub -> Hub) : Prop := forall hub,
  h_username (f hub) = h_username hub /\ version (f hub) = version hub /\ latest (f hub) = latest hub /\
  recoveryWindowClosed (f hub) = recoveryWindowClosed hub /\ recoveryQueue (f hub) = recoveryQueue hub /\
  clip_jobs (jobs (f hub)) = clip_jobs (jobs hub).

Lemma calmly_modify_hub h h' f : calm_change f -> calmly h (modify_hub h' f).
Proof.
  intros Hf w. destruct (Hf (hubs w h')) as (? & ? & ? & ? & ? & ?).
  destruct (decide (h' = h)) as [->|Hne]; split; simpl; rewrite ?insert_eq, ?insert_ne by done; done.
Qed.

Create HintDb calm.
#[local] Hint Resolve calmly_ret calmly_gets calmly_lift calmly_bind calmly_for_each calmly_if calmly_modify_conn
  calmly_bag_do calmly_log calmly_pending calmly_modify_hub : calm.
#[local] Hint Extern 1 (calm_change _) => (intros ?; by repeat split) : calm.

(** Decompose an operation. *)
Ltac calm_ops :=
  repeat first [ solve [eauto with calm] | apply calmly_bind; [|intros ?] | apply calmly_for_each; intros ?
               | case_match | apply calmly_if ].

Lemma calmly_broadcastToConnection h c p : calmly h (broadcastToConnection c p).
Proof. unfold broadcastToConnection. calm_ops. Qed.
#[local] Hint Resolve calmly_broadcastToConnection : calm.

Lemma calmly_markActivity h h' now : calmly h (markActivity h' now).
Proof. unfold markActivity. calm_ops. Qed.
#[local] Hint Resolve calmly_markActivity : calm.

Lemma calmly_RemoveConnection h h' c : calmly h (RemoveConnection h' c).
Proof. unfold RemoveConnection. calm_ops. Qed.
#[local] Hint Resolve calmly_RemoveConnection : calm.

Lemma calmly_CancelConnection h c reason : calmly h (server_CancelConnection c reason).
Proof. unfold server_CancelConnection, UnregisterPendingHello. calm_ops. Qed.
#[local] Hint Resolve calmly_CancelConnection : calm.

(** The other jobs of the user loop are among what [untouched] allows: hellos with their
    snapshots, pongs, disconnects. *)
Lemma calmly_processJob h job now : clip_of job = [] -> calmly h (processJob h job now).
Proof. destruct job; [done|..]; intros _; unfold processJob, AcceptSnapshot; cbn; calm_ops. Qed.

(** So are the pings of a scan, and the welcome and the broadcasts of a hub. *)
Lemma calmly_scan_connection h h' now pingInterval timeout bytes c :
  calmly h (scan_connection h' now pingInterval timeout bytes c).
Proof. unfold scan_connection. calm_ops. Qed.

Lemma calmly_broadcastWelcome h h' now : calmly h (broadcastWelcome h' now).
Proof. unfold broadcastWelcome. calm_ops. Qed.

Lemma calmly_Broadcast h h' bytes : calmly h (Broadcast h' bytes).
Proof. unfold Broadcast. calm_ops. Qed.

(** ** What one section of a clip does to the hub *)

(** The sections between the one that reads the version and the one that sets it. *)
Definition plain (p : pc) : bool := match p with PRead | PSave _ | PSet _ => false | _ => true end.

Lemma calmly_plain h clip sender now p : plain p = true -> calmly h (clip_step h clip sender now p).
Proof.
  destruct p; try done; intros _; cbn [clip_step]; unfold Latest, hub_Version, Connections, try_acquire, remember, deliver_one.
  all: calm_ops.
Qed.

(** Every result of the computation has the property. *)
Definition returns {A} (m : M A) (P : A -> Prop) : Prop := forall w a w', m w = (Ok a, w') -> P a.

Lemma returns_ret {A} (a : A) (P : A -> Prop) : P a -> returns (mret a) P.
Proof. by intros Ha w a' w' [= <- <-]. Qed.

Lemma returns_bind {A B} (m : M A) (k : A -> M B) P : (forall a, returns (k a) P) -> returns (m ≫= k) P.
Proof. intros Hk w b w' H. unfold mbind, M_bind in H. destruct (m w) as [[a|e] w1]; [by eapply Hk|done]. Qed.

Lemma plain_next h clip sender now p : plain p = true ->
  returns (clip_step h clip sender now p) (fun q => match q with PSave _ | PSet _ => False | _ => True end).
Proof.
  destruct p; try done; intros _; cbn [clip_step].
  all: repeat first [ apply returns_ret | apply returns_bind; intros ? | case_match ]; repeat case_match; done.
Qed.

(** What a section does: only [PSave] touches the store and only [PSet] the version and the
    text; [PSave] is reached from [PRead] and [PSet] from [PSave]. *)
Record section_effect (h : loc) (t : task) (w : World) (t' : task) (w' : World) : Prop := {
  se_same : submitted t' = submitted t;
  se_name : h_username (hubs w' h) = h_username (hubs w h);
  se_window : recoveryWindowClosed (hubs w' h) = recoveryWindowClosed (hubs w h);
  se_queue : recoveryQueue (hubs w' h) = recoveryQueue (hubs w h);
  se_clips : clip_jobs (jobs (hubs w' h)) = clip_jobs (jobs (hubs w h));
  se_state : match t_pc t with
             | PSet next => version (hubs w' h) = next /\
                            exists l, latest (hubs w' h) = Some l /\ Version l = next
             | _ => version (hubs w' h) = version (hubs w h) /\ latest (hubs w' h) = latest (hubs w h)
             end;
  se_store : versions w' = match t_pc t with
                           | PSave next => save_max (versions w) (h_username (hubs w h)) next
                           | _ => versions w
                           end;
  se_save : forall next, t_pc t' = PSave next -> t_pc t = PRead /\ NextVersion (version (hubs w h)) = Ok next;
  se_set : forall next, t_pc t' = PSet next -> t_pc t = PSave next }.

Lemma run_task_effect h t w t' w' : run_task h t w = (Ok t', w') -> section_effect h t w t' w'.
Proof.
  destruct t as [sender clip now p]. unfold run_task, mbind, M_bind. cbn [t_pc t_sender t_clip t_now].
  destruct (clip_step h clip sender now p w) as [[q|e] w1] eqn:E; [|done]. intros [= <- <-].
  destruct (plain p) eqn:Hp.
  - pose proof (calmly_plain h clip sender now p Hp w) as Hc. rewrite E in Hc. destruct Hc.
    pose proof (plain_next h clip sender now p Hp w q w1 E) as Hq. cbn in *.
    split; cbn; try done; [by destruct p|by destruct p|..]; intros ? ->; done.
  - destruct p; try done; cbn in E; unfold hub_Version, save_version, get_hub, get_conn, gets, lift, mbind, M_bind, mret,
      M_ret in E; cbn in E.
    + destruct (NextVersion _) eqn:En; simplify_eq. split; cbn; intros; simplify_eq; auto.
    + simplify_eq. split; cbn; intros; simplify_eq; auto.
    + simplify_eq. split; cbn; rewrite ?insert_eq; cbn; intros; simplify_eq; eauto.
Qed.

(** ** What the others do *)

(** Closing the window judges the snapshots and empties the queue; the version does not
    fall, and the store keeps up. *)
Lemma close_section_effect h w q w' : close_section h w = (Ok q, w') ->
  q = recoveryQueue (hubs w h) /\
  h_username (hubs w' h) = h_username (hubs w h) /\ recoveryWindowClosed (hubs w' h) = true /\
  recoveryQueue (hubs w' h) = [] /\ jobs (hubs w' h) = jobs (hubs w h) /\
  version (hubs w' h) = (restored (hubs w h)).1 /\ latest (hubs w' h) = (restored (hubs w h)).2 /\
  versions w' = if version (hubs w h) <? (restored (hubs w h)).1
                then save_max (versions w) (h_username (hubs w h)) (restored (hubs w h)).1 else versions w.
Proof.
  unfold close_section, restored, restore_snapshot, save_version, get_hub, gets, mbind, M_bind. cbn.
  destruct (SelectSnapshotWinner _) as [win|]; cbn; rewrite ?insert_eq; cbn.
  - destruct (Z.ltb_spec (version (hubs w h)) (win_Version win)) as [Hlt|Hle]; cbn.
    + intros [= <- <-]; cbn; rewrite !insert_eq; cbn. rewrite (proj2 (Z.ltb_lt _ _) Hlt). by repeat split.
    + destruct (Z.eqb_spec (win_Version win) (version (hubs w h))) as [->|]; cbn; [destruct (latest (hubs w h)) eqn:El; cbn|];
        intros [= <- <-]; cbn; rewrite !insert_eq; cbn; rewrite ?Z.ltb_irrefl; by repeat split.
  - intros [= <- <-]; cbn; rewrite !insert_eq; cbn; rewrite ?Z.ltb_irrefl; by repeat split.
Qed.

(** What classifying, pushing and taking a clip do. *)
Lemma ClassifyClip_effect h c clip w d w' : ClassifyClip h clip c w = (Ok d, w') ->
  versions w' = versions w /\
  exists q, hubs w' h = set_recoveryQueue q (hubs w h) /\
    match d with
    | DecisionQueued => recoveryWindowClosed (hubs w h) = false /\
                        q = recoveryQueue (hubs w h) ++ [{| rc_Clip := clip; rc_Connection := c |}]
    | DecisionProcessNow => recoveryWindowClosed (hubs w h) = true /\ q = recoveryQueue (hubs w h)
    | DecisionQueueFull => recoveryWindowClosed (hubs w h) = false /\ q = recoveryQueue (hubs w h)
    end.
Proof.
  unfold ClassifyClip, get_hub, gets, mbind, M_bind. destruct (recoveryWindowClosed (hubs w h)) eqn:Ew; cbn.
  - intros [= <- <-]. split; [done|]. exists (recoveryQueue (hubs w h)). by destruct (hubs w h).
  - destruct (_ <=? _); intros [= <- <-]; (split; [done|]); eexists;
      [split; [|by split]; by destruct (hubs w h)|cbn; by rewrite insert_eq].
Qed.

Lemma push_effect h c clip w b w' : TryWriteJob h (ClipJob c clip) w = (Ok b, w') ->
  versions w' = versions w /\ hubs w' h = set_jobs (jobs (hubs w h) ++ [ClipJob c clip]) (hubs w h).
Proof. intros [= <- <-]. split; [done|]. apply insert_eq. Qed.

Lemma pop_effect h c clip w w' : pop h w = (Ok (Some (ClipJob c clip)), w') ->
  versions w' = versions w /\
  exists js, jobs (hubs w h) = ClipJob c clip :: js /\ hubs w' h = set_jobs js (hubs w h).
Proof.
  unfold pop, get_hub, gets, mbind, M_bind. cbn. destruct (jobs (hubs w h)) as [|job js]; [done|]. cbn.
  intros [= -> <-]. split; [done|]. exists js. split; [done|]. apply insert_eq.
Qed.

(** ** Every clip once, in order *)

Definition of_recovery (rc : RecoveryClip) : submission := (rc_Connection rc, rc_Clip rc).

(** The clips in the hands of the window closing, and of the user loop. *)
Definition replaying (win : closer) : list submission :=
  match win with
  | Replaying _ current todo => match current with Some t => [submitted t] | None => [] end ++ (of_recovery <$> todo)
  | _ => []
  end.
Definition in_loop (ut : option task) : list submission := match ut with Some t => [submitted t] | None => [] end.

Definition hub_of (h : loc) (s : conc) : Hub := hubs (world s) h.

Record accounted (h : loc) (s : conc) : Prop := {
  ac_queued : queued s = (replayed s).*1 ++ replaying (window s) ++ (of_recovery <$> recoveryQueue (hub_of h s));
  ac_pushed : pushed s = applied s ++ in_loop (user_task s) ++ clip_jobs (jobs (hub_of h s));
  ac_direct : direct s ≡ₚ pushed s ++ holding s;
  ac_window : recoveryWindowClosed (hub_of h s) = match window s with Waiting => false | _ => true end;
  ac_before : window s = Waiting -> direct s = [];
  ac_after : window s <> Waiting -> recoveryQueue (hub_of h s) = [] }.

Lemma clip_jobs_app a b : clip_jobs (a ++ b) = clip_jobs a ++ clip_jobs b.
Proof. apply bind_app. Qed.

(** A section of a clip keeps the accounts that speak of the hub. *)
Lemma accounted_section h t w t' w' : run_task h t w = (Ok t', w') ->
  recoveryQueue (hubs w' h) = recoveryQueue (hubs w h) /\ clip_jobs (jobs (hubs w' h)) = clip_jobs (jobs (hubs w h)) /\
  recoveryWindowClosed (hubs w' h) = recoveryWindowClosed (hubs w h) /\ submitted t' = submitted t.
Proof. intros H. destruct (run_task_effect _ _ _ _ _ H). auto. Qed.

#[local] Arguments clip_jobs : simpl never.

Lemma act_accounted h l s s' : act h l s = Some s' -> accounted h s -> accounted h s'.
Proof.
  destruct s as [w ut win hold qd dir psd app rep num]. intros H [Hq Hp Hd Hw Hb Ha].
  unfold hub_of in *. cbn in *. destruct l as [c clip|i|now| |now| | |]; cbn in H.
  - destruct (ClassifyClip h clip c w) as [[d|e] w1] eqn:E; [|done].
    destruct (ClassifyClip_effect _ _ _ _ _ _ E) as (_ & q & Eh & Ed).
    destruct d; injection H as <-; destruct Ed as [Ew ->]; split; unfold hub_of; cbn; rewrite ?Eh; cbn; try done.
    all: try (by destruct (hubs w h)).
    + rewrite Hq, fmap_app, <- !app_assoc. done.
    + intros Hn. rewrite Ha in * by done. destruct win; congruence.
    + rewrite Hd, <- app_assoc. done.
    + intros ->. congruence.
  - destruct (hold !! i) as [[c clip]|] eqn:Ei; [|done].
    destruct (TryWriteJob h (ClipJob c clip) w) as [[b|e] w1] eqn:E; [|done]. injection H as <-.
    destruct (push_effect _ _ _ _ _ _ E) as [_ Eh].
    split; unfold hub_of; cbn; rewrite ?Eh; cbn; try done.
    + by rewrite Hp, clip_jobs_app, !app_assoc.
    + rewrite Hd, <- app_assoc. apply Permutation_app_head. apply (delete_Permutation _ _ _ Ei).
  - destruct ut; [done|]. destruct (pop h w) as [[[[c clip| | |]|]|e] w1] eqn:E; try done. injection H as <-.
    destruct (pop_effect _ _ _ _ _ E) as (_ & js & Ej & Eh).
    split; unfold hub_of; cbn; rewrite ?Eh; cbn; try done. by rewrite Hp, Ej.
  - destruct ut as [t|]; [|done]. destruct (run_task h t w) as [[t'|e] w1] eqn:E; [|done]. 
    destruct (accounted_section _ _ _ _ _ E) as (E1 & E2 & E3 & E4).
    destruct (finished t'); injection H as <-; split; unfold hub_of; cbn; rewrite ?E1, ?E2, ?E3, ?E4; try done.
    by rewrite <- app_assoc.
  - destruct win; try done. destruct (recoveryWindowClosed (hubs w h)) eqn:Ew; [done|].
    destruct (close_section h w) as [[q|e] w1] eqn:E; [|done]. injection H as <-.
    destruct (close_section_effect _ _ _ _ E) as (-> & _ & E1 & E2 & E3 & _).
    split; unfold hub_of; cbn; rewrite ?E1, ?E2, ?E3; try done. by rewrite app_nil_r.
  - destruct win as [|now [t|] [|rc todo]|]; try done. specialize (Ha ltac:(done)).
    destruct (closed _); injection H as <-; split; unfold hub_of; cbn; try done.
    rewrite Hq, fmap_app, <- app_assoc. done.
  - destruct win as [|now [t|] todo|]; try done. specialize (Ha ltac:(done)).
    destruct (run_task h t w) as [[t'|e] w1] eqn:E; [|done].
    destruct (accounted_section _ _ _ _ _ E) as (E1 & E2 & E3 & E4).
    destruct (finished t'); injection H as <-; split; unfold hub_of; cbn; rewrite ?E1, ?E2, ?E3, ?E4; try done.
    rewrite Hq, fmap_app, <- !app_assoc. done.
  - destruct win as [|now [t|] [|rc todo]|]; try done. specialize (Ha ltac:(done)). injection H as <-. by split.
Qed.

Lemma other_accounted h s w' : untouched h (world s) w' -> accounted h s ->
  accounted h (mkConc w' (user_task s) (window s) (holding s) (queued s) (direct s) (pushed s) (applied s)
                 (replayed s) (handed s)).
Proof.
  intros [] [Hq Hp Hd Hw Hb Ha]. unfold hub_of in *.
  split; unfold hub_of; cbn; rewrite ?un_window0, ?un_queue0, ?un_clips0; done.
Qed.

Lemma cstep_accounted h s s' : cstep h s s' -> accounted h s -> accounted h s'.
Proof. destruct 1; [by eapply act_accounted|by apply other_accounted]. Qed.

(** A hub as [New] makes it, as far as clips go. *)
Definition fresh_hub (hub : Hub) : Prop :=
  recoveryWindowClosed hub = false /\ recoveryQueue hub = [] /\ clip_jobs (jobs hub) = [].

Lemma New_fresh username c processStart v hub : New username c processStart v = Ok hub -> fresh_hub hub.
Proof.
  unfold New. intros H. destruct (NewBucket _ _ _); [|done]. cbn in H. destruct (NewRing _); [|done].
  cbn in H. by simplify_eq.
Qed.

Lemma start_accounted h w : fresh_hub (hubs w h) -> accounted h (start w).
Proof. intros (H1 & H2 & H3). split; unfold hub_of; cbn; rewrite ?H1, ?H2, ?H3; done. Qed.

(** What a property keeps at every step, it keeps over a run. *)
Lemma rtc_keeps {A} (R : A -> A -> Prop) (P : A -> Prop) :
  (forall x y, R x y -> P x -> P y) -> forall x y, rtc R x y -> P x -> P y.
Proof. intros Hs x y Hr. induction Hr; eauto. Qed.

(** ** Versions after the recovery window *)

(** No waiting clip is left to the window closing, and a clip that holds a number still holds
    the next one. *)
Definition quiet (win : closer) : Prop :=
  match win with Closed => True | Replaying _ None [] => True | _ => False end.

Record settled (h : loc) (s : conc) : Prop := {
  st_quiet : quiet (window s);
  st_range : in_uint64 (version (hub_of h s));
  st_next : forall t next, user_task s = Some t -> t_pc t = PSave next \/ t_pc t = PSet next ->
              next = version (hub_of h s) + 1 /\ in_uint64 next }.

(** The versions between two moments, each once and in order. *)
Definition versions_from (v v' : Z) : list Z := seqZ (v + 1) (v' - v).

Lemma versions_from_same v : versions_from v v = [].
Proof. unfold versions_from. by rewrite Z.sub_diag. Qed.

Lemma versions_from_next v : versions_from v (v + 1) = [v + 1].
Proof. unfold versions_from. by replace (v + 1 - v) with 1 by lia. Qed.

Lemma versions_from_app a b c : a <= b -> b <= c -> versions_from a c = versions_from a b ++ versions_from b c.
Proof.
  intros H1 H2. unfold versions_from. replace (c - a) with ((b - a) + (c - b)) by lia.
  rewrite seqZ_app by lia. by replace (a + 1 + (b - a)) with (b + 1) by lia.
Qed.

Definition numbered (h : loc) (s s' : conc) : Prop :=
  settled h s' /\ version (hub_of h s) <= version (hub_of h s') /\
  handed s' = handed s ++ versions_from (version (hub_of h s)) (version (hub_of h s')).

Lemma numbered_same h s s' : settled h s -> version (hub_of h s') = version (hub_of h s) -> handed s' = handed s ->
  quiet (window s') ->
  (forall t next, user_task s' = Some t -> t_pc t = PSave next \/ t_pc t = PSet next ->
     next = version (hub_of h s) + 1 /\ in_uint64 next) ->
  numbered h s s'.
Proof.
  intros [Hq Hr Hn] Hv Hh Hq' Hn'. unfold numbered. rewrite Hv, Hh, versions_from_same, app_nil_r.
  split; [split; rewrite ?Hv|]; auto with lia.
Qed.

(** A section of the user loop. *)
Lemma user_numbered h s s' : settled h s -> act h LUser s = Some s' -> numbered h s s'.
Proof.
  destruct s as [w ut win hold qd dir psd app rep num]. intros Hs H. pose proof Hs as [Hq Hr Hn].
  cbn in *. unfold hub_of in *. cbn in *.
  destruct ut as [t|]; [|done]. destruct (run_task h t w) as [[t'|e] w1] eqn:E; [|done].
  destruct (run_task_effect _ _ _ _ _ E) as [_ _ _ _ _ Hst _ Hsave Hset].
  assert (Hnext : forall next, t_pc t' = PSave next \/ t_pc t' = PSet next ->
            next = version (hubs w h) + 1 /\ in_uint64 next).
  { intros next [Hp|Hp]; [destruct (Hsave _ Hp); by apply NextVersion_Ok|apply (Hn t); auto]. }
  destruct (match t_pc t with PSet _ => true | _ => false end) eqn:Eset.
  - destruct (t_pc t) as [| | | | | | | | | | |next| | | | | | |] eqn:Ep; try done.
    destruct Hst as [Hv _]. destruct (Hn t next eq_refl (or_intror Ep)) as [-> Hb].
    unfold numbers in H. rewrite Ep in H.
    assert (Hd : forall ut' app' num', (ut' = None \/ ut' = Some t') ->
              settled h (mkConc w1 ut' win hold qd dir psd app' rep num')).
    { intros ut' app' num' Hut. split; unfold hub_of; cbn; rewrite ?Hv; try done.
      intros t0 next0 Et Hp. destruct Hut; simplify_eq. exfalso.
      destruct Hp as [Hp|Hp]; [destruct (Hsave _ Hp)|apply Hset in Hp]; congruence. }
    destruct (finished t'); injection H as <-; unfold numbered, hub_of; cbn; rewrite Hv, versions_from_next.
    all: split; [|split; [lia|done]]; eapply Hd; eauto.
  - assert (Hv : version (hubs w1 h) = version (hubs w h)) by (by destruct (t_pc t); destruct Hst).
    assert (Hm : numbers t = []) by (unfold numbers; by destruct (t_pc t)). rewrite Hm, app_nil_r in H.
    destruct (finished t'); injection H as <-; apply numbered_same; cbn; auto; [done|].
    intros t0 next0 [= <-]. apply Hnext.
Qed.

Lemma step_numbered h s s' : cstep h s s' -> settled h s -> numbered h s s'.
Proof.
  intros [l s0 s1 H|s0 w' Ho] Hs.
  - destruct s0 as [w ut win hold qd dir psd app rep num]. pose proof Hs as [Hq Hr Hn].
    unfold hub_of in *; cbn in *. destruct l as [c clip|i|now| |now| | |]; cbn in H.
    + destruct (ClassifyClip h clip c w) as [[d|e] w1] eqn:E; [|done].
      destruct (ClassifyClip_effect _ _ _ _ _ _ E) as (_ & q & Eh & _).
      destruct d; injection H as <-; apply numbered_same; unfold hub_of; cbn; rewrite ?Eh; done.
    + destruct (hold !! i) as [[c clip]|]; [|done].
      destruct (TryWriteJob h (ClipJob c clip) w) as [[b|e] w1] eqn:E; [|done]. injection H as <-.
      destruct (push_effect _ _ _ _ _ _ E) as [_ Eh]. apply numbered_same; unfold hub_of; cbn; rewrite ?Eh; done.
    + destruct ut; [done|]. destruct (pop h w) as [[[[c clip| | |]|]|e] w1] eqn:E; try done. injection H as <-.
      destruct (pop_effect _ _ _ _ _ E) as (_ & js & _ & Eh).
      apply numbered_same; unfold hub_of; cbn; rewrite ?Eh; try done.
      intros t next [= <-] [?|?]; done.
    + by eapply user_numbered.
    + by destruct win.
    + by destruct win as [|now [t|] [|rc todo]|].
    + by destruct win as [|now [t|] todo|].
    + destruct win as [|now [t|] [|rc todo]|]; try done. injection H as <-. by apply numbered_same.
  - destruct Ho. apply numbered_same; cbn; auto; [apply Hs|]. apply (st_next _ _ Hs).
Qed.

Lemma run_numbered h s s' : rtc (cstep h) s s' -> settled h s -> numbered h s s'.
Proof.
  intros Hr Hs. refine (rtc_keeps _ (numbered h s) _ s s' Hr _).
  - intros x y Hxy (Hx & Hle & Hh). destruct (step_numbered _ _ _ Hxy Hx) as (Hy & Hle' & Hh').
    split; [done|split; [lia|]]. by rewrite Hh', Hh, <- app_assoc, <- versions_from_app.
  - unfold numbered. by rewrite versions_from_same, app_nil_r.
Qed.

(** ** The store is never behind, even during the replay *)

(** The clips under way. *)
Definition under_way (s : conc) : list task :=
  match user_task s with Some t => [t] | None => [] end ++
  match window s with Replaying _ (Some t) _ => [t] | _ => [] end.

Definition saved (h : loc) (name : str) (s : conc) : Z := GetVersion (versions (world s)) name.

Record covered (h : loc) (name : str) (s : conc) : Prop := {
  co_name : h_username (hub_of h s) = name;
  co_version : version (hub_of h s) <= saved h name s;
  co_handed : Forall (fun v => v <= saved h name s) (handed s);
  co_latest : forall l, latest (hub_of h s) = Some l -> Version l = version (hub_of h s);
  co_tasks : Forall (fun t => forall next, t_pc t = PSet next -> next <= saved h name s) (under_way s) }.

(** A step that gives no number and does not move the store back. *)
Lemma covered_weaken h name s s' : covered h name s -> saved h name s <= saved h name s' ->
  h_username (hub_of h s') = name -> version (hub_of h s') <= saved h name s' ->
  (forall l, latest (hub_of h s') = Some l -> Version l = version (hub_of h s')) ->
  Forall (fun v => v <= saved h name s' \/ v ∈ handed s) (handed s') ->
  Forall (fun t => (forall next, t_pc t = PSet next -> next <= saved h name s') \/ t ∈ under_way s) (under_way s') ->
  covered h name s'.
Proof.
  intros [H1 H2 H3 H4 H5] Hle Hn Hv Hl Hh Ht. split; auto.
  - eapply list.Forall_impl; [exact Hh|]. intros v [?|Hin]; [done|].
    rewrite list.Forall_forall in H3. specialize (H3 v Hin). cbn in H3. lia.
  - eapply list.Forall_impl; [exact Ht|]. intros t [?|Hin]; [done|]. intros next Hp.
    rewrite list.Forall_forall in H5. specialize (H5 t Hin next Hp). lia.
Qed.

Lemma old_or_saved {A} (P : A -> Prop) (l : list A) : Forall (fun x => P x \/ x ∈ l) l.
Proof. apply list.Forall_forall. auto. Qed.

Create HintDb conc.
#[local] Hint Resolve old_or_saved : conc.

(** A section, of either goroutine: the store, the version and the text after it. *)
Lemma section_covered h name t w t' w' : run_task h t w = (Ok t', w') -> h_username (hubs w h) = name ->
  let st := GetVersion (versions w) name in let st' := GetVersion (versions w') name in
  version (hubs w h) <= st -> (forall l, latest (hubs w h) = Some l -> Version l = version (hubs w h)) ->
  (forall next, t_pc t = PSet next -> next <= st) ->
  st <= st' /\ h_username (hubs w' h) = name /\ version (hubs w' h) <= st' /\
  (forall l, latest (hubs w' h) = Some l -> Version l = version (hubs w' h)) /\
  Forall (fun v => v <= st') (numbers t) /\ (forall next, t_pc t' = PSet next -> next <= st').
Proof.
  intros E Hn st st' Hv Hl Ht. destruct (run_task_effect _ _ _ _ _ E) as [_ En _ _ _ Est Evs _ Eset].
  assert (Hle : st <= st').
  { unfold st, st'. rewrite Evs. destruct (t_pc t); try lia. rewrite GetVersion_save, Hn, decide_True by done. lia. }
  split; [done|]. split; [congruence|]. split; [|split; [|split]].
  - destruct (t_pc t) eqn:Ep; destruct Est as [-> _]; try lia. specialize (Ht _ eq_refl). lia.
  - destruct (t_pc t); destruct Est as [E1 E2]; try (rewrite E1, E2; done).
    destruct E2 as (l0 & E2 & E3). intros l. rewrite E2, E1. by intros [= <-].
  - unfold numbers. destruct (t_pc t) eqn:Ep; constructor; [|done]. specialize (Ht _ eq_refl). lia.
  - intros next Hp. apply Eset in Hp. unfold st'. rewrite Evs, Hp, GetVersion_save, Hn, decide_True by done. lia.
Qed.

Lemma restored_latest hub : (forall l, latest hub = Some l -> Version l = version hub) ->
  forall l, (restored hub).2 = Some l -> Version l = (restored hub).1.
Proof. intros Hl l. unfold restored. repeat case_match; cbn; first [apply Hl|by intros [= <-]]. Qed.

(** The hub's version and text after the step are as before. *)
Lemma covered_still h name s s' : covered h name s -> versions (world s') = versions (world s) ->
  h_username (hub_of h s') = name -> version (hub_of h s') = version (hub_of h s) ->
  latest (hub_of h s') = latest (hub_of h s) -> handed s' = handed s ->
  Forall (fun t => (forall next, t_pc t = PSet next -> False) \/ t ∈ under_way s) (under_way s') ->
  covered h name s'.
Proof.
  intros Hc Hs Hn Hv Hl Hh Ht. assert (Hsv : saved h name s' = saved h name s) by (unfold saved; by rewrite Hs).
  apply (covered_weaken h name s); rewrite ?Hsv, ?Hv, ?Hl, ?Hh; auto with conc; [lia|apply Hc|apply Hc|].
  eapply list.Forall_impl; [exact Ht|]. intros t [Hno|?]; [left|by right]. intros next Hp. by destruct (Hno next).
Qed.

(** A section of a clip under way, of either goroutine. *)
Lemma covered_section h name s t w' t' s' : covered h name s -> t ∈ under_way s ->
  run_task h t (world s) = (Ok t', w') -> world s' = w' -> handed s' = handed s ++ numbers t ->
  (forall x, x ∈ under_way s' -> x = t' \/ x ∈ under_way s) -> covered h name s'.
Proof.
  intros Hc Hin E Hw Hh Hx. pose proof Hc as [Hn Hv _ Hl Ht].
  rewrite list.Forall_forall in Ht. specialize (Ht t Hin).
  destruct (section_covered h name _ _ _ _ E Hn Hv Hl Ht) as (C1 & C2 & C3 & C4 & C5 & C6).
  apply (covered_weaken _ _ _ _ Hc); unfold hub_of, saved; rewrite ?Hw, ?Hh; auto.
  - apply Forall_app. split; [apply old_or_saved|]. eapply list.Forall_impl; [exact C5|]. auto.
  - apply list.Forall_forall. intros x Hux. destruct (Hx x Hux) as [->|]; auto.
Qed.

Lemma act_covered h name l s s' : act h l s = Some s' -> covered h name s -> covered h name s'.
Proof.
  destruct s as [w ut win hold qd dir psd app rep num]. intros H Hc. pose proof Hc as [Hn Hv Hh Hl Ht].
  unfold hub_of, saved in *. cbn in *. destruct l as [c clip|i|now| |now| | |]; cbn in H.
  - destruct (ClassifyClip h clip c w) as [[d|e] w1] eqn:E; [|done].
    destruct (ClassifyClip_effect _ _ _ _ _ _ E) as (Ev & q & Eh & _).
    destruct d; injection H as <-; apply (covered_still _ _ _ _ Hc); unfold hub_of; cbn; rewrite ?Eh; auto with conc.
  - destruct (hold !! i) as [[c clip]|]; [|done].
    destruct (TryWriteJob h (ClipJob c clip) w) as [[b|e] w1] eqn:E; [|done]. injection H as <-.
    destruct (push_effect _ _ _ _ _ _ E) as [Ev Eh].
    apply (covered_still _ _ _ _ Hc); unfold hub_of; cbn; rewrite ?Eh; auto with conc.
  - destruct ut; [done|]. destruct (pop h w) as [[[[c clip| | |]|]|e] w1] eqn:E; try done. injection H as <-.
    destruct (pop_effect _ _ _ _ _ E) as (Ev & js & _ & Eh).
    apply (covered_still _ _ _ _ Hc); unfold hub_of; cbn; rewrite ?Eh; auto with conc.
    constructor; [by left|]. apply (old_or_saved (fun t => forall next, t_pc t = PSet next -> False)).
  - destruct ut as [t|]; [|done]. destruct (run_task h t w) as [[t'|e] w1] eqn:E; [|done].
    destruct (finished t'); injection H as <-; refine (covered_section h name _ t w1 t' _ Hc _ E _ _ _); cbn; auto.
    all: clear; set_solver.
  - destruct win; try done. destruct (recoveryWindowClosed (hubs w h)) eqn:Ew; [done|].
    destruct (close_section h w) as [[q|e] w1] eqn:E; [|done]. injection H as <-.
    destruct (close_section_effect _ _ _ _ E) as (-> & E1 & _ & _ & _ & E2 & E3 & E4).
    pose proof (restored_ge (hubs w h)) as Hge.
    assert (Hle : GetVersion (versions w) name <= GetVersion (versions w1) name /\
                  (restored (hubs w h)).1 <= GetVersion (versions w1) name).
    { rewrite E4, Hn. destruct (Z.ltb_spec (version (hubs w h)) (restored (hubs w h)).1); [|lia].
      rewrite GetVersion_save, decide_True by done. lia. }
    apply (covered_weaken _ _ _ _ Hc); unfold hub_of, saved; cbn; rewrite ?E1, ?E2, ?E3; auto with conc; try tauto.
    { by apply restored_latest. }
  - destruct win as [|now [t|] [|rc todo]|]; try done. destruct (closed _); injection H as <-;
      apply (covered_still _ _ _ _ Hc); cbn; auto; apply list.Forall_forall; intros x Hx.
    { by right. }
    apply elem_of_app in Hx as [Hx|Hx%list_elem_of_singleton]; [right; set_solver|left; by subst x].
  - destruct win as [|now [t|] todo|]; try done. destruct (run_task h t w) as [[t'|e] w1] eqn:E; [|done].
    destruct (finished t'); injection H as <-; refine (covered_section h name _ t w1 t' _ Hc _ E _ _ _); cbn; auto.
    all: clear; set_solver.
  - destruct win as [|now [t|] [|rc todo]|]; try done. injection H as <-.
    by apply (covered_still _ _ _ _ Hc); cbn; auto with conc.
Qed.

Lemma cstep_covered h name s s' : cstep h s s' -> covered h name s -> covered h name s'.
Proof.
  destruct 1 as [l s s' H|s w' Ho]; [by eapply act_covered|]. intros Hc. pose proof Hc as [Hn Hv _ Hl _]. destruct Ho.
  apply (covered_weaken _ _ _ _ Hc); unfold hub_of, saved in *; cbn; auto with conc.
  all: rewrite ?un_name0, ?un_version0, ?un_latest0, <- ?Hn in *; auto; lia.
Qed.

(** ** A schedule on a concrete hub *)

(** The state after a schedule that can be followed to its end. *)
Definition after (h : loc) (ls : list label) (s : conc) : conc := default s (exec h ls s).

Lemma after_steps h ls s : rtc (cstep h) s (after h ls s).
Proof. unfold after. destruct (exec h ls s) as [s'|] eqn:E; [by apply (exec_steps h ls)|done]. Qed.

Lemma exec_app h ls ls' : forall s,
  exec h (ls ++ ls') s = match exec h ls s with Some s1 => exec h ls' s1 | None => None end.
Proof. induction ls as [|l ls IH]; intros s; cbn; [done|]. by destruct (act h l s). Qed.

(** Every action of the schedule can be taken. *)
Definition possible (h : loc) (ls : list label) (s : conc) : bool :=
  match exec h ls s with Some _ => true | None => false end.

(** A schedule cut in two. *)
Lemma after_cut h n ls s : possible h ls s = true -> after h ls s = after h (drop n ls) (after h (take n ls) s).
Proof.
  unfold possible, after. rewrite <- (take_drop n ls) at 1 2. rewrite exec_app.
  destruct (exec h (take n ls) s) as [s1|]; [|done]. simpl. by destruct (exec h (drop n ls) s1).
Qed.

Definition clip_named (id : str) : ClientClip :=
  {| clip_ID := id; clip_Payload := "text of " ++ id; clip_Encrypted := false; clip_Hash := "h" |}.

(** Two clips wait; the window is closed; a third clip is pushed, taken and has read the
    version and saved the next one when the replay runs; then it sets what it holds. A fourth
    clip follows. A clip at this hub takes fourteen sections. *)
Definition before_replay : list label :=
  [LClassify 0 (clip_named "k1"); LClassify 1 (clip_named "k2"); LClose (utc 0);
   LClassify 0 (clip_named "k3"); LPush 0; LPop (utc 0)] ++ replicate 5 LUser.
Definition replay_both : list label := [LNext] ++ replicate 14 LReplay ++ [LNext] ++ replicate 14 LReplay ++ [LFinish].
Definition after_replay : list label :=
  replicate 9 LUser ++ [LClassify 1 (clip_named "k4"); LPush 0; LPop (utc 0)] ++ replicate 14 LUser.

Definition replay_over : conc := after 0 (before_replay ++ replay_both) (start sample_world).
Definition loop_over : conc := after 0 after_replay replay_over.

(** In between, the user loop has set its version and nothing else. *)
Definition fallen : conc := after 0 [LUser] replay_over.

Lemma replay_over_run : rtc (cstep 0%nat) (start sample_world) replay_over.
Proof. exact (after_steps 0 (before_replay ++ replay_both) (start sample_world)). Qed.

Lemma fallen_run : rtc (cstep 0%nat) replay_over fallen.
Proof. exact (after_steps 0 [LUser] replay_over). Qed.

Lemma fallen_loop_over : rtc (cstep 0%nat) fallen loop_over.
Proof.
  pose proof (after_steps 0 (drop 1 after_replay) (after 0 (take 1 after_replay) replay_over)) as Hr.
  rewrite <- (after_cut 0 1 after_replay) in Hr; [exact Hr|]. vm_compute. reflexivity.
Qed.

Lemma loop_over_run : rtc (cstep 0%nat) (start sample_world) loop_over.
Proof. etrans; [exact replay_over_run|]. etrans; [exact fallen_run|exact fallen_loop_over]. Qed.

Lemma after_one h l s : possible h [l] s = true -> act h l s = Some (after h [l] s).
Proof. unfold possible, after. cbn. by destruct (act h l s). Qed.

Lemma fallen_act : act 0 LUser replay_over = Some fallen.
Proof. apply (after_one 0 LUser replay_over). vm_compute. reflexivity. Qed.

(** The section of the user loop that sets the version looks at neither the version nor the text. *)
Lemma user_set_blind h s t next s' : user_task s = Some t -> t_pc t = PSet next -> act h LUser s = Some s' ->
  version (hub_of h s') = next /\
  exists l, latest (hub_of h s') = Some l /\ Version l = next /\ Payload l = clip_Payload (t_clip t).
Proof.
  destruct s as [w ut win hold qd dir psd app rep num]. destruct t as [c clip now p]. cbn. intros -> -> H.
  cbn in H. injection H as <-. unfold hub_of. cbn. rewrite insert_eq. cbn. split; [done|]. by eexists.
Qed.

(** The text of a clip of the schedule: both are sent by connections of the same name. *)
Definition text_of (id : str) (v : Z) : LatestText :=
  clip_latest (clip_named id) v (conns sample_world 0) (utc 0).

Lemma sample_fresh : fresh_hub (hubs sample_world 0%nat).
Proof. by repeat split. Qed.

Example schedule_ends :
  (replayed loop_over).*2 = [true; true] /\ clip_ID <$> (applied loop_over).*2 = ["k3"%go; "k4"%go] /\
  window loop_over = Closed /\ holding loop_over = [] /\ version (hub_of 0 loop_over) = 6.
Proof. vm_compute. repeat split. Qed.

(** ** Properties *)

(** C5: No clip is lost or applied twice, whatever the interleaving of the readers, the user loop, the closing
    of the recovery window and the rest of the server: of the clips answered [Queued], in order of arrival, first
    come those the replay is done with, then the one it applies and those it took, then those that still wait;
    of the pushed ones those applied, the one the user loop applies, then the jobs; and each clip answered
    [ProcessNow] is pushed once. When nothing is under way every accepted clip was applied once, the waiting ones
    in order (but for those whose connection was closed). *)
Theorem clips_once_in_order h w s : fresh_hub (hubs w h) -> rtc (cstep h) (start w) s ->
  queued s = (replayed s).*1 ++ replaying (window s) ++ (of_recovery <$> recoveryQueue (hub_of h s)) /\
  pushed s = applied s ++ in_loop (user_task s) ++ clip_jobs (jobs (hub_of h s)) /\
  direct s ≡ₚ pushed s ++ holding s /\
  (window s = Waiting -> direct s = []) /\
  (window s = Closed -> holding s = [] -> user_task s = None -> clip_jobs (jobs (hub_of h s)) = [] ->
   queued s = (replayed s).*1 /\ direct s ≡ₚ applied s).
Proof.
  intros Hf Hr. destruct (rtc_keeps _ _ (cstep_accounted h) _ _ Hr (start_accounted h w Hf)) as [Hq Hp Hd Hw Hb Ha].
  do 4 (split; [done|]). intros Hc Hh Hu Hj. rewrite Hq, Hd, Hp, Hc, Hh, Hu, Hj, Ha by congruence. cbn.
  by rewrite !app_nil_r.
Qed.

Lemma clips_once_in_order_witness :
  queued loop_over = (replayed loop_over).*1 /\ direct loop_over ≡ₚ applied loop_over.
Proof.
  destruct schedule_ends as (_ & _ & Hw & Hh & _).
  destruct (clips_once_in_order 0 sample_world loop_over sample_fresh
              loop_over_run) as (_ & _ & _ & _ & H).
  apply H; [exact Hw|exact Hh|vm_compute; reflexivity|vm_compute; reflexivity].
Defined.

(** C6: Versions are given once and in order when no replay is left: from any state where the window is closed,
    no waiting clip remains to be replayed and the user loop is between two clips, the clips applied from then on
    get version + 1, version + 2, ... without gap or repetition, however the goroutines interleave, and the hub
    ends at the last one. *)
Theorem versions_consecutive h s s' :
  quiet (window s) -> user_task s = None -> in_uint64 (version (hub_of h s)) -> rtc (cstep h) s s' ->
  let v := version (hub_of h s) in let v' := version (hub_of h s') in
  v <= v' /\ handed s' = handed s ++ seqZ (v + 1) (v' - v) /\ NoDup (seqZ (v + 1) (v' - v)).
Proof.
  intros Hq Hu Hv Hr. destruct (run_numbered h s s' Hr) as (_ & Hle & Hh); [split; auto; by rewrite Hu|].
  split; [done|]. split; [done|]. apply NoDup_seqZ.
Qed.

(** The window is closed with nothing waiting, then two clips are applied. *)
Definition quiet_run : list label :=
  [LClose (utc 0); LFinish; LClassify 0 (clip_named "k1"); LClassify 1 (clip_named "k2"); LPush 1; LPush 0;
   LPop (utc 0)] ++ replicate 14 LUser ++ [LPop (utc 0)] ++ replicate 14 LUser.

Lemma versions_consecutive_witness :
  let s := after 0 [LClose (utc 0)] (start sample_world) in let s' := after 0 (drop 1 quiet_run) s in
  handed s' = [5; 6] /\ handed s' = handed s ++ seqZ (version (hub_of 0 s) + 1) (version (hub_of 0 s') - version (hub_of 0 s)).
Proof.
  split; [vm_compute; reflexivity|].
  apply (versions_consecutive 0 (after 0 [LClose (utc 0)] (start sample_world)));
    [vm_compute; exact I|vm_compute; reflexivity|vm_compute; split; intros; discriminate|apply after_steps].
Defined.

(** C34: The replay races with the user loop. In general: once the user loop has read the version for a clip, the section
    that sets it is blind; whatever version and text the hub has by then, they are replaced by the number chosen
    earlier and by the user loop's clip. And it happens: from a sound server there is a run in which two
    waiting clips are replayed between the reading and the setting, the hub then has the second one's text at version 6,
    and the next section puts the user loop's text in its place at version 5, so that with a fourth clip
    the versions 5, 6, 5, 6 are given out. *)
Theorem replay_repeats_versions :
  (forall h s t next s', user_task s = Some t -> t_pc t = PSet next -> act h LUser s = Some s' ->
     version (hub_of h s') = next /\
     exists l, latest (hub_of h s') = Some l /\ Version l = next /\ Payload l = clip_Payload (t_clip t)) /\
  exists h w s1 s2 s3 l6 l5,
    world_ok w /\ fresh_hub (hubs w h) /\
    rtc (cstep h) (start w) s1 /\ act h LUser s1 = Some s2 /\ rtc (cstep h) s2 s3 /\
    (version (hub_of h s1) = 6 /\ latest (hub_of h s1) = Some l6 /\ Version l6 = 6 /\ Payload l6 = "text of k2") /\
    (version (hub_of h s2) = 5 /\ latest (hub_of h s2) = Some l5 /\ Version l5 = 5 /\ Payload l5 = "text of k3") /\
    handed s3 = [5; 6; 5; 6].
Proof.
  split; [exact user_set_blind|].
  exists 0%nat, sample_world, replay_over, fallen, loop_over, (text_of "k2" 6), (text_of "k3" 5).
  split; [exact sample_world_ok|]. split; [exact sample_fresh|]. split; [exact replay_over_run|].
  split; [exact fallen_act|]. split; [exact fallen_loop_over|]. repeat split; vm_compute; reflexivity.
Qed.

(** C9: The store covers every version, even while a replay races with the user loop: at every moment the hub's
    version and all versions given to clips are at most the stored version of the user, so a hub made later from
    the store continues above them; and the hub's text carries the hub's version. *)
Theorem store_covers_versions h w s : world_ok w -> rtc (cstep h) (start w) s ->
  let stored := GetVersion (versions (world s)) (h_username (hub_of h s)) in
  h_username (hub_of h s) = h_username (hubs w h) /\ version (hub_of h s) <= stored /\
  Forall (fun v => v <= stored) (handed s) /\
  (forall l, latest (hub_of h s) = Some l -> Version l = version (hub_of h s)).
Proof.
  intros Hw Hr. destruct (w_hubs _ Hw h) as [Hl _ _ _ _ _ _ _ _ Hs].
  destruct (rtc_keeps _ _ (cstep_covered h (h_username (hubs w h))) _ _ Hr) as [Hn Hv Hh Hl' _]; [by split|].
  cbn. rewrite Hn. auto.
Qed.

Lemma store_covers_versions_witness :
  Forall (fun v => v <= GetVersion (versions (world loop_over)) (h_username (hub_of 0 loop_over))) [5; 6; 5; 6].
Proof.
  apply (store_covers_versions 0 sample_world loop_over sample_world_ok
           loop_over_run).
Defined.
