(* ===== verification/Crypto.v ===== *)
(** * Go's [crypto/sha256], [crypto/hmac] and [encoding/base64] as the tokens use them

    SHA-256 on 32-bit words kept in range by [mod 2^32], HMAC over it, and the unpadded
    and padded base64 decoders with their tolerance for line ends and trailing bits. *)
From S2P Require Import Prelude GoLib.

(** ** SHA-256 *)

Definition w32 (n : Z) : Z := n mod 4294967296.
Definition add32 (a b : Z) : Z := w32 (a + b).
Definition rotr (n x : Z) : Z := Z.lor (Z.shiftr x n) (w32 (Z.shiftl x (32 - n))).

Definition Ch (x y z : Z) : Z := Z.lxor (Z.land x y) (Z.land (Z.lxor x 4294967295) z).
Definition Maj (x y z : Z) : Z := Z.lxor (Z.lxor (Z.land x y) (Z.land x z)) (Z.land y z).
Definition Sigma0 (x : Z) : Z := Z.lxor (Z.lxor (rotr 2 x) (rotr 13 x)) (rotr 22 x).
Definition Sigma1 (x : Z) : Z := Z.lxor (Z.lxor (rotr 6 x) (rotr 11 x)) (rotr 25 x).
Definition sigma0 (x : Z) : Z := Z.lxor (Z.lxor (rotr 7 x) (rotr 18 x)) (Z.shiftr x 3).
Definition sigma1 (x : Z) : Z := Z.lxor (Z.lxor (rotr 17 x) (rotr 19 x)) (Z.shiftr x 10).

(** The constants as the standard defines them: the first 32 bits of the fractional parts of the cube
    roots of the first 64 primes, and of the square roots of the first 8. *)
Definition is_prime (n : Z) : bool :=
  forallb (fun d => negb (n mod d =? 0)) (map Z.of_nat (seq 2 (Z.to_nat (Z.sqrt n) - 1))).
Definition primes : list Z := List.filter is_prime (map Z.of_nat (seq 2 310)).

(** The integer cube root, bit by bit from bit [k]. *)
Fixpoint cube_root (k : nat) (n acc : Z) : Z :=
  let next := acc + 2 ^ Z.of_nat k in
  let acc' := if next * next * next <=? n then next else acc in
  match k with O => acc' | S k' => cube_root k' n acc' end.

Definition K256 : list Z :=
  Eval vm_compute in map (fun p => cube_root 35 (Z.shiftl p 96) 0 mod 2 ^ 32) primes.

Record digest := mkDigest { dA : Z; dB : Z; dC : Z; dD : Z; dE : Z; dF : Z; dG : Z; dH : Z }.

Definition H256 : digest :=
  Eval vm_compute in
    match map (fun p => Z.sqrt (Z.shiftl p 64) mod 2 ^ 32) (take 8 primes) with
    | [a; b; c; d; e; f; g; h] => mkDigest a b c d e f g h
    | _ => mkDigest 0 0 0 0 0 0 0 0
    end.

(** The message schedule, kept as the last sixteen words, newest first. *)
Definition next_word (ws : list Z) : Z :=
  add32 (add32 (sigma1 (nth 1 ws 0)) (nth 6 ws 0)) (add32 (sigma0 (nth 14 ws 0)) (nth 15 ws 0)).

Definition round (d : digest) (kw : Z) : digest :=
  let t1 := add32 (add32 (dH d) (Sigma1 (dE d))) (add32 (Ch (dE d) (dF d) (dG d)) kw) in
  let t2 := add32 (Sigma0 (dA d)) (Maj (dA d) (dB d) (dC d)) in
  mkDigest (add32 t1 t2) (dA d) (dB d) (dC d) (add32 (dD d) t1) (dE d) (dF d) (dG d).

(** The rounds over the constants [ks]: first the words of the block, then the schedule. *)
Fixpoint rounds (ks : list Z) (block : list Z) (ws : list Z) (d : digest) : digest :=
  match ks with
  | [] => d
  | k :: ks' =>
      match block with
      | w :: block' => rounds ks' block' (w :: ws) (round d (add32 k w))
      | [] => let w := next_word ws in rounds ks' [] (w :: firstn 15 ws) (round d (add32 k w))
      end
  end.

Definition add_digest (a b : digest) : digest :=
  mkDigest (add32 (dA a) (dA b)) (add32 (dB a) (dB b)) (add32 (dC a) (dC b)) (add32 (dD a) (dD b))
    (add32 (dE a) (dE b)) (add32 (dF a) (dF b)) (add32 (dG a) (dG b)) (add32 (dH a) (dH b)).

(** Big-endian words of a byte string. *)
Fixpoint words (s : str) : list Z :=
  match s with
  | a :: b :: c :: d :: s' =>
      (((bval a * 256 + bval b) * 256 + bval c) * 256 + bval d) :: words s'
  | _ => []
  end.

Fixpoint blocks (fuel : nat) (s : str) (d : digest) : digest :=
  match fuel, s with
  | S f, _ :: _ => blocks f (drop 64 s) (add_digest d (rounds K256 (words (take 64 s)) [] d))
  | _, _ => d
  end.

Definition be32 (v : Z) : str :=
  [byte_of (v / 16777216); byte_of (v / 65536); byte_of (v / 256); byte_of v].

(** Padding: a one bit, zeros, and the length in bits as 64 bits. *)
Definition pad (s : str) : str :=
  let zeros := ((119 - length s mod 64) mod 64)%nat in
  s ++ [x80] ++ replicate zeros x00 ++ be32 (len s * 8 / 4294967296) ++ be32 (len s * 8).

Definition sha256 (s : str) : str :=
  let d := blocks (S (length s)) (pad s) H256 in
  be32 (dA d) ++ be32 (dB d) ++ be32 (dC d) ++ be32 (dD d) ++
  be32 (dE d) ++ be32 (dF d) ++ be32 (dG d) ++ be32 (dH d).

(** ** HMAC *)

Definition xor_pad (v : Z) (key : str) : str :=
  map (fun c => byte_of (Z.lxor (bval c) v)) (key ++ replicate (64 - length key) x00).

Definition hmac (secret message : str) : str :=
  let key := if 64 <? len secret then sha256 secret else secret in
  sha256 (xor_pad 92 key ++ sha256 (xor_pad 54 key ++ message)).

Lemma length_sha256 s : length (sha256 s) = 32%nat.
Proof. reflexivity. Qed.

Lemma length_hmac k m : length (hmac k m) = 32%nat.
Proof. reflexivity. Qed.

Lemma len_hmac k m : len (hmac k m) = 32.
Proof. unfold len. by rewrite length_hmac. Qed.

Definition hex (s : str) : str :=
  mjoin ((fun c => [nth (Z.to_nat (bval c / 16)) "0123456789abcdef" x00;
                    nth (Z.to_nat (bval c mod 16)) "0123456789abcdef" x00]) <$> s).

(** Test vectors: the empty string and "abc" of FIPS 180, "Jefe" of RFC 4231. *)
Example sha256_vectors :
  hex (sha256 []) = "e3b0c44298fc1c149afbf4c8996fb92427ae41e4649b934ca495991b7852b855" /\
  hex (sha256 "abc") = "ba7816bf8f01cfea414140de5dae2223b00361a396177a9cb410ff61f20015ad".
Proof. vm_compute. done. Qed.

Example hmac_vector :
  hex (hmac "Jefe" "what do ya want for nothing?") =
  "5bdcc146bf60754e6a042426089575c75a003f089d2739839dec58b964ec3843".
Proof. vm_compute. done. Qed.

(** ** Base64 *)

Definition url_alphabet : str := "ABCDEFGHIJKLMNOPQRSTUVWXYZabcdefghijklmnopqrstuvwxyz0123456789-_".
Definition std_alphabet : str := "ABCDEFGHIJKLMNOPQRSTUVWXYZabcdefghijklmnopqrstuvwxyz0123456789+/".

Fixpoint index_of (c : byte) (alphabet : str) : option Z :=
  match alphabet with
  | [] => None
  | d :: rest => if bool_decide (c = d) then Some 0 else Z.succ <$> index_of c rest
  end.

Section Base64.
Context (alphabet : str).

Definition b64_char (v : Z) : byte := nth (Z.to_nat v) alphabet x00.
Definition b64_value (c : byte) : option Z := index_of c alphabet.

(** [EncodeToString] without padding. *)
Fixpoint RawEncode (s : str) : str :=
  match s with
  | a :: b :: c :: s' =>
      let n := bval a * 65536 + bval b * 256 + bval c in
      [b64_char (n / 262144); b64_char (n / 4096 mod 64); b64_char (n / 64 mod 64); b64_char (n mod 64)] ++
      RawEncode s'
  | [a; b] =>
      let n := bval a * 65536 + bval b * 256 in
      [b64_char (n / 262144); b64_char (n / 4096 mod 64); b64_char (n / 64 mod 64)]
  | [a] => let n := bval a * 65536 in [b64_char (n / 262144); b64_char (n / 4096 mod 64)]
  | [] => []
  end.

Definition bytes3 (n : Z) : str := [byte_of (n / 65536); byte_of (n / 256); byte_of n].

(** The bytes of groups of up to four characters; the unused low bits of a last group
    are not checked. *)
Fixpoint decode_groups (s : str) : option str :=
  match s with
  | [] => Some []
  | [_] => None
  | [c0; c1] =>
      v0 ← b64_value c0; v1 ← b64_value c1; Some (firstn 1 (bytes3 (v0 * 262144 + v1 * 4096)))
  | [c0; c1; c2] =>
      v0 ← b64_value c0; v1 ← b64_value c1; v2 ← b64_value c2;
      Some (firstn 2 (bytes3 (v0 * 262144 + v1 * 4096 + v2 * 64)))
  | c0 :: c1 :: c2 :: c3 :: s' =>
      v0 ← b64_value c0; v1 ← b64_value c1; v2 ← b64_value c2; v3 ← b64_value c3;
      rest ← decode_groups s';
      Some (bytes3 (v0 * 262144 + v1 * 4096 + v2 * 64 + v3) ++ rest)
  end.

(** Carriage returns and line feeds are skipped anywhere. *)
Definition skip_lines (s : str) : str :=
  List.filter (fun c => negb (bool_decide (c = x0a) || bool_decide (c = x0d))) s.

(** [RawEncoding.DecodeString]. *)
Definition RawDecode (s : str) : option str := decode_groups (skip_lines s).

(** The padded form: every group is full, the last one with one or two [=]. *)
Fixpoint decode_padded (s : str) : option str :=
  match s with
  | [] => Some []
  | c0 :: c1 :: c2 :: c3 :: s' =>
      if is_empty s' && bool_decide (c3 = "="%byte) then
        if bool_decide (c2 = "="%byte) then decode_groups [c0; c1] else decode_groups [c0; c1; c2]
      else g ← decode_groups [c0; c1; c2; c3]; rest ← decode_padded s'; Some (g ++ rest)
  | _ => None
  end.

(** [Encoding.DecodeString] with padding. *)
Definition PaddedDecode (s : str) : option str := decode_padded (skip_lines s).

(** An alphabet whose values read back and that has no line end. *)
Definition good_alphabet : bool :=
  forallb (fun v => bool_decide (b64_value (b64_char v) = Some v) &&
                    negb (bool_decide (b64_char v = x0a) || bool_decide (b64_char v = x0d)))
    (Z.of_nat <$> seq 0 64).

Context (Hgood : good_alphabet = true).

Lemma b64_char_spec v : 0 <= v < 64 ->
  b64_value (b64_char v) = Some v /\ bool_decide (b64_char v = x0a) || bool_decide (b64_char v = x0d) = false.
Proof.
  intros Hv. unfold good_alphabet in Hgood. rewrite forallb_forall in Hgood.
  specialize (Hgood v). rewrite <- list_elem_of_In in Hgood.
  assert (Hin : v ∈ Z.of_nat <$> seq 0 64).
  { apply list_elem_of_fmap. exists (Z.to_nat v). rewrite elem_of_seq. lia. }
  apply Hgood, andb_true_iff in Hin as [H1 H2]. apply bool_decide_eq_true in H1.
  apply negb_true_iff in H2. done.
Qed.

Lemma bytes3_of a b c : bytes3 (bval a * 65536 + bval b * 256 + bval c) = [a; b; c].
Proof.
  unfold bytes3. pose proof (bval_range a). pose proof (bval_range b). pose proof (bval_range c).
  assert (Hmod : forall x, byte_of x = byte_of (x mod 256)) by (intros; unfold byte_of; by rewrite Z.mod_mod).
  rewrite (Hmod (_ / 65536)), (Hmod (_ / 256)), (Hmod (_ + bval c)).
  replace ((bval a * 65536 + bval b * 256 + bval c) / 65536 mod 256) with (bval a) by lia.
  replace ((bval a * 65536 + bval b * 256 + bval c) / 256 mod 256) with (bval b) by lia.
  replace ((bval a * 65536 + bval b * 256 + bval c) mod 256) with (bval c) by lia.
  by rewrite !byte_of_bval.
Qed.

Lemma skip_lines_encode s : skip_lines (RawEncode s) = RawEncode s.
Proof.
  unfold skip_lines.
  assert (Hc : forall v, 0 <= v < 64 ->
    negb (bool_decide (b64_char v = x0a) || bool_decide (b64_char v = x0d)) = true).
  { intros v Hv. by rewrite (proj2 (b64_char_spec v Hv)). }
  remember (length s) as n eqn:Hn. revert s Hn. induction n as [n IH] using lt_wf_ind. intros s Hn.
  destruct s as [|a [|b [|c s]]]; cbn [RawEncode List.filter app]; [done| | |];
    pose proof (bval_range a); try pose proof (bval_range b); try pose proof (bval_range c);
    rewrite !Hc by lia; [done|done|].
  do 4 f_equal. simpl in Hn. apply (IH (length s)); lia.
Qed.

Lemma decode_groups_encode s : decode_groups (RawEncode s) = Some s.
Proof.
  assert (Hv : forall v, 0 <= v < 64 -> b64_value (b64_char v) = Some v).
  { intros v Hv. apply (b64_char_spec v Hv). }
  remember (length s) as n eqn:Hn. revert s Hn. induction n as [n IH] using lt_wf_ind. intros s Hn.
  destruct s as [|a [|b [|c s]]]; cbn [RawEncode app]; [done| | |];
    pose proof (bval_range a); try pose proof (bval_range b); try pose proof (bval_range c);
    cbn [decode_groups]; rewrite !Hv by lia; cbn [mbind option_bind].
  - replace (_ + _) with (bval a * 65536 + bval x00 * 256 + bval x00) by (change (bval x00) with 0; lia).
    by rewrite bytes3_of.
  - replace (_ + _ + _) with (bval a * 65536 + bval b * 256 + bval x00) by (change (bval x00) with 0; lia).
    by rewrite bytes3_of.
  - simpl in Hn. rewrite (IH (length s)) by lia. cbn [mbind option_bind].
    replace (_ + _ + _ + _) with (bval a * 65536 + bval b * 256 + bval c) by lia.
    by rewrite bytes3_of.
Qed.

Lemma RawDecode_RawEncode s : RawDecode (RawEncode s) = Some s.
Proof. unfold RawDecode. rewrite skip_lines_encode. apply decode_groups_encode. Qed.

Lemma RawEncode_nil s : RawEncode s = [] -> s = [].
Proof. by destruct s as [|a [|b [|c s]]]. Qed.

Lemma RawEncode_chars s c : c ∈ RawEncode s -> exists v, 0 <= v < 64 /\ c = b64_char v.
Proof.
  remember (length s) as n eqn:Hn. revert s Hn. induction n as [n IH] using lt_wf_ind. intros s Hn.
  destruct s as [|a [|b [|d s]]]; cbn [RawEncode app]; rewrite ?elem_of_cons, ?elem_of_nil;
    try pose proof (bval_range a); try pose proof (bval_range b); try pose proof (bval_range d).
  - done.
  - intros [->|[->|[]]]; eexists; (split; [|reflexivity]); lia.
  - intros [->|[->|[->|[]]]]; eexists; (split; [|reflexivity]); lia.
  - simpl in Hn. intros [->|[->|[->|[->|Hin]]]]; [..|by apply (IH (length s) ltac:(lia) s)];
      eexists; (split; [|reflexivity]); lia.
Qed.
End Base64.

Lemma url_alphabet_good : good_alphabet url_alphabet = true.
Proof. vm_compute. reflexivity. Qed.

Lemma std_alphabet_good : good_alphabet std_alphabet = true.
Proof. vm_compute. reflexivity. Qed.

(** No dot in base64url text. *)
Lemma url_no_dot s : "."%byte ∉ RawEncode url_alphabet s.
Proof.
  intros H. apply RawEncode_chars in H as (v & Hv & E).
  assert (Hall : forallb (fun v => negb (bool_decide (b64_char url_alphabet v = "."%byte))) (Z.of_nat <$> seq 0 64) = true)
    by (vm_compute; reflexivity).
  rewrite forallb_forall in Hall. specialize (Hall v). rewrite <- list_elem_of_In in Hall.
  rewrite E, bool_decide_eq_true_2 in Hall by done. discriminate Hall.
  apply list_elem_of_fmap. exists (Z.to_nat v). rewrite elem_of_seq. lia.
Qed.

Example base64_examples :
  RawEncode url_alphabet "hi?>" = "aGk_Pg" /\ RawDecode url_alphabet "aGk_Pg" = Some "hi?>" /\
  RawDecode url_alphabet "aGk_Ph" = Some "hi?>" /\ RawDecode url_alphabet "aGk_P" = None /\
  PaddedDecode std_alphabet "aGk/Pg==" = Some "hi?>" /\ PaddedDecode std_alphabet "aGk/Pg" = None.
Proof. vm_compute. done. Qed.
