(* ===== verification/AtomicFile.v ===== *)
(** * Replacing a file atomically (state/store.go [writeAtomic], users/users.go [Save])

    Both write the new text to a fresh temporary file, sync it, close it and rename it over
    the old one. The file system is a table of names to files; a file written but not synced
    may hold anything after a crash, and a crash may bring back any earlier version of the
    table, since the directory itself is never synced. Every system call may fail; the
    states the calls pass through are recorded, so that a crash can be put between any two. *)
From S2P Require Import Prelude GoLib GoJson Users Store Crypto.

(** ** The file system *)

Record file := mkFile { data : str; synced : bool }.

Record disk_state := mkDisk {
  files : nat -> file;                 (** by inode *)
  next_file : nat;                     (** inodes from here on are free *)
  names : gmap str nat;
  older_names : list (gmap str nat) }. (** earlier versions of the table *)

Definition with_names (t : gmap str nat) (d : disk_state) : disk_state :=
  mkDisk (files d) (next_file d) t (names d :: older_names d).
Definition with_file (i : nat) (f : file) (d : disk_state) : disk_state :=
  mkDisk (<[i := f]> (files d)) (next_file d) (names d) (older_names d).

(** What a reader finds under a name. *)
Definition content (d : disk_state) (name : str) : option str := (fun i => data (files d i)) <$> names d !! name.

(** A crash brings back one of the tables; synced files are intact. *)
Definition crash (d d' : disk_state) : Prop :=
  names d' ∈ names d :: older_names d /\
  forall i, synced (files d i) = true -> files d' i = files d i.

(** ** System calls *)

(** A computation answers and leaves the states it passed through, in order. *)
Definition sys (A : Type) : Type := disk_state -> A * list disk_state.

#[global] Instance sys_ret : MRet sys := fun A a d => (a, []).
#[global] Instance sys_bind : MBind sys := fun A B k m d =>
  let '(a, l1) := m d in
  let '(b, l2) := k a (default d (list.last l1)) in
  (b, l1 ++ l2).

(** The call changes the disk, or fails with an error and leaves it. *)
Definition sys_call (failure : option str) (f : disk_state -> disk_state) : sys (option str) := fun d =>
  match failure with
  | Some e => (Some e, [d])
  | None => (None, [f d])
  end.

(** Which calls fail, and how; a failing write leaves the first bytes. *)
Record outcomes := {
  o_random : result str str;           (** [rand.Read]: the suffix bytes *)
  o_open : option str;
  o_write : option (nat * str);
  o_sync : option str;
  o_close : option str;
  o_rename : option str;
  o_remove : option str }.

(** [os.OpenFile] with [O_CREATE|O_EXCL]: an existing name is an error. *)
Definition open_excl (failure : option str) (name : str) : sys (result str nat) := fun d =>
  match failure, names d !! name with
  | Some e, _ => (Err e, [d])
  | None, Some _ => (Err "file exists", [d])
  | None, None =>
      let i := next_file d in
      let d' := with_names (<[name := i]> (names d)) (with_file i (mkFile [] false) d) in
      (Ok i, [mkDisk (files d') (S i) (names d') (older_names d')])
  end.

Definition write (failure : option (nat * str)) (i : nat) (text : str) : sys (option str) := fun d =>
  match failure with
  | Some (n, e) => (Some e, [with_file i (mkFile (take n text) false) d])
  | None => (None, [with_file i (mkFile text false) d])
  end.

Definition sync (failure : option str) (i : nat) : sys (option str) :=
  sys_call failure (fun d => with_file i (mkFile (data (files d i)) true) d).

Definition close (failure : option str) : sys (option str) := sys_call failure (fun d => d).

Definition rename (failure : option str) (from to : str) : sys (option str) := fun d =>
  match failure, names d !! from with
  | Some e, _ => (Some e, [d])
  | None, None => (Some "no such file or directory", [d])
  | None, Some i => (None, [with_names (<[to := i]> (delete from (names d))) d])
  end.

Definition remove (failure : option str) (name : str) : sys (option str) :=
  sys_call failure (fun d => with_names (delete name (names d)) d).

(** ** The replacement *)

Definition temporary (path suffix : str) : str := path ++ "." ++ hex suffix ++ ".tmp".

(** [writeAtomic] once the text is there, and the same lines of [Save]; the answer is the error. *)
Definition replace_file (o : outcomes) (path text : str) : sys (option str) :=
  match o_random o with
  | Err e => mret (Some e)
  | Ok suffix =>
      let tmp := temporary path suffix in
      opened ← open_excl (o_open o) tmp;
      match opened with
      | Err e => mret (Some e)
      | Ok i =>
          failed ← write (o_write o) i text;
          match failed with
          | Some e => close (o_close o) ;; remove (o_remove o) tmp ;; mret (Some e)
          | None =>
              failed ← sync (o_sync o) i;
              match failed with
              | Some e => close (o_close o) ;; remove (o_remove o) tmp ;; mret (Some e)
              | None =>
                  failed ← close (o_close o);
                  match failed with
                  | Some e => remove (o_remove o) tmp ;; mret (Some e)
                  | None =>
                      failed ← rename (o_rename o) tmp path;
                      match failed with
                      | Some e => remove (o_remove o) tmp ;; mret (Some e)
                      | None => mret None
                      end
                  end
              end
          end
      end
  end.

(** [state/store.go writeAtomic]. *)
Definition writeAtomic (o : outcomes) (path : str) (es : list stateEntry) : sys (option str) :=
  replace_file o path (state_text es).

(** [users.Save]. *)
Definition save_users (o : outcomes) (path : str) (f : UsersFile) : sys (option str) :=
  match Save f with
  | Err e => mret (Some e)
  | Ok text => replace_file o path text
  end.

(** ** A logic for the states passed through *)

(** Every state passed through satisfies [I], and the answer and the last state satisfy [Q]. *)
Definition through {A} (I : disk_state -> Prop) (Q : A -> disk_state -> Prop) (m : sys A) (d : disk_state) : Prop :=
  Forall I (m d).2 /\ Q (m d).1 (default d (list.last (m d).2)).

Lemma through_ret {A} I (Q : A -> disk_state -> Prop) a d : Q a d -> through I Q (mret a) d.
Proof. intros HQ. by split. Qed.

Lemma through_bind {A B} I (R : A -> disk_state -> Prop) (Q : B -> disk_state -> Prop) (m : sys A) (k : A -> sys B) d :
  through I R m d -> (forall a d', R a d' -> through I Q (k a) d') -> through I Q (m ≫= k) d.
Proof.
  intros [Hl HR] Hk. unfold through, mbind, sys_bind. destruct (m d) as [a l1]. cbn in *.
  specialize (Hk _ _ HR). unfold through in Hk. destruct (k a _) as [b l2]. cbn in *. destruct Hk as [Hl2 HQ].
  split; [by apply Forall_app|]. rewrite last_app. destruct (list.last l2); [done|exact HQ].
Qed.

Lemma through_step {A} I (Q : A -> disk_state -> Prop) (m : sys A) d a d' :
  m d = (a, [d']) -> I d' -> Q a d' -> through I Q m d.
Proof. intros E HI HQ. unfold through. rewrite E. cbn. auto. Qed.

(** ** The invariant of the disk *)

Section Replace.
Context (P : option str -> Prop) (path text : str).

(** Every table a crash can bring back gives [path] a synced content that is fine. *)
Definition fine_table (d : disk_state) (t : gmap str nat) : Prop :=
  match t !! path with
  | Some i => synced (files d i) = true /\ (i < next_file d)%nat /\ P (Some (data (files d i)))
  | None => P None
  end.

Record fine (d : disk_state) : Prop := {
  fi_tables : Forall (fine_table d) (names d :: older_names d);
  fi_used : map_Forall (fun _ i => i < next_file d)%nat (names d) }.

Lemma fine_crash d d' : fine d -> crash d d' -> P (content d' path).
Proof.
  intros [Ht _] [Hn Hf]. rewrite list.Forall_forall in Ht. specialize (Ht _ Hn). unfold fine_table in Ht.
  unfold content. destruct (names d' !! path) as [i|]; [|done]. destruct Ht as (Hs & _ & HP). cbn. by rewrite Hf.
Qed.

Lemma fine_content d : fine d -> P (content d path).
Proof. intros Hd. apply (fine_crash d d Hd). split; [left|done]. Qed.

(** The temporary file [i], known only as [tmp]; all else is as in [d0]. *)
Record at_work (d0 d : disk_state) (tmp : str) (i : nat) : Prop := {
  aw_fine : fine d;
  aw_tmp : names d !! tmp = Some i;
  aw_private : Forall (fun t => t !! path <> Some i) (names d :: older_names d);
  aw_alone : forall name, names d !! name = Some i -> name = tmp;
  aw_others : forall name, name <> tmp -> content d name = content d0 name }.

Lemma fine_table_file d i f t : fine_table d t -> t !! path <> Some i -> fine_table (with_file i f d) t.
Proof.
  unfold fine_table. destruct (t !! path) as [j|]; [|done]. intros Hd Hne. cbn.
  rewrite fn_lookup_insert_ne by congruence. exact Hd.
Qed.

(** Changing the temporary file alone. *)
Lemma at_work_file d0 d tmp i f : at_work d0 d tmp i -> at_work d0 (with_file i f d) tmp i.
Proof.
  intros [[Ht Hu] Htmp Hp Ha Ho]. split; try done.
  - split; [|done]. cbn [names older_names with_file]. rewrite list.Forall_forall in *.
    intros t Hin. apply fine_table_file; auto.
  - intros name Hn. rewrite <- (Ho name Hn). unfold content. cbn.
    destruct (names d !! name) as [j|] eqn:E; [|done]. cbn. f_equal.
    rewrite fn_lookup_insert_ne; [done|]. intros ->. by apply Hn, Ha.
Qed.

Lemma fine_names d t : fine d -> fine_table d t -> map_Forall (fun _ i => i < next_file d)%nat t -> fine (with_names t d).
Proof. intros [Ht Hu] Hn Hb. split; [by constructor|done]. Qed.

Lemma opened_at_work d tmp : fine d -> names d !! tmp = None -> tmp <> path ->
  let d' := with_names (<[tmp := next_file d]> (names d)) (with_file (next_file d) (mkFile [] false) d) in
  at_work d (mkDisk (files d') (S (next_file d)) (names d') (older_names d')) tmp (next_file d).
Proof.
  intros [Ht Hu] Hn Hne. cbn.
  assert (Hp : Forall (fun t => t !! path <> Some (next_file d)) (names d :: older_names d)).
  { eapply list.Forall_impl; [exact Ht|]. intros t Hf E. unfold fine_table in Hf. rewrite E in Hf. lia. }
  assert (Ht' : forall t, fine_table d t ->
    fine_table (mkDisk (<[next_file d := mkFile [] false]> (files d)) (S (next_file d)) ∅ []) t).
  { unfold fine_table. cbn. intros t. destruct (t !! path); [|done]. intros (H1 & H2 & H3).
    rewrite fn_lookup_insert_ne by lia. auto with lia. }
  split; cbn.
  - split; cbn.
    + constructor; [|eapply list.Forall_impl; [exact Ht|exact Ht']].
      apply list.Forall_cons in Ht as [Ht _]. apply Ht' in Ht. unfold fine_table in *. cbn in *.
      by rewrite lookup_insert_ne.
    + apply map_Forall_insert_2; [lia|]. eapply map_Forall_impl; [exact Hu|]. cbn. lia.
  - by rewrite lookup_insert_eq.
  - constructor; [|done]. apply list.Forall_cons in Hp as [Hp _]. by rewrite lookup_insert_ne.
  - intros name. destruct (decide (name = tmp)) as [->|Hnt]; [done|]. rewrite lookup_insert_ne by done.
    intros E. specialize (Hu _ _ E). cbn in Hu. lia.
  - intros name Hnt. unfold content. cbn. rewrite lookup_insert_ne by done.
    destruct (names d !! name) as [j|] eqn:E; [|done]. cbn. specialize (Hu _ _ E). cbn in Hu.
    by rewrite fn_lookup_insert_ne by lia.
Qed.

(** The temporary file is given up. *)
Lemma at_work_removed d0 d tmp i : at_work d0 d tmp i -> names d0 !! tmp = None -> tmp <> path ->
  fine (with_names (delete tmp (names d)) d) /\
  forall name, content (with_names (delete tmp (names d)) d) name = content d0 name.
Proof.
  intros [Hf Htmp Hp Ha Ho] Hn Hne. split.
  - pose proof Hf as [Ht Hu]. apply fine_names; [done| |by apply map_Forall_delete].
    apply list.Forall_cons in Ht as [Ht _]. unfold fine_table in *. by rewrite lookup_delete_ne.
  - intros name. unfold content at 1. cbn. destruct (decide (tmp = name)) as [<-|Hnt].
    + rewrite lookup_delete_eq. unfold content. by rewrite Hn.
    + rewrite lookup_delete_ne by done. by rewrite <- Ho.
Qed.

(** The temporary file, synced, takes the place of the old one. *)
Lemma at_work_renamed d0 d tmp i : at_work d0 d tmp i -> files d i = mkFile text true -> P (Some text) ->
  names d0 !! tmp = None -> tmp <> path ->
  let d' := with_names (<[path := i]> (delete tmp (names d))) d in
  fine d' /\ content d' path = Some text /\ forall name, name <> path -> content d' name = content d0 name.
Proof.
  intros [Hf Htmp Hp Ha Ho] Hi HP Hn Hne d'. pose proof Hf as [Ht Hu]. pose proof (Hu _ _ Htmp) as Hlt.
  split; [|split].
  - apply fine_names; [done| |apply map_Forall_insert_2; [done|by apply map_Forall_delete]].
    unfold fine_table. rewrite lookup_insert_eq, Hi. by repeat split.
  - unfold content, d'. cbn. rewrite lookup_insert_eq. cbn. by rewrite Hi.
  - intros name Hnp. unfold content at 1. cbn. rewrite lookup_insert_ne by done.
    destruct (decide (tmp = name)) as [<-|Hnt].
    + rewrite lookup_delete_eq. unfold content. by rewrite Hn.
    + rewrite lookup_delete_ne by done. by rewrite <- Ho.
Qed.

(** ** The replacement *)

Lemma temporary_ne suffix : temporary path suffix <> path.
Proof.
  unfold temporary. intros E. apply (f_equal length) in E. rewrite !length_app in E. cbn in E. lia.
Qed.

(** What holds between any two system calls: the old content or the new one, the other files untouched. *)
Definition between (o : outcomes) (d0 d : disk_state) : Prop :=
  fine d /\ (content d path = content d0 path \/ content d path = Some text) /\
  forall name, name <> path -> (forall suffix, o_random o = Ok suffix -> name <> temporary path suffix) ->
    content d name = content d0 name.

(** What holds at the end. *)
Definition replaced (o : outcomes) (d0 : disk_state) (failed : option str) (d : disk_state) : Prop :=
  fine d /\
  match failed with
  | None => content d path = Some text /\ forall name, name <> path -> content d name = content d0 name
  | Some _ => content d path = content d0 path /\
              (o_remove o = None -> forall name, content d name = content d0 name)
  end.

Lemma at_work_between o d0 d suffix i : o_random o = Ok suffix ->
  at_work d0 d (temporary path suffix) i -> between o d0 d.
Proof.
  intros Ho [Hf _ _ _ Hs]. split; [done|]. split.
  - left. apply Hs. intros E. by apply (temporary_ne suffix).
  - intros name _ Hne. apply Hs. by apply Hne.
Qed.

(** Giving up: the file is closed already or not, and removed. *)
Lemma abandon o d0 d suffix i e : o_random o = Ok suffix -> names d0 !! temporary path suffix = None ->
  at_work d0 d (temporary path suffix) i ->
  through (between o d0) (replaced o d0) (remove (o_remove o) (temporary path suffix) ;; mret (Some e)) d.
Proof.
  intros Ho Hn Hw. pose proof (at_work_removed _ _ _ _ Hw Hn (temporary_ne suffix)) as [Hf Hc].
  apply (through_bind _ (fun _ d' => replaced o d0 (Some e) d')); [|by intros; apply through_ret].
  unfold remove, sys_call. destruct (o_remove o) as [er|] eqn:Er.
  - eapply through_step; [reflexivity|by eapply at_work_between|]. pose proof Hw as [Hf' _ _ _ Hs].
    split; [done|]. split; [|by rewrite Er]. apply Hs. intros E. by apply (temporary_ne suffix).
  - eapply through_step; [reflexivity| |].
    + split; [done|]. split; [left; apply Hc|auto].
    + split; [done|]. split; [apply Hc|intros _; apply Hc].
Qed.

(** A system call that changes at most the temporary file. *)
Lemma work_call {A} o d0 d suffix i (m : sys A) a f : o_random o = Ok suffix ->
  at_work d0 d (temporary path suffix) i -> m d = (a, [with_file i f d]) ->
  through (between o d0) (fun a' d' => a' = a /\ at_work d0 d' (temporary path suffix) i /\ files d' i = f) m d.
Proof.
  intros Ho Hw E. pose proof (at_work_file _ _ _ _ f Hw) as Hw'.
  eapply through_step; [exact E|by eapply at_work_between|]. split; [done|]. split; [done|]. apply fn_lookup_insert.
Qed.

(** A system call that changes nothing. *)
Lemma idle_call {A} o d0 d suffix i (m : sys A) a : o_random o = Ok suffix ->
  at_work d0 d (temporary path suffix) i -> m d = (a, [d]) ->
  through (between o d0) (fun a' d' => a' = a /\ d' = d) m d.
Proof. intros Ho Hw E. eapply through_step; [exact E|by eapply at_work_between|done]. Qed.

Lemma close_call f d : close f d = (f, [d]).
Proof. by destruct f. Qed.

Lemma close_abandon o d0 d suffix i e : o_random o = Ok suffix -> names d0 !! temporary path suffix = None ->
  at_work d0 d (temporary path suffix) i ->
  through (between o d0) (replaced o d0)
    (close (o_close o) ;; remove (o_remove o) (temporary path suffix) ;; mret (Some e)) d.
Proof.
  intros Ho Hn Hw. eapply through_bind; [eapply idle_call; [done|done|apply close_call]|].
  intros a d' [-> ->]. by eapply abandon.
Qed.

Lemma replace_through o d : fine d -> P (Some text) ->
  through (between o d) (replaced o d) (replace_file o path text) d.
Proof.
  intros Hf HP. unfold replace_file.
  assert (Hsame : forall e, replaced o d (Some e) d) by (intros e; split; auto).
  assert (Hb : between o d d) by (split; auto).
  destruct (o_random o) as [suffix|e] eqn:Ho; [|by apply through_ret].
  set (tmp := temporary path suffix).
  destruct (decide (o_open o = None /\ names d !! tmp = None)) as [[Hop Hn]|Hno].
  2: { apply (through_bind _ (fun r d' => d' = d /\ exists e, r = Err e)).
       - unfold open_excl. destruct (o_open o) as [e|]; [eapply through_step; [reflexivity|done|by eauto]|].
         destruct (names d !! tmp) as [j|] eqn:E; [|naive_solver].
         eapply through_step; [cbn; by rewrite E|done|by eauto].
       - intros r d' [-> [e ->]]. by apply through_ret. }
  pose proof (opened_at_work d tmp Hf Hn (temporary_ne suffix)) as Hw. cbn in Hw.
  apply (through_bind _ (fun r d' => r = Ok (next_file d) /\ at_work d d' tmp (next_file d))).
  { unfold open_excl. rewrite Hop. eapply through_step; [cbn; by rewrite Hn|by eapply at_work_between|done]. }
  intros r d1 [-> Hw1]. clear Hw. set (i := next_file d) in *. cbn iota beta.
  destruct (o_write o) as [[n e]|] eqn:Ewr.
  { eapply through_bind; [by eapply work_call|]. intros a d2 (-> & Hw2 & _). by eapply close_abandon. }
  eapply through_bind; [by eapply work_call|]. intros a d2 (-> & Hw2 & H2). cbn iota beta.
  destruct (o_sync o) as [e|] eqn:Esy.
  { eapply through_bind; [by eapply idle_call|]. intros a d3 [-> ->]. by eapply close_abandon. }
  eapply through_bind; [by eapply work_call|]. intros a d3 (-> & Hw3 & H3). rewrite H2 in H3. cbn iota beta.
  eapply through_bind; [eapply idle_call; [done|done|apply close_call]|]. intros a d4 [-> ->].
  destruct (o_close o) as [e|]; cbn iota beta; [by eapply abandon|].
  destruct (o_rename o) as [e|] eqn:Ere.
  { eapply through_bind; [by eapply idle_call|]. intros a d5 [-> ->]. by eapply abandon. }
  destruct (at_work_renamed _ _ _ _ Hw3 H3 HP Hn (temporary_ne suffix)) as (Hf' & Hc & Ho').
  apply (through_bind _ (fun r d' => r = None /\ replaced o d None d')).
  - pose proof (aw_tmp _ _ _ _ Hw3) as Ht. fold tmp in Ht. unfold rename.
    eapply through_step; [cbn; by rewrite Ht| |by split].
    split; [done|]. split; [by right|auto].
  - intros r d5 [-> H5]. by apply through_ret.
Qed.
End Replace.

Lemma fine_impl (P Q : option str -> Prop) path d : (forall c, P c -> Q c) -> fine P path d -> fine Q path d.
Proof.
  intros HPQ [Ht Hu]. split; [|done]. eapply list.Forall_impl; [exact Ht|]. intros t. unfold fine_table.
  destruct (t !! path); [|apply HPQ]. intros (H1 & H2 & H3). auto.
Qed.

(** ** What a restart reads *)

Definition read_file (d : disk_state) (path : str) : FileRead :=
  match content d path with Some s => Contents s | None => Absent end.

(** The file loads as one of these. *)
Definition loads_one_of {A} (load : FileRead -> result str A) (xs : list A) (c : option str) : Prop :=
  exists x, x ∈ xs /\ load (match c with Some s => Contents s | None => Absent end) = Ok x.

Lemma loads_one_of_cons {A} (load : FileRead -> result str A) x xs c :
  loads_one_of load xs c -> loads_one_of load (x :: xs) c.
Proof. intros (y & Hy & E). exists y. split; [by right|done]. Qed.

Lemma replace_loads {A} (load : FileRead -> result str A) x xs path text o d :
  fine (loads_one_of load xs) path d -> load (Contents text) = Ok x ->
  forall d1 d2, d1 ∈ d :: (replace_file o path text d).2 -> crash d1 d2 ->
  exists y, y ∈ x :: xs /\ load (read_file d2 path) = Ok y.
Proof.
  intros Hf Hx d1 d2 Hin Hc.
  assert (Hf' : fine (loads_one_of load (x :: xs)) path d) by (eapply fine_impl; [apply loads_one_of_cons|done]).
  assert (HP : loads_one_of load (x :: xs) (Some text)) by (exists x; split; [left|done]).
  destruct (replace_through _ path text o d Hf' HP) as [Hl _].
  apply (fine_crash (loads_one_of load (x :: xs)) path d1 d2); [|done].
  apply elem_of_cons in Hin as [->|Hin]; [done|]. rewrite list.Forall_forall in Hl. by apply Hl.
Qed.

(** ** Properties *)

(** C12: A file is replaced atomically, even across a crash: whatever system calls fail, between any two of them the
    file holds its old content or the whole new text, and if the machine stops there, what comes back satisfies any
    property that the earlier contents and the new text have (nothing half written ever does). At the end, without an error the file holds the new
    text and every other file is as before; after an error it holds the old content and, unless the
    removal of the temporary file failed, the disk shows exactly the files it had. *)
Theorem replace_crash_safe P path text o d : fine P path d -> P (Some text) ->
  let failed := (replace_file o path text d).1 in
  let passed := (replace_file o path text d).2 in
  let d' := default d (list.last passed) in
  (forall d1, d1 ∈ d :: passed ->
     (content d1 path = content d path \/ content d1 path = Some text) /\
     forall d2, crash d1 d2 -> P (content d2 path)) /\
  fine P path d' /\
  match failed with
  | None => content d' path = Some text /\ forall name, name <> path -> content d' name = content d name
  | Some _ => content d' path = content d path /\ (o_remove o = None -> forall name, content d' name = content d name)
  end.
Proof.
  intros Hf HP. destruct (replace_through P path text o d Hf HP) as [Hl [Hf' Hq]]. cbn. split; [|by split].
  assert (Hb : Forall (between P path text o d) (d :: (replace_file o path text d).2)).
  { constructor; [|done]. split; auto. }
  rewrite list.Forall_forall in Hb. intros d1 Hin. destruct (Hb d1 Hin) as (H1 & H2 & _). split; [done|].
  intros d2 Hc. by apply (fine_crash P path d1 d2).
Qed.

(** A disk with user ann's state file, synced, and a run whose rename fails. *)
Definition sample_path : str := "/srv/state.json".
Definition sample_disk : disk_state :=
  mkDisk (fun _ => mkFile (state_text (flush_entries {[ ("ann" : str) := 2 ]})) true) 1 {[ sample_path := 0%nat ]} [].
Definition no_failure : outcomes :=
  {| o_random := Ok "0123456789abcdef"; o_open := None; o_write := None; o_sync := None; o_close := None;
     o_rename := None; o_remove := None |}.
Definition rename_fails : outcomes :=
  {| o_random := Ok "0123456789abcdef"; o_open := None; o_write := None; o_sync := None; o_close := None;
     o_rename := Some "device busy"; o_remove := None |}.

Lemma sample_fine (P : option str -> Prop) :
  P (Some (state_text (flush_entries {[ ("ann" : str) := 2 ]}))) -> fine P sample_path sample_disk.
Proof.
  intros HP. split.
  - constructor; [|done]. unfold fine_table. cbn [names sample_disk]. rewrite lookup_singleton_eq. cbn. auto with lia.
  - apply map_Forall_singleton. cbn. lia.
Qed.

Lemma replace_crash_safe_witness :
  let run := replace_file rename_fails sample_path "new" sample_disk in
  run.1 = Some "device busy"%go /\ length run.2 = 6%nat /\
  content (default sample_disk (list.last run.2)) sample_path = content sample_disk sample_path.
Proof.
  split; [vm_compute; reflexivity|]. split; [vm_compute; reflexivity|].
  destruct (replace_crash_safe (fun _ => True) sample_path "new" rename_fails sample_disk) as (_ & _ & H);
    [by apply sample_fine|done|].
  assert (E : (replace_file rename_fails sample_path "new" sample_disk).1 = Some "device busy"%go) by (vm_compute; reflexivity).
  rewrite E in H. exact (proj1 H).
Defined.

(** The state file survives a crash: if every table a crash can bring back has the file of one of the version
    maps flushed so far, and a further map is being flushed, then whatever system calls fail and
    wherever the machine stops, the restarted server loads exactly one of those maps or the new one. *)
Theorem flush_crash_safe Unmarshal path ms m o d : StateDecoder Unmarshal -> storable64 m ->
  fine (loads_one_of (load Unmarshal path) ms) path d ->
  forall d1 d2, d1 ∈ d :: (writeAtomic o path (flush_entries m) d).2 -> crash d1 d2 ->
  exists m', m' ∈ m :: ms /\ load Unmarshal path (read_file d2 path) = Ok m'.
Proof. intros Hd Hm Hf. apply replace_loads; [done|]. by apply load_state_text. Qed.

(** The same for the users file of the administration commands. *)
Lemma save_users_crash_safe path fs f o d : storable_file f -> fine (loads_one_of Load fs) path d ->
  forall d1 d2, d1 ∈ d :: (save_users o path f d).2 -> crash d1 d2 ->
  exists f', f' ∈ f :: fs /\ Load (read_file d2 path) = Ok f'.
Proof.
  intros Hf Hd. unfold save_users. destruct (Save f) as [text|e] eqn:E.
  - apply Save_Ok in E as [_ ->]. apply replace_loads; [done|]. by apply Load_marshal.
  - intros d1 d2 ->%list_elem_of_singleton Hc.
    apply (fine_crash (loads_one_of Load (f :: fs)) path d d2); [|done].
    eapply fine_impl; [apply loads_one_of_cons|done].
Qed.

(** Version 2 is on disk, version 3 is being flushed, and the machine stops after the second call. *)
Lemma flush_crash_safe_witness :
  let m2 := {[ ("ann" : str) := 2 ]} in let m3 := {[ ("ann" : str) := 3 ]} in
  forall d1 d2, (writeAtomic no_failure sample_path (flush_entries m3) sample_disk).2 !! 1%nat = Some d1 -> crash d1 d2 ->
  exists m, m ∈ [m3; m2] /\ load strict_Unmarshal sample_path (read_file d2 sample_path) = Ok m.
Proof.
  intros m2 m3 d1 d2 Hl Hc.
  assert (Hs : forall v, 0 < v -> in_uint64 v -> storable64 {[ ("ann" : str) := v ]}).
  { intros v Hv Hr. split; [by apply map_Forall_singleton|]. intros u. unfold GetVersion.
    destruct (decide (u = "ann"%go)) as [->|]; [by rewrite lookup_singleton_eq|by rewrite lookup_singleton_ne]. }
  apply (flush_crash_safe strict_Unmarshal sample_path [m2] m3 no_failure sample_disk) with (d1 := d1).
  - exact strict_decoder.
  - apply Hs; [lia|vm_compute; split; intros; discriminate].
  - apply sample_fine. exists m2. split; [left|]. apply load_state_text; [exact strict_decoder|].
    apply Hs; [lia|vm_compute; split; intros; discriminate].
  - right. by eapply list_elem_of_lookup_2.
  - exact Hc.
Defined.
