(* ===== verification/Token.v ===== *)
(** * Session tokens (internal/auth/token.go)

    A token is the base64url of a small JSON object, a dot, and the base64url of its
    HMAC-SHA256. *)
From S2P Require Import Prelude GoLib GoTime JsonScan JsonGrammar GoJson Protocol Serialize Logic Users Crypto.

Record TokenPayload := {
  Subject : str; tok_Version : Z; IssuedAtUnix : Z; ExpiresAtUnix : Z }.

Record Token := { tok_Payload : TokenPayload; CompactToken : str }.

(** A nil secret is [None]. The service is its copy of the secret. *)
Definition NewTokenService (tokenSecret : option str) : result str str :=
  match tokenSecret with
  | None => Err "Token secret must be at least 32 bytes."
  | Some s => if len s <? 32 then Err "Token secret must be at least 32 bytes." else Ok s
  end.

(** [ttl] is a duration in nanoseconds. *)
Definition CreateTokenPayload (user : UserRecord) (now : Time) (ttl : Z) : panics TokenPayload :=
  if ttl <=? 0 then Err "timeToLive must be positive"
  else Ok {| Subject := Username user; tok_Version := TokenVersion user; IssuedAtUnix := Unix now;
             ExpiresAtUnix := Unix (Add now ttl) |}.

Definition payload_json (p : TokenPayload) : str :=
  jq "{`sub`:" ++ MarshalString (Subject p) ++ jq ",`ver`:" ++ FormatInt (tok_Version p) ++
  jq ",`iat`:" ++ FormatInt (IssuedAtUnix p) ++ jq ",`exp`:" ++ FormatInt (ExpiresAtUnix p) ++ "}".

Definition SignToken (p : TokenPayload) (secret : str) : panics str :=
  if len secret <? 32 then Err "Token secret must be at least 32 bytes."
  else Ok (RawEncode url_alphabet (payload_json p) ++ "." ++
           RawEncode url_alphabet (hmac secret (payload_json p))).

Definition Create (secret : str) (user : UserRecord) (now : Time) (ttl : Z) : panics Token :=
  let? p := CreateTokenPayload user now ttl in
  let? t := SignToken p secret in
  Ok {| tok_Payload := p; CompactToken := t |}.

Definition tryParsePositiveInteger (root : Node) (name : str) : option Z :=
  match Get root name with
  | Some (NNumber raw) => v ← ParseInt raw; if v <=? 0 then None else Some v
  | _ => None
  end.

Definition parseTokenPayload (payload : str) : option TokenPayload :=
  match Decode 2 payload with
  | Ok (NObject ms) =>
      let root := NObject ms in
      if negb (len ms =? 4) then None
      else
        match Get root "sub" with
        | Some (NString sub) =>
            if is_empty sub then None
            else
              version ← tryParsePositiveInteger root "ver";
              issuedAt ← tryParsePositiveInteger root "iat";
              expiresAt ← tryParsePositiveInteger root "exp";
              Some {| Subject := sub; tok_Version := version; IssuedAtUnix := issuedAt;
                      ExpiresAtUnix := expiresAt |}
        | _ => None
        end
  | _ => None
  end.

(** The checks on the decoded payload and the user table. *)
Definition admits (p : TokenPayload) (now : Time) (lookup : gmap str UserRecord) : bool :=
  negb ((ExpiresAtUnix p <=? IssuedAtUnix p) || (ExpiresAtUnix p <=? Unix now)) &&
  match lookup !! Subject p with
  | Some user => negb (Disabled user) && (TokenVersion user =? tok_Version p)
  | None => false
  end.

Definition tryVerifyInternal (compactToken secret : str) (now : Time) (lookup : gmap str UserRecord)
  : option TokenPayload :=
  if (len compactToken =? 0) || (8192 <? len compactToken) then None
  else
    match Split compactToken "."%byte with
    | [p0; p1] =>
        payloadBytes ← RawDecode url_alphabet p0;
        if len payloadBytes =? 0 then None
        else
          signatureBytes ← RawDecode url_alphabet p1;
          if negb (len signatureBytes =? 32) then None
          else if negb (streq signatureBytes (hmac secret payloadBytes)) then None
          else
            candidate ← parseTokenPayload payloadBytes;
            if admits candidate now lookup then Some candidate else None
    | _ => None
    end.

Definition TryVerifyToken (secret compactToken : str) (now : Time) (lookup : gmap str UserRecord)
  : option TokenPayload := tryVerifyInternal compactToken secret now lookup.

Definition VerifyToken (secret compactToken : str) (now : Time) (lookup : gmap str UserRecord) : bool :=
  match TryVerifyToken secret compactToken now lookup with Some _ => true | None => false end.

(** ** The payload reads back *)

Definition payload_members (p : TokenPayload) : list (str * Node) :=
  [("sub", NString (Subject p)); ("ver", NNumber (FormatInt (tok_Version p)));
   ("iat", NNumber (FormatInt (IssuedAtUnix p))); ("exp", NNumber (FormatInt (ExpiresAtUnix p)))].

(** A payload [Create] can issue and [parseTokenPayload] can hold. *)
Record sane_payload (p : TokenPayload) : Prop := {
  sp_name : Subject p <> [] /\ Valid (Subject p) = true;
  sp_ver : 0 < tok_Version p <= MaxInt64;
  sp_iat : 0 < IssuedAtUnix p <= MaxInt64;
  sp_exp : 0 < ExpiresAtUnix p <= MaxInt64 }.

Lemma payload_json_text p : Valid (Subject p) = true ->
  text (NObject (payload_members p)) (payload_json p).
Proof.
  intros Hv. apply MarshalString_text in Hv as Hs. unfold payload_members.
  compact [("sub"%go, MarshalString (Subject p)); ("ver"%go, FormatInt (tok_Version p));
           ("iat"%go, FormatInt (IssuedAtUnix p)); ("exp"%go, FormatInt (ExpiresAtUnix p))].
  unfold payload_json. generalize (MarshalString (Subject p)). intros. pieces.
Qed.

Lemma payload_json_Valid p : Valid (Subject p) = true -> Valid (payload_json p) = true.
Proof.
  intros Hv. unfold payload_json. valid_pieces.
Qed.

Lemma tryParse_FormatInt root name v : Get root name = Some (NNumber (FormatInt v)) ->
  0 < v <= MaxInt64 -> tryParsePositiveInteger root name = Some v.
Proof.
  intros HG Hv. unfold tryParsePositiveInteger. rewrite HG, ParseInt_FormatInt.
  - cbn [mbind option_bind]. by rewrite (proj2 (Z.leb_gt v 0)) by lia.
  - unfold in_int64, MinInt64. lia.
Qed.

Lemma parse_payload_json p : sane_payload p -> parseTokenPayload (payload_json p) = Some p.
Proof.
  intros [[Hne Hv] Hver Hiat Hexp]. unfold parseTokenPayload.
  rewrite (Decode_text0 2 (NObject (payload_members p))); auto using payload_json_text, payload_json_Valid;
    [|simpl; lia].
  change (negb (len (payload_members p) =? 4)) with false. cbv zeta iota.
  change (Get (NObject (payload_members p)) "sub") with (Some (NString (Subject p))). cbn iota.
  destruct (is_empty_spec (Subject p)) as [E|_]; [done|].
  rewrite (tryParse_FormatInt _ "ver" (tok_Version p)) by done.
  rewrite (tryParse_FormatInt _ "iat" (IssuedAtUnix p)) by done.
  rewrite (tryParse_FormatInt _ "exp" (ExpiresAtUnix p)) by done. cbn. by destruct p.
Qed.

(** ** Verification, declaratively *)

(** What the table must say for a payload to be accepted at [now]. *)
Definition current (p : TokenPayload) (now : Time) (lookup : gmap str UserRecord) : Prop :=
  IssuedAtUnix p < ExpiresAtUnix p /\ Unix now < ExpiresAtUnix p /\
  exists user, lookup !! Subject p = Some user /\ Disabled user = false /\ TokenVersion user = tok_Version p.

Lemma admits_spec p now lookup : admits p now lookup = true <-> current p now lookup.
Proof.
  unfold admits, current. rewrite andb_true_iff, negb_true_iff, orb_false_iff, !Z.leb_gt.
  destruct (lookup !! Subject p) as [user|]; [|naive_solver].
  rewrite andb_true_iff, negb_true_iff, Z.eqb_eq. naive_solver.
Qed.

(** A well-signed token: two base64url segments, the second the HMAC of the first's bytes. *)
Definition signed (secret token payload : str) : Prop :=
  exists p0 p1, token = p0 ++ "." ++ p1 /\ ("."%byte ∉ p0) /\ ("."%byte ∉ p1) /\
    RawDecode url_alphabet p0 = Some payload /\ RawDecode url_alphabet p1 = Some (hmac secret payload).

Lemma verify_spec token secret now lookup p :
  tryVerifyInternal token secret now lookup = Some p <->
  (0 < len token <= 8192 /\ exists payload, payload <> [] /\ signed secret token payload /\
   parseTokenPayload payload = Some p /\ current p now lookup).
Proof.
  unfold tryVerifyInternal. pose proof (len_nonneg token). split.
  - intros H0. destruct (_ || _) eqn:E; [done|]. bool_to_prop. split; [lia|].
    destruct (Split token "."%byte) as [|p0 [|p1 [|? ?]]] eqn:Es; try done.
    apply Split_2 in Es as (-> & Hd0 & Hd1).
    apply bind_Some in H0 as (payload & Hp & H0). destruct (Z.eqb_spec (len payload) 0) as [|Hl]; [done|].
    apply bind_Some in H0 as (sig & Hsig & H0). destruct (negb (len sig =? 32)); [done|].
    destruct (streq_spec sig (hmac secret payload)) as [->|]; [|done]. cbn [negb] in H0.
    apply bind_Some in H0 as (c & Hc & H0). destruct (admits c now lookup) eqn:Ha; [|done].
    simplify_eq. exists payload. apply admits_spec in Ha. split; [by intros ->|]. split; [|done].
    by exists p0, p1.
  - intros (Hlen & payload & Hne & (p0 & p1 & -> & Hd0 & Hd1 & Hp & Hsig) & Hparse & Hcur).
    rewrite (proj2 (Z.eqb_neq _ 0)), (proj2 (Z.ltb_ge _ _)) by lia. cbn [orb].
    rewrite (proj2 (Split_2 _ _ p0 p1)) by done. rewrite Hp. cbn [mbind option_bind].
    destruct (Z.eqb_spec (len payload) 0) as [E|_]; [by apply len_zero in E|].
    rewrite Hsig. cbn [mbind option_bind]. rewrite len_hmac, streq_refl. cbn [negb Z.eqb Pos.eqb].
    rewrite Hparse. cbn [mbind option_bind]. apply admits_spec in Hcur. by rewrite Hcur.
Qed.

Lemma payload_json_cons p : payload_json p <> [].
Proof. done. Qed.

Lemma SignToken_signed p secret t : SignToken p secret = Ok t -> signed secret t (payload_json p).
Proof.
  unfold SignToken. case_match; [done|]. unfold signed.
  generalize (payload_json p) as m. intros m.
  generalize (hmac secret m) as mac. intros mac [= <-].
  exists (RawEncode url_alphabet m), (RawEncode url_alphabet mac).
  rewrite !RawDecode_RawEncode by apply url_alphabet_good. auto using url_no_dot.
Qed.

(** The two segments of a token determine its payload bytes. *)
Lemma signed_payload secret t a b : signed secret t a -> signed secret t b -> a = b.
Proof.
  intros (p0 & p1 & -> & H0 & H1 & Hp & _) (q0 & q1 & E & Hq0 & Hq1 & Hq & _).
  pose proof (proj2 (Split_2 _ _ p0 p1) (conj eq_refl (conj H0 H1))) as Es.
  change (p0 ++ "." ++ p1) with (p0 ++ "."%byte :: p1) in E.
  rewrite E in Es. rewrite (proj2 (Split_2 _ _ q0 q1)) in Es by done. naive_solver.
Qed.

(** A token just signed: exactly its own payload, while that is current. *)
Lemma SignToken_verify p secret t now lookup q : sane_payload p -> SignToken p secret = Ok t ->
  tryVerifyInternal t secret now lookup = Some q <-> q = p /\ len t <= 8192 /\ current p now lookup.
Proof.
  intros Hp Ht. pose proof (parse_payload_json p Hp) as Hparse.
  pose proof (SignToken_signed _ _ _ Ht) as Hs. rewrite verify_spec. split.
  - intros (Hlen & payload & _ & Hs' & Hq & Hcur). rewrite (signed_payload _ _ _ _ Hs' Hs) in Hq.
    assert (q = p) as -> by congruence. split; [done|]. split; [lia|done].
  - intros (-> & Hlen & Hcur). split.
    + destruct Hs as (p0 & p1 & -> & _). rewrite !len_app in *. pose proof (len_nonneg p0).
      pose proof (len_nonneg p1). change (len ".") with 1 in *. lia.
    + exists (payload_json p). split; [apply payload_json_cons|]. done.
Qed.

(** What [Create] issues: a sane payload, signed, with the life time asked for. *)
Lemma Create_spec secret user now ttl tok :
  Valid (Username user) = true -> Username user <> [] ->
  0 < TokenVersion user <= MaxInt64 -> 0 < Unix now -> Second <= ttl -> Unix (Add now ttl) <= MaxInt64 ->
  Create secret user now ttl = Ok tok ->
  sane_payload (tok_Payload tok) /\ SignToken (tok_Payload tok) secret = Ok (CompactToken tok) /\
  tok_Payload tok = {| Subject := Username user; tok_Version := TokenVersion user; IssuedAtUnix := Unix now;
                       ExpiresAtUnix := Unix (Add now ttl) |} /\
  Unix now < Unix (Add now ttl).
Proof.
  intros Hv Hne Hver Hnow Httl Hmax H. unfold Create in H.
  apply rbind_Ok in H as (p & Hp & H). apply rbind_Ok in H as (t & Ht & [= <-]).
  unfold CreateTokenPayload in Hp. destruct (Z.leb_spec ttl 0); [done|]. simplify_eq.
  cbn [CompactToken tok_Payload].
  assert (Hlt : Unix now < Unix (Add now ttl)) by (unfold Unix, Add, Second in *; simpl in *; lia).
  split; [split; simpl; (done || lia)|done].
Qed.

Lemma issued_verify secret user now ttl tok later lookup q :
  Valid (Username user) = true -> Username user <> [] ->
  0 < TokenVersion user <= MaxInt64 -> 0 < Unix now -> Second <= ttl -> Unix (Add now ttl) <= MaxInt64 ->
  Create secret user now ttl = Ok tok ->
  TryVerifyToken secret (CompactToken tok) later lookup = Some q <->
  (q = tok_Payload tok /\ len (CompactToken tok) <= 8192 /\ Unix later < Unix (Add now ttl) /\
   exists u, lookup !! Username user = Some u /\ Disabled u = false /\ TokenVersion u = TokenVersion user).
Proof.
  intros Hv Hne Hver Hnow Httl Hmax H.
  destruct (Create_spec _ _ _ _ _ Hv Hne Hver Hnow Httl Hmax H) as (Hp & Ht & E & Hlt).
  unfold TryVerifyToken. rewrite (SignToken_verify _ _ _ _ _ _ Hp Ht). unfold current. rewrite E.
  cbn [Subject tok_Version IssuedAtUnix ExpiresAtUnix]. naive_solver.
Qed.

(** ** Properties *)

(** C13: A token is accepted only if it is authentic and current: it has two base64url segments, the
    second decodes to the HMAC-SHA256 (under the server's secret) of the bytes of the first, those bytes
    parse to the returned payload, the payload is unexpired, and the user it names is in the table,
    enabled, and still at the payload's token version. Conversely every such token of at most 8192 bytes
    is accepted. *)
Theorem token_accepted_iff secret token now lookup p :
  TryVerifyToken secret token now lookup = Some p <->
  (0 < len token <= 8192 /\ exists payload, payload <> [] /\ signed secret token payload /\
   parseTokenPayload payload = Some p /\ current p now lookup).
Proof. apply verify_spec. Qed.

(** C16: An issued token is a lease on the account: it verifies, to the payload it was issued with,
    exactly until its expiry second and as long as the table still has that user enabled with the same
    token version, so disabling the user or raising the version revokes it. It must fit the 8192-byte limit. *)
Theorem issued_token_lifetime secret user now ttl tok later lookup :
  Valid (Username user) = true -> Username user <> [] ->
  0 < TokenVersion user <= MaxInt64 -> 0 < Unix now -> Second <= ttl -> Unix (Add now ttl) <= MaxInt64 ->
  Create secret user now ttl = Ok tok ->
  TryVerifyToken secret (CompactToken tok) later lookup = Some (tok_Payload tok) <->
  (len (CompactToken tok) <= 8192 /\ Unix later < Unix (Add now ttl) /\
   exists u, lookup !! Username user = Some u /\ Disabled u = false /\ TokenVersion u = TokenVersion user).
Proof.
  intros Hv Hne Hver Hnow Httl Hmax H. rewrite (issued_verify secret user now ttl tok) by done. naive_solver.
Qed.

Definition sample_secret : str := "0123456789abcdef0123456789abcdef".
Definition sample_now : Time := utc (1760000000 * Second).

Lemma issued_token_lifetime_witness :
  exists tok, Create sample_secret sample_user sample_now (24 * Hour) = Ok tok /\
  TryVerifyToken sample_secret (CompactToken tok) (Add sample_now Hour) (BuildLookup sample_users)
  = Some (tok_Payload tok).
Proof.
  eexists. split; [reflexivity|].
  apply (issued_token_lifetime sample_secret sample_user sample_now (24 * Hour) _ (Add sample_now Hour)
           (BuildLookup sample_users));
    [reflexivity|discriminate|split; [reflexivity|discriminate]|reflexivity|discriminate|discriminate|reflexivity|].
  split; [vm_compute; discriminate|]. split; [reflexivity|]. exists sample_user. done.
Defined.
