(* ===== verification/Argon2.v ===== *)
(** * Password hashing (internal/auth/argon2.go)

    The PHC strings around Argon2id. The key derivation itself is the third-party
    [argon2.IDKey], a parameter; it may panic (no rounds, no threads). *)
From S2P Require Import Prelude GoLib JsonScan JsonGrammar Logic Users Crypto.

Record Params := { MemoryKiB : Z; Iterations : Z; Parallelism : Z }.

(** What the login endpoint asks of a hasher (the interface of the same name). *)
Class PasswordHasher := {
  Hash : str -> str -> Params -> panics str;       (** salt drawn by the hasher, password *)
  Verify : str -> str -> panics bool;
  NeedsRehash : str -> Params -> bool }.

Definition argon2KeyLen : Z := 32.
Definition argon2SaltLen : Z := 16.
Definition argon2Version : Z := 19.

Definition uint32 (v : Z) : Z := v mod 2 ^ 32.
Definition uint8 (v : Z) : Z := v mod 2 ^ 8.

(** A non-empty run of digits and what follows it. *)
Definition digits_of (s : str) : option (str * str) :=
  match span is_digit s with ([], _) => None | (d, r) => Some (d, r) end.

(** The sub-matches of [phcParamRe]; digits never match the literal after them. *)
Definition phcParamRe (s : str) : option (str * str * str) :=
  s ← strip "m=" s; '(m, s) ← digits_of s;
  s ← strip ",t=" s; '(t, s) ← digits_of s;
  s ← strip ",p=" s; '(p, s) ← digits_of s;
  if is_empty s then Some (m, t, p) else None.

(** The three numbers, when they are [int]s. *)
Definition phc_params (segment : str) : option Params :=
  '(m, t, p) ← phcParamRe segment;
  memory ← ParseInt m; timeCost ← ParseInt t; threads ← ParseInt p;
  Some {| MemoryKiB := memory; Iterations := timeCost; Parallelism := threads |}.

(** [fmt.Sscanf(s, "v=%d", &version)]: spaces may precede the number (a line feed is an
    error), a sign may, and what follows it is not looked at. *)
Fixpoint skip_spaces (fuel : nat) (s : str) : option str :=
  match fuel with
  | O => Some s
  | S f => let '(r, n) := DecodeRune s in
           if is_empty s then Some s
           else if r =? 10 then None
           else if IsSpace r then skip_spaces f (drop n s) else Some s
  end.

Definition take_sign (s : str) : str * str :=
  match s with
  | c :: s' => if bool_decide (c = "+"%byte) || bool_decide (c = "-"%byte) then ([c], s') else ([], s)
  | [] => ([], [])
  end.

Definition scan_version (s : str) : option Z :=
  s ← strip "v=" s;
  s ← skip_spaces (length s) s;
  let '(sign, s) := take_sign s in
  '(d, _) ← digits_of s;
  ParseInt (sign ++ d).

Definition decodePHCBase64 (segment : str) : option str :=
  match RawDecode std_alphabet segment with
  | Some decoded => Some decoded
  | None => PaddedDecode std_alphabet segment
  end.

Definition decodePHC (encodedHash : str) : option (str * str * Params) :=
  match Split encodedHash "$"%byte with
  | [s0; s1; s2; s3; s4; s5] =>
      if negb (is_empty s0) || negb (streq s1 "argon2id") then None
      else
        version ← scan_version s2;
        if negb (version =? argon2Version) then None
        else
          params ← phc_params s3;
          salt ← decodePHCBase64 s4;
          key ← decodePHCBase64 s5;
          Some (salt, key, params)
  | _ => None
  end.

Definition argon2_NeedsRehash (encodedHash : str) (params : Params) : bool :=
  if is_empty encodedHash || negb (HasPrefix encodedHash "$argon2id$") then true
  else
    match Split encodedHash "$"%byte with
    | _ :: _ :: _ :: s3 :: _ =>
        match phc_params s3 with
        | None => true
        | Some stored => negb ((MemoryKiB stored =? MemoryKiB params) && (Iterations stored =? Iterations params)
                               && (Parallelism stored =? Parallelism params))
        end
    | _ => true
    end.

(** The PHC text of a salt and a key. *)
Definition encodePHC (params : Params) (salt key : str) : str :=
  "$argon2id$v=" ++ FormatInt argon2Version ++ "$m=" ++ FormatInt (MemoryKiB params) ++
  ",t=" ++ FormatInt (Iterations params) ++ ",p=" ++ FormatInt (Parallelism params) ++
  "$" ++ RawEncode std_alphabet salt ++ "$" ++ RawEncode std_alphabet key.

Section Hasher.
(** [argon2.IDKey(password, salt, time, memory, threads, keyLen)]. *)
Context (IDKey : str -> str -> Z -> Z -> Z -> Z -> panics str).

Definition derive (password salt : str) (params : Params) (keyLen : Z) : panics str :=
  IDKey password salt (uint32 (Iterations params)) (uint32 (MemoryKiB params))
    (uint8 (Parallelism params)) keyLen.

Definition argon2_Hash (salt password : str) (params : Params) : panics str :=
  let? key := derive password salt params argon2KeyLen in
  Ok (encodePHC params salt key).

Definition argon2_Verify (password encodedHash : str) : panics bool :=
  match decodePHC encodedHash with
  | None => Ok false
  | Some (salt, key, params) =>
      let? computed := derive password salt params (uint32 (len key)) in
      Ok (streq computed key)
  end.

Definition Argon2Hasher : PasswordHasher := {|
  Hash := argon2_Hash; Verify := argon2_Verify; NeedsRehash := argon2_NeedsRehash |}.
End Hasher.

(** ** Lemmas: the PHC text is read back *)

Definition int_params (p : Params) : Prop :=
  0 <= MemoryKiB p <= MaxInt64 /\ 0 <= Iterations p <= MaxInt64 /\ 0 <= Parallelism p <= MaxInt64.

Lemma span_app (p : byte -> bool) s c t : forallb p s = true -> p c = false ->
  span p (s ++ c :: t) = (s, c :: t).
Proof.
  induction s as [|d s IH]; cbn [span app forallb]; intros Hs Hc; [by rewrite Hc|].
  apply andb_true_iff in Hs as [Hd Hs]. by rewrite Hd, IH.
Qed.

Lemma span_end (p : byte -> bool) s : forallb p s = true -> span p s = (s, []).
Proof.
  induction s as [|d s IH]; cbn [span forallb]; intros Hs; [done|].
  apply andb_true_iff in Hs as [Hd Hs]. by rewrite Hd, IH.
Qed.

Lemma FormatInt_digits n : 0 <= n -> forallb is_digit (FormatInt n) = true /\ FormatInt n <> [].
Proof.
  intros Hn. unfold FormatInt. rewrite (proj2 (Z.ltb_ge n 0)) by lia.
  split; [by apply canonical_nat_digits, FormatUint_canonical|].
  destruct (FormatUint_cons n Hn) as (c & s & -> & _). done.
Qed.

Lemma digits_of_app n c t : 0 <= n -> is_digit c = false ->
  digits_of (FormatInt n ++ c :: t) = Some (FormatInt n, c :: t).
Proof.
  intros Hn Hc. destruct (FormatInt_digits n Hn) as [Hd Hne]. unfold digits_of.
  rewrite span_app by done. by destruct (FormatInt n).
Qed.

Lemma digits_of_end n : 0 <= n -> digits_of (FormatInt n) = Some (FormatInt n, []).
Proof.
  intros Hn. destruct (FormatInt_digits n Hn) as [Hd Hne]. unfold digits_of.
  rewrite span_end by done. by destruct (FormatInt n).
Qed.

Lemma strip_app k s : strip k (k ++ s) = Some s.
Proof. unfold strip. by rewrite HasPrefix_app, drop_app_length. Qed.

Definition param_segment (p : Params) : str :=
  "m=" ++ FormatInt (MemoryKiB p) ++ ",t=" ++ FormatInt (Iterations p) ++ ",p=" ++ FormatInt (Parallelism p).

Lemma phc_params_segment p : int_params p -> phc_params (param_segment p) = Some p.
Proof.
  intros (Hm & Ht & Hp). unfold phc_params, phcParamRe, param_segment.
  assert (Hint : forall n, 0 <= n <= MaxInt64 -> ParseInt (FormatInt n) = Some n).
  { intros n Hn. apply ParseInt_FormatInt. unfold in_int64, MinInt64. lia. }
  rewrite strip_app. cbn [mbind option_bind].
  change (",t=" ++ ?x) with (","%byte :: "t=" ++ x). rewrite digits_of_app by (done || lia).
  cbn [mbind option_bind]. change (","%byte :: "t=" ++ ?x) with (",t=" ++ x). rewrite strip_app.
  cbn [mbind option_bind]. change (",p=" ++ ?x) with (","%byte :: "p=" ++ x). rewrite digits_of_app by (done || lia).
  cbn [mbind option_bind]. change (","%byte :: "p=" ++ ?x) with (",p=" ++ x). rewrite strip_app.
  cbn [mbind option_bind]. rewrite digits_of_end by lia. cbn [mbind option_bind is_empty].
  rewrite !Hint by done. cbn [mbind option_bind]. by destruct p.
Qed.

Lemma std_no_dollar s : "$"%byte ∉ RawEncode std_alphabet s.
Proof.
  intros H. apply RawEncode_chars in H as (v & Hv & E).
  assert (Hall : forallb (fun v => negb (bool_decide (b64_char std_alphabet v = "$"%byte))) (Z.of_nat <$> seq 0 64) = true)
    by (vm_compute; reflexivity).
  rewrite forallb_forall in Hall. specialize (Hall v). rewrite <- list_elem_of_In in Hall.
  rewrite E, bool_decide_eq_true_2 in Hall by done. discriminate Hall.
  apply list_elem_of_fmap. exists (Z.to_nat v). rewrite elem_of_seq. lia.
Qed.

Lemma not_in_number c n : 0 <= n -> is_digit c = false -> c ∉ FormatInt n.
Proof.
  intros Hn Hc Hin. destruct (FormatInt_digits n Hn) as [Hd _]. rewrite forallb_forall in Hd.
  apply list_elem_of_In, Hd in Hin. congruence.
Qed.

Lemma param_no_dollar p : int_params p -> "$"%byte ∉ param_segment p.
Proof.
  intros (Hm & Ht & Hp). unfold param_segment. rewrite !elem_of_app.
  assert (Hn : forall n, 0 <= n -> "$"%byte ∉ FormatInt n) by (intros; by apply not_in_number).
  intros [H|[H|[H|[H|[H|H]]]]]; try (by apply Hn in H; [|lia]); by vm_compute in H; set_solver.
Qed.

Lemma encodePHC_segments p salt key : int_params p ->
  Split (encodePHC p salt key) "$"%byte =
  [[]; "argon2id"; "v=19"; param_segment p; RawEncode std_alphabet salt; RawEncode std_alphabet key].
Proof.
  intros Hp.
  assert (E : encodePHC p salt key = [] ++ "$"%byte :: "argon2id" ++ "$"%byte :: "v=19" ++ "$"%byte ::
    param_segment p ++ "$"%byte :: RawEncode std_alphabet salt ++ "$"%byte :: RawEncode std_alphabet key).
  { unfold encodePHC, param_segment. rewrite <- !app_assoc. reflexivity. }
  rewrite E. rewrite !Split_cons_word, Split_word by
    (apply std_no_dollar || by apply param_no_dollar || (vm_compute; set_solver)).
  done.
Qed.

Lemma decodePHC_encodePHC p salt key : int_params p ->
  decodePHC (encodePHC p salt key) = Some (salt, key, p).
Proof.
  intros Hp. unfold decodePHC. rewrite encodePHC_segments by done.
  change (negb (is_empty []) || _) with false. change (scan_version "v=19") with (Some 19).
  cbn [mbind option_bind]. change (negb (19 =? argon2Version)) with false. cbn iota.
  rewrite phc_params_segment by done. cbn [mbind option_bind]. unfold decodePHCBase64.
  rewrite !RawDecode_RawEncode by apply std_alphabet_good. done.
Qed.

Lemma NeedsRehash_encodePHC p q salt key : int_params p ->
  argon2_NeedsRehash (encodePHC p salt key) q =
  negb ((MemoryKiB p =? MemoryKiB q) && (Iterations p =? Iterations q) && (Parallelism p =? Parallelism q)).
Proof.
  intros Hp. unfold argon2_NeedsRehash.
  assert (E : is_empty (encodePHC p salt key) || negb (HasPrefix (encodePHC p salt key) "$argon2id$") = false).
  { reflexivity. }
  rewrite E, encodePHC_segments by done. cbn iota. by rewrite phc_params_segment.
Qed.

(** ** A produced hash passes the check of the user file *)

Lemma some_of_app (p : byte -> bool) s c t : forallb p s = true -> s <> [] -> p c = false ->
  some_of p (s ++ c :: t) = Some (c :: t).
Proof. intros Hs Hne Hc. unfold some_of. rewrite span_app by done. by destruct s. Qed.

Lemma some_of_end (p : byte -> bool) s : forallb p s = true -> s <> [] -> some_of p s = Some [].
Proof. intros Hs Hne. unfold some_of. rewrite span_end by done. by destruct s. Qed.

Lemma std_is_b64 s : forallb is_b64 (RawEncode std_alphabet s) = true.
Proof.
  apply forallb_forall. intros c Hc. apply list_elem_of_In, RawEncode_chars in Hc as (v & Hv & ->).
  assert (Hall : forallb (fun v => is_b64 (b64_char std_alphabet v)) (Z.of_nat <$> seq 0 64) = true)
    by (vm_compute; reflexivity).
  rewrite forallb_forall in Hall. apply Hall, list_elem_of_In, list_elem_of_fmap.
  exists (Z.to_nat v). rewrite elem_of_seq. lia.
Qed.

Lemma RawEncode_not_nil s : s <> [] -> RawEncode std_alphabet s <> [].
Proof. intros Hs H. by apply Hs, (RawEncode_nil std_alphabet). Qed.

Lemma encodePHC_valid p salt key : int_params p -> salt <> [] -> key <> [] ->
  argon2HashRe (encodePHC p salt key) = true.
Proof.
  intros (Hm & Ht & Hp) Hsalt Hkey. unfold argon2HashRe, encodePHC.
  assert (Hd : forall n c t, 0 <= n -> is_digit c = false ->
    some_of is_digit (FormatInt n ++ c :: t) = Some (c :: t)).
  { intros n c t Hn Hc. destruct (FormatInt_digits n Hn). by apply some_of_app. }
  rewrite strip_app. cbn [mbind option_bind].
  repeat (lazymatch goal with
    | |- context [some_of is_digit (FormatInt ?n ++ lit (?c :: ?k) ++ ?t)] =>
        change (lit (c :: k) ++ t) with (c :: k ++ t); rewrite (Hd n c) by (done || lia);
        change (c :: k ++ t) with (lit (c :: k) ++ t); cbn [mbind option_bind]; rewrite strip_app;
        cbn [mbind option_bind]
    end).
  change ("$" ++ ?x) with ("$"%byte :: x).
  rewrite some_of_app by auto using std_is_b64, RawEncode_not_nil.
  cbn [mbind option_bind]. change ("$"%byte :: ?x) with ("$" ++ x). rewrite strip_app. cbn [mbind option_bind].
  by rewrite some_of_end by auto using std_is_b64, RawEncode_not_nil.
Qed.

(** ** Properties *)

(** C28: A hash made by the server is read back as what was hashed: it verifies its own password, another
    password verifies exactly when Argon2 derives the same key from it, it asks for a rehash exactly when
    the configured parameters differ from those it was made with, and the user file accepts it. What is
    assumed of the key derivation is the length of its result. *)
Theorem argon2_hash_checks IDKey salt password params h :
  (forall pw s t m p k, IDKey pw s t m p argon2KeyLen = Ok k -> len k = argon2KeyLen) ->
  int_params params -> salt <> [] -> argon2_Hash IDKey salt password params = Ok h ->
  argon2_Verify IDKey password h = Ok true /\
  (forall other, argon2_Verify IDKey other h = Ok true <->
     derive IDKey other salt params argon2KeyLen = derive IDKey password salt params argon2KeyLen) /\
  (forall q, argon2_NeedsRehash h q = false <-> q = params) /\
  argon2HashRe h = true.
Proof.
  intros key_length Hp Hsalt H. unfold argon2_Hash in H. apply rbind_Ok in H as (key & Hk & [= <-]).
  assert (Hlen : len key = argon2KeyLen) by (by eapply key_length).
  assert (Hiff : forall other, argon2_Verify IDKey other (encodePHC params salt key) = Ok true <->
    derive IDKey other salt params argon2KeyLen = derive IDKey password salt params argon2KeyLen).
  { intros other. unfold argon2_Verify. rewrite decodePHC_encodePHC by done. rewrite Hlen, Hk.
    change (uint32 argon2KeyLen) with argon2KeyLen.
    destruct (derive IDKey other salt params argon2KeyLen) as [k|e]; cbn [rbind]; [|split; discriminate].
    destruct (streq_spec k key); split; intros; congruence. }
  split; [by apply Hiff|]. split; [done|]. split.
  - intros q. rewrite NeedsRehash_encodePHC by done. rewrite negb_false_iff, !andb_true_iff, !Z.eqb_eq.
    destruct params, q; simpl. naive_solver.
  - apply encodePHC_valid; [done|done|]. intros ->. discriminate.
Qed.

(** A stand-in derivation for concrete runs: HMAC of the password under the salt. *)
Definition sample_IDKey (password salt : str) (t m p n : Z) : panics str :=
  if (t <? 1) || (p <? 1) then Err "argon2: number of rounds too small"
  else Ok (take (Z.to_nat n) (hmac salt password ++ replicate (Z.to_nat n) x00)).
Definition sample_params : Params := {| MemoryKiB := 19456; Iterations := 2; Parallelism := 1 |}.
Definition sample_salt : str := "0123456789abcdef".

Lemma sample_IDKey_length pw s t m p n k : 0 <= n -> sample_IDKey pw s t m p n = Ok k -> len k = n.
Proof.
  intros Hn. unfold sample_IDKey. destruct (_ || _); [done|]. generalize (hmac s pw). intros x [= <-].
  unfold len. rewrite length_take, length_app, length_replicate. lia.
Qed.

Definition sample_hash : str := default [] (match argon2_Hash sample_IDKey sample_salt "pw" sample_params with
  | Ok h => Some h | Err _ => None end).

Lemma argon2_hash_checks_witness :
  argon2_Verify sample_IDKey "pw" sample_hash = Ok true /\
  (forall other, argon2_Verify sample_IDKey other sample_hash = Ok true <->
     derive sample_IDKey other sample_salt sample_params argon2KeyLen =
     derive sample_IDKey "pw" sample_salt sample_params argon2KeyLen) /\
  (forall q, argon2_NeedsRehash sample_hash q = false <-> q = sample_params) /\
  argon2HashRe sample_hash = true.
Proof.
  apply (argon2_hash_checks sample_IDKey sample_salt "pw" sample_params sample_hash).
  - intros pw s t m p k. by apply sample_IDKey_length.
  - repeat split; vm_compute; discriminate.
  - discriminate.
  - vm_compute. reflexivity.
Defined.

(** A stored hash the check of the user file admits but that makes the derivation panic: the
    parallelism is cut to eight bits. *)
Example parallelism_wraps :
  argon2HashRe "$argon2id$v=19$m=8,t=1,p=256$AAAA$AAAA" = true /\
  argon2_Verify sample_IDKey "pw" "$argon2id$v=19$m=8,t=1,p=256$AAAA$AAAA"
  = Err "argon2: number of rounds too small".
Proof. vm_compute. done. Qed.
