(* ===== verification/Login.v ===== *)
(** * The login endpoint (internal/auth/login.go)

    The handler over what it reads of the request and its collaborators: the limiter is
    threaded, the hasher is the interface of [Argon2], the clock and the user table are
    arguments. What it has the hasher check and what it logs is a list of effects, in order: an
    unknown user must cost a check too. *)
From S2P Require Import Prelude GoLib GoPath GoTime JsonScan JsonGrammar Config Protocol Serialize Logic Limiter GoJson Users.
From S2P Require Import Models World Crypto Token Argon2.

Definition maxLoginBodyBytes : Z := 16384.

(** What the handler sees of the HTTP request; [None] is a body whose read failed. *)
Record Request := { RemoteAddr : str; ContentLength : Z; Body : option str }.
Record Response := { status : Z; resp_body : str }.

Record loginRequest := { login_Username : str; login_Password : str }.

(** ** Standard-library helpers *)

Definition contains (c : byte) (s : str) : bool := match IndexByte s c with Some _ => true | None => false end.

(** [net.SplitHostPort]: the host, [None] on an error. *)
Definition SplitHost (hostport : str) : option str :=
  match LastIndexByte hostport ":"%byte with
  | None => None
  | Some i =>
      match hostport with
      | c :: rest =>
          if bool_decide (c = "["%byte) then
            match IndexByte hostport "]"%byte with
            | None => None
            | Some stop =>
                if negb (S stop =? i)%nat then None
                else if contains "["%byte rest || contains "]"%byte (drop (S stop) hostport) then None
                else Some (take (stop - 1) rest)
            end
          else
            let host := take i hostport in
            if contains ":"%byte host || contains "["%byte hostport || contains "]"%byte hostport then None
            else Some host
      | [] => None
      end
  end.

Definition remoteIP (r : Request) : str :=
  match SplitHost (RemoteAddr r) with Some host => host | None => "unknown" end.

(** [%q] of a text of printable ASCII without quote or backslash, as every text here is. *)
Definition quote_ascii (s : str) : str := quoted s.

Definition writeError (code : Z) (name message : str) : Response :=
  {| status := code;
     resp_body := jq "{`error`:" ++ quote_ascii name ++ jq ",`message`:" ++ quote_ascii message ++ "}" |}.

(** ** The request *)

Fixpoint login_fields (seen : list str) (ms : list (str * Node)) : bool :=
  match ms with
  | [] => len seen =? 2
  | (k, _) :: ms' =>
      if negb (streq k "username") && negb (streq k "password") then false
      else if bool_decide (k ∈ seen) then false
      else login_fields (k :: seen) ms'
  end.

Definition hasExactlyLoginFields (root : Node) : bool := login_fields [] (Members root).

Definition too_large : str := "Request body too large.".

Definition parseLoginRequest (r : Request) : result str loginRequest :=
  if maxLoginBodyBytes <? ContentLength r then Err too_large
  else
    match Body r with
    | None => Err too_large
    | Some raw =>
        if maxLoginBodyBytes <? len raw then Err too_large
        else
          match Decode 3 raw with
          | Err _ => Err "Invalid JSON."
          | Ok root =>
              if negb (IsObject root) || negb (hasExactlyLoginFields root) then Err "Invalid JSON."
              else
                match Get root "username", Get root "password" with
                | Some (NString u), Some (NString p) =>
                    if is_empty u || is_empty p then Err "Missing username or password."
                    else Ok {| login_Username := u; login_Password := p |}
                | _, _ => Err "Missing username or password."
                end
          end
    end.

(** ** The handler *)

(** [time.Duration(cfg.Auth.TokenTtlDays)*24*time.Hour], in 64-bit arithmetic. *)
Definition login_ttl (c : RuntimeConfig) : Z := wrap64 (wrap64 (TokenTtlDays (Auth c) * 24) * Hour).

Definition login_event (username ip : str) (outcome : list (str * LogValue)) : LogEntry :=
  SecurityEvent "login" ([("username", LStr username); ("ip", LStr ip)] ++ outcome).

Definition rehash_warning (username : str) : LogEntry :=
  LogWarn ("Argon2 password hash needs rehash for user " ++ username ++ "; users.json was not rewritten.").

Definition bad_credentials : Response := writeError 401 "invalid_credentials" "Invalid username or password.".
Definition rate_limited : Response := writeError 429 "rate_limited" "Too many login attempts.".

(** What a login does besides answering: a call of the hasher's [Verify], a record of the log. *)
Inductive LoginEffect := Checked (password hash : str) | Logged (e : LogEntry).

Section Login.
Context `{PasswordHasher}.
Context (cfg : RuntimeConfig) (params : Params) (DummyHash : str).

(** A login that passed every check. *)
Definition grant (user : UserRecord) (now : Time) (needsRehash : bool) : panics Response :=
  match NewTokenService (TokenSecret cfg) with
  | Err message => Ok (writeError 500 "invalid_request" message)
  | Ok secret =>
      let? token := Create secret user now (login_ttl cfg) in
      Ok {| status := 200;
            resp_body := MarshalLoginResponse (CompactToken token) (ExpiresAtUnix (tok_Payload token)) cfg
                           needsRehash |}
  end.

Definition HandleLogin (r : Request) (now : Time) (lookup : gmap str UserRecord) (l : Limiter)
  : panics Response * Limiter * list LoginEffect :=
  let ip := remoteIP r in
  match parseLoginRequest r with
  | Err message => (Ok (writeError 400 "invalid_request" message), l, [])
  | Ok request =>
      let username := login_Username request in
      let '(admitted, l1) := TryConsumeLoginLimit l ip username now cfg in
      if negb admitted then
        (Ok rate_limited, l1,
         [Logged (login_event username ip [("success", LBool false); ("reason", LStr "rate_limited")])])
      else
        let passwordHash := match lookup !! username with Some user => PasswordHash user | None => DummyHash end in
        let checked := Checked (login_Password request) passwordHash in
        match Verify (login_Password request) passwordHash with
        | Err e => (Err e, l1, [checked])
        | Ok passwordOK =>
            let reject :=
              (Ok bad_credentials, l1,
               [checked; Logged (login_event username ip [("success", LBool false); ("reason", LStr "invalid_credentials")])]) in
            match lookup !! username with
            | None => reject
            | Some user =>
                if negb passwordOK || Disabled user then reject
                else
                  let needsRehash := NeedsRehash (PasswordHash user) params in
                  (grant user now needsRehash, ResetUserWindow l1 username,
                   [checked; Logged (login_event username ip [("success", LBool true)])] ++
                   (if needsRehash then [Logged (rehash_warning (Username user))] else []))
            end
        end
  end.
End Login.

Example remote_examples :
  SplitHost "10.0.0.1:443" = Some "10.0.0.1" /\ SplitHost "[::1]:443" = Some "::1" /\
  SplitHost "::1:443" = None /\ SplitHost "host" = None /\ SplitHost "[::1]" = None.
Proof. vm_compute. done. Qed.

(** ** The request, declaratively *)

(** The two shapes of a login object. *)
Definition login_object (u p : str) : list (list (str * Node)) :=
  [[("username", NString u); ("password", NString p)]; [("password", NString p); ("username", NString u)]].

Lemma login_fields_two ms : login_fields [] ms = true <->
  exists a b, ms = [("username", a); ("password", b)] \/ ms = [("password", b); ("username", a)].
Proof.
  assert (Hkey : forall k, (negb (streq k "username") && negb (streq k "password") = false) <->
                           (k = "username" \/ k = "password")).
  { intros k. destruct (streq_spec k "username"), (streq_spec k "password"); naive_solver. }
  split; [|intros (a & b & [-> | ->]); reflexivity].
  destruct ms as [|[k1 v1] [|[k2 v2] ms]]; cbn [login_fields]; intros H.
  - discriminate.
  - repeat case_match; discriminate.
  - destruct (_ && _) eqn:E1; [done|]. apply Hkey in E1. case_bool_decide as D1; [done|].
    destruct (negb (streq k2 "username") && _) eqn:E2; [done|]. apply Hkey in E2.
    case_bool_decide as D2; [done|]. assert (Hne : k2 <> k1) by set_solver.
    destruct ms as [|[k3 v3] ms]; cbn [login_fields] in H.
    + destruct E1 as [-> | ->], E2 as [-> | ->]; try done; eauto.
    + destruct (negb (streq k3 "username") && _) eqn:E3; [done|]. apply Hkey in E3.
      case_bool_decide as D3; [done|]. exfalso. apply D3. set_solver.
Qed.

Lemma login_object_get a b ms : ms = [("username", a); ("password", b)] \/ ms = [("password", b); ("username", a)] ->
  Get (NObject ms) "username" = Some a /\ Get (NObject ms) "password" = Some b.
Proof. by intros [-> | ->]. Qed.

Lemma parse_spec r req : parseLoginRequest r = Ok req <->
  (ContentLength r <= maxLoginBodyBytes /\
   exists raw ms, Body r = Some raw /\ len raw <= maxLoginBodyBytes /\ Decode 3 raw = Ok (NObject ms) /\
     ms ∈ login_object (login_Username req) (login_Password req) /\
     login_Username req <> [] /\ login_Password req <> []).
Proof.
  unfold parseLoginRequest, login_object. split.
  - intros H. destruct (Z.ltb_spec maxLoginBodyBytes (ContentLength r)); [done|]. split; [lia|].
    destruct (Body r) as [raw|]; [|done].
    destruct (Z.ltb_spec maxLoginBodyBytes (len raw)); [done|].
    destruct (Decode 3 raw) as [root|] eqn:Ed; [|done].
    destruct (_ || _) eqn:E; [done|]. apply orb_false_iff in E as [Eo Ef].
    destruct root; try discriminate.
    apply negb_false_iff, login_fields_two in Ef as (a & b & Hms).
    eexists raw, _. split; [done|]. split; [lia|]. split; [done|]. cbn [Members] in Hms.
    pose proof (login_object_get a b _ Hms) as [Eu Ep]. rewrite Eu, Ep in H.
    destruct a as [| |u| | |]; try done; destruct b as [| |p| | |]; try done.
    destruct (is_empty_spec u), (is_empty_spec p); cbn [orb] in H; simplify_eq/=.
    split; [|done]. destruct Hms as [-> | ->]; set_solver.
  - intros (Hc & raw & ms & -> & Hl & Hd & Hms & Hu & Hp). rewrite !(proj2 (Z.ltb_ge _ _)) by done.
    rewrite Hd. destruct req as [u p]; simpl in *.
    assert (Hms' : ms = [("username", NString u); ("password", NString p)] \/
                   ms = [("password", NString p); ("username", NString u)]) by set_solver.
    unfold hasExactlyLoginFields. cbn [Members IsObject negb orb].
    rewrite (proj2 (login_fields_two ms)) by eauto. cbn [negb].
    destruct (login_object_get _ _ _ Hms') as [Eu Ep]. cbn [Get] in Eu, Ep. rewrite Eu, Ep. by destruct u, p.
Qed.

(** ** The token life time *)

(** The configured days are exact up to the range of a duration, 106751 days. *)
Lemma login_ttl_exact c : 0 < TokenTtlDays (Auth c) <= 106751 ->
  login_ttl c = TokenTtlDays (Auth c) * 24 * Hour /\ Second <= login_ttl c.
Proof.
  intros H. unfold login_ttl, Hour, Minute, Second. rewrite (wrap64_id (_ * 24)), wrap64_id; [lia|..];
    unfold in_int64, MinInt64, MaxInt64; lia.
Qed.

(** Beyond it the product wraps to a negative duration. *)
Example login_ttl_wraps : wrap64 (wrap64 (106752 * 24) * Hour) < 0.
Proof. vm_compute. done. Qed.

(** ** The handler, branch by branch *)

Section Outcomes.
Context `{PasswordHasher}.
Context (cfg : RuntimeConfig) (params : Params) (dummy : str).

(** The hash the password is checked against: a stand-in for an unknown name. *)
Definition checked_hash (lookup : gmap str UserRecord) (name : str) : str :=
  match lookup !! name with Some user => PasswordHash user | None => dummy end.

(** The account may log in with the password. *)
Definition entitled (req : loginRequest) (lookup : gmap str UserRecord) (user : UserRecord) : Prop :=
  lookup !! login_Username req = Some user /\ Disabled user = false /\
  Verify (login_Password req) (PasswordHash user) = Ok true.

(** The check every admitted attempt makes, and the record of a refusal. *)
Definition check_of (req : loginRequest) (lookup : gmap str UserRecord) : LoginEffect :=
  Checked (login_Password req) (checked_hash lookup (login_Username req)).
Definition refusal (req : loginRequest) (r : Request) : LoginEffect :=
  Logged (login_event (login_Username req) (remoteIP r)
    [("success"%go, LBool false); ("reason"%go, LStr "invalid_credentials")]).

Lemma HandleLogin_granted r now lookup l req user l1 :
  parseLoginRequest r = Ok req ->
  TryConsumeLoginLimit l (remoteIP r) (login_Username req) now cfg = (true, l1) ->
  entitled req lookup user ->
  let needsRehash := NeedsRehash (PasswordHash user) params in
  HandleLogin cfg params dummy r now lookup l =
  (grant cfg user now needsRehash, ResetUserWindow l1 (login_Username req),
   [check_of req lookup; Logged (login_event (login_Username req) (remoteIP r) [("success"%go, LBool true)])] ++
   (if needsRehash then [Logged (rehash_warning (Username user))] else [])).
Proof.
  intros Hp Hl (Hu & Hd & Hv). cbv zeta. unfold HandleLogin, check_of, checked_hash. rewrite Hp, Hl. cbn [negb].
  by rewrite Hu, Hv, Hd.
Qed.

Lemma HandleLogin_rejected r now lookup l req l1 ok :
  parseLoginRequest r = Ok req ->
  TryConsumeLoginLimit l (remoteIP r) (login_Username req) now cfg = (true, l1) ->
  Verify (login_Password req) (checked_hash lookup (login_Username req)) = Ok ok ->
  ~ (exists user, entitled req lookup user) ->
  HandleLogin cfg params dummy r now lookup l = (Ok bad_credentials, l1, [check_of req lookup; refusal req r]).
Proof.
  intros Hp Hl Hv Hno. unfold HandleLogin, check_of. rewrite Hp, Hl. cbn [negb].
  unfold checked_hash in *. destruct (lookup !! login_Username req) as [user|] eqn:Hu; rewrite Hv; [|done].
  destruct (negb ok || Disabled user) eqn:E; [done|]. apply orb_false_iff in E as [E1 E2].
  apply negb_false_iff in E1 as ->. exfalso. apply Hno. by exists user.
Qed.

Lemma HandleLogin_failed r now lookup l req l1 e :
  parseLoginRequest r = Ok req ->
  TryConsumeLoginLimit l (remoteIP r) (login_Username req) now cfg = (true, l1) ->
  Verify (login_Password req) (checked_hash lookup (login_Username req)) = Err e ->
  HandleLogin cfg params dummy r now lookup l = (Err e, l1, [check_of req lookup]).
Proof.
  intros Hp Hl Hv. unfold HandleLogin, check_of. rewrite Hp, Hl. cbn [negb]. unfold checked_hash in *. by rewrite Hv.
Qed.

(** The account of the request, if it may log in. *)
Lemma entitled_or_not req lookup ok :
  Verify (login_Password req) (checked_hash lookup (login_Username req)) = Ok ok ->
  (exists user, entitled req lookup user) \/ ~ (exists user, entitled req lookup user).
Proof.
  unfold checked_hash, entitled. destruct (lookup !! login_Username req) as [user|].
  2:{ intros _. right. by intros (u & [=] & _). }
  intros Hv. destruct ok; [destruct (Disabled user) eqn:Ed|].
  - right. intros (u & [= <-] & Hd & _). congruence.
  - left. by exists user.
  - right. intros (u & [= <-] & _ & Hv'). congruence.
Qed.

(** With a life time in range the token is made: 200, or 500 without a usable secret. *)
Lemma grant_answers user now b : 0 < TokenTtlDays (Auth cfg) <= 106751 ->
  exists resp, grant cfg user now b = Ok resp /\
    status resp = match TokenSecret cfg with Some s => if len s <? 32 then 500 else 200 | None => 500 end.
Proof.
  intros Ht. destruct (login_ttl_exact cfg Ht) as [_ Hs]. unfold grant, NewTokenService.
  destruct (TokenSecret cfg) as [s|]; [|by eexists]. destruct (len s <? 32) eqn:E; [by eexists|].
  unfold Create, CreateTokenPayload. rewrite (proj2 (Z.leb_gt _ _)) by (unfold Second in Hs; lia). cbn [rbind].
  unfold SignToken. rewrite E. cbn [rbind]. by eexists.
Qed.

(** Status 200 comes only from [grant]. *)
Lemma HandleLogin_200 r now lookup l resp l' logs :
  HandleLogin cfg params dummy r now lookup l = (Ok resp, l', logs) -> status resp = 200 ->
  exists req user l1,
    parseLoginRequest r = Ok req /\
    TryConsumeLoginLimit l (remoteIP r) (login_Username req) now cfg = (true, l1) /\
    entitled req lookup user /\ l' = ResetUserWindow l1 (login_Username req) /\
    grant cfg user now (NeedsRehash (PasswordHash user) params) = Ok resp.
Proof.
  unfold HandleLogin. destruct (parseLoginRequest r) as [req|m]; [|by intros [= <- <- <-]].
  destruct (TryConsumeLoginLimit _ _ _ _ _) as [[] l1] eqn:El; cbn [negb]; [|by intros [= <- <- <-]].
  destruct (lookup !! login_Username req) as [user|] eqn:Hu.
  - destruct (Verify _ _) as [ok|e] eqn:Ev; [|done].
    destruct (negb ok || Disabled user) eqn:E; [by intros [= <- <- <-]|].
    apply orb_false_iff in E as [E1 E2]. apply negb_false_iff in E1 as ->.
    intros [= Hg <- _] _. by exists req, user, l1.
  - destruct (Verify _ _); [|done]. by intros [= <- <- <-].
Qed.
End Outcomes.

(** The name of a request is the text of a JSON string: valid UTF-8 and not empty. *)
Lemma parse_name r req : parseLoginRequest r = Ok req ->
  Valid (login_Username req) = true /\ login_Username req <> [].
Proof.
  intros (_ & raw & ms & _ & _ & Hd & Hms & Hne & _)%parse_spec. split; [|done].
  pose proof (Decode_post 3 raw) as Hpost. rewrite Hd in Hpost. destruct Hpost as [Hwf _].
  unfold login_object in Hms. rewrite !elem_of_cons in Hms.
  destruct Hms as [-> | [-> | Hms]]; [| |by apply elem_of_nil in Hms]; cbn in Hwf;
    rewrite ?andb_true_iff in Hwf; naive_solver.
Qed.

(** What a user table built from a valid file satisfies. *)
Definition sane_table (lookup : gmap str UserRecord) : Prop :=
  forall name user, lookup !! name = Some user -> Username user = name /\ 0 < TokenVersion user <= MaxInt64.

(** ** Properties *)

(** C17: A login that answers 200 was admitted, named an enabled user with a password the hasher verifies, and
    resets that user's window. The answer is the login response for a token, and the token opens the sync endpoint
    exactly until [now] plus the configured days, for as long as the table keeps that user enabled at that token version. *)
Theorem login_grants_token `{PasswordHasher} cfg params dummy r now lookup l resp l' logs secret :
  TokenSecret cfg = Some secret -> 0 < TokenTtlDays (Auth cfg) <= 106751 -> 0 < Unix now ->
  Unix now + TokenTtlDays (Auth cfg) * 86400 < MaxInt64 -> sane_table lookup ->
  HandleLogin cfg params dummy r now lookup l = (Ok resp, l', logs) -> status resp = 200 ->
  exists req user token,
    parseLoginRequest r = Ok req /\ (TryConsumeLoginLimit l (remoteIP r) (login_Username req) now cfg).1 = true /\
    entitled req lookup user /\ HasWindowKey l' (user_key (login_Username req)) = false /\
    resp_body resp = MarshalLoginResponse token (Unix now + TokenTtlDays (Auth cfg) * 86400) cfg
                       (NeedsRehash (PasswordHash user) params) /\
    forall later lookup',
      VerifyToken secret token later lookup' = true <->
      (len token <= 8192 /\ Unix later < Unix now + TokenTtlDays (Auth cfg) * 86400 /\
       exists u, lookup' !! login_Username req = Some u /\ Disabled u = false /\ TokenVersion u = TokenVersion user).
Proof.
  intros Hsec Httl Hnow Hmax Htab Hrun H200.
  destruct (HandleLogin_200 _ _ _ _ _ _ _ _ _ _ Hrun H200) as (req & user & l1 & Hp & Hl & Hent & -> & Hg).
  destruct (parse_name r req Hp) as [Hv Hne]. destruct Hent as (Hu & Hd & Hver).
  destruct (Htab _ _ Hu) as [Hname Htv]. destruct (login_ttl_exact cfg Httl) as [Ettl Hsecond].
  assert (Eexp : Unix (Add now (login_ttl cfg)) = Unix now + TokenTtlDays (Auth cfg) * 86400).
  { rewrite Ettl. unfold Unix, Add, Hour, Minute, Second. simpl. lia. }
  unfold grant in Hg. rewrite Hsec in Hg. unfold NewTokenService in Hg.
  destruct (len secret <? 32); [simplify_eq; discriminate|].
  apply rbind_Ok in Hg as (tok & Htok & [= <-]). cbn [resp_body].
  exists req, user, (CompactToken tok). split; [done|]. split; [by rewrite Hl|]. split; [done|].
  split. { unfold HasWindowKey, ResetUserWindow. rewrite lookup_delete_eq. by rewrite bool_decide_eq_false_2. }
  rewrite <- Hname in Hv, Hne.
  destruct (Create_spec secret user now _ tok Hv Hne Htv Hnow Hsecond ltac:(lia) Htok) as (_ & _ & E & _).
  split; [by rewrite E, <- Eexp|]. intros later lookup'. unfold VerifyToken.
  pose proof (fun q => issued_verify secret user now _ tok later lookup' q Hv Hne Htv Hnow Hsecond ltac:(lia) Htok) as Hiff.
  rewrite Eexp, Hname in Hiff. destruct (TryVerifyToken _ _ _ _) as [q|].
  - split; [|done]. intros _. by destruct (proj1 (Hiff q) eq_refl) as [_ ?].
  - split; [done|]. intros H'. by discriminate (proj2 (Hiff (tok_Payload tok)) (conj eq_refl H')).
Qed.

(** C18: Refused credentials look alike, in time and in the answer. Every admitted attempt has the hasher check the
    password exactly once, before anything is logged: against the account's hash, or the dummy hash when there is
    no such user. If the derivation works every attempt is answered: an entitled one with 200 (500 without a
    usable secret), and the others, whatever the reason (no such user, wrong password, disabled account), with the same
    401, one refusal in the log and no window reset; and only they. *)
Theorem login_refusals_alike `{PasswordHasher} cfg params dummy r now lookup l req l1 :
  0 < TokenTtlDays (Auth cfg) <= 106751 -> parseLoginRequest r = Ok req ->
  TryConsumeLoginLimit l (remoteIP r) (login_Username req) now cfg = (true, l1) ->
  let hash := match lookup !! login_Username req with Some user => PasswordHash user | None => dummy end in
  let check := Checked (login_Password req) hash in
  let run := HandleLogin cfg params dummy r now lookup l in
  (exists records, run.2 = check :: map Logged records) /\
  (forall e, Verify (login_Password req) hash = Err e -> run = (Err e, l1, [check])) /\
  (forall ok, Verify (login_Password req) hash = Ok ok ->
     ((forall user, ~ entitled req lookup user) <-> run = (Ok bad_credentials, l1, [check; refusal req r])) /\
     (forall user, entitled req lookup user -> exists resp, run.1.1 = Ok resp /\
        status resp = match TokenSecret cfg with Some s => if len s <? 32 then 500 else 200 | None => 500 end)).
Proof.
  intros Ht Hp Hl hash check run.
  pose proof (fun user => HandleLogin_granted cfg params dummy r now lookup l req user l1 Hp Hl) as Hgrant.
  pose proof (fun e => HandleLogin_failed cfg params dummy r now lookup l req l1 e Hp Hl) as Hfail.
  pose proof (fun ok => HandleLogin_rejected cfg params dummy r now lookup l req l1 ok Hp Hl) as Hreject.
  cbv zeta in Hgrant. fold run in Hgrant, Hfail, Hreject.
  change (checked_hash dummy lookup (login_Username req)) with hash in *.
  change (check_of dummy req lookup) with check in *. split; [|split; [exact Hfail|]].
  - destruct (Verify (login_Password req) hash) as [ok|e] eqn:Ev; [|rewrite (Hfail e) by done; by exists []].
    destruct (entitled_or_not dummy req lookup ok Ev) as [[user Hu]|Hno].
    + rewrite (Hgrant user Hu). cbn [snd app]. destruct (NeedsRehash _ _); [by eexists [_; _]|by eexists [_]].
    + rewrite (Hreject ok) by done. by eexists [_].
  - intros ok Ev. split; [split|].
    + intros Hno. apply (Hreject ok Ev). intros (user & Hu). by apply (Hno user).
    + intros Hrun user Hu. rewrite (Hgrant user Hu) in Hrun. by simplify_eq.
    + intros user Hu. rewrite (Hgrant user Hu). by apply grant_answers.
Qed.

(** ** Concrete runs *)

Definition sample_config : RuntimeConfig := {|
  Server := Server Defaults; Auth := Auth Defaults; Limits := Limits Defaults; RateLimit := RateLimit Defaults;
  Files := Files Defaults; TokenSecret := Some sample_secret |}.
Definition sample_account : UserRecord :=
  {| Username := "ann"; PasswordHash := "pw"; TokenVersion := 1; Disabled := false |}.
Definition sample_table : gmap str UserRecord := {["ann"%go := sample_account]}.
Definition sample_request (password : str) : Request :=
  let body := jq "{`password`:`" ++ password ++ jq "`,`username`:`ann`}" in
  {| RemoteAddr := "10.0.0.1:5000"; ContentLength := len body; Body := Some body |}.

(** A hasher whose hashes are the passwords. *)
#[local] Instance plain_hasher : PasswordHasher := {
  Hash := fun _ password _ => Ok password; Verify := fun password hash => Ok (streq password hash);
  NeedsRehash := fun _ _ => false }.

Definition login_sample (password : str) := HandleLogin sample_config sample_params [] (sample_request password) sample_now sample_table NewLimiter.

Lemma sample_table_sane : sane_table sample_table.
Proof.
  intros name user H. unfold sample_table in H. apply lookup_singleton_Some in H as [<- <-].
  repeat split; vm_compute; discriminate.
Qed.

Lemma login_grants_token_witness : exists resp req user token,
    (login_sample "pw").1.1 = Ok resp /\ parseLoginRequest (sample_request "pw") = Ok req /\
    (TryConsumeLoginLimit NewLimiter (remoteIP (sample_request "pw")) (login_Username req) sample_now sample_config).1 = true /\
    entitled req sample_table user /\ HasWindowKey (login_sample "pw").1.2 (user_key (login_Username req)) = false /\
    resp_body resp = MarshalLoginResponse token (1760000000 + 30 * 86400) sample_config
                       (NeedsRehash (PasswordHash user) sample_params) /\
    forall later lookup',
      VerifyToken sample_secret token later lookup' = true <->
      (len token <= 8192 /\ Unix later < 1760000000 + 30 * 86400 /\
       exists u, lookup' !! login_Username req = Some u /\ Disabled u = false /\ TokenVersion u = TokenVersion user).
Proof.
  destruct (login_sample "pw").1.1 as [resp|e] eqn:E; [|vm_compute in E; discriminate].
  exists resp.
  destruct (login_grants_token sample_config sample_params [] (sample_request "pw") sample_now sample_table NewLimiter
    resp (login_sample "pw").1.2 (login_sample "pw").2 sample_secret) as (req & user & token & Hrest).
  - reflexivity.
  - split; [reflexivity|discriminate].
  - reflexivity.
  - reflexivity.
  - apply sample_table_sane.
  - rewrite <- E. unfold login_sample. by rewrite <- !surjective_pairing.
  - assert (Hs : (match (login_sample "pw").1.1 with Ok x => status x | Err _ => 0 end) = 200) by (vm_compute; reflexivity).
    by rewrite E in Hs.
  - exists req, user, token. split; [done|]. exact Hrest.
Defined.

Lemma pair_eq_fst {A B} (p : A * B) a : p.1 = a -> p = (a, p.2).
Proof. destruct p. naive_solver. Qed.

Definition refused : loginRequest := {| login_Username := "ann"; login_Password := "no" |}.

Lemma not_entitled (lookup : gmap str UserRecord) user : lookup = sample_table \/ lookup = ∅ -> ~ entitled refused lookup user.
Proof.
  intros [-> | ->] (Hu & _ & Hv); [|by rewrite lookup_empty in Hu].
  unfold sample_table in Hu. apply lookup_singleton_Some in Hu as [_ <-]. by vm_compute in Hv.
Qed.

(** The refusals of a wrong password and of a name that nobody has differ in nothing but the hash that was checked. *)
Lemma login_refusals_alike_witness :
  let l1 := (TryConsumeLoginLimit NewLimiter (remoteIP (sample_request "no")) "ann" sample_now sample_config).2 in
  login_sample "no" = (Ok bad_credentials, l1, [Checked "no" "pw"; refusal refused (sample_request "no")]) /\
  HandleLogin sample_config sample_params "dummy" (sample_request "no") sample_now ∅ NewLimiter =
    (Ok bad_credentials, l1, [Checked "no" "dummy"; refusal refused (sample_request "no")]).
Proof.
  intros l1.
  assert (Hl : TryConsumeLoginLimit NewLimiter (remoteIP (sample_request "no")) (login_Username refused) sample_now
    sample_config = (true, l1)) by (apply pair_eq_fst; vm_compute; reflexivity).
  assert (Hp : parseLoginRequest (sample_request "no") = Ok refused) by (vm_compute; reflexivity).
  assert (Ht : 0 < TokenTtlDays (Auth sample_config) <= 106751) by (split; [reflexivity|discriminate]).
  split.
  - destruct (login_refusals_alike sample_config sample_params [] (sample_request "no") sample_now sample_table NewLimiter
      refused l1 Ht Hp Hl) as (_ & _ & H). apply (proj1 (H false ltac:(vm_compute; reflexivity))).
    intros user. apply not_entitled. by left.
  - destruct (login_refusals_alike sample_config sample_params "dummy" (sample_request "no") sample_now ∅ NewLimiter
      refused l1 Ht Hp Hl) as (_ & _ & H). apply (proj1 (H false ltac:(vm_compute; reflexivity))).
    intros user. apply not_entitled. by right.
Defined.
