(* ===== verification/Lock.v ===== *)
(** * The lock of the users file (internal/cli/lock.go, CreateLockPath of cli.go)

    Where the lock file is and how it is acquired. The advisory lock itself is the flock package's: what its
    attempts answer is an argument. *)
From S2P Require Import Prelude GoLib GoPath.

(** The lock is [<file>.lock] beside the users file. *)
Definition CreateLockPath (cwd : result str str) (usersFile : str) : result str str :=
  let? fullUsersPath := Abs cwd usersFile in
  let directory := Dir fullUsersPath in
  if blank directory then Err "users.json path must include a parent directory."
  else
    let fileName := Base fullUsersPath in
    Ok (Join [directory; fileName ++ ".lock"]).

(** What [TryLock] answers: locked, held by another, or an error, retryable when it is a path error. *)
Inductive Try := TryLocked | TryBusy | TryFailed (retryable : bool) (e : str).

(** [Ok false] is the nil handle: every attempt found the lock held. *)
Fixpoint attempts_loop (attempts : nat) (tries : list Try) : result str bool :=
  match attempts, tries with
  | O, _ => Ok false
  | S n, TryLocked :: _ => Ok true
  | S n, TryFailed false e :: _ => Err e
  | S n, _ :: tries' => attempts_loop n tries'
  | S n, [] => attempts_loop n []
  end.

Definition Acquire (is_dir : str -> bool) (lockPath : str) (tries : list Try) : result str bool :=
  if blank lockPath then Err "Lock path must not be empty."
  else
    let directory := Dir lockPath in
    if blank directory || negb (ContainsAny lockPath ("/" ++ [x5c])) then
      Err "Lock path must include a directory."
    else if negb (is_dir directory) then Err ("Directory '" ++ directory ++ "' does not exist.")
    else attempts_loop 3 tries.

(** ** Lemmas *)

Lemma CreateLockPath_abs cwd usersFile : (forall wd, cwd = Ok wd -> IsAbs wd = true) ->
  match CreateLockPath cwd usersFile with
  | Ok lockPath => IsAbs lockPath = true
  | Err e => cwd = Err e
  end.
Proof.
  intros Hwd. unfold CreateLockPath. destruct (Abs cwd usersFile) as [full|e] eqn:E; cbn [rbind].
  - apply Abs_abs, Dir_abs in E; [|done]. rewrite abs_not_blank by done. cbn [Join].
    apply IsAbs_inv in E as [s ->]. apply Clean_abs. exact (IsAbs_cons (s ++ "/" ++ (Base full ++ ".lock"))).
  - unfold Abs in E. destruct (IsAbs usersFile); [done|]. destruct cwd; [done|]. by injection E as ->.
Qed.

(** With an absolute path only a missing directory and the lock itself can be in the way. *)
Lemma Acquire_abs is_dir lockPath tries : IsAbs lockPath = true ->
  Acquire is_dir lockPath tries =
  if is_dir (Dir lockPath) then attempts_loop 3 tries
  else Err ("Directory '" ++ Dir lockPath ++ "' does not exist.").
Proof.
  intros H. unfold Acquire. rewrite !abs_not_blank by (done || by apply Dir_abs).
  apply IsAbs_inv in H as [s ->]. by destruct (is_dir _).
Qed.

Lemma attempts_locked tries : attempts_loop 3 tries = Ok true <->
  exists before after, tries = before ++ TryLocked :: after /\ (length before < 3)%nat /\
    Forall (fun t => match t with TryBusy | TryFailed true _ => True | _ => False end) before.
Proof.
  assert (H : forall n tries, attempts_loop n tries = Ok true <->
    exists before after, tries = before ++ TryLocked :: after /\ (length before < n)%nat /\
      Forall (fun t => match t with TryBusy | TryFailed true _ => True | _ => False end) before); [|apply H].
  clear tries. induction n as [|n IH]; intros tries.
  { cbn. split; [done|]. intros (b & a & _ & Hl & _). lia. }
  destruct tries as [|t tries].
  { cbn [attempts_loop]. rewrite IH. split; intros (b & a & Heq & _); by destruct b. }
  assert (Hskip : match t with TryBusy | TryFailed true _ => True | _ => False end ->
    attempts_loop (S n) (t :: tries) = attempts_loop n tries) by (by destruct t as [| |[] ?]).
  destruct t as [| |[] e].
  1: { split; [|done]. intros _. exists [], tries. repeat split; [cbn; lia|constructor]. }
  3: { split; [done|]. intros (b & a & Heq & _ & Hb). destruct b; simplify_eq/=. by apply list.Forall_cons in Hb as [? _]. }
  all: rewrite Hskip by done; rewrite IH; split.
  1,3: intros (b & a & -> & Hl & Hb); eexists (_ :: b), a; repeat split; [cbn; lia|by constructor].
  all: intros (b & a & Heq & Hl & Hb); destruct b as [|x b]; simplify_eq/=;
    apply list.Forall_cons in Hb as [_ Hb]; exists b, a; repeat split; [lia|done].
Qed.
