(* ===== verification/LockRace.v ===== *)
(** * Processes that compete for the lock (internal/cli/lock.go)

    [Lock] has where the lock is and how often it is tried; here are the processes that try,
    hold and release it, on a directory entry and the files it names. The advisory lock is that of the flock
    package, a parameter with the laws the package documents: it is on the file, not on its name, and exclusive.
    [TryLock] opens or creates the file of that name and locks it if nobody else has it locked; [Release]
    unlocks it and then removes the name. *)
From S2P Require Import Prelude GoLib.

(** ** The advisory locks of the system *)

Class Flock (T : Type) := {
  no_locks : T;
  flock_holder : T -> nat -> option nat;          (** the process that holds the lock of a file *)
  flock_lock : nat -> nat -> T -> option T;       (** a process tries a file without waiting *)
  flock_unlock : nat -> T -> T }.

Class FlockLaws (T : Type) `{Flock T} : Prop := {
  nobody_at_start f : flock_holder no_locks f = None;
  lock_free p f t : flock_holder t f = None ->
    exists t', flock_lock p f t = Some t' /\ flock_holder t' f = Some p /\
               forall g, g <> f -> flock_holder t' g = flock_holder t g;
  lock_held p q f t : flock_holder t f = Some q -> flock_lock p f t = None;
  unlocked f t : flock_holder (flock_unlock f t) f = None;
  unlock_others f g t : g <> f -> flock_holder (flock_unlock f t) g = flock_holder t g }.

(** Where a process is in [Acquire] and [Release], with its file. *)
Inductive place := Outside | Opened (f : nat) | Locked (f : nat) | Holding (f : nat) | Unlocked.

Inductive action :=
| AOpen        (** [TryLock]: the file is opened *)
| ALock        (** [TryLock]: it is locked, or another attempt follows *)
| AWritePid    (** [os.WriteFile] of the lock path *)
| AUnlock      (** [Release]: [Unlock] *)
| ARemove.     (** [Release]: [os.Remove] of the lock path *)

Section Processes.
Context {T : Type} `{HFlock : Flock T}.

Record lock_state := mkLock {
  entry : option nat;               (** the file the lock path names *)
  next_file : nat;
  locks : T;
  places : nat -> place }.

Definition lock_start : lock_state := mkLock None 0 no_locks (fun _ => Outside).

(** The lock path is opened, created if it is not there. *)
Definition open_entry (s : lock_state) : nat * lock_state :=
  match entry s with
  | Some f => (f, s)
  | None => (next_file s, mkLock (Some (next_file s)) (S (next_file s)) (locks s) (places s))
  end.

Definition put (p : nat) (pl : place) (s : lock_state) : lock_state :=
  mkLock (entry s) (next_file s) (locks s) (<[p := pl]> (places s)).

(** An attempt of [Acquire]. *)
Definition acquire_step (p : nat) (a : action) (s : lock_state) : option lock_state :=
  match a, places s p with
  | AOpen, Outside => let '(f, s') := open_entry s in Some (put p (Opened f) s')
  | ALock, Opened f =>
      match flock_lock p f (locks s) with
      | None => Some (put p Outside s)
      | Some t => Some (put p (Locked f) (mkLock (entry s) (next_file s) t (places s)))
      end
  | AWritePid, Locked f => Some (put p (Holding f) (open_entry s).2)
  | _, _ => None
  end.

Definition release_step (p : nat) (a : action) (s : lock_state) : option lock_state :=
  match a, places s p with
  | AUnlock, Holding f =>
      Some (put p Unlocked (mkLock (entry s) (next_file s) (flock_unlock f (locks s)) (places s)))
  | ARemove, Unlocked => Some (put p Outside (mkLock None (next_file s) (locks s) (places s)))
  | _, _ => None
  end.

Definition lock_step (p : nat) (a : action) (s : lock_state) : option lock_state :=
  match a with
  | AOpen | ALock | AWritePid => acquire_step p a s
  | AUnlock | ARemove => release_step p a s
  end.

Fixpoint lock_run (ls : list (nat * action)) (s : lock_state) : option lock_state :=
  match ls with
  | [] => Some s
  | (p, a) :: ls' => match lock_step p a s with Some s' => lock_run ls' s' | None => None end
  end.

(** The process has the lock: between a successful [Acquire] and its [Release]. *)
Definition holds (s : lock_state) (p f : nat) : Prop := places s p = Locked f \/ places s p = Holding f.

(** ** Invariants *)

(** The locks are those of the holders. *)
Definition locks_ok (s : lock_state) : Prop := forall p f, flock_holder (locks s) f = Some p <-> holds s p f.

(** Every process in [Acquire] or past it is on the file that the entry names. *)
Definition one_file (s : lock_state) : Prop :=
  forall p f, places s p = Opened f \/ holds s p f -> entry s = Some f.

Lemma put_same p pl s : places (put p pl s) p = pl.
Proof. apply fn_lookup_insert. Qed.

Lemma put_other p q pl s : q <> p -> places (put p pl s) q = places s q.
Proof. intros. by apply fn_lookup_insert_ne. Qed.

(** A process that goes from one place without the lock to another. *)
Lemma put_locks_ok p pl s : locks_ok s -> (forall f, ~ holds s p f) -> (forall f, pl <> Locked f /\ pl <> Holding f) ->
  locks_ok (put p pl s).
Proof.
  intros Hs Hn Hp q f. cbn [locks put]. unfold holds. destruct (decide (q = p)) as [->|Hq].
  - rewrite put_same, (Hs p f). split; [intros H; by destruct (Hn f)|]. destruct (Hp f). tauto.
  - rewrite put_other by done. apply Hs.
Qed.

Lemma not_holding s p : (forall f, places s p <> Locked f /\ places s p <> Holding f) -> forall f, ~ holds s p f.
Proof. intros H f [E|E]; by destruct (H f). Qed.

Context `{!FlockLaws T}.

Lemma step_locks_ok p a s s' : lock_step p a s = Some s' -> locks_ok s -> locks_ok s'.
Proof.
  intros H Hs. unfold lock_step, acquire_step, release_step in H.
  destruct a, (places s p) as [|f|f|f|] eqn:Ep; try done.
  - unfold open_entry in H. destruct (entry s); injection H as <-; (apply put_locks_ok; [exact Hs| |done]);
      apply not_holding; cbn; rewrite Ep; done.
  - destruct (flock_holder (locks s) f) as [q|] eqn:El.
    { rewrite (lock_held p q f) in H by done. injection H as <-.
      apply put_locks_ok; [done| |done]. apply not_holding. by rewrite Ep. }
    destruct (lock_free p f (locks s) El) as (t & Et & Hf & Ho). rewrite Et in H. injection H as <-.
    intros q g. cbn [locks put]. unfold holds. destruct (decide (q = p)) as [->|Hq].
    + rewrite put_same. destruct (decide (g = f)) as [->|Hg]; [rewrite Hf; naive_solver|].
      rewrite Ho by done. rewrite (Hs p g). unfold holds. rewrite Ep. naive_solver.
    + rewrite put_other by done. cbn [places]. destruct (decide (g = f)) as [->|Hg].
      * rewrite Hf. specialize (Hs q f). rewrite El in Hs. unfold holds in Hs. naive_solver.
      * rewrite Ho by done. apply Hs.
  - injection H as <-. intros q g.
    assert (Hl : locks (put p (Holding f) (open_entry s).2) = locks s) by (unfold open_entry; by destruct (entry s)).
    assert (Hpl : places (open_entry s).2 = places s) by (unfold open_entry; by destruct (entry s)).
    rewrite Hl, (Hs q g). unfold holds. destruct (decide (q = p)) as [->|Hq].
    + rewrite put_same, Ep. naive_solver.
    + by rewrite put_other, Hpl by done.
  - injection H as <-. intros q g. cbn [locks put]. unfold holds. destruct (decide (g = f)) as [->|Hg].
    + rewrite unlocked. split; [done|]. intros Hh. exfalso.
      assert (Hf : flock_holder (locks s) f = Some p) by (apply Hs; by right).
      destruct (decide (q = p)) as [->|Hq]; [rewrite put_same in Hh; naive_solver|]. rewrite put_other in Hh by done.
      apply Hs in Hh. congruence.
    + rewrite unlock_others by done. rewrite (Hs q g). unfold holds. destruct (decide (q = p)) as [->|Hq].
      * rewrite put_same, Ep. naive_solver.
      * by rewrite put_other.
  - injection H as <-. apply put_locks_ok; [exact Hs| |done]. apply not_holding. cbn. by rewrite Ep.
Qed.

Lemma step_one_file p a s s' : lock_step p a s = Some s' -> a <> ARemove -> one_file s -> one_file s'.
Proof.
  intros H Ha Hs q g. unfold one_file, holds in *. unfold lock_step, acquire_step, release_step in H.
  assert (Ho : forall f, (open_entry s).1 = f -> entry (open_entry s).2 = Some f /\ (forall g0, entry s = Some g0 -> f = g0)).
  { intros f <-. unfold open_entry. destruct (entry s) eqn:E; cbn; split; congruence. }
  destruct a, (places s p) as [|f|f|f|] eqn:Ep; try done.
  - destruct (open_entry s) as [f s1] eqn:E. injection H as <-. destruct (Ho f eq_refl) as [He Hf]. cbn in He, Hf.
    assert (Hpl : places s1 = places s) by (unfold open_entry in E; destruct (entry s); by injection E as <- <-).
    destruct (decide (q = p)) as [->|Hq]; [rewrite put_same; cbn; naive_solver|].
    rewrite put_other, Hpl by done. intros Hg%Hs. cbn. rewrite He. f_equal. by apply Hf.
  - destruct (flock_lock p f (locks s)); injection H as <-;
      (destruct (decide (q = p)) as [->|Hq]; [rewrite put_same|rewrite put_other by done; apply Hs]); [naive_solver|].
    intros Hg. cbn. assert (g = f) as -> by naive_solver. apply (Hs p). by left.
  - injection H as <-. assert (Hf : entry s = Some f) by (apply (Hs p); rewrite Ep; auto).
    unfold open_entry. rewrite Hf. destruct (decide (q = p)) as [->|Hq]; [rewrite put_same; cbn; naive_solver|].
    rewrite put_other by done. apply Hs.
  - injection H as <-. destruct (decide (q = p)) as [->|Hq]; [rewrite put_same; naive_solver|].
    rewrite put_other by done. apply Hs.
Qed.

Lemma run_locks_ok ls : forall s s', lock_run ls s = Some s' -> locks_ok s -> locks_ok s'.
Proof.
  induction ls as [|[p a] ls IH]; intros s s' H Hs; cbn in H; [by simplify_eq|].
  destruct (lock_step p a s) as [s1|] eqn:E; [|done]. eapply IH; [done|]. by eapply step_locks_ok.
Qed.

Lemma run_one_file ls : forall s s', lock_run ls s = Some s' -> Forall (fun pa => pa.2 <> ARemove) ls ->
  one_file s -> one_file s'.
Proof.
  induction ls as [|[p a] ls IH]; intros s s' H Hl Hs; cbn in H; [by simplify_eq|].
  destruct (lock_step p a s) as [s1|] eqn:E; [|done]. apply list.Forall_cons in Hl as [Ha Hl].
  eapply IH; [done|done|]. by eapply step_one_file.
Qed.

Lemma start_locks_ok : locks_ok lock_start.
Proof. intros p f. cbn. rewrite nobody_at_start. unfold holds. cbn. naive_solver. Qed.


(** The first process locks; the second opens the same file; the first unlocks; the second locks it; the first
    removes the name; the third creates a new file and locks that. *)
Definition release_race : list (nat * action) :=
  [(0, AOpen); (0, ALock); (0, AWritePid); (1, AOpen); (0, AUnlock); (1, ALock); (1, AWritePid); (0, ARemove);
   (2, AOpen); (2, ALock); (2, AWritePid)]%nat.

Lemma release_race_run : exists s, lock_run release_race lock_start = Some s /\ holds s 1 0 /\ holds s 2 1.
Proof.
  destruct (lock_free 0 0 no_locks (nobody_at_start 0)) as (t1 & E1 & _ & O1).
  destruct (lock_free 1 0 (flock_unlock 0 t1) (unlocked 0 t1)) as (t2 & E2 & _ & O2).
  destruct (lock_free 2 1 t2) as (t3 & E3 & _ & _).
  { rewrite O2, unlock_others, O1 by done. apply nobody_at_start. }
  eexists. split.
  - cbv -[flock_lock flock_unlock no_locks]. rewrite E1. cbv -[flock_lock flock_unlock no_locks]. rewrite E2.
    cbv -[flock_lock flock_unlock no_locks]. rewrite E3. reflexivity.
  - split; right; reflexivity.
Qed.

(** ** Properties *)

(** C35: The lock excludes, but for the removal of its file: in every interleaving of processes that open, lock,
    write, unlock and remove, a file is locked by at most one process; as long as no process removes the name, at
    most one process has the lock; but with the removals of [Release] there is a run that ends with two processes
    that both have it. All that is used of the advisory locks is that they are per file and exclusive. *)
Theorem lock_exclusion :
  (forall ls s, lock_run ls lock_start = Some s ->
     (forall p q f, holds s p f -> holds s q f -> p = q) /\
     (Forall (fun pa => pa.2 <> ARemove) ls -> forall p q f g, holds s p f -> holds s q g -> p = q)) /\
  (exists s f g, lock_run release_race lock_start = Some s /\ holds s 1 f /\ holds s 2 g).
Proof.
  split.
  - intros ls s Hr. pose proof (run_locks_ok _ _ _ Hr start_locks_ok) as Hs.
    assert (Hone : forall p q f, holds s p f -> holds s q f -> p = q).
    { intros p q f Hp%Hs Hq%Hs. congruence. }
    split; [done|]. intros Hl p q f g Hp Hq.
    assert (Ho : one_file s) by (apply (run_one_file _ _ _ Hr Hl); intros r k [E|[E|E]]; done).
    assert (f = g) as -> by (apply (inj Some); transitivity (entry s); [symmetry|]; eapply Ho; eauto).
    by eapply Hone.
  - destruct release_race_run as (s & Hr & H1 & H2). by exists s, 0%nat, 1%nat.
Qed.
End Processes.

(** Locks as a map from files to their holders. *)
#[export] Instance map_flock : Flock (gmap nat nat) := {
  no_locks := ∅;
  flock_holder t f := t !! f;
  flock_lock p f t := match t !! f with Some _ => None | None => Some (<[f := p]> t) end;
  flock_unlock f t := delete f t }.

#[export] Instance map_flock_laws : FlockLaws (gmap nat nat).
Proof.
  split; cbn.
  - intros f. apply lookup_empty.
  - intros p f t E. rewrite E. eexists. split; [done|]. split; [apply lookup_insert_eq|].
    intros g Hg. by rewrite lookup_insert_ne.
  - intros p q f t E. by rewrite E.
  - intros f t. apply lookup_delete_eq.
  - intros f g t Hg. by rewrite lookup_delete_ne.
Qed.

Lemma lock_exclusion_witness :
  exists s, lock_run (T := gmap nat nat) [(0%nat, AOpen); (1%nat, AOpen); (0%nat, ALock); (1%nat, ALock)] lock_start = Some s /\
    forall q g, holds s q g -> 0%nat = q.
Proof.
  eexists. split; [reflexivity|]. intros q g.
  apply (proj1 (lock_exclusion (T := gmap nat nat)) [(0%nat, AOpen); (1%nat, AOpen); (0%nat, ALock); (1%nat, ALock)]) with (f := 0%nat);
    [reflexivity|by repeat constructor|by left].
Defined.
