(* ===== verification/Cli.v ===== *)
(** * User administration commands (internal/cli/cli.go)

    [textcascade user add|passwd|disable|enable|delete|revoke-tokens|list|hash] over one users file. A command
    is a function of a [Shell]: the files, the input, the answers of the lock and of the file system, and
    what was printed. [Err] is a Go panic, which ends the process. *)
From S2P Require Import Prelude GoLib JsonScan Config Users Logic Argon2 Lock.

(** ** The process's surroundings *)

Record Shell := mkShell {
  disk : str -> FileRead;             (** the files, by path *)
  piped : str;                        (** standard input up to its end, for --password-stdin *)
  typed : list (result str str);      (** what [term.ReadPassword] will answer *)
  write_error : option str;           (** the error writing a file will give, if any *)
  cwd : result str str;               (** the working directory *)
  is_dir : str -> bool;               (** which paths are directories *)
  lock_tries : list Try;              (** what the attempts to lock will answer *)
  stdout : str; stderr : str }.

Definition Cmd (A : Type) : Type := Shell -> panics A * Shell.

#[global] Instance Cmd_ret : MRet Cmd := fun A a s => (Ok a, s).
#[global] Instance Cmd_bind : MBind Cmd := fun A B k m s =>
  match m s with (Ok a, s') => k a s' | (Err e, s') => (Err e, s') end.

Definition panic {A} (e : str) : Cmd A := fun s => (Err e, s).
Definition from_panics {A} (r : panics A) : Cmd A := fun s => (r, s).

Definition set_output (out err : str) (s : Shell) : Shell :=
  mkShell (disk s) (piped s) (typed s) (write_error s) (cwd s) (is_dir s) (lock_tries s) out err.
Definition set_disk (d : str -> FileRead) (s : Shell) : Shell :=
  mkShell d (piped s) (typed s) (write_error s) (cwd s) (is_dir s) (lock_tries s) (stdout s) (stderr s).
Definition set_typed (ts : list (result str str)) (s : Shell) : Shell :=
  mkShell (disk s) (piped s) ts (write_error s) (cwd s) (is_dir s) (lock_tries s) (stdout s) (stderr s).

Definition Print (t : str) : Cmd unit := fun s => (Ok tt, set_output (stdout s ++ t) (stderr s) s).
Definition Println (t : str) : Cmd unit := Print (t ++ nl).
Definition Eprintln (t : str) : Cmd unit := fun s => (Ok tt, set_output (stdout s) (stderr s ++ t ++ nl) s).

Definition exit_Ok : Z := 0.
Definition exit_Error : Z := 1.

(** Print to standard error and return [Error]. *)
Definition fail (t : str) : Cmd Z := Eprintln t ;; mret exit_Error.

(** [if err != nil { panic(err) }]. *)
Definition must {A} (r : result str A) : Cmd A := match r with Ok a => mret a | Err e => panic e end.

(** ** Arguments *)

Fixpoint option_loop (flag : str) (args : list str) : str * bool :=
  match args with
  | a :: ((v :: _) as rest) => if bool_decide (a = flag) then (v, 0 <? len v) else option_loop flag rest
  | _ => ([], false)
  end.
Definition tryGetOption (args : list str) (name : str) : str * bool := option_loop ("--" ++ name) args.

Definition hasFlag (args : list str) (name : str) : bool :=
  existsb (fun arg => bool_decide (arg = "--" ++ name)) args.
Definition hasPasswordStdin (args : list str) : bool := hasFlag args "password-stdin".

Fixpoint extract_loop (args remaining : list str) (configPath : str) : option (list str * str) :=
  match args with
  | [] => Some (remaining, configPath)
  | a :: rest =>
      if bool_decide (a = "--config"%go) then
        match rest with [] => None | path :: rest' => extract_loop rest' remaining path end
      else if HasPrefix a "--config=" then extract_loop rest remaining (TrimPrefix a "--config=")
      else extract_loop rest (remaining ++ [a]) configPath
  end.

(** [None]: the option lacks its path. *)
Definition tryExtractConfigOption (args : list str) : option (list str * str) := extract_loop args [] [].

(** ** Passwords *)

(** [bufio.Reader.ReadString] with a line feed: the bytes read, and whether the line feed was found. *)
Fixpoint ReadString (s : str) : str * bool :=
  match s with
  | [] => ([], false)
  | c :: s' => if bool_decide (c = x0a) then ([c], true) else let '(l, found) := ReadString s' in (c :: l, found)
  end.

(** [strings.TrimRight] with carriage return and line feed. *)
Fixpoint TrimRight_crlf (s : str) : str :=
  match s with
  | [] => []
  | c :: s' =>
      match TrimRight_crlf s' with
      | [] => if bool_decide (c = x0a) || bool_decide (c = x0d) then [] else [c]
      | l => c :: l
      end
  end.

Definition empty_password : str := "--password-stdin requires one non-empty line.".

(** Each command reads standard input at most once, so what the buffered reader leaves is not followed. *)
Definition ReadTerminal : Cmd (result str str) := fun s =>
  (Ok (hd (Err "EOF") (typed s)), set_typed (tail (typed s)) s).

Definition readPassword (prompt : str) (args : list str) : Cmd (result str str) :=
  if hasPasswordStdin args then
    input ← (fun s => (Ok (piped s), s));
    let '(line, found) := ReadString input in
    if negb found && is_empty line then Eprintln empty_password ;; mret (Err empty_password)
    else
      let line := TrimRight_crlf line in
      if is_empty line then Eprintln empty_password ;; mret (Err empty_password) else mret (Ok line)
  else
    Print prompt ;; password ← ReadTerminal; Print nl ;; mret password.

(** ** The users file *)

Definition read_file (path : str) : Cmd FileRead := fun s => (Ok (disk s path), s).

Definition loadForWrite (path : str) : Cmd UsersFile :=
  file ← read_file path;
  match file with
  | Absent => mret {| NextTokenVersion := 1; Users := [] |}
  | _ => must (Load file)
  end.

(** [users.Save]: the temporary file is renamed over the old one, or the old one stays. *)
Definition save (path : str) (f : UsersFile) : Cmd (option str) := fun s =>
  match Save f, write_error s with
  | Err e, _ | Ok _, Some e => (Ok (Some e), s)
  | Ok text, None =>
      (Ok None, set_disk (<[path := Contents text]> (disk s)) s)
  end.

(** The end of every command that edits: save, report. *)
Definition save_and_report (path : str) (f : UsersFile) (report : str) : Cmd Z :=
  failed ← save path f;
  match failed with
  | Some e => fail ("Configuration error: " ++ e)
  | None => Println report ;; mret exit_Ok
  end.

(** The index of the first user with that name; [None] is Go's [-1]. *)
Fixpoint index_in (us : list UserRecord) (username : str) : option nat :=
  match us with
  | [] => None
  | u :: us' => if bool_decide (Username u = username) then Some O else S <$> index_in us' username
  end.
Definition indexOfUser (f : UsersFile) (username : str) : option nat := index_in (Users f) username.

Definition incrementWatermark (current : Z) : result str Z :=
  if current =? MaxInt64 then Err "overflow" else Ok (current + 1).

Definition with_users (f : UsersFile) (us : list UserRecord) : UsersFile :=
  {| NextTokenVersion := NextTokenVersion f; Users := us |}.

Definition createArgon2Params (cfg : RuntimeConfig) : Params :=
  {| MemoryKiB := Argon2MemoryKiB (Auth cfg); Iterations := Argon2Iterations (Auth cfg);
     Parallelism := Argon2Parallelism (Auth cfg) |}.

(** ** The commands

    [salt] is what [crypto/rand] gives the hasher. *)
Section Commands.
Context `{PasswordHasher} (salt : str).

Definition username_required : str := "--username is required".

Definition too_high (version : Z) : bool := (version <=? 0) || (version =? MaxInt64).

Definition commandAddUser (args : list str) (cfg : RuntimeConfig) : Cmd Z :=
  let '(username, found) := tryGetOption args "username" in
  if negb found then fail username_required
  else
    password ← readPassword "Password: " args; password ← must password;
    confirm ← (if negb (hasPasswordStdin args) then c ← readPassword "Confirm: " args; must c else mret password);
    if negb (streq password confirm) then fail "Passwords do not match."
    else
      let usersPath := Config.UsersFile (Files cfg) in
      usersFile ← loadForWrite usersPath;
      if existsb (fun user => bool_decide (Username user = username)) (Users usersFile) then
        fail ("User " ++ username ++ " already exists.")
      else
        hash ← from_panics (Hash salt password (createArgon2Params cfg));
        let tokenVersion := NextTokenVersion usersFile in
        if too_high tokenVersion then fail "nextTokenVersion overflow; refusing to add user."
        else
          let added := {| Username := username; PasswordHash := hash; TokenVersion := tokenVersion;
                          Disabled := false |} in
          next ← must (incrementWatermark (NextTokenVersion usersFile));
          save_and_report usersPath {| NextTokenVersion := next; Users := Users usersFile ++ [added] |}
            ("Added user " ++ username ++ " (tokenVersion " ++ FormatInt tokenVersion ++ ").").

Definition not_found (username : str) : str := "User " ++ username ++ " not found.".

Definition set_hash (hash : str) (u : UserRecord) : UserRecord :=
  {| Username := Username u; PasswordHash := hash; TokenVersion := TokenVersion u; Disabled := Disabled u |}.
Definition set_disabled (b : bool) (u : UserRecord) : UserRecord :=
  {| Username := Username u; PasswordHash := PasswordHash u; TokenVersion := TokenVersion u; Disabled := b |}.
Definition set_version (v : Z) (u : UserRecord) : UserRecord :=
  {| Username := Username u; PasswordHash := PasswordHash u; TokenVersion := v; Disabled := Disabled u |}.

Definition commandPasswd (args : list str) (cfg : RuntimeConfig) : Cmd Z :=
  let '(username, found) := tryGetOption args "username" in
  if negb found then fail username_required
  else
    let usersPath := Config.UsersFile (Files cfg) in
    usersFile ← loadForWrite usersPath;
    match indexOfUser usersFile username with
    | None => fail (not_found username)
    | Some index =>
        password ← readPassword "New password: " args; password ← must password;
        hash ← from_panics (Hash salt password (createArgon2Params cfg));
        save_and_report usersPath (with_users usersFile (alter (set_hash hash) index (Users usersFile)))
          ("Password updated for " ++ username ++ ".")
    end.

Definition commandSetDisabled (args : list str) (disabled : bool) (cfg : RuntimeConfig) : Cmd Z :=
  let '(username, found) := tryGetOption args "username" in
  if negb found then fail username_required
  else
    let usersPath := Config.UsersFile (Files cfg) in
    usersFile ← loadForWrite usersPath;
    match indexOfUser usersFile username with
    | None => fail (not_found username)
    | Some index =>
        let state : str := if negb disabled then "enabled" else "disabled" in
        save_and_report usersPath (with_users usersFile (alter (set_disabled disabled) index (Users usersFile)))
          ("User " ++ username ++ " " ++ state ++ ".")
    end.

Definition commandDeleteUser (args : list str) (cfg : RuntimeConfig) : Cmd Z :=
  let '(username, found) := tryGetOption args "username" in
  if negb found then fail username_required
  else
    let usersPath := Config.UsersFile (Files cfg) in
    usersFile ← loadForWrite usersPath;
    match indexOfUser usersFile username with
    | None => fail (not_found username)
    | Some index =>
        save_and_report usersPath
          (with_users usersFile (take index (Users usersFile) ++ drop (S index) (Users usersFile)))
          ("Deleted user " ++ username ++ ".")
    end.

Definition commandRevokeTokens (args : list str) (cfg : RuntimeConfig) : Cmd Z :=
  let '(username, found) := tryGetOption args "username" in
  if negb found then fail username_required
  else
    let usersPath := Config.UsersFile (Files cfg) in
    usersFile ← loadForWrite usersPath;
    match indexOfUser usersFile username with
    | None => fail (not_found username)
    | Some index =>
        let newVersion := NextTokenVersion usersFile in
        if too_high newVersion then fail "nextTokenVersion overflow; refusing to revoke tokens."
        else
          let us := alter (set_version newVersion) index (Users usersFile) in
          next ← must (incrementWatermark (NextTokenVersion usersFile));
          save_and_report usersPath {| NextTokenVersion := next; Users := us |}
            ("Revoked tokens for " ++ username ++ " (new tokenVersion " ++ FormatInt newVersion ++ ").")
    end.

Definition user_line (u : UserRecord) : str :=
  Username u ++ "," ++ FormatBool (Disabled u) ++ "," ++ FormatInt (TokenVersion u).

Fixpoint print_users (us : list UserRecord) : Cmd unit :=
  match us with [] => mret tt | u :: us' => Println (user_line u) ;; print_users us' end.

Definition commandListUsers (cfg : RuntimeConfig) : Cmd Z :=
  usersFile ← loadForWrite (Config.UsersFile (Files cfg));
  Println ("nextTokenVersion: " ++ FormatInt (NextTokenVersion usersFile)) ;;
  Println "username,disabled,tokenVersion" ;;
  print_users (Users usersFile) ;;
  mret exit_Ok.

Definition commandHashPassword (args : list str) (cfg : RuntimeConfig) : Cmd Z :=
  password ← readPassword "Password: " args; password ← must password;
  hash ← from_panics (Hash salt password (createArgon2Params cfg));
  Println hash ;;
  mret exit_Ok.

Definition printUsage : Cmd Z :=
  Eprintln "Usage: TextCascade.Server user <command> [options]" ;;
  Eprintln "Commands: add, passwd, disable, enable, delete, revoke-tokens, list, hash" ;;
  Eprintln "All commands accept --config <path>; fallback order is --config, TEXTCASCADE_CONFIG, then textcascade.toml." ;;
  mret exit_Error.

(** The switch on the command, under the lock. *)
Definition dispatch (rest : list str) (cfg : RuntimeConfig) : Cmd Z :=
  match rest with
  | [] => printUsage
  | command :: _ =>
      if streq command "add" then commandAddUser rest cfg
      else if streq command "passwd" then commandPasswd rest cfg
      else if streq command "disable" then commandSetDisabled rest true cfg
      else if streq command "enable" then commandSetDisabled rest false cfg
      else if streq command "delete" then commandDeleteUser rest cfg
      else if streq command "revoke-tokens" then commandRevokeTokens rest cfg
      else if streq command "list" then commandListUsers cfg
      else if streq command "hash" then commandHashPassword rest cfg
      else printUsage
  end.

(** ** The program

    [parse] is the TOML decoder, [env] the environment. *)
Context (parse : str -> result str TomlTable) (env : str -> str).

Fixpoint warn (warnings : list str) : Cmd unit :=
  match warnings with [] => mret tt | w :: ws => Eprintln w ;; warn ws end.

Definition loadConfig (configPath : str) : Cmd (result str RuntimeConfig) :=
  file ← read_file configPath;
  match file with
  | Unreadable e => mret (Err e)
  | _ =>
      let '(warnings, loaded) :=
        LoadTOML parse (match file with Contents raw => Some raw | _ => None end) Defaults in
      warn warnings ;;
      mret (let? cfg := loaded in ApplyEnv env cfg)
  end.

Definition config_path (explicitConfigPath : str) : str :=
  if is_empty explicitConfigPath then
    if is_empty (env "TEXTCASCADE_CONFIG") then "textcascade.toml" else env "TEXTCASCADE_CONFIG"
  else explicitConfigPath.

Definition acquire_lock (cfg : RuntimeConfig) : Cmd (result str bool) := fun s =>
  (Ok (let? lockPath := CreateLockPath (cwd s) (Config.UsersFile (Files cfg)) in
       Acquire (is_dir s) lockPath (lock_tries s)), s).

Definition Run (args : list str) : Cmd Z :=
  match args with
  | [] => printUsage
  | verb :: rest =>
      if negb (streq verb "user") then printUsage
      else
        match tryExtractConfigOption rest with
        | None => fail "--config requires a path."
        | Some (rest, explicitConfigPath) =>
            loaded ← loadConfig (config_path explicitConfigPath);
            match loaded with
            | Err e => fail ("Configuration error: " ++ e)
            | Ok cfg =>
                lockHandle ← acquire_lock cfg;
                match lockHandle with
                | Err e => fail ("Unable to acquire users file lock: " ++ e)
                | Ok false => fail "Another TextCascade CLI process is running."
                | Ok true => dispatch rest cfg
                end
            end
        end
  end.
End Commands.
