(* ===== verification/CliSpec.v ===== *)
(** * What the administration commands promise

    Abstractly the users file is a watermark and a table of accounts, and a command is one of five edits of
    it. [dispatch_refines] shows that the commands of [Cli] implement the edits, all or nothing; over sequences of
    commands it gives that a revoked or deleted user's tokens stay dead. *)
From S2P Require Import Prelude GoLib GoTime JsonScan Config Users Logic Crypto Token Argon2 Lock Cli.

(** ** The abstract users file *)

Record Accounts := { watermark : Z; accounts : gmap str UserRecord }.

Definition accounts_of (f : UsersFile) : Accounts :=
  {| watermark := NextTokenVersion f; accounts := BuildLookup f |}.

Inductive Edit :=
| Add (name hash : str) | SetHash (name hash : str) | SetDisabled (name : str) (b : bool)
| Delete (name : str) | Revoke (name : str).

Definition with_accounts (a : Accounts) (m : gmap str UserRecord) : Accounts :=
  {| watermark := watermark a; accounts := m |}.

Definition apply_edit (e : Edit) (a : Accounts) : option Accounts :=
  match e with
  | Add name hash =>
      match accounts a !! name with
      | Some _ => None
      | None =>
          let u := {| Username := name; PasswordHash := hash; TokenVersion := watermark a; Disabled := false |} in
          Some {| watermark := watermark a + 1; accounts := <[name := u]> (accounts a) |}
      end
  | SetHash name hash =>
      u ← accounts a !! name; Some (with_accounts a (<[name := set_hash hash u]> (accounts a)))
  | SetDisabled name b =>
      u ← accounts a !! name; Some (with_accounts a (<[name := set_disabled b u]> (accounts a)))
  | Delete name => u ← accounts a !! name; Some (with_accounts a (delete name (accounts a)))
  | Revoke name =>
      u ← accounts a !! name;
      Some {| watermark := watermark a + 1; accounts := <[name := set_version (watermark a) u]> (accounts a) |}
  end.

(** ** The table of a list of records *)

Definition table (us : list UserRecord) : gmap str UserRecord :=
  BuildLookup {| NextTokenVersion := 0; Users := us |}.

Lemma table_lookup us name u : NoDup (Username <$> us) ->
  table us !! name = Some u <-> u ∈ us /\ Username u = name.
Proof. intros H. by apply BuildLookup_spec. Qed.

Lemma names_middle us1 u us2 : NoDup (Username <$> us1 ++ u :: us2) <->
  NoDup (Username <$> us1 ++ us2) /\ (forall v, v ∈ us1 ++ us2 -> Username v <> Username u).
Proof.
  rewrite (Permutation_app_comm us1 (u :: us2)). cbn [app].
  rewrite fmap_cons, list.NoDup_cons, (Permutation_app_comm us2 us1), list_elem_of_fmap.
  split; [intros [Hn Hd]; split; [done|]; intros v Hv Heq; apply Hn; eauto|].
  intros [Hd Hn]; split; [|done]. intros (v & Heq & Hv). by apply (Hn v).
Qed.

Lemma table_middle us1 u us2 : NoDup (Username <$> us1 ++ u :: us2) ->
  table (us1 ++ u :: us2) = <[Username u := u]> (table (us1 ++ us2)) /\
  table (us1 ++ us2) !! Username u = None.
Proof.
  intros Hnd. pose proof (proj1 (names_middle _ _ _) Hnd) as [Hnd' Hfresh]. split.
  - apply map_eq. intros name. apply option_eq. intros v. rewrite table_lookup by done.
    rewrite lookup_insert_Some, table_lookup, !elem_of_app, elem_of_cons by done.
    setoid_rewrite elem_of_app in Hfresh. split; [|naive_solver].
    intros [[Hv|[->|Hv]] <-]; [right|by left|right]; (split; [apply not_eq_sym, Hfresh|]; tauto).
  - apply eq_None_not_Some. intros [v Hv]. apply table_lookup in Hv as [Hv Heq]; [|done].
    by apply (Hfresh v).
Qed.

Lemma index_in_Some us name : forall i, index_in us name = Some i ->
  exists us1 u us2, us = us1 ++ u :: us2 /\ i = length us1 /\ Username u = name.
Proof.
  induction us as [|u us IH]; intros i; cbn [index_in]; [done|]. case_bool_decide as E.
  - intros [= <-]. by exists [], u, us.
  - intros (j & Hj & ->)%fmap_Some. apply IH in Hj as (us1 & v & us2 & -> & -> & Hv).
    by exists (u :: us1), v, us2.
Qed.

Lemma alter_middle {A} (g : A -> A) l1 x l2 : alter g (length l1) (l1 ++ x :: l2) = l1 ++ g x :: l2.
Proof. induction l1 as [|y l1 IH]; simpl; [done|]. f_equal. apply IH. Qed.

Lemma cut_middle {A} (l1 : list A) x l2 :
  take (length l1) (l1 ++ x :: l2) ++ drop (S (length l1)) (l1 ++ x :: l2) = l1 ++ l2.
Proof. induction l1 as [|y l1 IH]; simpl; [done|]. f_equal. exact IH. Qed.

(** Replacing the record of a name, and removing it. *)
Lemma table_replace us1 u us2 v : NoDup (Username <$> us1 ++ u :: us2) -> Username v = Username u ->
  table (us1 ++ v :: us2) = <[Username u := v]> (table (us1 ++ u :: us2)).
Proof.
  intros Hnd Hv. destruct (table_middle _ _ _ Hnd) as [-> _].
  assert (Hnd' : NoDup (Username <$> us1 ++ v :: us2)).
  { apply names_middle in Hnd as [? ?]. apply names_middle. rewrite Hv. done. }
  destruct (table_middle _ _ _ Hnd') as [-> _]. by rewrite Hv, insert_insert_eq.
Qed.

Lemma table_remove us1 u us2 : NoDup (Username <$> us1 ++ u :: us2) ->
  table (us1 ++ us2) = delete (Username u) (table (us1 ++ u :: us2)).
Proof. intros [-> Hn]%table_middle. by rewrite delete_insert_id. Qed.

Lemma table_has us1 u us2 : NoDup (Username <$> us1 ++ u :: us2) ->
  table (us1 ++ u :: us2) !! Username u = Some u.
Proof. intros [-> _]%table_middle. by rewrite lookup_insert_eq. Qed.

Lemma table_add us u : NoDup (Username <$> us) -> (forall v, v ∈ us -> Username v <> Username u) ->
  table (us ++ [u]) = <[Username u := u]> (table us) /\ table us !! Username u = None.
Proof.
  intros Hnd Hn. pose proof (table_middle us u []) as H. rewrite app_nil_r in H. apply H.
  apply names_middle. by rewrite app_nil_r.
Qed.

(** ** Running a command *)

(** What a command leaves: the files untouched unless it exits with [Ok], and then the edit it denotes
    (none for the commands that only read). *)
Definition refines (path : str) (f : UsersFile) (e : option Edit) (s : Shell) (out : panics Z * Shell) : Prop :=
  (out.1 <> Ok exit_Ok -> disk out.2 = disk s) /\
  (out.1 = Ok exit_Ok ->
   match e with
   | None => disk out.2 = disk s
   | Some e => exists f', storable_file f' /\ apply_edit e (accounts_of f) = Some (accounts_of f') /\
                          disk out.2 = <[path := Contents (marshalUsersFile f')]> (disk s)
   end).

(** The password a command reads. *)
Definition supplied (args : list str) (s : Shell) : option str :=
  if hasPasswordStdin args then
    let line := TrimRight_crlf (ReadString (piped s)).1 in if is_empty line then None else Some line
  else match typed s with Ok password :: _ => Some password | _ => None end.

Lemma refines_fail path f e s s' t : disk s' = disk s -> refines path f e s (fail t s').
Proof. intros H. split; [by intros _|done]. Qed.

Lemma refines_panic path f e s s' v : disk s' = disk s -> refines path f e s (Err v, s').
Proof. intros H. split; [by intros _|done]. Qed.

Lemma refines_read path f s s' code : disk s' = disk s -> refines path f None s (Ok code, s').
Proof. intros H. split; by intros _. Qed.

(** The end of an editing command. *)
Lemma refines_save path f f' e s s' report : disk s' = disk s ->
  typed_file f' -> Forall (fun u => Valid (Username u) = true) (Users f') ->
  (valid_file f' -> apply_edit e (accounts_of f) = Some (accounts_of f')) ->
  refines path f (Some e) s (save_and_report path f' report s').
Proof.
  intros Hd Ht Hu Hedit. unfold save_and_report, mbind, Cmd_bind, save at 1.
  destruct (Save f') as [text|err] eqn:E; [|by apply refines_fail].
  destruct (write_error s'); [by apply refines_fail|].
  apply Save_Ok in E as [Hf ->]. split; [done|]. intros _. exists f'. split; [by split|].
  split; [by apply Hedit|]. cbn. by rewrite Hd.
Qed.

Lemma readPassword_eq prompt args s : exists r s', readPassword prompt args s = (Ok r, s') /\
  disk s' = disk s /\ (forall password, r = Ok password -> supplied args s = Some password).
Proof.
  unfold readPassword, supplied, mbind, Cmd_bind.
  destruct (hasPasswordStdin args).
  - destruct (ReadString (piped s)) as [line found] eqn:E. cbn [fst].
    destruct (negb found && is_empty line).
    { eexists _, _. split; [reflexivity|]. done. }
    destruct (is_empty (TrimRight_crlf line)); eexists _, _; (split; [reflexivity|]); [done|].
    split; [done|]. by intros password [= <-].
  - exists (hd (Err "EOF") (typed s)). eexists. split; [reflexivity|]. split; [done|]. intros password.
    destruct (typed s) as [|[p|e] ts]; cbn; by intros [= ->].
Qed.

Lemma loadForWrite_eq path f s : Load (disk s path) = Ok f -> loadForWrite path s = (Ok f, s).
Proof.
  intros H. unfold loadForWrite, read_file, mbind, Cmd_bind.
  destruct (disk s path); cbn [Load] in H; [by simplify_eq|done|]. unfold must, Load. by rewrite H.
Qed.

Lemma bind_eq {A B} (m : Cmd A) (k : A -> Cmd B) s a s' : m s = (Ok a, s') -> (mbind k m) s = k a s'.
Proof. intros H. unfold mbind, Cmd_bind. by rewrite H. Qed.

Lemma must_eq {A B} (r : result str A) (k : A -> Cmd B) s :
  (mbind k (must r)) s = match r with Ok a => k a s | Err e => (Err e, s) end.
Proof. by destruct r. Qed.

Lemma from_panics_eq {A B} (r : panics A) (k : A -> Cmd B) s :
  (mbind k (from_panics r)) s = match r with Ok a => k a s | Err e => (Err e, s) end.
Proof. by destruct r. Qed.

(** Step over a password prompt: its panic, or the password and the state after. *)
Ltac step_password pw s' Hd Hpw :=
  match goal with
  | |- context [mbind _ (readPassword ?p ?a) ?s] =>
      let r := fresh "r" in let Hr := fresh "Hr" in let E := fresh "E" in
      destruct (readPassword_eq p a s) as (r & s' & E & Hd & Hr);
      rewrite (bind_eq _ _ _ _ _ E), must_eq; clear E;
      destruct r as [pw|pw]; [pose proof (Hr _ eq_refl) as Hpw|apply refines_panic; congruence]; clear Hr
  end.

Ltac step_load H := rewrite (bind_eq _ _ _ _ _ (loadForWrite_eq _ _ _ H)).

(** The fields of a file stay in range and UTF-8 when one record is replaced, removed or added. *)
Definition fit_file (f : UsersFile) : Prop :=
  typed_file f /\ Forall (fun u => Valid (Username u) = true) (Users f).

Lemma fit_middle next us1 us us2 :
  in_int64 next -> Forall (fun u => in_int64 (TokenVersion u) /\ Valid (Username u) = true) (us1 ++ us ++ us2) ->
  fit_file {| NextTokenVersion := next; Users := us1 ++ us ++ us2 |}.
Proof. intros Hn [Ht Hu]%list.Forall_and. by split; [split|]. Qed.

Lemma storable_fit f : storable_file f ->
  in_int64 (NextTokenVersion f) /\
  Forall (fun u => in_int64 (TokenVersion u) /\ Valid (Username u) = true) (Users f).
Proof. intros [_ [Hn Ht] Hu]. split; [done|]. by apply list.Forall_and. Qed.

(** One record of a storable file replaced by [v], with the watermark [next]. *)
Lemma fit_replace f us1 u us2 next v : storable_file f -> Users f = us1 ++ u :: us2 ->
  in_int64 next -> in_int64 (TokenVersion v) -> Username v = Username u ->
  fit_file {| NextTokenVersion := next; Users := us1 ++ v :: us2 |}.
Proof.
  intros [_ Hf]%storable_fit Hus Hn Hv Hname. rewrite Hus in Hf.
  apply Forall_app in Hf as [H1 H2]. apply list.Forall_cons in H2 as [[_ Hu] H2].
  apply (fit_middle next us1 [v] us2 Hn). apply Forall_app. split; [done|]. constructor; [|done].
  by rewrite Hname.
Qed.

Lemma accounts_middle f us1 u us2 : storable_file f -> Users f = us1 ++ u :: us2 ->
  NoDup (Username <$> us1 ++ u :: us2) /\ accounts (accounts_of f) = table (us1 ++ u :: us2).
Proof. intros [[_ Hnd _] _ _] Hus. rewrite <- Hus. by split. Qed.

Lemma too_high_range f : storable_file f -> too_high (NextTokenVersion f) = false ->
  incrementWatermark (NextTokenVersion f) = Ok (NextTokenVersion f + 1) /\
  in_int64 (NextTokenVersion f) /\ in_int64 (NextTokenVersion f + 1).
Proof.
  intros [Hn _]%storable_fit [H1 H2]%orb_false_iff. unfold incrementWatermark. rewrite H2.
  unfold in_int64, MinInt64, MaxInt64 in *. split; [done|]. lia.
Qed.

Section Commands_refine.
Context `{PasswordHasher} (salt : str) (cfg : RuntimeConfig) (f : UsersFile) (s : Shell).
#[local] Abbreviation path := (Config.UsersFile (Files cfg)).
Hypothesis loaded : Load (disk s path) = Ok f.

Lemma loaded_storable : storable_file f.
Proof. by eapply Load_storable. Qed.

(** The hash a command puts into the file. *)
Definition new_hash (args : list str) : option str :=
  password ← supplied args s;
  match Hash salt password (createArgon2Params cfg) with Ok hash => Some hash | Err _ => None end.

(** The edit a command line denotes. *)
Definition denotes (rest : list str) : option Edit :=
  let name := (tryGetOption rest "username").1 in
  match rest with
  | [] => None
  | command :: _ =>
      if streq command "add" then Add name <$> new_hash rest
      else if streq command "passwd" then SetHash name <$> new_hash rest
      else if streq command "disable" then Some (SetDisabled name true)
      else if streq command "enable" then Some (SetDisabled name false)
      else if streq command "delete" then Some (Delete name)
      else if streq command "revoke-tokens" then Some (Revoke name)
      else None
  end.

(** An edit of the record of a name in place. *)
Lemma refines_replace g next name report e s' index : disk s' = disk s ->
  indexOfUser f name = Some index -> in_int64 next ->
  (forall u, Username (g u) = Username u /\ (in_int64 (TokenVersion u) -> in_int64 (TokenVersion (g u)))) ->
  (forall a u, watermark a = NextTokenVersion f -> accounts a !! name = Some u ->
     apply_edit e a = Some {| watermark := next; accounts := <[name := g u]> (accounts a) |}) ->
  refines path f (Some e) s (save_and_report path
    {| NextTokenVersion := next; Users := alter g index (Users f) |} report s').
Proof using loaded.
  intros Hd (us1 & u & us2 & Hus & -> & Hname)%index_in_Some Hn Hg Hedit.
  pose proof loaded_storable as Hf. destruct (Hg u) as [Hgn Hgv].
  destruct (accounts_middle f us1 u us2 Hf Hus) as [Hnd Hacc]. rewrite Hus, alter_middle.
  assert (Hu : in_int64 (TokenVersion u)).
  { apply storable_fit in Hf as [_ Hf]. rewrite Hus, list.Forall_forall in Hf. apply Hf. set_solver. }
  destruct (fit_replace f us1 u us2 next (g u) Hf Hus Hn (Hgv Hu) Hgn) as [Ht H8].
  apply refines_save; [done|done|done|]. intros _.
  rewrite (Hedit (accounts_of f) u); [|done|rewrite Hacc, <- Hname; by apply table_has].
  f_equal. unfold accounts_of at 2. f_equal. rewrite Hacc, <- Hname. symmetry. by apply table_replace.
Qed.

Lemma next_int64 : in_int64 (NextTokenVersion f).
Proof using loaded. apply storable_fit, loaded_storable. Qed.

Lemma commandSetDisabled_refines args b :
  refines path f (Some (SetDisabled (tryGetOption args "username").1 b)) s (commandSetDisabled args b cfg s).
Proof using loaded.
  unfold commandSetDisabled.
  destruct (tryGetOption args "username") as [name [|]]; cbn [negb fst]; [|by apply refines_fail].
  step_load loaded. destruct (indexOfUser f name) as [index|] eqn:Hi; [|by apply refines_fail].
  eapply refines_replace; [done|done|apply next_int64|done|].
  intros a u Hw Ha. cbn [apply_edit]. rewrite Ha. by rewrite <- Hw.
Qed.

Lemma commandPasswd_refines args :
  refines path f (SetHash (tryGetOption args "username").1 <$> new_hash args) s (commandPasswd salt args cfg s).
Proof using loaded.
  unfold commandPasswd.
  destruct (tryGetOption args "username") as [name [|]]; cbn [negb fst]; [|by apply refines_fail].
  step_load loaded. destruct (indexOfUser f name) as [index|] eqn:Hi; [|by apply refines_fail].
  step_password pw s' Hd Hpw. rewrite from_panics_eq.
  destruct (Hash salt pw _) as [h|e] eqn:Eh; [|by apply refines_panic].
  assert (new_hash args = Some h) as -> by (unfold new_hash; rewrite Hpw; cbn; by rewrite Eh).
  eapply refines_replace; [done|done|apply next_int64|done|].
  intros a u Hw Ha. cbn [apply_edit]. rewrite Ha. by rewrite <- Hw.
Qed.

Lemma commandRevokeTokens_refines args :
  refines path f (Some (Revoke (tryGetOption args "username").1)) s (commandRevokeTokens args cfg s).
Proof using loaded.
  unfold commandRevokeTokens.
  destruct (tryGetOption args "username") as [name [|]]; cbn [negb fst]; [|by apply refines_fail].
  step_load loaded. destruct (indexOfUser f name) as [index|] eqn:Hi; [|by apply refines_fail].
  destruct (too_high (NextTokenVersion f)) eqn:Et; [by apply refines_fail|].
  destruct (too_high_range f loaded_storable Et) as (-> & Hn & Hn'). rewrite must_eq.
  eapply refines_replace; [done|done|done|done|].
  intros a u Hw Ha. cbn [apply_edit]. rewrite Ha. by rewrite <- Hw.
Qed.

Lemma commandDeleteUser_refines args :
  refines path f (Some (Delete (tryGetOption args "username").1)) s (commandDeleteUser args cfg s).
Proof using loaded.
  unfold commandDeleteUser.
  destruct (tryGetOption args "username") as [name [|]]; cbn [negb fst]; [|by apply refines_fail].
  step_load loaded. destruct (indexOfUser f name) as [index|] eqn:Hi; [|by apply refines_fail].
  apply index_in_Some in Hi as (us1 & u & us2 & Hus & -> & <-). pose proof loaded_storable as Hf.
  destruct (accounts_middle f us1 u us2 Hf Hus) as [Hnd Hacc]. rewrite Hus, cut_middle.
  destruct (fit_middle (NextTokenVersion f) us1 [] us2) as [Ht H8]; [apply next_int64| |].
  { apply storable_fit in Hf as [_ Hf]. rewrite Hus in Hf. apply Forall_app in Hf as [? Hf].
    apply list.Forall_cons in Hf as [_ ?]. by apply Forall_app. }
  apply refines_save; [done|done|done|]. intros _. cbn [apply_edit]. rewrite Hacc, table_has by done.
  cbn. f_equal. unfold accounts_of, with_accounts. cbn [watermark NextTokenVersion]. f_equal.
  symmetry. by apply table_remove.
Qed.

Lemma exists_name us name :
  existsb (fun user => bool_decide (Username user = name)) us = false <-> forall v, v ∈ us -> Username v <> name.
Proof.
  induction us as [|u us IH]; cbn [existsb]; [set_solver|]. rewrite orb_false_iff, IH, bool_decide_eq_false.
  setoid_rewrite elem_of_cons. naive_solver.
Qed.

Lemma add_refines name hash s' report : disk s' = disk s -> Valid name = true ->
  (forall v, v ∈ Users f -> Username v <> name) -> too_high (NextTokenVersion f) = false ->
  let added := {| Username := name; PasswordHash := hash; TokenVersion := NextTokenVersion f; Disabled := false |} in
  refines path f (Some (Add name hash)) s (save_and_report path
    {| NextTokenVersion := NextTokenVersion f + 1; Users := Users f ++ [added] |} report s').
Proof using loaded.
  intros Hd H8 Hnew Et added. pose proof loaded_storable as Hf.
  destruct (too_high_range f Hf Et) as (_ & Hn & Hn').
  destruct (table_add (Users f) added) as [Htab Hnone]; [apply Hf|done|].
  destruct (fit_middle (NextTokenVersion f + 1) (Users f) [added] []) as [Ht Hu]; [done| |].
  { rewrite app_nil_r. apply Forall_app. split; [by apply storable_fit|]. by constructor. }
  rewrite app_nil_r in Ht, Hu. apply refines_save; [done|done|done|].
  intros _. cbn [apply_edit accounts accounts_of]. change (BuildLookup f) with (table (Users f)).
  change (Username added) with name in Hnone, Htab. rewrite Hnone. unfold accounts_of.
  cbn [watermark NextTokenVersion]. f_equal. f_equal. symmetry. exact Htab.
Qed.

Lemma commandAddUser_refines args : Valid (tryGetOption args "username").1 = true ->
  refines path f (Add (tryGetOption args "username").1 <$> new_hash args) s (commandAddUser salt args cfg s).
Proof using loaded.
  intros H8. unfold commandAddUser.
  destruct (tryGetOption args "username") as [name [|]]; cbn [negb fst] in *; [|by apply refines_fail].
  step_password pw s1 Hd Hpw.
  assert (Hconf : exists r s2, (if negb (hasPasswordStdin args)
     then c ← readPassword "Confirm: " args; must c else mret pw) s1 = (r, s2) /\ disk s2 = disk s).
  { destruct (negb _); [|by eexists _, _]. destruct (readPassword_eq "Confirm: " args s1) as (r & s2 & E & Hd2 & _).
    unfold mbind, Cmd_bind. rewrite E. destruct r; eexists _, _; (split; [reflexivity|congruence]). }
  destruct Hconf as ([confirm|e] & s2 & E & Hd2);
    [rewrite (bind_eq _ _ _ _ _ E)|unfold mbind at 1, Cmd_bind at 1; rewrite E; by apply refines_panic].
  destruct (negb (streq pw confirm)); [by apply refines_fail|].
  assert (Hload : Load (disk s2 path) = Ok f) by congruence. step_load Hload.
  destruct (existsb _ _) eqn:Ex; [by apply refines_fail|].
  rewrite from_panics_eq.
  destruct (Hash salt pw _) as [h|e] eqn:Eh; [|by apply refines_panic].
  assert (new_hash args = Some h) as -> by (unfold new_hash; rewrite Hpw; cbn; by rewrite Eh).
  destruct (too_high (NextTokenVersion f)) eqn:Et; [by apply refines_fail|].
  destruct (too_high_range f loaded_storable Et) as (-> & _ & _). rewrite must_eq.
  apply add_refines; [done|done|by apply exists_name|done].
Qed.

Lemma print_users_eq us : forall s0, exists s1, print_users us s0 = (Ok tt, s1) /\ disk s1 = disk s0.
Proof.
  induction us as [|u us IH]; intros s0; [by eexists|]. cbn [print_users].
  exact (IH (Println (user_line u) s0).2).
Qed.

Lemma commandListUsers_refines : refines path f None s (commandListUsers cfg s).
Proof using loaded.
  unfold commandListUsers. step_load loaded.
  set (s2 := (Println "username,disabled,tokenVersion"
                (Println ("nextTokenVersion: " ++ FormatInt (NextTokenVersion f)) s).2).2).
  change (refines path f None s ((print_users (Users f) ;; mret exit_Ok) s2)).
  destruct (print_users_eq (Users f) s2) as (s1 & E & Hd). rewrite (bind_eq _ _ _ _ _ E). by apply refines_read.
Qed.

Lemma commandHashPassword_refines args : refines path f None s (commandHashPassword salt args cfg s).
Proof.
  unfold commandHashPassword. step_password pw s' Hd Hpw. rewrite from_panics_eq.
  destruct (Hash salt pw _); [by apply refines_read|by apply refines_panic].
Qed.

Lemma tryGetOption_Valid rest name : Forall (fun a => Valid a = true) rest ->
  Valid (tryGetOption rest name).1 = true.
Proof.
  unfold tryGetOption. induction 1 as [|a rest Ha Hrest IH]; [done|]. cbn [option_loop].
  destruct rest as [|v rest]; [done|]. case_bool_decide; [|exact IH]. by apply list.Forall_cons in Hrest as [? _].
Qed.

Lemma dispatch_refines rest : Forall (fun a => Valid a = true) rest ->
  refines path f (denotes rest) s (dispatch salt rest cfg s).
Proof using loaded.
  intros H8%(fun H => tryGetOption_Valid rest "username" H). destruct rest as [|command rest]; [done|].
  unfold dispatch, denotes.
  repeat match goal with |- context [streq command ?c] => destruct (streq command c) end;
  first [split; done|solve [auto using commandAddUser_refines, commandPasswd_refines, commandSetDisabled_refines,
    commandDeleteUser_refines, commandRevokeTokens_refines, commandListUsers_refines, commandHashPassword_refines]].
Qed.
End Commands_refine.

(** ** Sequences of commands *)

(** Every version below [bound] is dead for [name]. *)
Definition retired (name : str) (bound : Z) (a : Accounts) : Prop :=
  bound <= watermark a /\ forall u, accounts a !! name = Some u -> bound <= TokenVersion u.

Lemma exit_dec (r : panics Z) : r = Ok exit_Ok \/ r <> Ok exit_Ok.
Proof. destruct r as [c|]; [destruct (Z.eq_dec c exit_Ok); [left|right]; congruence|by right]. Qed.

Lemma apply_edit_retired e a b name bound :
  apply_edit e a = Some b -> retired name bound a -> retired name bound b.
Proof.
  intros He [Hw Hu]. destruct e; cbn [apply_edit] in He.
  1: destruct (accounts a !! _); [done|].
  2-5: destruct (accounts a !! _) as [u0|] eqn:E; cbn in He; [|done].
  all: injection He as <-; (split; cbn; [lia|]); intros u Hl;
    try (apply lookup_delete_Some in Hl as [? Hl]); try apply lookup_insert_Some in Hl as [[-> <-]|[? Hl]];
    cbn; auto.
Qed.

(** After a revocation or a deletion everything issued so far is dead. *)
Lemma apply_edit_retires e a b name : apply_edit e a = Some b -> e = Revoke name \/ e = Delete name ->
  retired name (watermark a) b.
Proof.
  intros He [-> | ->]; cbn [apply_edit] in He; destruct (accounts a !! name); cbn in He; simplify_eq;
    (split; cbn; [lia|]); intros u' Hl; [|by rewrite lookup_delete_eq in Hl].
  rewrite lookup_insert_eq in Hl. by simplify_eq.
Qed.

Section Sequences.
Context `{PasswordHasher} (path : str).

(** What a sequence of commands on one users file makes of it, each with any arguments, configuration,
    input, salt and failures. *)
Inductive commands : FileRead -> FileRead -> Prop :=
| commands_none d : commands d d
| commands_more salt rest cfg s r s' d :
    Config.UsersFile (Files cfg) = path -> Forall (fun a => Valid a = true) rest ->
    dispatch salt rest cfg s = (r, s') -> commands (disk s' path) d -> commands (disk s path) d.

Lemma dispatch_step salt rest cfg s r s' f :
  Config.UsersFile (Files cfg) = path -> Forall (fun a => Valid a = true) rest ->
  dispatch salt rest cfg s = (r, s') -> Load (disk s path) = Ok f ->
  exists f', Load (disk s' path) = Ok f' /\
    (r = Ok exit_Ok -> match denotes salt cfg s rest with
                       | Some e => apply_edit e (accounts_of f) = Some (accounts_of f')
                       | None => f' = f end) /\
    (r <> Ok exit_Ok -> f' = f).
Proof.
  intros Hp H8 E Hl. subst path. pose proof (dispatch_refines salt cfg f s Hl rest H8) as [Hbad Hgood].
  rewrite E in Hbad, Hgood. cbn [fst snd] in *.
  destruct (exit_dec r) as [Hr|Hr]; [specialize (Hgood Hr)|by exists f; rewrite Hbad].
  destruct (denotes _ _ _ _) as [e|]; [|by exists f; rewrite Hgood].
  destruct Hgood as (f' & Hf' & He & Hd). exists f'. rewrite Hd, fn_lookup_insert, Load_marshal by done.
  by repeat split.
Qed.

Lemma commands_retired d d' : commands d d' -> forall f f' name bound,
  Load d = Ok f -> retired name bound (accounts_of f) -> Load d' = Ok f' -> retired name bound (accounts_of f').
Proof.
  induction 1 as [d|salt rest cfg s r s' d Hp H8 E _ IH]; intros f f' name bound Hf Hr Hf'; [rewrite Hf in Hf'; by simplify_eq|].
  destruct (dispatch_step _ _ _ _ _ _ _ Hp H8 E Hf) as (f1 & Hf1 & Hok & Hko).
  apply (IH f1); [done| |done].
  destruct (exit_dec r) as [Hc|Hc]; [specialize (Hok Hc)|by rewrite (Hko Hc)].
  destruct (denotes _ _ _ _) as [e|]; [by eapply apply_edit_retired|by subst].
Qed.
End Sequences.

(** ** Properties *)

(** C14: Every administration command is all or nothing: from a users file that loads, a command line whose
    arguments are UTF-8 leaves every file byte for byte as it was unless it exits with 0, and then the users
    file loads to exactly the edit the command denotes (a new account at the watermark, a new hash, a flag,
    a removal, a version taken from the watermark) and no other file changes; [list] and [hash] change nothing. *)
Theorem cli_refines_edits `{PasswordHasher} salt cfg f s rest r s' :
  Forall (fun a => Valid a = true) rest -> Load (disk s (Config.UsersFile (Files cfg))) = Ok f ->
  dispatch salt rest cfg s = (r, s') ->
  (r <> Ok exit_Ok -> disk s' = disk s) /\
  (r = Ok exit_Ok ->
   match denotes salt cfg s rest with
   | None => disk s' = disk s
   | Some e => exists f', Load (disk s' (Config.UsersFile (Files cfg))) = Ok f' /\
       apply_edit e (accounts_of f) = Some (accounts_of f') /\
       (forall other, other <> Config.UsersFile (Files cfg) -> disk s' other = disk s other)
   end).
Proof.
  intros H8 Hl E. destruct (dispatch_refines salt cfg f s Hl rest H8) as [Hbad Hgood].
  rewrite E in Hbad, Hgood. split; [exact Hbad|]. intros Hr. specialize (Hgood Hr).
  destruct (denotes _ _ _ _); [|done]. destruct Hgood as (f' & Hf' & He & Hd). cbn [snd] in Hd.
  exists f'. rewrite Hd, fn_lookup_insert. split; [by apply Load_marshal|]. split; [done|].
  intros other Hne. by rewrite fn_lookup_insert_ne by done.
Qed.

(** A hasher that takes a password to a fixed hash, a configuration and a shell with [sample_users] on disk. *)
#[local] Instance fixed_hasher : PasswordHasher := {
  Hash := fun _ _ _ => Ok (PasswordHash sample_user); Verify := fun _ _ => Ok true; NeedsRehash := fun _ _ => false }.

Definition sample_shell : Shell :=
  mkShell (fun path => if bool_decide (path = "users.json"%go) then Contents (marshalUsersFile sample_users) else Absent)
    ("secret" ++ nl) [] None (Ok "/srv") (fun _ => true) [TryLocked] [] [].

Definition revoke_ann : list str := ["revoke-tokens"; "--username"; "ann"].
Definition add_bob : list str := ["add"; "--username"; "bob"; "--password-stdin"].

(** A whole run of the program on a file without users: the account, the file and the answer. *)
Example add_first_user :
  let out := Run [] (fun _ => Err "no parser") (fun _ => []) ("user" :: add_bob)
               (mkShell (fun _ => Absent) ("secret" ++ nl) [] None (Ok "/srv") (fun _ => true) [TryLocked] [] []) in
  out.1 = Ok exit_Ok /\ stdout out.2 = "Added user bob (tokenVersion 1)." ++ nl /\
  Load (disk out.2 "users.json") =
    Ok {| NextTokenVersion := 2;
          Users := [{| Username := "bob"; PasswordHash := PasswordHash sample_user; TokenVersion := 1;
                       Disabled := false |}] |}.
Proof. vm_compute. done. Qed.

(** Names that are not UTF-8 are rewritten on the way to the file: two of them can become the same name, and
    the file the second command writes does not load any more. *)
Example invalid_names_collide :
  let add name s := (dispatch [] ["add"; "--username"; name; "--password-stdin"] Defaults s) in
  let s1 := (add [xff] sample_shell).2 in let out := add [xfe] s1 in
  out.1 = Ok exit_Ok /\ Load (disk out.2 "users.json") = Err "Usernames must be non-empty and unique.".
Proof. vm_compute. done. Qed.

Lemma cli_refines_edits_witness :
  let out := dispatch [] add_bob Defaults sample_shell in
  let e := Add "bob" (PasswordHash sample_user) in
  exists f', Load (disk out.2 "users.json") = Ok f' /\
    apply_edit e (accounts_of sample_users) = Some (accounts_of f') /\
    (forall other, other <> "users.json"%go -> disk out.2 other = disk sample_shell other).
Proof.
  refine (proj2 (cli_refines_edits [] Defaults sample_users sample_shell add_bob _ _ _ _
                   (surjective_pairing _)) _); [repeat constructor|vm_compute; reflexivity|vm_compute; reflexivity].
Defined.

(** C15: Revocation is permanent: once [revoke-tokens] or [delete] succeeded for a user, then after any further
    commands (deleting and re-creating the user included), a server that loads the file accepts no token of that
    user with a version issued before: every accepted token's version is at least the watermark of that time. *)
Theorem revocation_permanent `{PasswordHasher} salt cfg f s rest name s' d f' secret token now p :
  Forall (fun a => Valid a = true) rest -> Load (disk s (Config.UsersFile (Files cfg))) = Ok f ->
  denotes salt cfg s rest = Some (Revoke name) \/ denotes salt cfg s rest = Some (Delete name) ->
  dispatch salt rest cfg s = (Ok exit_Ok, s') ->
  commands (Config.UsersFile (Files cfg)) (disk s' (Config.UsersFile (Files cfg))) d -> Load d = Ok f' ->
  TryVerifyToken secret token now (BuildLookup f') = Some p -> Subject p = name ->
  NextTokenVersion f <= tok_Version p.
Proof.
  intros H8 Hl Hden E Hrun Hf' Hv Hname.
  destruct (dispatch_step _ _ _ _ _ _ _ _ eq_refl H8 E Hl) as (f1 & Hf1 & Hok & _). specialize (Hok eq_refl).
  assert (Hret : retired name (watermark (accounts_of f)) (accounts_of f1)).
  { destruct Hden as [Hden|Hden]; rewrite Hden in Hok; eapply apply_edit_retires; eauto. }
  destruct (commands_retired _ _ _ Hrun _ _ _ _ Hf1 Hret Hf') as [_ Hu].
  apply verify_spec in Hv as (_ & payload & _ & _ & _ & _ & _ & u & Hu' & _ & <-).
  apply Hu. cbn. by rewrite <- Hname.
Qed.

Definition revoked_ann : UserRecord := set_version 3 sample_user.
Definition revoked_users : UsersFile := {| NextTokenVersion := 4; Users := [revoked_ann] |}.

Lemma revocation_permanent_witness :
  let s1 := (dispatch [] revoke_ann Defaults sample_shell).2 in
  let s2 := (dispatch [] ["enable"; "--username"; "ann"] Defaults s1).2 in
  exists tok, Create sample_secret revoked_ann sample_now (24 * Hour) = Ok tok /\
    TryVerifyToken sample_secret (CompactToken tok) sample_now (BuildLookup revoked_users) = Some (tok_Payload tok) /\
    Load (disk s2 "users.json") = Ok revoked_users /\ 3 <= tok_Version (tok_Payload tok).
Proof.
  set (s1 := (dispatch [] revoke_ann Defaults sample_shell).2).
  set (s2 := (dispatch [] ["enable"; "--username"; "ann"] Defaults s1).2).
  assert (Hl : Load (disk s2 "users.json") = Ok revoked_users) by (vm_compute; reflexivity).
  assert (Ht : exists tok, Create sample_secret revoked_ann sample_now (24 * Hour) = Ok tok /\ len (CompactToken tok) <= 8192)
    by (eexists; split; [reflexivity|vm_compute; discriminate]).
  destruct Ht as (tok & Ht & Hlen). exists tok. split; [exact Ht|].
  assert (Hv : TryVerifyToken sample_secret (CompactToken tok) sample_now (BuildLookup revoked_users) = Some (tok_Payload tok)).
  { apply (issued_verify sample_secret revoked_ann sample_now (24 * Hour) tok sample_now
        (BuildLookup revoked_users) _ eq_refl ltac:(discriminate) ltac:(split; [reflexivity|discriminate])
        eq_refl ltac:(discriminate) ltac:(discriminate) Ht).
    split; [done|]. split; [done|]. split; [reflexivity|]. exists revoked_ann.
    split; [vm_compute; reflexivity|split; reflexivity]. }
  assert (Hp : Subject (tok_Payload tok) = "ann").
  { apply (Create_spec sample_secret revoked_ann sample_now (24 * Hour)) in Ht as (_ & _ & -> & _);
      [reflexivity|reflexivity|discriminate|split; [reflexivity|discriminate]|reflexivity|discriminate|discriminate].
      }
  split; [exact Hv|]. split; [exact Hl|].
  apply (revocation_permanent [] Defaults sample_users sample_shell revoke_ann "ann"
           s1 (disk s2 "users.json") revoked_users sample_secret (CompactToken tok) sample_now
           (tok_Payload tok)
           ltac:(repeat constructor) ltac:(vm_compute; reflexivity) (or_introl eq_refl)); [| |exact Hl|exact Hv|exact Hp].
  - etransitivity; [apply surjective_pairing|]. apply (f_equal (fun x => (x, s1))). vm_compute. reflexivity.
  - eapply (commands_more _ [] ["enable"; "--username"; "ann"] Defaults _ _
              (dispatch [] ["enable"; "--username"; "ann"] Defaults (dispatch [] revoke_ann Defaults sample_shell).2).2);
      [reflexivity|repeat constructor|apply surjective_pairing|constructor].
Defined.
