(* ===== verification/Logging.v ===== *)
(** * The structured log (internal/logging/security.go)

    Redaction of security events and the text of a log line. The writer and its lock are
    outside the model: [Handle] is the text it writes. *)
From S2P Require Import Prelude GoLib GoTime.

(** A logged value, Go's [any]; an instant, and a value of another type, come with the
    text [fmt.Sprint] gives them. *)
Inductive any :=
| AString (s : str) | ABool (b : bool) | AInt (n : Z) | AUint (n : Z) | ATime (t : Time) (printed : str) | ANil
| AOther (printed : str).

Abbreviation field := (str * any)%type.

(** ** Lines *)

Definition LevelInfo : Z := 0.
Definition LevelWarn : Z := 4.
Definition LevelError : Z := 8.

Definition Enabled (level : Z) : bool := LevelInfo <=? level.

Definition levelName (level : Z) : str :=
  if LevelError <=? level then "error" else if LevelWarn <=? level then "warn"
  else if LevelInfo <=? level then "info" else "debug".

Definition formatValue (v : any) : str :=
  match v with
  | AString s => s
  | ABool b => FormatBool b
  | AInt n => FormatInt n
  | AUint n => FormatUint n
  | ATime t _ => format_seconds t ++ "Z"
  | ANil => "<nil>"
  | AOther printed => printed
  end.

(** [fmt.Sprint]. *)
Definition Sprint (v : any) : str :=
  match v with ATime _ printed => printed | _ => formatValue v end.

(** The distinct names in order of first occurrence, and the last value of a name. *)
Fixpoint first_names (seen : list str) (attrs : list field) : list str :=
  match attrs with
  | [] => []
  | (k, _) :: attrs' =>
      if bool_decide (k ∈ seen) then first_names seen attrs' else k :: first_names (k :: seen) attrs'
  end.
Definition byName (attrs : list field) : gmap str any := foldl (fun m a => <[a.1 := a.2]> m) ∅ attrs.

(** [sort.Strings] of distinct names. *)
Fixpoint insert_sorted (s : str) (l : list str) : list str :=
  match l with
  | [] => [s]
  | t :: l' => if str_ltb s t then s :: l else t :: insert_sorted s l'
  end.
Definition sort_strings (l : list str) : list str := foldr insert_sorted [] l.

Record LogRecord := { r_Time : Time; r_Level : Z; r_Message : str; r_Attrs : list field }.

(** The handler is its own attributes. *)
Definition WithAttrs (h attrs : list field) : list field := h ++ attrs.

Definition Handle (h : list field) (r : LogRecord) : str :=
  let attrs := h ++ r_Attrs r in
  format_seconds (r_Time r) ++ "Z " ++ levelName (r_Level r) ++ " " ++ r_Message r ++
  mjoin ((fun name => " " ++ name ++ "=" ++ formatValue (default ANil (byName attrs !! name)))
         <$> sort_strings (first_names [] attrs)) ++ [x0a].

(** ** Redaction *)

Definition secret_keys : list str := ["password"; "token"; "secret"; "authorization"; "passwordHash"].
Definition sized_keys : list str := ["payload"; "hash"].

Definition RedactSensitive (key value : str) : str :=
  if is_empty value then value
  else if bool_decide (key ∈ secret_keys ++ sized_keys) then "<redacted>" else value.

Definition redact_value (f : field) : any :=
  let '(key, v) := f in
  if bool_decide (key ∈ secret_keys) then AString "<redacted>"
  else if bool_decide (key ∈ sized_keys) then
    match v with
    | AString text => AString ("<" ++ FormatInt (len text) ++ " chars>")
    | _ => AString "<redacted>"
    end
  else
    match v with
    | AString text => AString (RedactSensitive key text)
    | ANil => AString "<null>"
    | _ => AString (Sprint v)
    end.

(** A key seen before keeps its place and takes the later value. *)
Fixpoint put (pairs : list field) (key : str) (v : any) : list field :=
  match pairs with
  | [] => [(key, v)]
  | (k, old) :: pairs' => if bool_decide (k = key) then (k, v) :: pairs' else (k, old) :: put pairs' key v
  end.

Definition RedactFields (fields : list field) : list field :=
  foldl (fun pairs f => put pairs f.1 (redact_value f)) [] fields.

Definition SecurityEvent (h : list field) (now : Time) (eventName : str) (fields : list field) : str :=
  Handle h {| r_Time := now; r_Level := LevelInfo; r_Message := "security_event " ++ eventName;
              r_Attrs := RedactFields fields |}.

Definition TokenPrefix (token : str) : str :=
  if is_empty token then []
  else if len token <=? 8 then replicate (length token) "*"%byte else take 8 token.

Example event_line :
  SecurityEvent [] (utc (1760000000 * Second)) "login"
    [("username", AString "ann"); ("password", AString "pw"); ("payload", AString "secret text")] =
  "2025-10-09T08:53:20Z info security_event login password=<redacted> payload=<11 chars> username=ann" ++ [x0a].
Proof. vm_compute. done. Qed.

(** A line end inside a value ends the line: what follows reads as a line of its own. *)
Example forged_line :
  SecurityEvent [] (utc 0) "login" [("username", AString ("x" ++ [x0a] ++ "1970-01-01T00:00:00Z info fake"))] =
  "1970-01-01T00:00:00Z info security_event login username=x" ++ [x0a] ++ "1970-01-01T00:00:00Z info fake" ++ [x0a].
Proof. vm_compute. done. Qed.

(** ** Lemmas *)

Lemma put_elem pairs key v k x : (k, x) ∈ put pairs key v ->
  (k = key /\ x = v) \/ (k <> key /\ (k, x) ∈ pairs) \/ (k = key /\ key ∈ pairs.*1 /\ (k, x) ∈ pairs /\ ~ NoDup pairs.*1).
Proof.
  induction pairs as [|[k0 old] pairs IH]; simpl; [set_solver|].
  case_bool_decide as E.
  - subst k0. intros [[= -> ->]|Hin]%elem_of_cons; [by left|]. destruct (decide (k = key)) as [->|Hne]; [|set_solver].
    right. right. split; [done|]. split; [set_solver|]. split; [by apply elem_of_cons; right|].
    rewrite list.NoDup_cons. intros [Hno _]. apply Hno. by apply (list_elem_of_fmap_2 fst) in Hin.
  - intros [[= -> ->]|Hin]%elem_of_cons; [set_solver|].
    apply IH in Hin as [?|[?|(? & ? & ? & Hnd)]]; [by left|set_solver|].
    right. right. split; [done|]. split; [set_solver|]. split; [set_solver|].
    rewrite list.NoDup_cons. intros [_ Hnd']. by apply Hnd.
Qed.

Lemma put_keys pairs key v : (put pairs key v).*1 = if bool_decide (key ∈ pairs.*1) then pairs.*1 else pairs.*1 ++ [key].
Proof.
  induction pairs as [|[k0 old] pairs IH]; [done|]. cbn [put].
  change (((k0, old) :: pairs).*1) with (k0 :: pairs.*1). destruct (decide (k0 = key)) as [<-|Hne].
  - by rewrite !bool_decide_eq_true_2 by (done || constructor).
  - rewrite (bool_decide_eq_false_2 (k0 = key)) by done.
    change (((k0, old) :: put pairs key v).*1) with (k0 :: (put pairs key v).*1). rewrite IH.
    rewrite (bool_decide_ext (key ∈ k0 :: pairs.*1) (key ∈ pairs.*1)) by (rewrite elem_of_cons; naive_solver).
    by case_bool_decide.
Qed.

Lemma put_NoDup pairs key v : NoDup pairs.*1 -> NoDup (put pairs key v).*1.
Proof.
  intros H. rewrite put_keys. case_bool_decide; [done|]. apply list.NoDup_app. split; [done|].
  split; [set_solver|]. apply NoDup_singleton.
Qed.

(** Every field of the result is the redaction of a field given, under a key that occurs once. *)
Lemma RedactFields_spec fields : NoDup (RedactFields fields).*1 /\
  forall k x, (k, x) ∈ RedactFields fields -> exists v, (k, v) ∈ fields /\ x = redact_value (k, v).
Proof.
  unfold RedactFields. rewrite <- (rev_involutive fields). generalize (rev fields) as l. clear fields.
  induction l as [|[key v] l [IH1 IH2]]; [split; [constructor|set_solver]|].
  cbn [rev]. rewrite foldl_app. cbn [foldl fst]. split; [by apply put_NoDup|].
  intros k x H. apply put_elem in H as [[-> ->]|[[_ H]|(_ & _ & _ & Hnd)]]; [|apply IH2 in H|done]; set_solver.
Qed.

(** Two values an observer of the log must not tell apart under key [k]: any two for a key that names a secret,
    texts of the same length for a clip's payload or hash. The keys are written out here, not taken from the code. *)
Definition masked (k : str) (v v' : any) : Prop :=
  v = v' \/ k ∈ ["password"%go; "token"%go; "secret"%go; "authorization"%go; "passwordHash"%go] \/
  (k ∈ ["payload"%go; "hash"%go] /\ exists t t', v = AString t /\ v' = AString t' /\ len t = len t').

Definition masked_field (f f' : field) : Prop := f.1 = f'.1 /\ masked f.1 f.2 f'.2.

Lemma redact_masked f f' : masked_field f f' -> redact_value f = redact_value f'.
Proof.
  destruct f as [k v], f' as [k' v']. intros [Hk Hm]; simpl in *. subst k'.
  destruct Hm as [-> | [Hs | (Hs & t & t' & -> & -> & Hl)]]; [done| |].
  - unfold redact_value. by rewrite bool_decide_eq_true_2.
  - unfold redact_value. destruct (bool_decide (k ∈ secret_keys)); [done|].
    rewrite bool_decide_eq_true_2 by done. by rewrite Hl.
Qed.

(** ** Properties *)

(** C31: Nothing secret reaches the log: two events that differ only in the values of secret keys
    (password, token, secret, authorization, passwordHash) or in the texts of payload and hash fields of
    equal length are written as the same line, whatever the handler's own attributes. *)
Theorem redaction_noninterference h now event fields fields' :
  Forall2 masked_field fields fields' ->
  SecurityEvent h now event fields = SecurityEvent h now event fields'.
Proof.
  intros H. unfold SecurityEvent. do 2 f_equal. unfold RedactFields. generalize (@nil field) as acc.
  induction H as [|f f' fs fs' Hf Hfs IH]; intros acc; [done|]. cbn [foldl].
  rewrite (redact_masked f f') by done. destruct Hf as [-> _]. apply IH.
Qed.

Lemma redaction_noninterference_witness :
  SecurityEvent [] (utc 0) "login" [("username"%go, AString "ann"); ("password"%go, AString "one")] =
  SecurityEvent [] (utc 0) "login" [("username"%go, AString "ann"); ("password"%go, AString "another")].
Proof.
  apply redaction_noninterference. constructor; [split; [done|by left]|].
  constructor; [split; [done|]|constructor]. right. left. by apply elem_of_cons; left.
Defined.
