(* ===== verification/Hosting.v ===== *)
(** * Connections of the host (internal/hosting/connection.go, endpoint.go, scanner.go, watcher.go)

    A connection's life as atomic events: the first frame, then one read-loop iteration per
    incoming frame, the send loop taking frames from the queue, the sync upgrade, the scan
    and the reload of the users. The socket is outside the model: what arrives is an
    argument, what is written directly (not through the send queue) is returned. *)
From S2P Require Import Prelude GoLib GoTime JsonScan Config Protocol Serialize Logic Ring Bucket Users Store Models World.
From S2P Require Import Crypto Token Hub HubSpec Sync SyncSpec.

(** ** Frames *)

(** One result of [Read]: the bytes read and the error that came with them. *)
Inductive ReadErr := EOF | ReadFailed.
Definition Read : Type := str * option ReadErr.

Inductive FrameErr := errFrameTooLarge | errCanceled | errSocket.

(** [readAllLimited] over the results the reader gives; [None] while it still waits for one. *)
Fixpoint readAllLimited (reads : list Read) (maxBytes : Z) (payload : str) : option (result FrameErr str) :=
  match reads with
  | [] => None
  | (chunk, err) :: reads' =>
      if (0 <? len chunk) && (maxBytes <? len payload + len chunk) then Some (Err errFrameTooLarge)
      else
        let payload := payload ++ chunk in
        match err with
        | None => readAllLimited reads' maxBytes payload
        | Some EOF => Some (Ok payload)
        | Some ReadFailed => Some (Err errSocket)
        end
  end.

(** What [NextReader] gives: the peer's close frame, another error, or a message. *)
Inductive Incoming := InClose | InError | InMessage (reads : list Read).

(** [receiveFrameChecked], given whether the context was done when [NextReader] returned; a
    reader that gives no result any more counts as a socket error. *)
Definition receiveFrameChecked (incoming : Incoming) (maxBytes : Z) (done : bool) : result FrameErr Frame :=
  match incoming with
  | InClose => Ok {| frame_Type := FrameClose; frame_Payload := [] |}
  | InError => if done then Err errCanceled else Err errSocket
  | InMessage reads =>
      if done then Err errCanceled
      else
        match readAllLimited reads maxBytes [] with
        | Some (Ok payload) => Ok {| frame_Type := FrameData; frame_Payload := payload |}
        | Some (Err e) => Err e
        | None => Err errSocket
        end
  end.

(** What is written to the socket directly. *)
Inductive SocketWrite := WriteData (bytes : str) | WriteClose (code : Z) (reason : str).

Definition CloseNormalClosure : Z := 1000.
Definition ClosePolicyViolation : Z := 1008.
Definition CloseMessageTooBig : Z := 1009.

Definition frame_too_large : Error := mkError ErrFrameTooLarge "frame_too_large" None.
Definition unsolicited_pong : Error :=
  mkError ErrInvalidMessage "Pong received without an outstanding ping." None.

(** ** After the hello *)

Definition sendSafe (c : loc) (payload : str) : M unit :=
  queued ← bag_do c (TryEnqueueSend payload);
  if negb queued then EnqueueImmediateClose c "server_busy" else mret tt.

(** A message that parsed; a second hello is ignored. *)
Definition handle_message (c : loc) (m : Message) : M unit :=
  conn ← get_conn c;
  match m with
  | KindHello _ => mret tt
  | KindClip clip =>
      match conn_hub conn with
      | None => server_CancelConnection c "user_loop_unavailable"
      | Some h =>
          decision ← ClassifyClip h clip c;
          match decision with
          | DecisionQueueFull => server_CancelConnection c "recovery_queue_full"
          | DecisionProcessNow =>
              ok ← TryWriteJob h (ClipJob c clip);
              if negb ok then server_CancelConnection c "user_loop_unavailable" else mret tt
          | DecisionQueued => mret tt
          end
      end
  | KindPong pong =>
      taken ← bag_do c TryTakePongAwaiting;
      if negb taken then sendSafe c (MarshalError unsolicited_pong)
      else
        match conn_hub conn with
        | None => server_CancelConnection c "user_loop_unavailable"
        | Some h =>
            ok ← TryWriteJob h (PongJob c pong);
            if negb ok then server_CancelConnection c "user_loop_unavailable" else mret tt
        end
  end.

Section Read_loop.
(** What the log prints for the method value that the code logs as the error code. *)
Context (code_value : str).

Definition reject_event (c : Connection) (bytes : Z) : LogEntry :=
  SecurityEvent "reject" [("username", LStr (conn_Username c)); ("code", LStr code_value); ("bytes", LInt bytes)].

(** One iteration of [readLoop]: whether it goes on, and the direct writes. [done] tells
    whether the context was done when the frame arrived. *)
Definition read_iteration (c : loc) (incoming : Incoming) (done : bool) : M (bool * list SocketWrite) :=
  conn ← get_conn c;
  if cancelled (State conn) || closed (State conn) then mret (false, [])
  else
    config ← gets cfg;
    match receiveFrameChecked incoming (MaxFrameBytes (Limits config)) done with
    | Err errFrameTooLarge =>
        sendSafe c (MarshalError frame_too_large) ;;
        after ← get_conn c;
        server_CancelConnection c "frame_too_large" ;;
        mret (false, if closed (State after) then [] else [WriteClose CloseMessageTooBig "frame_too_large"])
    | Err _ => mret (false, [])
    | Ok frame =>
        match frame_Type frame with
        | FrameClose => mret (false, [WriteClose CloseNormalClosure "client_closed"])
        | FrameData =>
            if negb (CheckFrameSize (len (frame_Payload frame)) config) then
              sendSafe c (MarshalError frame_too_large) ;;
              server_CancelConnection c "frame_too_large" ;;
              mret (false, [WriteClose CloseMessageTooBig "frame_too_large"])
            else
              match ParseClientMessage (frame_Payload frame) config with
              | Err e =>
                  log (reject_event conn (len (frame_Payload frame))) ;;
                  sendSafe c (MarshalError e) ;;
                  mret (true, [])
              | Ok m => handle_message c m ;; mret (true, [])
              end
        end
    end.

(** [readLoop] over the frames that arrive; leaving it signals that the peer is gone. *)
Fixpoint readLoop (c : loc) (arrivals : list (Incoming * bool)) : M (list SocketWrite) :=
  match arrivals with
  | [] => mret []
  | (incoming, done) :: arrivals' =>
      step ← read_iteration c incoming done;
      let '(go_on, wrote) := (step : bool * list SocketWrite) in
      if go_on then rest ← readLoop c arrivals'; mret (wrote ++ rest)
      else modify_conn c (with_State SignalPeerGone) ;; mret wrote
  end.

(** The reading goroutine: the loop, then the clean-up (the send loop has ended). *)
Definition reader (c : loc) (arrivals : list (Incoming * bool)) : M (list SocketWrite) :=
  wrote ← readLoop c arrivals;
  server_CancelConnection c "disconnected" ;;
  mret wrote.
End Read_loop.

(** What one turn of [sendLoop] comes to. *)
Inductive SendTurn := SendWaits | SendWrote (bytes : str) | SendEnds.

(** One turn of [sendLoop]. When the context is done and a frame is there, [select] takes either: [preferDone] tells
    which; [written] tells whether the write succeeds. Leaving the loop signals that the peer is gone. *)
Definition sendLoop_turn (c : loc) (preferDone written : bool) : M SendTurn :=
  conn ← get_conn c;
  let ready := 0 <? len (sendCh (State conn)) in
  if cancelled (State conn) && (preferDone || negb ready) then
    modify_conn c (with_State SignalPeerGone) ;; mret SendEnds
  else
    received ← bag_do c ReceiveSend;
    match received with
    | None => mret SendWaits
    | Some bytes =>
        if (written : bool) then mret (SendWrote bytes)
        else modify_conn c (with_State SignalPeerGone) ;; mret SendEnds
    end.

(** ** Before the hello *)

(** The two flags tell whether the direct writes succeed. *)
Definition sendAndClosePreHello (c : loc) (errorBytes : str) (closeCode : Z) (reason : str)
  (dataWritten closeWritten : bool) : M (list SocketWrite) :=
  conn ← get_conn c;
  (if closed (State conn) then mret tt
   else if negb dataWritten then EnqueueImmediateClose c "server_busy"
   else if negb closeWritten then EnqueueImmediateClose c "server_busy"
   else mret tt) ;;
  server_CancelConnection c reason ;;
  mret (if closed (State conn) then []
        else if negb dataWritten then [WriteData errorBytes]
        else [WriteData errorBytes; WriteClose closeCode reason]).

Definition expected_hello (referenceID : option str) : Error :=
  mkError ErrInvalidMessage "Expected a valid hello message." referenceID.

Definition connect_event (c : Connection) : LogEntry :=
  SecurityEvent "connect" [("username", LStr (conn_Username c)); ("clientId", LStr (conn_ClientID c));
    ("connectionId", LStr (conn_ID c))].

(** The connection that takes over after the hello, at a fresh location. *)
Definition promote (provisional fresh : loc) (subject : str) (hello : ClientHello) (wall : Time) : M unit :=
  started ← GetOrCreateHub subject;
  let h := (started : loc * bool).1 in
  config ← gets cfg;
  p ← get_conn provisional;
  modify_conn fresh (fun _ => NewConnection (conn_ID p) subject (hello_ClientID hello) (hello_ClientName hello) config wall) ;;
  modify_conn fresh (AttachHub h) ;;
  AddConnection h fresh ;;
  conn ← get_conn fresh;
  log (connect_event conn) ;;
  modify_conn fresh (with_State (SetHelloReceived true)) ;;
  modify_conn fresh (with_State (SetLastSeen wall)) ;;
  UnregisterPendingHello provisional ;;
  ok ← TryWriteJob h (HelloJob fresh hello);
  if negb ok then server_CancelConnection fresh "user_loop_unavailable" else mret tt.

(** [RunConnection] up to the start of the two loops; [true] when they start. *)
Definition RunConnection (provisional fresh : loc) (subject : str) (incoming : Incoming) (done : bool)
  (dataWritten closeWritten : bool) (wall : Time) : M (bool * list SocketWrite) :=
  RegisterPendingHello provisional ;;
  config ← gets cfg;
  match receiveFrameChecked incoming (MaxFrameBytes (Limits config)) done with
  | Err errFrameTooLarge =>
      wrote ← sendAndClosePreHello provisional (MarshalError frame_too_large) CloseMessageTooBig "frame_too_large"
                dataWritten closeWritten;
      mret (false, wrote)
  | Err errCanceled => server_CancelConnection provisional "cancelled" ;; mret (false, [])
  | Err errSocket => server_CancelConnection provisional "socket_error" ;; mret (false, [])
  | Ok frame =>
      match frame_Type frame with
      | FrameClose =>
          server_CancelConnection provisional "closed" ;;
          mret (false, [WriteClose CloseNormalClosure "client_closed"])
      | FrameData =>
          let refuse referenceID :=
            wrote ← sendAndClosePreHello provisional (MarshalError (expected_hello referenceID)) ClosePolicyViolation
                      "invalid_hello" dataWritten closeWritten;
            mret (false, wrote) in
          match ParseClientMessage (frame_Payload frame) config with
          | Err e => refuse (ReferenceID e)
          | Ok (KindHello hello) => promote provisional fresh subject hello wall ;; mret (true, [])
          | Ok _ => refuse None
          end
      end
  end.

(** ** The sync endpoint *)

Inductive Upgrade := Refused (status : Z) | UpgradeFailed | Upgraded (payload : TokenPayload).

Definition subProtocolName : str := "textcascade.v1".

Definition selectSubprotocol (offered : list str) : str :=
  if bool_decide (subProtocolName ∈ offered) then subProtocolName else [].

(** [HandleSync] up to [RunConnection]; whether the request asks for an upgrade, the offered
    sub-protocols and whether the upgrade succeeds come from the websocket library. *)
Definition HandleSync (config : RuntimeConfig) (lookup : gmap str UserRecord) (now : Time)
  (tokenHeader : str) (isUpgrade : bool) (offered : list str) (upgradeOk : bool) : Upgrade :=
  if negb (HasPrefix tokenHeader "Bearer ") then Refused 401
  else
    let compactToken := drop (length ("Bearer "%go)) tokenHeader in
    match NewTokenService (TokenSecret config) with
    | Err _ => Refused 401
    | Ok secret =>
        match TryVerifyToken secret compactToken now lookup with
        | None => Refused 401
        | Some payload =>
            if negb isUpgrade then Refused 400
            else if is_empty (selectSubprotocol offered) then Refused 400
            else if upgradeOk then Upgraded payload else UpgradeFailed
        end
    end.

(** ** The scanner *)

Definition scan (now : Time) : M unit :=
  ScanHeartbeats now ;;
  start ← gets server_start;
  config ← gets cfg;
  if Before now (Add start (duration (SnapshotWindowSeconds (Limits config)) Second)) then mret tt
  else
    all ← All;
    for_each all (fun h => CloseRecoveryWindow h now).

(** One tick of [RunScanner]: a panic of the scan is logged and the ticker goes on. *)
Definition scanner_tick (now : Time) : M unit :=
  try_recover (scan now) (fun e => log (LogError "Heartbeat scan failed." e)).

(** ** Reloading the users *)

Definition reloaded_message (f : Users.UsersFile) : str :=
  "Users file reloaded. users=" ++ FormatInt (len (Users.Users f)).
Definition reload_failed_message (path e : str) : str :=
  "Users file reload failed; retaining previous users. path=" ++ path ++ " error=" ++ e.

(** The first attempt that loads, of at most [attempts]; else the last error. *)
Fixpoint first_load (attempts : nat) (loads : list (result str Users.UsersFile)) (lastError : option str)
  : result (option str) Users.UsersFile :=
  match attempts, loads with
  | S n, Ok f :: _ => Ok f
  | S n, Err e :: loads' => first_load n loads' (Some e)
  | _, _ => Err lastError
  end.

(** [reload] over what the attempts to load the file give. *)
Definition reload (usersPath : str) (loads : list (result str Users.UsersFile)) : M unit :=
  match first_load 3 loads None with
  | Ok f => ReplaceUserLookup f ;; log (LogInfo (reloaded_message f))
  | Err (Some e) => log (LogWarn (reload_failed_message usersPath e))
  | Err None => mret tt
  end.

(** ** Reading: lemmas *)

Lemma readAllLimited_chunks chunks last max : forall payload, len payload <= max ->
  readAllLimited (map (fun chunk => (chunk, None)) chunks ++ [(last, Some EOF)]) max payload =
  Some (if len (payload ++ mjoin chunks ++ last) <=? max then Ok (payload ++ mjoin chunks ++ last)
        else Err errFrameTooLarge).
Proof.
  assert (Hstep : forall payload chunk : str, len payload <= max ->
    (0 <? len chunk) && (max <? len payload + len chunk) = negb (len (payload ++ chunk) <=? max)).
  { intros payload chunk Hp. rewrite len_app. pose proof (len_nonneg chunk). zcase; try done; lia. }
  induction chunks as [|chunk chunks IH]; intros payload Hp; cbn [map app readAllLimited]; rewrite Hstep by done.
  - cbn [mjoin list_join app]. destruct (_ <=? max); done.
  - destruct (len (payload ++ chunk) <=? max) eqn:E; cbn [negb].
    + rewrite IH by lia. change (mjoin (chunk :: chunks)) with (chunk ++ mjoin chunks). by rewrite <- !app_assoc.
    + change (mjoin (chunk :: chunks)) with (chunk ++ mjoin chunks). rewrite <- app_assoc, app_assoc, len_app.
      bool_to_prop. pose proof (len_nonneg (mjoin chunks ++ last)). by rewrite (proj2 (Z.leb_gt _ _)) by lia.
Qed.

(** A frame read is within the limit: the loop's own size check fires only for the empty frame. *)
Lemma readAllLimited_bound reads max : forall payload p, len payload <= max ->
  readAllLimited reads max payload = Some (Ok p) -> len p <= max.
Proof.
  induction reads as [|[chunk err] reads IH]; intros payload p Hp; cbn [readAllLimited]; [done|].
  destruct (_ && _) eqn:E; [done|].
  assert (len (payload ++ chunk) <= max).
  { rewrite len_app. pose proof (len_nonneg chunk). apply andb_false_iff in E.
    rewrite !Z.ltb_ge in E. lia. }
  destruct err as [[]|]; [naive_solver|done|]. by apply IH.
Qed.

(** ** The host keeps the server's invariant *)

Lemma safe_bag_TryEnqueueSend c p : safe (bag_do c (TryEnqueueSend p)).
Proof. apply safe_bag_do. intros s. apply TryEnqueueSend_ok. Qed.

Lemma safe_get_conn c : safe (get_conn c).
Proof. apply safe_gets. Qed.

Lemma safe_ret_unit : safe (mret tt).
Proof. apply safe_ret. Qed.

#[local] Hint Resolve safe_get_conn safe_ret_unit server_CancelConnection_safe EnqueueImmediateClose_safe
  safe_bag_TryEnqueueSend : go.

(** Peel one operation of a sequence whose parts are safe everywhere. *)
Ltac peel_safe :=
  repeat first
    [ progress intros
    | apply safe_if
    | lazymatch goal with |- safe (_ ≫= _) => apply safe_bind; [auto with go|intros] end
    | solve [auto with go] ].

Lemma sendSafe_safe c p : safe (sendSafe c p).
Proof. unfold sendSafe. peel_safe. Qed.

#[local] Hint Resolve sendSafe_safe : go.

Lemma TryTakePongAwaiting_safe c : safe (bag_do c TryTakePongAwaiting).
Proof. apply safe_bag_do. intros s [? ?]. unfold TryTakePongAwaiting. by destruct (negb _). Qed.

Lemma handle_message_safe c m : safe (handle_message c m).
Proof.
  assert (Hjob : forall h job, job_ok job -> safe (ok ← TryWriteJob h job;
    if negb ok then server_CancelConnection c "user_loop_unavailable" else mret tt)).
  { intros h job Hj. apply safe_bind; [by apply TryWriteJob_safe|]. intros. peel_safe. }
  unfold handle_message. apply safe_bind; [auto with go|intros conn]. destruct m as [hello|clip|pong].
  - apply safe_ret.
  - destruct (conn_hub conn) as [h|]; [|auto with go]. apply safe_bind; [apply ClassifyClip_safe|].
    intros []; [apply safe_ret|by apply Hjob|auto with go].
  - apply safe_bind; [apply TryTakePongAwaiting_safe|]. intros taken. apply safe_if; [auto with go|].
    destruct (conn_hub conn) as [h|]; [by apply Hjob|auto with go].
Qed.

#[local] Hint Resolve handle_message_safe : go.

Lemma read_iteration_safe code c incoming done : safe (read_iteration code c incoming done).
Proof.
  unfold read_iteration. apply safe_bind; [auto with go|intros conn]. apply safe_if; [auto with go|].
  apply safe_bind; [auto with go|intros config].
  destruct (receiveFrameChecked _ _ _) as [frame|[]]; [|peel_safe..].
  destruct (frame_Type frame); [auto with go|]. apply safe_if; [peel_safe|].
  destruct (ParseClientMessage _ _); peel_safe.
Qed.

Lemma safe_SignalPeerGone c : safe (modify_conn c (with_State SignalPeerGone)).
Proof. apply safe_modify_conn. by intros conn [? ?]. Qed.

Lemma reader_safe code c arrivals : safe (reader code c arrivals).
Proof.
  unfold reader. apply safe_bind; [|intros; peel_safe].
  induction arrivals as [|[incoming done] arrivals IH]; cbn [readLoop]; [auto with go|].
  apply safe_bind; [apply read_iteration_safe|]. intros [[] wrote]; [peel_safe|].
  apply safe_bind; [apply safe_SignalPeerGone|auto with go].
Qed.

Lemma sendLoop_turn_safe c b1 b2 : safe (sendLoop_turn c b1 b2).
Proof.
  unfold sendLoop_turn. apply safe_bind; [auto with go|intros conn]. apply safe_if.
  { apply safe_bind; [apply safe_SignalPeerGone|auto with go]. }
  apply safe_bind; [apply safe_bag_do, ReceiveSend_ok|]. intros [bytes|]; [|auto with go].
  apply safe_if; [auto with go|]. apply safe_bind; [apply safe_SignalPeerGone|auto with go].
Qed.

Lemma sendAndClosePreHello_safe c bytes code reason b1 b2 : safe (sendAndClosePreHello c bytes code reason b1 b2).
Proof. unfold sendAndClosePreHello. apply safe_bind; [auto with go|intros conn]. apply safe_bind; peel_safe. Qed.

(** Finding or creating a hub neither changes the configuration nor lists a connection. *)
Lemma GetOrCreateHub_frame u w p w' : GetOrCreateHub u w = (Ok p, w') ->
  cfg w' = cfg w /\ forall c h, c ∈ connections (hubs w' h) -> c ∈ connections (hubs w h).
Proof.
  unfold GetOrCreateHub, GetOrAdd, StartIfIdle, get_hub, modify_hub, modify, lift, gets, mbind, M_bind.
  destruct (registry w !! u) as [h0|].
  - simpl. destruct (userLoopRunning (hubs w h0)); intros [= _ <-]; simpl; split; try done.
    intros c h. destruct (decide (h0 = h)) as [<-|]; [by rewrite insert_eq|by rewrite insert_ne].
  - destruct (New _ _ _ _) as [hub|e] eqn:E; [|done]. simpl. rewrite insert_eq.
    assert (Hc : connections hub = []).
    { unfold New in E. apply rbind_Ok in E as (b & _ & E). by apply rbind_Ok in E as (r & _ & [= <-]). }
    destruct (userLoopRunning hub); intros [= _ <-]; simpl; split; try done; intros c h;
      (destruct (decide (next_hub w = h)) as [<-|]; [rewrite ?insert_eq|rewrite ?insert_ne by done]; simpl;
       rewrite ?Hc; set_solver).
Qed.

Lemma promote_safe_at prov fresh subject hello wall w :
  good_name subject -> in_uint64 (LastServerVersion hello) ->
  (forall h, fresh ∉ connections (hubs w h)) -> safe_at (promote prov fresh subject hello wall) w.
Proof.
  intros Hname Hv Hfresh Hw. pose proof (w_send_capacity w Hw) as Hcap. revert Hw. unfold promote.
  apply safe_at_bind; [by apply GetOrCreateHub_safe|].
  intros [h b] w1 Hg. apply GetOrCreateHub_frame in Hg as [Hcfg Hsub]. cbn [fst].
  apply safe_at_bind; [apply safe_gets|]. intros config w2 [= <- <-]. rewrite Hcfg.
  apply safe_at_bind; [apply safe_gets|]. intros p w2 [= <- <-].
  apply safe_at_bind; [apply safe_modify_conn; intros _ _; by apply NewStateBag_ok|]. intros [] w2 [= <-].
  apply safe_at_bind; [apply safe_modify_conn; by intros conn [? ?]|]. intros [] w3 [= <-].
  apply safe_at_bind; [apply AddConnection_safe; simpl; intros Hin; by apply Hsub, Hfresh in Hin|].
  intros _ w2 _. apply safe_bind; [auto with go|intros conn]. apply safe_bind; [auto with go|intros _].
  do 2 (apply safe_bind; [apply safe_modify_conn; by intros ? [? ?]|intros _]).
  apply safe_bind; [apply safe_pending|intros _].
  apply safe_bind; [by apply TryWriteJob_safe|]. intros. peel_safe.
Qed.

Lemma RunConnection_safe_at prov fresh subject incoming done b1 b2 wall w :
  good_name subject -> (forall h, fresh ∉ connections (hubs w h)) ->
  safe_at (RunConnection prov fresh subject incoming done b1 b2 wall) w.
Proof.
  intros Hname Hfresh. unfold RunConnection. apply safe_at_bind; [apply safe_pending|]. intros [] w1 [= <-].
  apply safe_at_bind; [apply safe_gets|]. intros config w1 [= <- <-].
  set (w1 := set_pending _ w).
  assert (Hrefuse : forall bytes code reason, safe (wrote ← sendAndClosePreHello prov bytes code reason b1 b2; mret (false, wrote))).
  { intros. apply safe_bind; [apply sendAndClosePreHello_safe|auto with go]. }
  destruct (receiveFrameChecked _ _ _) as [frame|[]];
    [|apply Hrefuse|apply safe_bind; auto with go|apply safe_bind; auto with go].
  destruct (frame_Type frame); [apply safe_bind; auto with go|].
  destruct (ParseClientMessage _ _) as [[hello|clip|pong]|e] eqn:Ep; try apply Hrefuse.
  apply safe_at_bind; [|intros; apply safe_ret].
  apply promote_safe_at; [done|by eapply parse_hello_version|done].
Qed.

Lemma first_load_elem loads f : forall n e, first_load n loads e = Ok f -> Ok f ∈ loads.
Proof.
  induction loads as [|[f'|e'] loads IH]; intros [|n] e; cbn [first_load]; try done.
  - intros [= ->]. constructor.
  - intros H%IH. by constructor.
Qed.

Lemma reload_safe path loads : (forall f, Ok f ∈ loads -> good_users f) -> safe (reload path loads).
Proof.
  intros Hl. unfold reload. destruct (first_load _ _ _) as [f|[e|]] eqn:E; [|auto with go..].
  apply first_load_elem, Hl in E. apply safe_bind; [by apply ReplaceUserLookup_safe|auto with go].
Qed.

Lemma scan_safe now : safe (scan now).
Proof.
  unfold scan. apply safe_bind; [apply ScanHeartbeats_safe|intros _].
  do 2 (apply safe_bind; [auto with go|intros]). apply safe_if; [auto with go|].
  apply safe_bind; [auto with go|intros all]. apply safe_for_each. intros h. apply CloseRecoveryWindow_safe.
Qed.

Lemma scanner_tick_safe now : safe (scanner_tick now).
Proof. apply safe_try_recover; [apply scan_safe|auto with go]. Qed.

(** ** Runs of the host *)

(** What happens in the process, each as one atomic event; the clock moves between events. *)
Inductive HostEvent :=
| HClock (now : Time)
| HRun (provisional fresh : loc) (subject : str) (incoming : Incoming) (done dataWritten closeWritten : bool)
    (wall : Time)                                                    (* an upgraded connection's first frame *)
| HRead (code_value : str) (c : loc) (arrivals : list (Incoming * bool))  (* the reader to its end *)
| HFrame (code_value : str) (c : loc) (incoming : Incoming) (done : bool) (* one frame of it *)
| HSend (c : loc) (preferDone written : bool)
| HLoop (fuel : nat) (h : loc) (now : Time)
| HScan (now : Time)
| HHelloTimeout (c : loc) (errorWritten closeWritten : bool)
| HReload (path : str) (loads : list (result str Users.UsersFile))
| HBye.                                                              (* the shut-down, up to its waits *)

Definition discard {A} (m : M A) : M unit := m ;; mret tt.

Definition host_exec (e : HostEvent) : M unit :=
  match e with
  | HClock t => modify (set_clk t)
  | HRun p c u incoming done b1 b2 wall => discard (RunConnection p c u incoming done b1 b2 wall)
  | HRead code c arrivals => discard (reader code c arrivals)
  | HFrame code c incoming done => discard (read_iteration code c incoming done)
  | HSend c b1 b2 => discard (sendLoop_turn c b1 b2)
  | HLoop fuel h now => user_loop fuel h now
  | HScan now => scanner_tick now
  | HHelloTimeout c b1 b2 => closeAfterHelloTimeout c b1 b2
  | HReload path loads => reload path loads
  | HBye => discard Shutdown_bye
  end.

(** The connection made after a hello is a new object, its user one whose token was accepted, and the users
    of a reload come from a file. *)
Definition host_event_ok (w : World) (e : HostEvent) : Prop :=
  match e with
  | HRun _ fresh subject _ _ _ _ _ => good_name subject /\ forall h, fresh ∉ connections (hubs w h)
  | HReload _ loads => forall f, Ok f ∈ loads -> good_users f
  | _ => True
  end.

(** Runs: host events, the flushes of the store and the end of the shut-down. *)
Inductive host_reach (w0 : World) : World -> Prop :=
| host_start : host_reach w0 w0
| host_step w e : host_reach w0 w -> host_event_ok w e -> host_reach w0 (host_exec e w).2
| host_flush w written : host_reach w0 w -> host_reach w0 (store_flush written w).2
| host_close w written : host_reach w0 w -> host_reach w0 (Shutdown_close written w).2.

Fixpoint host_events_ok (w : World) (es : list HostEvent) : Prop :=
  match es with [] => True | e :: es' => host_event_ok w e /\ host_events_ok (host_exec e w).2 es' end.
Definition host_exec_all (es : list HostEvent) (w : World) : World := foldl (fun w e => (host_exec e w).2) w es.

Lemma host_reach_all es : forall w0 w, host_reach w0 w -> host_events_ok w es -> host_reach w0 (host_exec_all es w).
Proof.
  induction es as [|e es IH]; intros w0 w Hr He; [done|]. destruct He as [He Hes].
  apply (IH w0 (host_exec e w).2); [by constructor|done].
Qed.

Lemma discard_safe_at {A} (m : M A) w : safe_at m w -> safe_at (discard m) w.
Proof. intros Hm. apply safe_at_bind; [done|intros; apply safe_ret]. Qed.

Lemma host_exec_safe e w : host_event_ok w e -> safe_at (host_exec e) w.
Proof.
  intros He. destruct e; cbn [host_exec host_event_ok] in *; try apply discard_safe_at.
  - apply safe_clk.
  - destruct He. by apply RunConnection_safe_at.
  - apply reader_safe.
  - apply read_iteration_safe.
  - apply sendLoop_turn_safe.
  - apply user_loop_safe.
  - apply scanner_tick_safe.
  - apply closeAfterHelloTimeout_safe.
  - by apply reload_safe.
  - apply Shutdown_bye_safe.
Qed.

Lemma host_reach_ok w0 w : host_reach w0 w -> world_ok w0 -> world_ok w /\ advances w0 w.
Proof.
  intros Hr H0. induction Hr as [|w e Hr [Hw Ha] He|w b Hr [Hw Ha]|w b Hr [Hw Ha]]; [done|..].
  - destruct (host_exec_safe e w He Hw) as [? ?%grows_advances]. split; [done|by etrans].
  - destruct (store_flush_ok b w Hw). split; [done|by etrans].
  - destruct (Shutdown_close_ok b w Hw). split; [done|by etrans].
Qed.

(** ** A frame that is no message *)

(** One iteration on a data frame that does not parse, with room in the send queue. *)
Lemma read_malformed code c reads payload e w :
  closed (State (conns w c)) = false -> cancelled (State (conns w c)) = false ->
  readAllLimited reads (MaxFrameBytes (Limits (cfg w))) [] = Some (Ok payload) ->
  0 <= MaxFrameBytes (Limits (cfg w)) -> payload <> [] ->
  ParseClientMessage payload (cfg w) = Err e ->
  len (sendCh (State (conns w c))) < sendCap (State (conns w c)) ->
  read_iteration code c (InMessage reads) false w =
  (Ok (true, []),
   set_conns (<[c := with_State (set_sendCh (sendCh (State (conns w c)) ++ [MarshalError e])) (conns w c)]> (conns w))
     (set_logged (logged w ++ [reject_event code (conns w c) (len payload)]) w)).
Proof.
  intros Hcl Hca Hread Hmax Hne He Hroom.
  assert (Hsize : CheckFrameSize (len payload) (cfg w) = true).
  { apply readAllLimited_bound in Hread; [|by rewrite len_nil]. unfold CheckFrameSize.
    rewrite (proj2 (Z.leb_le _ _)), andb_true_r by done. apply Z.ltb_lt. destruct payload; [done|].
    rewrite len_cons. pose proof (len_nonneg payload). lia. }
  unfold read_iteration, receiveFrameChecked, sendSafe, bag_do, log, modify, get_conn, gets, mbind, M_bind.
  rewrite Hcl, Hca. cbn [orb]. rewrite Hread. cbn [frame_Type frame_Payload]. rewrite Hsize. cbn [negb].
  rewrite He. unfold TryEnqueueSend. cbn [conns set_logged]. rewrite (proj2 (Z.ltb_lt _ _)) by done.
  cbn [negb]. reflexivity.
Qed.

(** ** Properties *)

(** C8: The host drives the server only within its contract: whatever frames arrive on whatever connections
    (well formed or not, in any chunks), with the scans, hello timeouts, user reloads, user loops, flushes and the
    shut-down in any order and the clock moving at will between them, each event run without interruption, every
    state reached from a validated configuration satisfies the shared invariant. The parser and the making of new
    connections discharge what [server_invariant] asks of its events; what is left is that a promoted connection
    is a new object and that its user's name, and those of a reload, are names the users file can hold. *)
Theorem host_invariant c f loaded now w :
  Config.validated c -> good_users f -> storable loaded -> (forall u, in_uint64 (GetVersion loaded u)) ->
  host_reach (server_New c f loaded now) w -> world_ok w.
Proof.
  intros Hc Hf Hs Hl Hr. apply (host_reach_ok _ _ Hr). by apply server_New_ok.
Qed.

Definition hello_frame : str := jq "{`type`:`hello`,`clientId`:`c`,`lastServerVersion`:7}".

(** Two hellos of one user, the second after the recovery window, which its join closes; then the scan finds the hub. *)
Definition late_hello : list HostEvent :=
  [HRun 0 1 "ann" (InMessage [(hello_frame, Some EOF)]) false true true (utc 0); HClock (utc (9 * Second));
   HRun 2 3 "ann" (InMessage [(hello_frame, Some EOF)]) false true true (utc (9 * Second)); HScan (utc (9 * Second))].

Lemma host_invariant_witness :
  let w := host_exec_all late_hello (server_New sample_cfg sample_users ∅ (utc 0)) in
  (recoveryWindowClosed (hubs w 0) = true /\ connections (hubs w 0) = [1%nat; 3%nat]) /\ world_ok w.
Proof.
  split; [vm_compute; by split|].
  apply (host_invariant sample_cfg sample_users ∅ (utc 0)).
  - exact sample_cfg_validated.
  - by repeat constructor.
  - apply map_Forall_empty.
  - intros u. unfold GetVersion. by rewrite lookup_empty.
  - apply host_reach_all; [apply host_start|]. split; [split; [done|]|split; [done|split; [split; [done|]|by split]]].
    + intros h. simpl. apply not_elem_of_nil.
    + intros [|h] Hin; vm_compute in Hin; [|by inversion Hin].
      inversion Hin as [|? ? ? Hin']; subst. inversion Hin'.
Defined.

(** C23: A malformed message touches nothing but its sender's connection: on an open connection with room in its send
    queue, a non-empty frame that does not parse is logged as a reject and answered by the error it denotes;
    the connection stays open and reading, and no hub, no other connection, no stored version and no user changes. *)
Theorem malformed_frame_isolated code c reads payload e w :
  closed (State (conns w c)) = false -> cancelled (State (conns w c)) = false ->
  readAllLimited reads (MaxFrameBytes (Limits (cfg w))) [] = Some (Ok payload) ->
  0 <= MaxFrameBytes (Limits (cfg w)) -> payload <> [] ->
  ParseClientMessage payload (cfg w) = Err e ->
  len (sendCh (State (conns w c))) < sendCap (State (conns w c)) ->
  exists w', read_iteration code c (InMessage reads) false w = (Ok (true, []), w') /\
    hubs w' = hubs w /\ registry w' = registry w /\ versions w' = versions w /\ lookup_table w' = lookup_table w /\
    (forall c', c' <> c -> conns w' c' = conns w c') /\
    sendCh (State (conns w' c)) = sendCh (State (conns w c)) ++ [MarshalError e] /\
    closed (State (conns w' c)) = false /\
    logged w' = logged w ++ [reject_event code (conns w c) (len payload)].
Proof.
  intros Hcl Hca Hread Hmax Hne He Hroom. eexists. split; [by apply read_malformed|].
  simpl. rewrite insert_eq. repeat split; try done. intros c' Hc'. by rewrite insert_ne.
Qed.

Lemma malformed_frame_isolated_witness :
  exists w', read_iteration [] 1 (InMessage [("[]"%go, Some EOF)]) false sample_world = (Ok (true, []), w') /\
    hubs w' = hubs sample_world.
Proof.
  destruct (malformed_frame_isolated [] 1 [("[]"%go, Some EOF)] "[]"
    (match ParseClientMessage "[]" Defaults with Err e => e | Ok _ => unsolicited_pong end) sample_world)
    as (w' & E & Hh & _); try reflexivity; try discriminate. exists w'. split; [exact E|exact Hh].
Defined.

(** C24: The gate of the sync endpoint: a connection is upgraded exactly for a bearer token that verifies for the
    returned payload under the configured secret, on an upgrade request that offers the sub-protocol; without such a
    token the answer is 401 whatever else the request holds. *)
Theorem sync_gate config lookup now header isUpgrade offered upgradeOk :
  (forall payload, HandleSync config lookup now header isUpgrade offered upgradeOk = Upgraded payload <->
     exists secret token, TokenSecret config = Some secret /\ 32 <= len secret /\ header = "Bearer " ++ token /\
       TryVerifyToken secret token now lookup = Some payload /\ isUpgrade = true /\
       "textcascade.v1"%go ∈ offered /\ upgradeOk = true) /\
  ((forall secret token, TokenSecret config = Some secret -> header = "Bearer " ++ token ->
      VerifyToken secret token now lookup = false) ->
   HandleSync config lookup now header isUpgrade offered upgradeOk = Refused 401).
Proof.
  assert (Hh : forall token, drop (length ("Bearer "%go)) ("Bearer " ++ token) = token) by (intros; apply drop_app_length).
  assert (Hp : HasPrefix header "Bearer " = true -> header = "Bearer " ++ drop (length ("Bearer "%go)) header)
    by apply HasPrefix_drop.
  unfold HandleSync, selectSubprotocol. split.
  - intros payload. split.
    + intros H. destruct (HasPrefix header "Bearer ") eqn:E; cbn [negb] in H; [|done]. specialize (Hp eq_refl).
      unfold NewTokenService in H. destruct (TokenSecret config) as [secret|]; [|done].
      destruct (Z.ltb_spec (len secret) 32); [done|].
      destruct (TryVerifyToken _ _ _ _) as [p|] eqn:Ev; [|done]. destruct isUpgrade; [|done]. cbn [negb] in H.
      case_bool_decide as Ho; [|done]. change (is_empty subProtocolName) with false in H.
      destruct upgradeOk; [|done]. injection H as <-.
      exists secret, (drop (length ("Bearer "%go)) header). split_and!; (done || exact Ho).
    + intros (secret & token & Hs & Hl & -> & Hv & -> & Ho & ->). rewrite HasPrefix_app, Hs. cbn [negb].
      unfold NewTokenService. rewrite (proj2 (Z.ltb_ge _ _)) by done. rewrite Hh, Hv. cbn [negb].
      by rewrite bool_decide_eq_true_2.
  - intros Hno. destruct (HasPrefix header "Bearer ") eqn:E; cbn [negb]; [|done]. specialize (Hp eq_refl).
    unfold NewTokenService. destruct (TokenSecret config) as [secret|]; [|done].
    destruct (len secret <? 32); [done|]. specialize (Hno _ _ eq_refl Hp). unfold VerifyToken in Hno.
    destruct (TryVerifyToken _ _ _ _); done.
Qed.
