(* ===== verification/Watcher.v ===== *)
(** * The users file watcher (internal/hosting/watcher.go)

    File changes are turned into reloads: events and the polling ticker schedule a debounced callback, pending
    ones are merged, and at most one reload runs, in up to three attempts. The watcher is a transition
    system: its labels are what the goroutines, timers and the file system do, in any order; times are not modelled.
    A change says whether the file-system watcher will report it: that it reports them all is a hypothesis where it is used. *)
From S2P Require Import Prelude GoLib JsonScan Config GoTime Users Models World Sync Hosting.

(** The running reload, while [reloadQueued] is 1: its attempts so far, or its result in place. *)
Inductive Job := Idle | Attempting (loads : list (result str UsersFile)) | Applied.

Record Watcher := mkWatcher {
  usersPath : str;
  file : FileRead;            (** what reading the users file gives now *)
  notified : bool;            (** a change the file-system watcher has still to report *)
  reloadPending : bool;       (** a debounce timer is running *)
  callbacks : nat;            (** timers that fired and did not yet compare and swap [reloadQueued] *)
  job : Job;
  disposed : bool;
  server : World }.

Definition set_file (f : FileRead) (seen : bool) (w : Watcher) : Watcher :=
  mkWatcher (usersPath w) f (notified w || seen) (reloadPending w) (callbacks w) (job w) (disposed w) (server w).
Definition set_notified (b : bool) (w : Watcher) : Watcher :=
  mkWatcher (usersPath w) (file w) b (reloadPending w) (callbacks w) (job w) (disposed w) (server w).
Definition set_pending (b : bool) (n : nat) (w : Watcher) : Watcher :=
  mkWatcher (usersPath w) (file w) (notified w) b n (job w) (disposed w) (server w).
Definition set_job (n : nat) (j : Job) (s : World) (w : Watcher) : Watcher :=
  mkWatcher (usersPath w) (file w) (notified w) (reloadPending w) n j (disposed w) s.

(** [scheduleReload] up to the timer it starts. *)
Definition scheduleReload (w : Watcher) : Watcher :=
  if disposed w then w
  else if reloadPending w then w
  else set_pending true (callbacks w) w.

(** The callback under the mutex, up to its test of [disposed]. *)
Definition timer_fires (w : Watcher) : Watcher :=
  set_pending false (if disposed w then callbacks w else S (callbacks w)) w.

(** The compare-and-swap: the reload starts, or the callback ends. *)
Definition queue_reload (n : nat) (w : Watcher) : Watcher :=
  match job w with
  | Idle => set_job n (Attempting []) (server w) w
  | j => set_job n j (server w) w
  end.

(** The loop of [reload] stops at the first file that loads and after three attempts. *)
Definition finished (loads : list (result str UsersFile)) : bool := existsb is_ok loads || (3 <=? len loads).

(** [Close] up to the waiting for the event loop. *)
Definition Close (w : Watcher) : Watcher :=
  mkWatcher (usersPath w) (file w) (notified w) (reloadPending w) (callbacks w) (job w) true (server w).

Inductive label :=
| Change (d : FileRead) (seen : bool)   (** the file is replaced; an event is sent for it, or lost *)
| Notify                  (** the event loop gets the event *)
| Poll                    (** the polling ticker *)
| Fire                    (** a debounce timer *)
| Swap                    (** its callback reaches the compare-and-swap *)
| Attempt                 (** the reload reads the file *)
| Apply                   (** the reload replaces the table, or keeps it, and logs *)
| Release                 (** [reloadQueued.Store(0)] *)
| Dispose.

(** What a label does; [None] where it cannot happen. *)
Definition step (l : label) (w : Watcher) : option Watcher :=
  match l with
  | Change d seen => Some (set_file d seen w)
  | Notify => if notified w then Some (scheduleReload (set_notified false w)) else None
  | Poll => Some (scheduleReload w)
  | Fire => if reloadPending w then Some (timer_fires w) else None
  | Swap => match callbacks w with S n => Some (queue_reload n w) | O => None end
  | Attempt =>
      match job w with
      | Attempting loads =>
          if finished loads then None
          else Some (set_job (callbacks w) (Attempting (loads ++ [Load (file w)])) (server w) w)
      | _ => None
      end
  | Apply =>
      match job w with
      | Attempting loads =>
          if finished loads then
            Some (set_job (callbacks w) Applied (reload (usersPath w) loads (server w)).2 w)
          else None
      | _ => None
      end
  | Release => match job w with Applied => Some (set_job (callbacks w) Idle (server w) w) | _ => None end
  | Dispose => Some (Close w)
  end.

Fixpoint run (ls : list label) (w : Watcher) : option Watcher :=
  match ls with [] => Some w | l :: ls' => w' ← step l w; run ls' w' end.

(** ** Being up to date *)

(** The server's table is that of the file, if the file loads. *)
Definition current (w : Watcher) : Prop :=
  forall f, Load (file w) = Ok f -> lookup_table (server w) = BuildLookup f.

Definition at_rest (w : Watcher) : Prop :=
  notified w = false /\ reloadPending w = false /\ callbacks w = O /\ job w = Idle.

(** The running reload will still read the file. *)
Definition will_read (w : Watcher) : bool :=
  match job w with Attempting loads => negb (finished loads) | _ => false end.

(** What the running reload read last is what the file still holds. *)
Definition read_current (w : Watcher) : Prop :=
  match job w with
  | Attempting loads => finished loads = true /\ forall f, Load (file w) = Ok f -> first_load 3 loads None = Ok f
  | _ => False
  end.

(** A callback that finds a reload which reads no more: the change it stands for may be lost. *)
Definition dropped (l : label) (w : Watcher) : bool :=
  match l, job w with Swap, Idle => false | Swap, _ => negb (will_read w) | _, _ => false end.

Fixpoint no_drop (ls : list label) (w : Watcher) : Prop :=
  match ls with
  | [] => True
  | l :: ls' => dropped l w = false /\ forall w', step l w = Some w' -> no_drop ls' w'
  end.

(** The file-system watcher loses no event. *)
Definition reported (l : label) : Prop := match l with Change _ seen => seen = true | _ => True end.

(** ** Lemmas *)

Lemma reload_table path loads s :
  lookup_table (reload path loads s).2 =
  match first_load 3 loads None with Ok f => BuildLookup f | Err _ => lookup_table s end.
Proof. unfold reload. by destruct (first_load 3 loads None) as [f|[e|]]. Qed.

Lemma unfinished_cases loads : finished loads = false ->
  loads = [] \/ (exists e, loads = [Err e]) \/ (exists e e', loads = [Err e; Err e']).
Proof.
  unfold finished. intros [H1 H2]%orb_false_iff. destruct loads as [|[f|e] [|[f'|e'] [|x loads]]]; try done.
  - by left.
  - right; left. by exists e.
  - right; right. by exists e, e'.
  - rewrite !len_cons in H2. pose proof (len_nonneg loads). bool_to_prop. lia.
Qed.

Lemma attempt_reads loads r f : finished loads = false -> r = Ok f ->
  finished (loads ++ [r]) = true /\ first_load 3 (loads ++ [r]) None = Ok f.
Proof. intros [->|[(e & ->)|(e & e' & ->)]]%unfinished_cases ->; done. Qed.

(** Nothing more has to happen: the server is up to date, or the running reload has read the file. *)
Definition settled (w : Watcher) : Prop :=
  match job w with Attempting _ => read_current w | _ => current w end.

(** Whatever the server still misses is on its way. *)
Definition covered (w : Watcher) : Prop :=
  notified w = true \/ reloadPending w = true \/ (0 < callbacks w)%nat \/ will_read w = true \/ settled w.

(** The running reload has seen nothing but the present file. *)
Definition job_fresh (w : Watcher) : Prop :=
  match job w with
  | Idle => True
  | Attempting loads => finished loads = true -> read_current w
  | Applied => current w
  end.

Lemma schedule_covered w : disposed w = false -> covered (scheduleReload w).
Proof. intros H. unfold scheduleReload. rewrite H. destruct (reloadPending w) eqn:E; right; by left. Qed.

Lemma attempt_settles w loads : finished loads = false -> let loads' := loads ++ [Load (file w)] in
  finished loads' = true -> forall f, Load (file w) = Ok f -> first_load 3 loads' None = Ok f.
Proof. intros Hl loads' _ f Hf. by apply attempt_reads. Qed.

Lemma step_disposed l w w' : step l w = Some w' -> disposed w' = false -> disposed w = false.
Proof.
  assert (Hsch : forall v, disposed (scheduleReload v) = disposed v).
  { intros v. unfold scheduleReload. by destruct (disposed v) eqn:E, (reloadPending v). }
  assert (Hq : forall n v, disposed (queue_reload n v) = disposed v) by (intros n v; unfold queue_reload; by case_match).
  destruct l; cbn [step]; intros H Hd; repeat case_match; simplify_eq; rewrite ?Hsch, ?Hq in Hd; done.
Qed.

Lemma swap_covered n w : callbacks w = S n -> covered w -> dropped Swap w = false \/ job_fresh w ->
  covered (queue_reload n w).
Proof.
  intros Hn Hc Hd. unfold queue_reload, dropped, job_fresh, covered, will_read, settled, read_current in *.
  destruct (job w) as [|loads|] eqn:Ej; cbn.
  - do 3 right. by left.
  - destruct (finished loads) eqn:Ef; cbn in *; [|auto]. destruct Hd as [Hd|Hd]; [done|].
    do 4 right. by apply Hd.
  - destruct Hd as [Hd|Hd]; [done|]. by do 4 right.
Qed.

Lemma step_covered l w w' : reported l -> covered w -> dropped l w = false \/ job_fresh w -> disposed w' = false ->
  step l w = Some w' -> covered w'.
Proof.
  intros Hrep Hc Hd Hdis Hs. pose proof (step_disposed _ _ _ Hs Hdis) as Hdis0.
  destruct l; cbn [step] in Hs.
  - injection Hs as <-. left. cbn in Hrep |- *. by rewrite Hrep, orb_true_r.
  - destruct (notified w); [|done]. injection Hs as <-. by apply schedule_covered.
  - injection Hs as <-. by apply schedule_covered.
  - destruct (reloadPending w); [|done]. injection Hs as <-. unfold timer_fires. rewrite Hdis0.
    do 2 right. left. cbn. lia.
  - destruct (callbacks w) as [|n] eqn:En; [done|]. injection Hs as <-. by apply swap_covered.
  - destruct (job w) as [|loads|] eqn:Ej; [done| |done]. destruct (finished loads) eqn:Ef; [done|].
    injection Hs as <-.
    unfold covered, will_read, settled, read_current. cbn.
    destruct (finished (loads ++ [Load (file w)])) eqn:E; [|by do 3 right; left].
    do 4 right. split; [done|]. by apply attempt_settles.
  - destruct (job w) as [|loads|] eqn:Ej; [done| |done]. destruct (finished loads) eqn:Ef; [|done].
    injection Hs as <-.
    unfold covered, will_read, settled, read_current in *. rewrite Ej, Ef in Hc.
    destruct Hc as [?|[?|[?|[?|[_ Hr]]]]]; [by left|by right; left|by right; right; left|done|].
    do 4 right. intros f Hf. cbn [set_job server file] in *. by rewrite reload_table, (Hr f Hf).
  - destruct (job w) as [| |] eqn:Ej; [done|done|]. injection Hs as <-.
    unfold covered, will_read, settled in *. rewrite Ej in Hc. exact Hc.
  - injection Hs as <-. done.
Qed.

Lemma run_disposed ls : forall w w', run ls w = Some w' -> disposed w' = false -> disposed w = false.
Proof.
  induction ls as [|l ls IH]; intros w w'; cbn [run]; [by intros [= <-]|].
  intros (w1 & Hs & Hr)%bind_Some Hd. eapply step_disposed; eauto.
Qed.

Lemma run_covered ls : forall w w', Forall reported ls -> covered w -> no_drop ls w -> run ls w = Some w' ->
  disposed w' = false -> covered w'.
Proof.
  induction ls as [|l ls IH]; intros w w' Hrep Hc Hn Hr Hd; cbn [run no_drop] in *; [by simplify_eq|].
  apply bind_Some in Hr as (w1 & Hs & Hr). destruct Hn as [Hl Hn]. apply list.Forall_cons in Hrep as [Hrl Hrep].
  apply (IH w1); auto. eapply step_covered; eauto using run_disposed.
Qed.

Lemma rest_covered w : at_rest w -> covered w <-> current w.
Proof.
  intros (Hn & Hp & Hc & Hj). unfold covered, will_read, settled. rewrite Hn, Hp, Hc, Hj. split; [|tauto].
  intros [?|[?|[?|[?|?]]]]; try done; lia.
Qed.

(** *** Runs in which the file stays as it is *)

Definition undisturbed (l : label) : Prop := match l with Change _ _ | Dispose => False | _ => True end.

Lemma undisturbed_reported l : undisturbed l -> reported l.
Proof. by destruct l. Qed.

Lemma step_fresh l w w' : undisturbed l -> job_fresh w -> step l w = Some w' -> job_fresh w'.
Proof.
  intros Hl Hf Hs. destruct l; try done; cbn [step] in Hs.
  1-2: repeat case_match; simplify_eq; unfold scheduleReload; repeat case_match; exact Hf.
  - case_match; simplify_eq. exact Hf.
  - case_match; simplify_eq. unfold queue_reload, job_fresh, read_current in *.
    destruct (job w) eqn:Ej; cbn [set_job job file server]; [done|exact Hf|exact Hf].
  - unfold job_fresh in *. destruct (job w) as [|loads|]; [done| |done].
    destruct (finished loads) eqn:Ef; [done|]. injection Hs as <-. cbn. intros E. split; [done|].
    by apply attempt_settles.
  - unfold job_fresh, read_current in *. destruct (job w) as [|loads|] eqn:Ej; [done| |done].
    destruct (finished loads) eqn:Ef; [|done]. injection Hs as <-. destruct (Hf eq_refl) as [_ Hr].
    intros f Hload. cbn [set_job server file job] in *. by rewrite reload_table, (Hr f Hload).
  - case_match; simplify_eq. done.
Qed.

Lemma run_fresh ls : forall w w', Forall undisturbed ls -> covered w -> job_fresh w -> disposed w' = false ->
  run ls w = Some w' -> covered w'.
Proof.
  induction ls as [|l ls IH]; intros w w' Hls Hc Hf Hd Hr; cbn [run] in Hr; [by simplify_eq|].
  apply bind_Some in Hr as (w1 & Hs & Hr). apply list.Forall_cons in Hls as [Hl Hls].
  apply (IH w1); eauto using step_fresh. eapply step_covered; eauto using run_disposed, undisturbed_reported.
Qed.

Lemma undisturbed_disposed ls : forall w w', Forall undisturbed ls -> run ls w = Some w' -> disposed w' = disposed w.
Proof.
  induction ls as [|l ls IH]; intros w w' Hls Hr; cbn [run] in Hr; [by simplify_eq|].
  apply bind_Some in Hr as (w1 & Hs & Hr). apply list.Forall_cons in Hls as [Hl Hls].
  rewrite (IH w1 w' Hls Hr). clear -Hl Hs.
  destruct l; try done; cbn [step] in Hs; unfold scheduleReload, queue_reload in Hs;
    repeat case_match; simplify_eq; done.
Qed.

(** What is left to do without new events or polls: every such step makes it less. *)
Definition active (l : label) : Prop :=
  match l with Notify | Fire | Swap | Attempt | Apply | Release => True | _ => False end.

Definition work (w : Watcher) : Z :=
  (if notified w then 8 else 0) + (if reloadPending w then 7 else 0) + 6 * Z.of_nat (callbacks w) +
  match job w with
  | Idle => 0 | Applied => 1 | Attempting loads => 2 + if finished loads then 0 else 3 - len loads
  end.

Lemma work_nonneg w : 0 <= work w.
Proof.
  unfold work. destruct (notified w), (reloadPending w), (job w) as [|loads|]; try lia;
    destruct (finished loads) eqn:E; try lia; apply unfinished_cases in E as [->|[(?&->)|(?&?&->)]]; unfold len; cbn [length]; lia.
Qed.

Lemma step_work l w w' : active l -> step l w = Some w' -> work w' < work w.
Proof.
  intros Hl Hs. destruct l; try done; cbn [step] in Hs; unfold work.
  - destruct (notified w) eqn:En; [|done]. injection Hs as <-. unfold scheduleReload. cbn.
    destruct (disposed w); cbn; [lia|]. destruct (reloadPending w) eqn:Ep; cbn; rewrite ?Ep; lia.
  - destruct (reloadPending w); [|done]. injection Hs as <-. unfold timer_fires. cbn. destruct (disposed w); lia.
  - destruct (callbacks w); [done|]. injection Hs as <-. unfold queue_reload. destruct (job w);
      cbn [set_job notified reloadPending callbacks job]; [change (finished []) with false; unfold len; cbn [length]|..]; lia.
  - destruct (job w) as [|loads|]; [done| |done]. destruct (finished loads) eqn:E; [done|]. injection Hs as <-.
    cbn [set_job notified reloadPending callbacks job]. rewrite len_app. change (len [Load (file w)]) with 1.
    destruct (finished (loads ++ _)); [|lia].
    apply unfinished_cases in E as [->|[(?&->)|(?&?&->)]]; unfold len; cbn [length]; lia.
  - destruct (job w) as [|loads|]; [done| |done]. destruct (finished loads); [|done]. injection Hs as <-.
    cbn [set_job notified reloadPending callbacks job]. lia.
  - destruct (job w); [done|done|]. injection Hs as <-. cbn [set_job notified reloadPending callbacks job]. lia.
Qed.

Lemma progress w : at_rest w \/ exists l, active l /\ is_Some (step l w).
Proof.
  destruct (notified w) eqn:Hn; [right; exists Notify; cbn; rewrite Hn; eauto|].
  destruct (reloadPending w) eqn:Hp; [right; exists Fire; cbn; rewrite Hp; eauto|].
  destruct (callbacks w) eqn:Hc; [|right; exists Swap; cbn; rewrite Hc; eauto].
  destruct (job w) as [|loads|] eqn:Hj; [by left|right|right; exists Release; cbn; rewrite Hj; eauto].
  destruct (finished loads) eqn:E; [exists Apply|exists Attempt]; cbn; rewrite Hj, E; eauto.
Qed.

(** *** What has to happen

    [P] is inevitable when it holds, or a step is due and [P] is inevitable after every step that can come: the
    goroutines and timers, scheduled in any way, get there in finitely many steps and do not get stuck before. *)
Inductive inevitably (P : Watcher -> Prop) : Watcher -> Prop :=
| inevitably_now w : P w -> inevitably P w
| inevitably_later w : (exists l, active l /\ is_Some (step l w)) ->
    (forall l w', active l -> step l w = Some w' -> inevitably P w') -> inevitably P w.

Lemma inevitably_impl (P Q : Watcher -> Prop) w : inevitably P w -> (forall w', P w' -> Q w') -> inevitably Q w.
Proof.
  intros H Hpq. induction H as [w H|w He Hs IH]; [by apply inevitably_now, Hpq|]. apply inevitably_later; eauto.
Qed.

(** Rest is inevitable, in a state that still has what every step keeps. *)
Lemma rest_inevitable (J : Watcher -> Prop) : (forall l w w', active l -> step l w = Some w' -> J w -> J w') ->
  forall w, J w -> inevitably (fun w' => at_rest w' /\ J w') w.
Proof.
  intros HJ w. remember (Z.to_nat (work w)) as n eqn:En. revert w En.
  induction (lt_wf n) as [n _ IH]. intros w -> Hw. destruct (progress w) as [Hr|Hl]; [by apply inevitably_now|].
  apply inevitably_later; [done|]. intros l w' Hal Hs. apply (IH (Z.to_nat (work w'))); [|done|by eapply HJ].
  pose proof (step_work _ _ _ Hal Hs). pose proof (work_nonneg w'). lia.
Qed.

Lemma active_undisturbed l : active l -> undisturbed l.
Proof. by destruct l. Qed.

Lemma active_disposed l w w' : active l -> step l w = Some w' -> disposed w = false -> disposed w' = false.
Proof.
  intros Hl Hs <-. apply (undisturbed_disposed [l] w w'); [|cbn; by rewrite Hs].
  constructor; [by apply active_undisturbed|done].
Qed.

(** A poll at rest brings the server up to date. *)
Lemma poll_delivers w : at_rest w -> disposed w = false ->
  inevitably (fun w' => at_rest w' /\ current w') (scheduleReload w).
Proof.
  intros (Hn & Hp & Hc & Hj) Hd.
  eapply inevitably_impl; [apply (rest_inevitable (fun v => covered v /\ job_fresh v /\ disposed v = false))|].
  - intros l v v' Hl Hs (Hv & Hf & Hdv). pose proof (active_disposed _ _ _ Hl Hs Hdv) as Hdv'.
    pose proof (active_undisturbed _ Hl) as Hu.
    split; [eapply step_covered; eauto using undisturbed_reported|]. split; [by eapply step_fresh|done].
  - split; [by apply schedule_covered|]. unfold scheduleReload, job_fresh. rewrite Hd, Hp. cbn. by rewrite Hj.
  - intros v (Hr & Hv & _). split; [done|]. by apply rest_covered.
Qed.

(** ** Properties *)

(** C39: A change of the users file reaches the server. From any state the watcher reaches by any changes, events, polls,
    timers and reloads in any order, whatever it missed so far: if the file then stays as it is, the watcher comes to
    rest by itself, however the timers and goroutines are scheduled, and after the next poll it comes to rest again with
    the table of the file (when the file loads). And without a poll it is already up to date when it comes to
    rest, provided the file-system watcher lost no event and no debounced callback ran into the tail of a reload that
    had already read the file. *)
Theorem changes_delivered w0 ls w :
  at_rest w0 -> current w0 -> run ls w0 = Some w -> disposed w = false ->
  inevitably (fun w1 => at_rest w1 /\
    exists w2, step Poll w1 = Some w2 /\ inevitably (fun w3 => at_rest w3 /\ current w3) w2) w /\
  (Forall reported ls -> no_drop ls w0 -> at_rest w -> current w).
Proof.
  intros Hr0 Hc0 Hrun Hd. split.
  - eapply inevitably_impl; [apply (rest_inevitable (fun v => disposed v = false)); [|exact Hd]|].
    { intros l v v' Hl Hs. by apply (active_disposed l). }
    intros v [Hr Hv]. split; [done|]. eexists. split; [reflexivity|]. by apply poll_delivers.
  - intros Hrep Hn Hr. apply rest_covered; [done|]. eapply run_covered; eauto. by apply rest_covered.
Qed.

(** The file of [sample_users], watched by a server that loaded it. *)
Definition watching (file : FileRead) : Watcher :=
  mkWatcher "users.json" file false false 0 Idle false (server_New Config.Defaults sample_users ∅ (utc 0)).

Definition other_users : UsersFile := {| NextTokenVersion := 5; Users := [] |}.
Definition other_file : FileRead := Contents (marshalUsersFile other_users).

(** One change, its event, one reload. *)
Definition one_reload : list label :=
  [Change other_file true; Notify; Fire; Swap; Attempt; Apply; Release].

Lemma changes_delivered_witness :
  exists w, run one_reload (watching (Contents (marshalUsersFile sample_users))) = Some w /\ at_rest w /\ current w.
Proof.
  eexists. split; [reflexivity|]. split; [by repeat split|].
  refine (proj2 (changes_delivered (watching (Contents (marshalUsersFile sample_users))) one_reload _ _ _ _ _) _ _ _);
    [by repeat split| |reflexivity|reflexivity|by repeat constructor| |by repeat split].
  - intros f Hf. vm_compute in Hf. by injection Hf as <-.
  - repeat (split; [reflexivity|]; intros ? [= <-]). exact I.
Defined.

(** A file written in pieces: it does not load in any attempt (at 0, 50 and 150 ms) and is complete at 200 ms. That
    event is merged into the timer of a write at 1 ms, which fires at 251 ms, in the last pause of the reload, so its
    callback finds the reload running and ends, and the complete file is not read. *)
Definition lost_change : list label :=
  [Change (Contents []) true; Notify; Fire; Swap; Attempt; Change (Contents []) true; Notify; Attempt; Attempt;
   Change other_file true; Notify; Fire; Swap; Apply; Release].

Example change_lost :
  exists w, run lost_change (watching (Contents (marshalUsersFile sample_users))) = Some w /\ at_rest w /\
    lookup_table (server w) = BuildLookup sample_users /\ Load (file w) = Ok other_users.
Proof. eexists. split; [vm_compute; reflexivity|]. split; [by repeat split|]. by split. Qed.

(** The poll delivers it: nothing else can happen than that. *)
Example poll_repairs :
  match run (lost_change ++ [Poll; Fire; Swap; Attempt; Apply; Release])
          (watching (Contents (marshalUsersFile sample_users))) with
  | Some w => bool_decide (lookup_table (server w) = BuildLookup other_users)
  | None => false
  end = true.
Proof. vm_compute. reflexivity. Qed.
