(* ===== verification/WatchEvents.v ===== *)
(** * How the users file watcher is started and fed (internal/hosting/watcher.go)

    [NewWatcher], [Start] and the two loops that feed [Watcher.scheduleReload]: the event loop
    over what fsnotify reports for the directory of the users file, and the polling ticker.
    What fsnotify and the file system answer are arguments; paths are those of a Unix system. *)
From S2P Require Import Prelude GoLib GoPath Config GoTime Users Models World Sync Hosting Watcher.

(** ** Construction and start *)

(** The path the watcher keeps; [cwd] is what [os.Getwd] answers. *)
Definition NewWatcher (cwd : result str str) (usersPath : str) : str :=
  match Abs cwd usersPath with Ok absolute => absolute | Err _ => usersPath end.

Record Started := {
  started : bool;
  stopped : bool;            (** [disposed] *)
  watching_dir : option str; (** the directory fsnotify watches *)
  loops : bool }.            (** the event loop and the poll loop run *)

(** A warning of the watcher, with its error. *)
Abbreviation warning := (str * str)%type.
Definition watcher_error (e : str) : warning := ("Users file watcher error encountered.", e).

(** [newErr], [addErr]: what [fsnotify.NewWatcher] and [Add] answer. *)
Definition Start (usersPath : str) (newErr addErr : option str) (s : Started) : Started * list warning :=
  if started s || stopped s then (s, [])
  else
    let failed e := ({| started := true; stopped := stopped s; watching_dir := watching_dir s; loops := loops s |},
                     [watcher_error e]) in
    match newErr with
    | Some e => failed e
    | None =>
        match addErr with
        | Some e => failed e
        | None => ({| started := true; stopped := stopped s; watching_dir := Some (Dir usersPath); loops := true |}, [])
        end
    end.

(** ** The loops *)

Definition matchesUsersPath (usersPath path : str) : bool := bool_decide (Clean path = usersPath).

(** What the [select] of the event loop receives. *)
Inductive signal := SigStop | SigEvent (name : str) | SigEventsClosed | SigError (e : str) | SigErrorsClosed.

(** One turn; [None] ends the loop. *)
Definition eventLoop (w : Watcher) (sig : signal) : option (Watcher * list warning) :=
  match sig with
  | SigStop | SigEventsClosed | SigErrorsClosed => None
  | SigEvent name => Some (if matchesUsersPath (usersPath w) name then scheduleReload w else w, [])
  | SigError e => Some (w, [watcher_error e])
  end.

(** One turn of the ticker's loop: [true] for a tick, [false] for the stop. *)
Definition pollLoop (w : Watcher) (tick : bool) : option Watcher := if tick then Some (scheduleReload w) else None.

(** ** Properties *)

(** fsnotify names a file of a watched directory by the directory, a slash and the name. *)
Definition event_name (directory name : str) : str := directory ++ "/" ++ name.

(** An event is for the users file exactly when it names that file: with a path that [NewWatcher] made absolute, in
    the directory that [Start] watches, an event about a file matches if and only if the file's name is the last
    element of the path. *)
Theorem event_matches_exactly cwd path dir s ws name :
  (forall wd, cwd = Ok wd -> IsAbs wd = true) -> is_ok (Abs cwd path) = true -> plain name ->
  Start (NewWatcher cwd path) None None {| started := false; stopped := false; watching_dir := None; loops := false |} = (s, ws) ->
  watching_dir s = Some dir ->
  matchesUsersPath (NewWatcher cwd path) (event_name dir name) = true <-> name = Base (NewWatcher cwd path).
Proof.
  intros Hwd Hok Hn Hs Hdir. cbn in Hs. injection Hs as <- _. cbn in Hdir. injection Hdir as <-.
  unfold NewWatcher. destruct (Abs cwd path) as [p|e] eqn:E; [|done]. clear Hok.
  assert (Hp : exists es, Forall plain es /\ p = abs_path es).
  { unfold Abs in E. destruct (IsAbs path) eqn:Ea.
    - injection E as <-. by apply Clean_normal.
    - apply rbind_Ok in E as (wd & Hc & [= <-]). apply Hwd, IsAbs_inv in Hc as [t ->].
      apply Clean_normal. exact (IsAbs_cons (t ++ "/" ++ path)). }
  destruct Hp as (es & Hes & ->). unfold matchesUsersPath, event_name. rewrite bool_decide_eq_true.
  destruct es as [|e es _] using rev_ind.
  - change (Dir (abs_path [])) with (abs_path []). change (Base (abs_path [])) with "/"%go.
    rewrite (Clean_elements [] name) by done. split.
    + intros H. apply abs_path_inj in H; [done|constructor; [done|constructor]|constructor].
    + intros ->. destruct Hn as (_ & _ & _ & Hn). set_solver.
  - apply Forall_app in Hes as [Hes He]. pose proof (List.Forall_inv He) as He'.
    rewrite Dir_snoc, Base_snoc, Clean_elements by done. split; [|by intros ->].
    intros H. apply abs_path_inj in H; [|apply Forall_app; split; [done|constructor; [done|constructor]]..].
    by apply app_inj_tail in H as [_ ->].
Qed.

Lemma event_matches_exactly_witness :
  let p := NewWatcher (Ok "/srv"%go) "data/users.json" in
  matchesUsersPath p (event_name "/srv/data" "users.json") = true /\
  ~ matchesUsersPath p (event_name "/srv/data" "users.json.tmp") = true.
Proof.
  intros p. set (s := {| started := true; stopped := false; watching_dir := Some (Dir p); loops := true |}).
  assert (H : forall name, plain name ->
    matchesUsersPath p (event_name (Dir p) name) = true <-> name = Base p).
  { intros name Hn. apply (event_matches_exactly (Ok "/srv"%go) "data/users.json" (Dir p) s []); try done.
    by intros wd [= <-]. }
  change "/srv/data"%go with (Dir p).
  split; [|intros Hm]; [apply H|apply H in Hm]; try reflexivity; try discriminate Hm.
  all: unfold plain; repeat split; try done; set_solver.
Defined.
