(* ===== verification/Startup.v ===== *)
(** * Start-up, stop and restart of the process (cmd/server/main.go, internal/hosting/run.go, NewStore and Stop of
    internal/state/store.go)

    From the command line to a serving process: the configuration is loaded and checked, the directories of the
    users and state files are probed, both files and the certificate are loaded. A serving process is the
    server's world with the state file behind it; it runs on sync requests, host events and flushes until it is
    stopped, and the next process starts from the file the last one left. *)
From S2P Require Import Prelude GoLib GoPath GoTime JsonScan Cert Config Protocol Logic Ring Bucket Users Store Models World.
From S2P Require Import Token Hub HubSpec Sync SyncSpec Hosting.

(** ** The machine the process starts on *)

Record Machine := {
  m_read : str -> FileRead;           (** [os.ReadFile] *)
  m_env : str -> str;                 (** [os.Getenv], empty when unset *)
  m_is_dir : str -> bool;             (** [os.Stat] succeeds and says directory *)
  m_probe : str -> option str }.      (** the error [os.CreateTemp] gives in a directory, if any *)

Definition exit_OK : Z := 0.
Definition exit_Error : Z := 1.

(** ** The verbs of the command line *)

Inductive Action := PrintVersion | RunCli (args : list str) | RunServer (args : list str).

Definition main (args : list str) : Action :=
  match args with
  | a :: rest =>
      if streq a "--version" || streq a "-v" then PrintVersion
      else if streq a "user" then RunCli args
      else if streq a "serve" then RunServer rest
      else RunServer args
  | [] => RunServer args
  end.

(** The configuration path of [Run]; [None] for [--config] without one. *)
Definition config_argument (args : list str) : option str :=
  match args with
  | a :: rest =>
      if streq a "--config" then match rest with [] => None | path :: _ => Some path end
      else Some "textcascade.toml"
  | [] => Some "textcascade.toml"
  end.

(** [net.JoinHostPort]. *)
Definition JoinHostPort (host port : str) : str :=
  match IndexByte host ":"%byte with
  | Some _ => "[" ++ host ++ "]:" ++ port
  | None => host ++ ":" ++ port
  end.

Definition server_address (c : RuntimeConfig) : str := JoinHostPort (Bind (Server c)) (FormatInt (Port (Server c))).

(** The status, content type and body of the health endpoint. *)
Definition handleHealth : Z * str * str := (200, "application/json"%go, jq "{`status`:`ok`}" ++ nl).

(** ** Loading *)

Definition no_directory (key directory : str) : str :=
  "Directory '" ++ directory ++ "' for " ++ key ++ " does not exist.".
Definition not_writable (key directory e : str) : str :=
  "Directory '" ++ directory ++ "' for " ++ key ++ " is not writable: " ++ e.

Definition ensureWritableDir (m : Machine) (key file : str) : result str unit :=
  let directory := Dir file in
  if negb (m_is_dir m directory) then Err (no_directory key directory)
  else match m_probe m directory with
       | Some e => Err (not_writable key directory e)
       | None => Ok tt
       end.

Definition of_result {A} (r : result str A) : toml A := ([], r).

Section Process.
Context (parse : str -> result str TomlTable).
Context (Unmarshal : str -> result str (list stateEntry)) `{!StateDecoder Unmarshal}.
Context {CertT KeyT : Type} (lib : Libraries CertT KeyT).

(** [config.LoadTOML] with its read of the file. *)
Definition load_config (m : Machine) (configPath : str) : toml RuntimeConfig :=
  match m_read m configPath with
  | Absent => LoadTOML parse None Defaults
  | Unreadable e => terr e
  | Contents raw => LoadTOML parse (Some raw) Defaults
  end.

(** The versions a new store starts with. *)
Definition NewStore (m : Machine) (path : str) : result str Versions := load Unmarshal path (m_read m path).

Definition loadRuntime (m : Machine) (configPath : str) : toml (RuntimeConfig * Users.UsersFile * Versions) :=
  let! config := load_config m configPath in
  of_result (
    let? config := ApplyEnv (m_env m) config in
    let? _ := match Config.Validate config with Some e => Err e | None => Ok tt end in
    let? _ := ensureWritableDir m "files.users_file" (Config.UsersFile (Files config)) in
    let? _ := ensureWritableDir m "files.state_file" (StateFile (Files config)) in
    let? usersFile := Users.Load (m_read m (Config.UsersFile (Files config))) in
    let? store := NewStore m (StateFile (Files config)) in
    Ok (config, usersFile, store)).

(** ** The serving process *)

Record Process := mkProcess {
  p_world : World;
  p_file : FileRead;               (** the state file *)
  p_admitted : list str;           (** the users of the upgraded requests *)
  p_stopped : bool }.              (** the store was stopped *)

Definition set_world (w : World) (p : Process) : Process :=
  mkProcess w (p_file p) (p_admitted p) (p_stopped p).

(** [Run] up to the point where it serves: the lines on standard error, and the exit code of a failed start or
    the process. *)
Definition Run_start (m : Machine) (args : list str) (now : Time) : list str * result Z Process :=
  match config_argument args with
  | None => (["Configuration error: --config requires a path."%go], Err exit_Error)
  | Some configPath =>
      let '(warnings, loaded) := loadRuntime m configPath in
      match loaded with
      | Err e => (warnings ++ ["Configuration error: " ++ e], Err exit_Error)
      | Ok (config, usersFile, store) =>
          match LoadCertificate lib (CertificatePath (Server config)) with
          | Err e => (warnings ++ ["Configuration error: " ++ e], Err exit_Error)
          | Ok _ => (warnings, Ok (mkProcess (server_New config usersFile store now)
                                     (m_read m (StateFile (Files config))) [] false))
          end
      end
  end.

(** What the file holds once something was written over it, or nothing. *)
Definition file_after (wrote : panics (option str)) (file : FileRead) : FileRead :=
  match wrote with Ok (Some text) => Contents text | _ => file end.

(** An operation that may write the state file. *)
Definition with_file (m : M (option str)) (p : Process) : Process :=
  let '(wrote, w) := m (p_world p) in
  mkProcess w (file_after wrote (p_file p)) (p_admitted p) (p_stopped p).

(** [Store.Flush]; [written]: did [writeAtomic] succeed? The store has no logger. *)
Definition flush (written : bool) (p : Process) : Process := with_file (store_flush written) p.

(** [Store.Stop]: the flush loop is waited for, so a last flush runs alone. *)
Definition Stop (written : bool) (p : Process) : Process :=
  if p_stopped p then p
  else flush written (mkProcess (p_world p) (p_file p) (p_admitted p) true).

Inductive ProcessEvent :=
| PSync (now : Time) (header : str) (isUpgrade : bool) (offered : list str) (upgradeOk : bool)
| PHost (e : HostEvent)
| PFlush (written : bool)          (** the flush loop of the store *)
| PClose (written : bool).         (** [Shutdown] after its waits *)

Definition process_exec (e : ProcessEvent) (p : Process) : Process :=
  match e with
  | PSync now header isUpgrade offered upgradeOk =>
      let w := p_world p in
      match HandleSync (cfg w) (lookup_table w) now header isUpgrade offered upgradeOk with
      | Upgraded payload => mkProcess w (p_file p) (Subject payload :: p_admitted p) (p_stopped p)
      | _ => p
      end
  | PHost e => set_world (host_exec e (p_world p)).2 p
  | PFlush written => flush written p
  | PClose written => with_file (Shutdown_close written) p
  end.

(** A connection runs for an upgraded request and gets a new object; a reload takes what the users file holds;
    the flush loop ends, and the shut-down is over, when the store is stopped. *)
Definition process_ok (p : Process) (e : ProcessEvent) : Prop :=
  match e with
  | PHost (HRun _ fresh subject _ _ _ _ _) =>
      subject ∈ p_admitted p /\ forall h, fresh ∉ connections (hubs (p_world p) h)
  | PHost (HReload _ loads) => Forall (fun r => exists file, r = Users.Load file) loads
  | PFlush _ | PClose _ => p_stopped p = false
  | _ => True
  end.

Inductive runs (p0 : Process) : Process -> Prop :=
| runs_start : runs p0 p0
| runs_step p e : runs p0 p -> process_ok p e -> runs p0 (process_exec e p).

(** The events of a run, for concrete runs and for the parts of an orderly end. *)
Definition process_run (es : list ProcessEvent) (p : Process) : Process := foldl (fun p e => process_exec e p) p es.
Fixpoint all_ok (p : Process) (es : list ProcessEvent) : Prop :=
  match es with [] => True | e :: es' => process_ok p e /\ all_ok (process_exec e p) es' end.

(** How [Run] ends: by a signal, or by the server's own error ([None]: the server was closed). *)
Inductive Ending := Signal | ServeError (e : option str).

(** After a signal the scanner is stopped; then [Shutdown] sends the byes, waits, cancels and flushes, and the store is
    stopped. The other goroutines go on: [drain] is what they do during the waits, [late] what they do
    between the shut-down and the stop. [closed] and [written] tell whether the two writes succeed. *)
Definition Run_end (cause : Ending) (drain late : list ProcessEvent) (closed written : bool) (p : Process)
  : list str * Z * Process :=
  match cause with
  | Signal =>
      let p1 := process_run drain (process_exec (PHost HBye) p) in
      let p2 := process_run late (process_exec (PClose closed) p1) in
      ([], exit_OK, Stop written p2)
  | ServeError e => (match e with Some e => [e] | None => [] end, exit_Error, Stop written p)
  end.

(** ** What a start establishes and a run keeps *)

(** The state file loads, to versions memory is not behind, and to those of memory while nothing is dirty. *)
Definition durable (w : World) (file : FileRead) : Prop :=
  forall path, exists saved, load Unmarshal path file = Ok saved /\ below saved (versions w) /\
    (isDirty w = false -> saved = versions w).

Record process_inv (p : Process) : Prop := {
  pi_world : world_ok (p_world p);
  pi_config : Config.validated (cfg (p_world p));
  pi_admitted : Forall good_name (p_admitted p);
  pi_durable : durable (p_world p) (p_file p) }.

(** The outcome of [load] depends on the path only in its messages. *)
Lemma load_path path path' file saved : load Unmarshal path file = Ok saved -> load Unmarshal path' file = Ok saved.
Proof.
  destruct file as [|e|raw]; cbn [load]; [done|done|]. destruct (Unmarshal raw) as [es|]; [|done].
  generalize (∅ : Versions). induction es as [|e es IH]; intros acc; cbn [load_entries]; [done|].
  do 2 (case_match; [done|]). apply IH.
Qed.

Lemma loadRuntime_Ok m path warnings c f loaded : loadRuntime m path = (warnings, Ok (c, f, loaded)) ->
  Config.validated c /\ ints32 c /\ Users.Load (m_read m (Config.UsersFile (Files c))) = Ok f /\
  NewStore m (Config.StateFile (Files c)) = Ok loaded.
Proof.
  unfold loadRuntime, tbind, of_result. destruct (load_config m path) as [ws [c0|e]] eqn:El; [|done].
  assert (H0 : ints32 c0).
  { unfold load_config in El. destruct (m_read m path); [| done |];
      (eapply LoadTOML_ints32; by rewrite El). }
  intros [= _ E]. apply rbind_Ok in E as (c1 & He & E).
  destruct (Config.Validate c1) eqn:Ev; [done|]. cbn [rbind] in E. apply Validate_validated in Ev.
  apply rbind_Ok in E as (_ & _ & E). apply rbind_Ok in E as (_ & _ & E). apply rbind_Ok in E as (f1 & Hf & E).
  apply rbind_Ok in E as (l1 & Hl & [= <- <- <-]). split_and!; try done. by eapply ApplyEnv_ints32.
Qed.

Lemma Run_start_Ok m args now lines p : Run_start m args now = (lines, Ok p) ->
  exists c f loaded, p = mkProcess (server_New c f loaded now) (m_read m (Config.StateFile (Files c))) [] false /\
    Config.validated c /\ ints32 c /\ Users.Load (m_read m (Config.UsersFile (Files c))) = Ok f /\
    NewStore m (Config.StateFile (Files c)) = Ok loaded.
Proof.
  unfold Run_start. destruct (config_argument args) as [path|]; [|done].
  destruct (loadRuntime m path) as [ws [[[c f] loaded]|e]] eqn:E; [|done].
  destruct (LoadCertificate _ _); [|done]. intros [= _ <-]. apply loadRuntime_Ok in E. by exists c, f, loaded.
Qed.

Lemma Run_start_inv m args now lines p : Run_start m args now = (lines, Ok p) -> process_inv p.
Proof.
  intros (c & f & loaded & -> & Hc & _ & Hf & Hl)%Run_start_Ok. pose proof (load_storable _ _ _ _ Hl) as [Hs Hr].
  split; simpl; [|done|constructor|].
  - apply server_New_ok; try done. by eapply Load_good_users.
  - intros path. exists loaded. split; [by eapply load_path|]. split; [reflexivity|done].
Qed.

(** A request is upgraded for a user of the table. *)
Lemma HandleSync_subject c lookup now header isUpgrade offered upgradeOk payload :
  HandleSync c lookup now header isUpgrade offered upgradeOk = Upgraded payload -> is_Some (lookup !! Subject payload).
Proof.
  unfold HandleSync. destruct (negb _); [done|]. destruct (NewTokenService _) as [secret|]; [|done].
  destruct (TryVerifyToken _ _ _ _) as [q|] eqn:E; [|done].
  repeat (case_match; [done|]). destruct upgradeOk; [|done]. intros [= <-].
  apply verify_spec in E as (_ & ? & _ & _ & _ & _ & _ & user & Hu & _). by exists user.
Qed.

Lemma durable_grows w w' file : durable w file -> grows w w' -> durable w' file.
Proof.
  intros Hd Hg path. destruct (Hd path) as (saved & Hl & Hb & Hc). exists saved. split; [done|].
  split; [by etrans; [exact Hb|apply Hg]|]. intros Hd'. destruct (g_dirty _ _ Hg) as [?|[He ->]]; [congruence|].
  apply Hc. congruence.
Qed.

Lemma world_ok_storable w : world_ok w -> storable64 (versions w).
Proof. intros Hw. split; apply Hw. Qed.

(** A flush leaves the file with the versions of memory, or as it was. *)
Lemma flush_durable b w file : world_ok w -> durable w file ->
  durable (store_flush b w).2 (file_after (store_flush b w).1 file).
Proof.
  intros Hw Hd. unfold store_flush. destruct (isDirty w) eqn:Ed; cbn [negb]; [|done].
  destruct b; cbn [fst snd file_after]; intros path.
  - exists (versions w). split; [exact (load_state_text Unmarshal path _ (world_ok_storable _ Hw))|].
    split; [reflexivity|done].
  - destruct (Hd path) as (saved & Hl & Hb & _). by exists saved.
Qed.

Lemma flush_inv b p : process_inv p -> process_inv (flush b p).
Proof.
  intros [Hw Hc Ha Hd]. unfold flush, with_file. pose proof (flush_durable b _ _ Hw Hd) as Hd'.
  destruct (store_flush_ok b (p_world p) Hw) as [Hw' Hg]. destruct (store_flush b (p_world p)) as [r w'].
  split; simpl in *; try done. by rewrite (a_cfg _ _ Hg).
Qed.

Lemma host_event_process_ok p e : process_inv p -> process_ok p (PHost e) -> host_event_ok (p_world p) e.
Proof.
  intros Hp He. destruct e; try done; cbn [process_ok host_event_ok] in *.
  - destruct He as [Hs Hf]. split; [|done]. pose proof (pi_admitted p Hp) as Ha.
    rewrite list.Forall_forall in Ha. by apply Ha.
  - intros f Hf. rewrite list.Forall_forall in He. destruct (He _ Hf) as [file Hl]. by eapply Load_good_users.
Qed.

Lemma close_inv b p : process_inv p -> process_inv (with_file (Shutdown_close b) p).
Proof.
  intros [Hw Hc Ha Hd]. destruct (Shutdown_close_eq b (p_world p)) as (w1 & H).
  destruct (H Hw) as (Hw1 & Hg & Heq). pose proof (durable_grows _ _ _ Hd Hg) as Hd1.
  assert (Hp1 : process_inv (mkProcess w1 (p_file p) (p_admitted p) (p_stopped p))).
  { split; simpl; try done. by rewrite (g_cfg _ _ Hg). }
  unfold with_file. destruct Heq as [-> | (e & ->)]; [|exact Hp1]. exact (flush_inv b _ Hp1).
Qed.

Lemma process_exec_inv p e : process_inv p -> process_ok p e -> process_inv (process_exec e p).
Proof.
  intros Hp He. destruct e as [now header isUp offered upOk|e|b|b]; cbn [process_exec];
    [| |by apply flush_inv|by apply close_inv].
  - destruct (HandleSync _ _ _ _ _ _ _) as [| |payload] eqn:E; try done. destruct Hp as [Hw Hc Ha Hd].
    split; simpl; try done. constructor; [|done]. apply HandleSync_subject in E as [u Hu].
    by apply (w_users _ Hw) in Hu.
  - pose proof (host_event_process_ok p e Hp He) as Hok. destruct Hp as [Hw Hc Ha Hd].
    destruct (host_exec_safe e (p_world p) Hok Hw) as [Hw' Hg].
    split; simpl; [done|by rewrite (g_cfg _ _ Hg)|done|by eapply durable_grows].
Qed.

Lemma run_reaches es : forall p, all_ok p es -> runs p (process_run es p).
Proof.
  induction es as [|e es IH] using rev_ind; intros p He; [apply runs_start|].
  assert (Hsplit : forall es' p', all_ok p' (es' ++ [e]) -> all_ok p' es' /\ process_ok (process_run es' p') e).
  { clear. induction es' as [|e' es' IH]; intros p' H; [by destruct H|]. destruct H as [H1 H2].
    destruct (IH _ H2). by split. }
  destruct (Hsplit _ _ He) as [H1 H2]. unfold process_run. rewrite foldl_app. apply runs_step; [by apply IH|done].
Qed.

Lemma runs_inv p p' : runs p p' -> process_inv p -> process_inv p'.
Proof. induction 1; eauto using process_exec_inv. Qed.

Lemma Stop_inv b p : process_inv p -> process_inv (Stop b p).
Proof. intros Hp. unfold Stop. destruct (p_stopped p); [done|]. apply flush_inv. by destruct Hp. Qed.

(** A stop whose write succeeds leaves the file with the versions of memory. *)
Lemma Stop_saved p path : process_inv p -> p_stopped p = false ->
  load Unmarshal path (p_file (Stop true p)) = Ok (versions (p_world (Stop true p))).
Proof.
  intros [Hw _ _ Hd] Hs. unfold Stop, flush, with_file, store_flush. rewrite Hs. cbn [p_world].
  destruct (isDirty (p_world p)) eqn:E; cbn [negb p_file p_world file_after].
  - exact (load_state_text Unmarshal path _ (world_ok_storable _ Hw)).
  - destruct (Hd path) as (saved & Hl & _ & Hc). by rewrite Hl, Hc.
Qed.

Lemma exec_stopped e p : p_stopped (process_exec e p) = p_stopped p.
Proof. destruct e as [| |b|b]; simpl; [by case_match|done|..]; unfold flush, with_file; by case_match. Qed.

Lemma runs_stopped p p' : runs p p' -> p_stopped p' = p_stopped p.
Proof. induction 1 as [|p' e Hr IH He]; [done|]. by rewrite exec_stopped. Qed.

Lemma Stop_stopped b p : p_stopped (Stop b p) = true.
Proof.
  unfold Stop. destruct (p_stopped p) eqn:E; [done|]. unfold flush, with_file. by destruct (store_flush _ _).
Qed.

(** Once the store is stopped nothing writes its file. *)
Lemma stopped_file p p' : runs p p' -> p_stopped p = true -> p_file p' = p_file p.
Proof.
  intros Hr Hs. induction Hr as [|p' e Hr IH He]; [done|]. rewrite <- IH. pose proof (runs_stopped _ _ Hr) as Hs'.
  destruct e; simpl in *; [by case_match|done|congruence..].
Qed.

(** A configuration a process starts with lets it make a hub for any user. *)
Lemma New_total name c start v : Config.validated c -> ints32 c ->
  exists hub, New name c start v = Ok hub /\ version hub = v.
Proof.
  intros Hc Hi. destruct (v_queues _ Hc) as (_ & Hs & _). destruct (v_rate _ Hc) as (_ & _ & _ & Hb & Ht).
  assert (H32 : int32 (ClipTokensPerSecond (RateLimit c))).
  { unfold ints32 in Hi. rewrite list.Forall_forall in Hi. apply Hi. unfold ints. set_solver. }
  unfold int32 in H32. destruct (NewBucket_total _ (ClipTokensPerSecond (RateLimit c)) start Hb) as [b Eb]; [lia|].
  unfold New, NewRing. rewrite Eb, (proj2 (Z.leb_gt _ _) Hs). by eexists.
Qed.

(** The first hub of a user on a new process starts at the stored version. *)
Lemma first_hub c f loaded now u : Config.validated c -> ints32 c ->
  exists w, GetOrCreateHub u (server_New c f loaded now) = (Ok (0%nat, true), w) /\
    version (hubs w 0%nat) = GetVersion loaded u.
Proof.
  intros Hc Hi. destruct (New_total u c now (GetVersion loaded u) Hc Hi) as (hub & Hn & Hv).
  assert (Hl : userLoopRunning hub = false).
  { unfold New in Hn. apply rbind_Ok in Hn as (b & _ & Hn). by apply rbind_Ok in Hn as (r & _ & [= <-]). }
  unfold GetOrCreateHub, GetOrAdd, StartIfIdle, get_hub, modify_hub, modify, lift, gets, mbind, M_bind, server_New.
  cbn [registry cfg server_start versions]. rewrite lookup_empty, Hn. simpl. rewrite insert_eq, Hl. simpl.
  eexists. split; [reflexivity|]. simpl. by rewrite insert_eq.
Qed.

(** ** Properties *)

(** C26: A process that starts is sound and stays durable: in every state it reaches, by any sync requests, host events
    and flushes whose writes succeed or fail, each run without interruption and with the clock moving at will in
    between, the configuration is a validated one, the server's invariant holds, and the
    state file loads: to versions that memory is not behind, and to exactly those of memory when the dirty flag is clear.
    Nothing else is asked of the files than that they loaded: every user the server knows came through them. *)
Theorem startup_sound m args now lines p0 p :
  Run_start m args now = (lines, Ok p0) -> runs p0 p ->
  Config.validated (cfg (p_world p)) /\ world_ok (p_world p) /\
  forall path, exists saved, load Unmarshal path (p_file p) = Ok saved /\ below saved (versions (p_world p)) /\
    (isDirty (p_world p) = false -> saved = versions (p_world p)).
Proof. intros Hs%Run_start_inv Hr. by destruct (runs_inv _ _ Hr Hs). Qed.

(** C25: Versions survive an orderly restart, up to the stop of the store: after a signal the byes are sent, the
    connections cancelled and the store flushed and stopped, while the other goroutines go on with whatever they
    do in between. If the last write succeeds, then whatever still runs afterwards, the file loads as exactly the
    versions that were in memory at the stop, and whatever process starts from it next, under whatever
    configuration and users, gives the first hub of every user a version that is at least that of every hub the user
    had at the stop. (A clip that a user loop applies after the stop is not covered: [late_save_lost].) *)
Theorem restart_keeps_versions m args now lines p0 p drain late closed p' p'' m' args' now' lines' q :
  Run_start m args now = (lines, Ok p0) -> runs p0 p -> p_stopped p = false ->
  let p1 := process_exec (PHost HBye) p in
  let p2 := process_exec (PClose closed) (process_run drain p1) in
  all_ok p1 drain -> all_ok p2 late ->
  Run_end Signal drain late closed true p = ([], exit_OK, p') -> runs p' p'' ->
  Run_start m' args' now' = (lines', Ok q) ->
  m_read m' (Config.StateFile (Files (cfg (p_world q)))) = p_file p'' ->
  versions (p_world q) = versions (p_world p') /\
  forall h, exists w, GetOrCreateHub (h_username (hubs (p_world p') h)) (p_world q) = (Ok (0%nat, true), w) /\
    version (hubs (p_world p') h) <= version (hubs w 0%nat).
Proof.
  intros Hs%Run_start_inv Hr Hstop p1 p2 Hdrain Hlate [= <-] Hafter Hq Hfile.
  fold p1 in Hafter |- *. fold p2 in Hafter |- *. set (p3 := process_run late p2) in *.
  pose proof (process_exec_inv p (PHost HBye) (runs_inv _ _ Hr Hs) I) as Hp1. fold p1 in Hp1.
  pose proof (run_reaches drain p1 Hdrain) as R1. pose proof (runs_inv _ _ R1 Hp1) as Hp1'.
  assert (Hs1 : p_stopped (process_run drain p1) = false) by (rewrite (runs_stopped _ _ R1); exact Hstop).
  pose proof (process_exec_inv _ (PClose closed) Hp1' Hs1) as Hp2. fold p2 in Hp2.
  pose proof (run_reaches late p2 Hlate) as R2. pose proof (runs_inv _ _ R2 Hp2) as Hp3. fold p3 in R2, Hp3.
  assert (Hs3 : p_stopped p3 = false) by (rewrite (runs_stopped _ _ R2); unfold p2; by rewrite exec_stopped).
  pose proof (Stop_inv true p3 Hp3) as Hp'. rewrite (stopped_file _ _ Hafter (Stop_stopped _ _)) in Hfile.
  apply Run_start_Ok in Hq as (c & f & loaded & -> & Hc & Hi & _ & Hl).
  unfold NewStore in Hl. simpl in Hfile. rewrite Hfile in Hl. rewrite (Stop_saved p3) in Hl by done.
  injection Hl as Hl. split; [done|]. intros h.
  destruct (first_hub c f loaded now' (h_username (hubs (p_world (Stop true p3)) h)))
    as (w & E & Hv); [done|done|]. exists w. split; [exact E|]. rewrite Hv, <- Hl.
  apply (ok_stored _ _ _ (w_hubs _ (pi_world _ Hp') h)).
Qed.
End Process.

(** ** A machine that starts *)

Definition sample_machine (state : FileRead) : Machine :=
  {| m_read := fun path => if streq path "state.json" then state else Absent;
     m_env := fun name => if streq name "TEXTCASCADE_CERTIFICATE_PATH" then "s.pem"
                          else if streq name "TEXTCASCADE_STATE_FILE" then "state.json"
                          else if streq name (TokenSecretEnv (Auth Defaults)) then replicate 32 "k"%byte else [];
     m_is_dir := fun _ => true; m_probe := fun _ => None |}.

Definition sample_state : FileRead := Contents (state_text (flush_entries {[ ("ann" : str) := 7 ]})).

Definition sample_start (state : FileRead) : list str * result Z Process :=
  Run_start (fun _ => Err "no file") strict_Unmarshal toy (sample_machine state) ["--config"%go; "c.toml"%go] (utc 0).

Definition sample_process (state : FileRead) : Process :=
  match (sample_start state).2 with
  | Ok p => p
  | Err _ => mkProcess sample_world Absent [] false
  end.

Lemma sample_starts : sample_start sample_state = ([], Ok (sample_process sample_state)).
Proof. vm_compute. reflexivity. Qed.

Lemma startup_sound_witness :
  let p := process_exec (PFlush true) (sample_process sample_state) in
  world_ok (p_world p) /\ exists saved, load strict_Unmarshal [] (p_file p) = Ok saved /\ saved = versions (p_world p).
Proof.
  set (p := process_exec _ _).
  destruct (startup_sound (fun _ => Err "no file"%go) strict_Unmarshal toy (sample_machine sample_state)
    ["--config"%go; "c.toml"%go] (utc 0) [] (sample_process sample_state) p) as (_ & Hw & Hd).
  - exact sample_starts.
  - apply runs_step; [apply runs_start|vm_compute; reflexivity].
  - split; [exact Hw|]. destruct (Hd []) as (saved & Hl & _ & Hc). exists saved. split; [exact Hl|].
    apply Hc. vm_compute. reflexivity.
Defined.

(** What still runs while the sample process stops: the clock and the flush loop. *)
Definition sample_drain : list ProcessEvent := [PHost (HClock (utc (2 * Second))); PFlush true].
Definition sample_late : list ProcessEvent := [PFlush false].

Definition sample_stopped : Process :=
  (Run_end Signal sample_drain sample_late false true (sample_process sample_state)).2.
Definition sample_ended : Process := process_exec (PHost (HClock (utc (3 * Second)))) sample_stopped.

Lemma sample_restarts : sample_start (p_file sample_ended) = ([], Ok (sample_process (p_file sample_ended))).
Proof. vm_compute. reflexivity. Qed.

Lemma restart_keeps_versions_witness :
  versions (p_world (sample_process (p_file sample_ended))) = versions (p_world sample_stopped) /\
  GetVersion (versions (p_world sample_stopped)) "ann" = 7.
Proof.
  split; [|vm_compute; reflexivity].
  refine (proj1 (restart_keeps_versions (fun _ => Err "no file"%go) strict_Unmarshal toy (sample_machine sample_state)
    ["--config"%go; "c.toml"%go] (utc 0) [] (sample_process sample_state) (sample_process sample_state)
    sample_drain sample_late false sample_stopped sample_ended
    (sample_machine (p_file sample_ended)) ["--config"%go; "c.toml"%go] (utc 0) []
    (sample_process (p_file sample_ended)) _ _ _ _ _ _ _ _ _)).
  - exact sample_starts.
  - apply runs_start.
  - vm_compute. reflexivity.
  - repeat split; vm_compute; reflexivity.
  - repeat split; vm_compute; reflexivity.
  - reflexivity.
  - apply runs_step; [apply runs_start|exact I].
  - exact sample_restarts.
  - vm_compute. reflexivity.
Defined.

(** The user loops are not waited for: one that still holds a clip when the store is stopped moves its hub past the
    version that was written, and the file never learns of it. *)
Definition late_run : Process :=
  let w := set_hubs (fun _ => set_jobs [ClipJob 1 sample_clip] (set_running true sample_hub)) sample_world in
  process_exec (PHost (HLoop 3 0 (utc 0))) (Stop true (mkProcess (set_store (versions w) true w) Absent [] false)).

Example late_save_lost :
  (match load strict_Unmarshal [] (p_file late_run) with Ok m => GetVersion m "ann" | Err _ => 0 end,
   GetVersion (versions (p_world late_run)) "ann", p_stopped late_run) = (4, 5, true).
Proof. vm_compute. reflexivity. Qed.
